(** * Vehicle Network Timing Analyzer: the metrics core

    A shallow embedding of [src/vnta/metrics.py]
    ([estimate_missing_bursts] and [compute_metrics]) and the properties
    of its specification.

    Conventions of the embedding:
    - an [int64] cell is a [Z]; the wrap-around of numpy's int64
      subtraction is written out ([sub64]);
    - a [float64] cell is a primitive binary64 float; [nan] is pandas'
      missing value, so [dropna] and the comparisons behave as IEEE 754
      makes them behave;
    - a raised exception is the [Raise] result of the monad [M];
    - a [DataFrame] is an object of a heap, reached through a reference:
      [copy], [sort_values] and [reset_index] allocate, column assignment
      writes in place. *)

From Stdlib Require Import String Ascii DecimalString DecimalPos.
From Stdlib Require Import ZArith List Bool Lia Floats Permutation Sorted.
Import ListNotations.

Local Open Scope list_scope.
Local Open Scope Z_scope.

(** ** Machine integers *)

Module Int64.

Definition min_int : Z := - 2 ^ 63.
Definition max_int : Z := 2 ^ 63 - 1.

Definition in_range (z : Z) : Prop := min_int <= z <= max_int.

(** Two's complement reduction of a mathematical integer. *)
Definition wrap (z : Z) : Z := (z + 2 ^ 63) mod 2 ^ 64 - 2 ^ 63.

(** numpy's [int64 - int64]. *)
Definition sub64 (a b : Z) : Z := wrap (a - b).

End Int64.

(** ** Binary64 *)

Module F64.

Local Open Scope float_scope.

(** [float(z)] and numpy's [astype("float64")] on an integer: the nearest
    binary64, ties to even. *)
Definition of_Z (z : Z) : float :=
  SF2Prim (binary_normalize prec emax z 0%Z false).

(** [pd.isna] on a float cell. *)
Definition isna (x : float) : bool := negb (x =? x).

(** [x > y] of Python and numpy. *)
Definition gtb (x y : float) : bool := y <? x.

(** The exact value of a finite float truncated towards zero: the value
    of Python's [int(x)], which raises on [nan] and on an infinity. *)
Definition trunc (x : float) : option Z :=
  match Prim2SF x with
  | S754_zero _ => Some 0%Z
  | S754_finite s m e =>
      let a := match e with
               | Zneg p => (Zpos m / 2 ^ Zpos p)%Z
               | _ => (Zpos m * 2 ^ e)%Z
               end in
      Some (if s then (- a)%Z else a)
  | S754_infinity _ | S754_nan => None
  end.

(** Python's [a / b] on two integers: the binary64 nearest to the exact
    quotient (the caller has checked that [b] is not zero). *)
Definition Z2SF (z : Z) : spec_float :=
  match z with
  | Z0 => S754_zero false
  | Zpos p => S754_finite false p 0
  | Zneg p => S754_finite true p 0
  end.

Definition int_true_div (a b : Z) : float :=
  SF2Prim (SFdiv prec emax (Z2SF a) (Z2SF b)).

End F64.

(** ** Python's string conversions *)

Module Fmt.

Local Open Scope string_scope.
Local Open Scope Z_scope.

(** [str(z)] on an integer. *)
Definition str (z : Z) : string := NilZero.string_of_int (Z.to_int z).

Definition digits (z : Z) : string :=
  NilZero.string_of_uint (N.to_uint (Z.to_N z)).

Fixpoint zeros (n : nat) : string :=
  match n with O => "" | S k => String "0" (zeros k) end.

Definition pad_left (width : nat) (s : string) : string :=
  zeros (width - String.length s) ++ s.

Fixpoint drop_zeros (l : list ascii) : list ascii :=
  match l with
  | "0"%char :: l' => drop_zeros l'
  | _ => l
  end.

Definition strip_trailing_zeros (s : string) : string :=
  string_of_list_ascii (rev (drop_zeros (rev (list_ascii_of_string s)))).

(** The integer nearest to [num / den], ties to even ([0 <= num],
    [0 < den]). *)
Definition round_half_even (num den : Z) : Z :=
  let q := num / den in
  match 2 * (num mod den) ?= den with
  | Lt => q
  | Gt => q + 1
  | Eq => if Z.even q then q else q + 1
  end.

(** The magnitude [m * 2 ^ e] of a finite float as a fraction. *)
Definition magnitude (m : positive) (e : Z) : Z * Z :=
  match e with
  | Zneg p => (Zpos m, 2 ^ Zpos p)
  | _ => (Zpos m * 2 ^ e, 1)
  end.

Definition sign_str (s : bool) : string := if s then "-" else "".

(** The digits of [num / den] rounded to [d] decimals. *)
Definition fixed_digits (d : nat) (num den : Z) : string :=
  let scale := 10 ^ Z.of_nat d in
  let n := round_half_even (num * scale) den in
  digits (n / scale) ++
  match d with
  | O => ""
  | _ => "." ++ pad_left d (digits (n mod scale))
  end.

(** [f"{x:.df}"]. *)
Definition fixed (d : nat) (x : float) : string :=
  match Prim2SF x with
  | S754_nan => "nan"
  | S754_infinity s => sign_str s ++ "inf"
  | S754_zero s => sign_str s ++ fixed_digits d 0 1
  | S754_finite s m e =>
      let (num, den) := magnitude m e in
      sign_str s ++ fixed_digits d num den
  end.

(** The decimal exponent [X] of a positive fraction:
    [10 ^ X <= num / den < 10 ^ (X + 1)]. *)
Fixpoint exp10_down (fuel : nat) (num den k : Z) : Z :=
  match fuel with
  | O => k
  | S f => if den * 10 ^ (k + 1) <=? num
           then exp10_down f num den (k + 1) else k
  end.

Fixpoint exp10_up (fuel : nat) (num den k : Z) : Z :=
  match fuel with
  | O => k
  | S f => if den <=? num * 10 ^ k then k
           else exp10_up f num den (k + 1)
  end.

Definition exp10 (num den : Z) : Z :=
  if den <=? num then exp10_down 400 num den 0
  else - exp10_up 400 num den 1.

(** [num / den] rounded to six significant digits: the digits as an
    integer of [[10^5, 10^6)] and the decimal exponent. *)
Definition six_digits (num den : Z) : Z * Z :=
  let x := exp10 num den in
  let n := if 5 <=? x then round_half_even num (den * 10 ^ (x - 5))
           else round_half_even (num * 10 ^ (5 - x)) den in
  if n =? 10 ^ 6 then (10 ^ 5, x + 1) else (n, x).

Definition with_point (int_part frac_part : string) : string :=
  match strip_trailing_zeros frac_part with
  | "" => int_part
  | f => int_part ++ "." ++ f
  end.

Definition general_digits (num den : Z) : string :=
  let (n, x) := six_digits num den in
  if (-4 <=? x) && (x <? 6) then
    let scale := 10 ^ (5 - x) in
    with_point (digits (n / scale))
               (pad_left (Z.to_nat (5 - x)) (digits (n mod scale)))
  else
    with_point (digits (n / 10 ^ 5)) (pad_left 5 (digits (n mod 10 ^ 5)))
    ++ "e" ++ (if x <? 0 then "-" else "+") ++ pad_left 2 (digits (Z.abs x)).

(** [f"{x:g}"]. *)
Definition general (x : float) : string :=
  match Prim2SF x with
  | S754_nan => "nan"
  | S754_infinity s => sign_str s ++ "inf"
  | S754_zero s => sign_str s ++ "0"
  | S754_finite s m e =>
      let (num, den) := magnitude m e in
      sign_str s ++ general_digits num den
  end.

End Fmt.

(** ** Exceptions and the heap of tables *)

Inductive exn : Type :=
| ValueError      (* [int(float("nan"))] *)
| OverflowError   (* [int(float("inf"))] *)
| KeyError        (* a label that the index does not hold *)
| Dangling.       (* a reference to no object: no Python program has one *)

Inductive result (A : Type) : Type :=
| Ok (a : A)
| Raise (e : exn).

Arguments Ok {A} a.
Arguments Raise {A} e.

Definition bindR {A B : Type} (r : result A) (k : A -> result B) : result B :=
  match r with
  | Ok a => k a
  | Raise e => Raise e
  end.

Notation "x <~ r ;; k" := (bindR r (fun x => k))
  (at level 61, r at next level, right associativity).

(** A row of a table. [stream_id] is [None] where the table has no such
    cell. The cells [iat_ms] and [abs_dev_ms] are the derived columns:
    [compute_metrics] writes them before it reads them, so what an input row
    holds there is never looked at ([record] puts [nan]). *)
Record Row : Type := mkRow {
  ts_rx_ns : Z;
  seq : Z;
  stream_id : option string;
  iat_ms : float;
  abs_dev_ms : float
}.

Definition record (ts s : Z) (sid : option string) : Row :=
  mkRow ts s sid nan nan.

Definition DataFrame : Type := list Row.

Definition ref : Type := nat.
Definition heap : Type := list DataFrame.

(** Computations on the heap that may raise; the heap survives a raise. *)
Definition M (A : Type) : Type := heap -> result A * heap.

Definition ret {A : Type} (a : A) : M A := fun h => (Ok a, h).

Definition bind {A B : Type} (m : M A) (k : A -> M B) : M B :=
  fun h =>
    match m h with
    | (Ok a, h') => k a h'
    | (Raise e, h') => (Raise e, h')
    end.

Definition lift {A : Type} (r : result A) : M A := fun h => (r, h).

Notation "x <- m ;; k" := (bind m (fun x => k))
  (at level 61, m at next level, right associativity).
Notation "m ;;; k" := (bind m (fun _ => k))
  (at level 61, right associativity).

Definition alloc (f : DataFrame) : M ref :=
  fun h => (Ok (length h), h ++ [f]).

Definition load (r : ref) : M DataFrame :=
  fun h =>
    match nth_error h r with
    | Some f => (Ok f, h)
    | None => (Raise Dangling, h)
    end.

Fixpoint update (r : ref) (f : DataFrame) (h : heap) : heap :=
  match h, r with
  | [], _ => []
  | _ :: h', O => f :: h'
  | g :: h', S r' => g :: update r' f h'
  end.

Definition modify (r : ref) (g : DataFrame -> DataFrame) : M unit :=
  fun h =>
    match nth_error h r with
    | Some f => (Ok tt, update r (g f) h)
    | None => (Raise Dangling, h)
    end.

(** ** The operations of pandas that the program calls *)

Module Pandas.

Local Open Scope float_scope.

(** [df.copy()]: a new object with the same cells. *)
Definition copy (df : ref) : M ref := f <- load df ;; alloc f.

(** The order of [sort_values("ts_rx_ns")]: ascending timestamps, rows of
    equal timestamp in the order they had. The sort that pandas takes by
    default (quicksort) promises no order among rows of equal timestamp;
    what is proved of tables that may hold such rows is proved of this
    order, and the properties that are to hold of any sort ask for
    timestamps that differ. *)
Fixpoint insert_by_ts (r : Row) (l : list Row) : list Row :=
  match l with
  | [] => [r]
  | x :: l' =>
      if (ts_rx_ns r <=? ts_rx_ns x)%Z then r :: x :: l'
      else x :: insert_by_ts r l'
  end.

Definition sort_by_ts (l : list Row) : list Row :=
  fold_right insert_by_ts [] l.

(** [df.sort_values("ts_rx_ns")]: a new object. *)
Definition sort_values (df : ref) : M ref :=
  f <- load df ;; alloc (sort_by_ts f).

(** [df.reset_index(drop=True)]: a new object, labelled [0 .. n-1]; the
    labels of a table are the positions of its list from here on. *)
Definition reset_index (df : ref) : M ref := f <- load df ;; alloc f.

(** [df["iat_ms"] = col] and [df["abs_dev_ms"] = col]: written in place. *)
Definition set_iat (r : Row) (x : float) : Row :=
  mkRow (ts_rx_ns r) (seq r) (stream_id r) x (abs_dev_ms r).

Definition set_abs_dev (r : Row) (x : float) : Row :=
  mkRow (ts_rx_ns r) (seq r) (stream_id r) (iat_ms r) x.

Definition assign (set : Row -> float -> Row) (col : list float)
  (f : DataFrame) : DataFrame :=
  map (fun p => set (fst p) (snd p)) (combine f col).

Definition setitem_iat (df : ref) (col : list float) : M unit :=
  modify df (assign set_iat col).

Definition setitem_abs_dev (df : ref) (col : list float) : M unit :=
  modify df (assign set_abs_dev col).

(** [df[name]]: the cells of a column. *)
Definition getitem {A : Type} (col : Row -> A) (df : ref) : M (list A) :=
  f <- load df ;; ret (map col f).

(** [Series.diff()] on an int64 column: the difference is taken in int64
    and stored as a float, after a first [nan]. *)
Fixpoint diff_from (prev : Z) (l : list Z) : list float :=
  match l with
  | [] => []
  | x :: l' => F64.of_Z (Int64.sub64 x prev) :: diff_from x l'
  end.

Definition diff (l : list Z) : list float :=
  match l with
  | [] => []
  | x :: l' => nan :: diff_from x l'
  end.

(** [Series.shift(1)] on an int64 column: the cells move down by one
    behind a [nan], which makes the column a float one. *)
Definition shift (l : list Z) : list float :=
  match l with
  | [] => []
  | _ :: _ => nan :: map F64.of_Z (removelast l)
  end.

(** [Series.dropna()]. *)
Definition dropna (l : list float) : list float :=
  filter (fun x => negb (F64.isna x)) l.

(** [int(mask.sum())]. *)
Definition count {A : Type} (p : A -> bool) (l : list A) : Z :=
  Z.of_nat (length (filter p l)).

(** What a reduction of an int64 column returns: an int64, or the float
    [nan] on an empty column. *)
Inductive scalar : Type :=
| Int (z : Z)
| Float (x : float).

Definition min (l : list Z) : scalar :=
  match l with
  | [] => Float nan
  | x :: l' => Int (fold_left Z.min l' x)
  end.

Definition max (l : list Z) : scalar :=
  match l with
  | [] => Float nan
  | x :: l' => Int (fold_left Z.max l' x)
  end.

(** [Series.nunique()]. *)
Definition nunique (l : list Z) : Z := Z.of_nat (length (nodup Z.eq_dec l)).

End Pandas.

(** ** The operations of Python that the program calls *)

Module Py.

(** [int(x)] on a float. *)
Definition int_of_float (x : float) : result Z :=
  match F64.trunc x with
  | Some z => Ok z
  | None => Raise (if F64.isna x then ValueError else OverflowError)
  end.

(** [int(v)] on what a reduction returned. *)
Definition int (v : Pandas.scalar) : result Z :=
  match v with
  | Pandas.Int z => Ok z
  | Pandas.Float x => int_of_float x
  end.

(** [sorted(l, reverse=True)] on floats: descending, equal elements in the
    order they had. The list is meant to hold no [nan]. *)
Fixpoint insert_desc (x : float) (l : list float) : list float :=
  match l with
  | [] => [x]
  | y :: l' =>
      if (x <? y)%float then y :: insert_desc x l' else x :: y :: l'
  end.

Definition sorted_reverse (l : list float) : list float :=
  fold_right insert_desc [] l.

(** A [dict] with string keys, in insertion order. *)
Definition dict (V : Type) : Type := list (string * V).

Fixpoint setitem {V : Type} (k : string) (v : V) (d : dict V) : dict V :=
  match d with
  | [] => [(k, v)]
  | (k', v') :: d' =>
      if String.eqb k k' then (k, v) :: d' else (k', v') :: setitem k v d'
  end.

Fixpoint get {V : Type} (k : string) (d : dict V) : option V :=
  match d with
  | [] => None
  | (k', v) :: d' => if String.eqb k k' then Some v else get k d'
  end.

End Py.

(** ** The program: [src/vnta/metrics.py] *)

(** The reductions of numpy and pandas over float columns. The program
    fixes neither their order of summation nor their interpolation: they
    are a parameter of the embedding. *)
Record Reductions : Type := mkReductions {
  mean : list float -> float;             (* [Series.mean()] *)
  minimum : list float -> float;          (* [Series.min()] *)
  maximum : list float -> float;          (* [Series.max()] *)
  std : list float -> float;              (* [Series.std(ddof=0)] *)
  percentile : list float -> Z -> float   (* [np.percentile(a, q)] *)
}.

(** A row of the table that [estimate_missing_bursts] returns. *)
Record Burst : Type := mkBurst {
  index : Z;
  prev_seq : Z;
  curr_seq : Z;
  missing_count : Z
}.

(** A row of the event table: the timing rows and the burst rows have
    their own columns, and share [ts_rx_ns], [event_type] and [stream_id].
    Where [pd.concat] (line 117) joins rows of both kinds, a column that
    one kind lacks holds [nan] in the rows of that kind, and the int64
    columns [seq], [prev_seq], [curr_seq] and [missing_count] become
    float64; a row keeps here the integers that it had before. *)
Inductive Event : Type :=
| Timing (ts s : Z) (iat abs_dev : float) (event_type : string)
    (sid : option string)
| MissingBurst (ts prev curr missing : Z) (event_type : string)
    (sid : option string).

Definition event_type (e : Event) : string :=
  match e with
  | Timing _ _ _ _ t _ => t
  | MissingBurst _ _ _ _ t _ => t
  end.

Definition Summary : Type := Py.dict string.

Local Open Scope float_scope.

(** [Series.iloc[i]]. *)
Definition iloc {A : Type} (l : list A) (i : nat) : result A :=
  match nth_error l i with
  | Some a => Ok a
  | None => Raise KeyError
  end.

(** The loop of lines 19-30, from position [idx] on. *)
Fixpoint bursts_from (sq : list Z) (prev : list float) (idx : nat)
  (gap : list float) : result (list Burst) :=
  match gap with
  | [] => Ok []
  | g :: gap' =>
      if F64.isna g then bursts_from sq prev (S idx) gap'
      else if F64.gtb g 1 then
        p <~ iloc prev idx ;;
        p <~ Py.int_of_float p ;;
        c <~ iloc sq idx ;;
        m <~ Py.int_of_float (g - 1) ;;
        bs <~ bursts_from sq prev (S idx) gap' ;;
        Ok (mkBurst (Z.of_nat idx) p c m :: bs)
      else bursts_from sq prev (S idx) gap'
  end.

(** Lines 8-31. *)
Definition estimate_missing_bursts (seq_series : list Z)
  : result (list Burst) :=
  let sq := seq_series in
  let prev := Pandas.shift sq in
  let gap := map (fun p => F64.of_Z (fst p) - snd p) (combine sq prev) in
  bursts_from sq prev 0 gap.

(** Lines 51-56: the working copy, sorted, with its two derived columns. *)
Definition derivation_stage (df : ref) (expected_period_ms : float) : M ref :=
  work <- Pandas.copy df ;;
  work <- Pandas.sort_values work ;;
  work <- Pandas.reset_index work ;;
  ts <- Pandas.getitem ts_rx_ns work ;;
  Pandas.setitem_iat work (map (fun d => d / 1e6) (Pandas.diff ts)) ;;;
  iat <- Pandas.getitem iat_ms work ;;
  Pandas.setitem_abs_dev work
    (map (fun x => abs (x - expected_period_ms)) iat) ;;;
  ret work.

(** Lines 66-76: what the sequence numbers tell. *)
Record Integrity : Type := mkIntegrity {
  duplicates : Z;
  out_of_order : Z;
  seq_min : Z;
  seq_max : Z;
  expected_total : Z;
  observed_unique : Z;
  missing : Z;
  loss_rate : float
}.

Definition integrity (sq : list Z) : result Integrity :=
  let seq_diff := Pandas.diff sq in
  let duplicates := Pandas.count (fun d => d =? 0) seq_diff in
  let out_of_order := Pandas.count (fun d => d <? 0) seq_diff in
  seq_min <~ Py.int (Pandas.min sq) ;;
  seq_max <~ Py.int (Pandas.max sq) ;;
  let expected_total :=
    if (seq_max >=? seq_min)%Z then (seq_max - seq_min + 1)%Z else 0%Z in
  let observed_unique := Pandas.nunique sq in
  let missing := Z.max (expected_total - observed_unique) 0 in
  let loss_rate :=
    if (expected_total >? 0)%Z then F64.int_true_div missing expected_total
    else nan in
  Ok (mkIntegrity duplicates out_of_order seq_min seq_max expected_total
        observed_unique missing loss_rate).

(** Lines 79-82. *)
Definition violation_key (th : float) : string :=
  ("violations_abs_dev_gt_" ++ Fmt.general th ++ "ms")%string.

Definition violation_counts (abs_dev_col : list float)
  (dev_thresholds_ms : list float) : Py.dict Z :=
  fold_left
    (fun d th =>
       Py.setitem (violation_key th)
         (Pandas.count (fun x => F64.gtb x th) abs_dev_col) d)
    dev_thresholds_ms [].

(** Lines 89-103: the rows that have an inter-arrival time, each with its
    [event_type] cell; the labelled ones are kept. *)
Definition deviation_label (th : float) : string :=
  ("abs_dev_gt_" ++ Fmt.general th ++ "ms")%string.

Definition mark_spike (spike_iat_ms : float) (p : Row * string)
  : Row * string :=
  if F64.gtb (iat_ms (fst p)) spike_iat_ms then (fst p, "iat_spike"%string)
  else p.

Definition mark_deviation (th : float) (p : Row * string) : Row * string :=
  if F64.gtb (abs_dev_ms (fst p)) th && String.eqb (snd p) ""
  then (fst p, deviation_label th)
  else p.

Definition label_events (work : DataFrame) (spike_iat_ms : float)
  (dev_thresholds_ms : list float) : list (Row * string) :=
  let events := filter (fun r => negb (F64.isna (iat_ms r))) work in
  let events := map (fun r => (r, ""%string)) events in
  let events := map (mark_spike spike_iat_ms) events in
  let events :=
    fold_left (fun ev th => map (mark_deviation th) ev)
      (Py.sorted_reverse dev_thresholds_ms) events in
  filter (fun p => negb (String.eqb (snd p) "")) events.

Definition timing_events (work : DataFrame) (spike_iat_ms : float)
  (dev_thresholds_ms : list float) : list Event :=
  map (fun p =>
         Timing (ts_rx_ns (fst p)) (seq (fst p)) (iat_ms (fst p))
           (abs_dev_ms (fst p)) (snd p) (stream_id (fst p)))
      (label_events work spike_iat_ms dev_thresholds_ms).

(** Lines 106-117: the bursts as events, with the cells of [work] at their
    label. *)
Fixpoint burst_events (work : DataFrame) (bursts : list Burst)
  : result (list Event) :=
  match bursts with
  | [] => Ok []
  | b :: bursts' =>
      r <~ iloc work (Z.to_nat (index b)) ;;
      es <~ burst_events work bursts' ;;
      Ok (MissingBurst (ts_rx_ns r) (prev_seq b) (curr_seq b)
            (missing_count b) "missing_burst" (stream_id r) :: es)
  end.

Definition len {A : Type} (l : list A) : Z := Z.of_nat (length l).

Definition nonempty {A : Type} (l : list A) : bool :=
  match l with [] => false | _ => true end.

Section Program.

Variable red : Reductions.

(** Lines 58-145: everything that reads the working table. *)
Definition analyze (work : DataFrame) (expected_period_ms : float)
  (dev_thresholds_ms : list float) (spike_factor : float)
  : result (Summary * list Event) :=
  let iat := Pandas.dropna (map iat_ms work) in
  let abs_dev := Pandas.dropna (map abs_dev_ms work) in
  let jitter_ms := if nonempty iat then std red iat else nan in
  let mean_dev_ms := if nonempty abs_dev then mean red abs_dev else nan in
  let p95_dev_ms :=
    if nonempty abs_dev then percentile red abs_dev 95 else nan in
  i <~ integrity (map seq work) ;;
  let vio_counts :=
    violation_counts (map abs_dev_ms work) dev_thresholds_ms in
  let spike_iat_ms := expected_period_ms * spike_factor in
  let spike_count :=
    Pandas.count (fun x => F64.gtb x spike_iat_ms) (map iat_ms work) in
  let events := timing_events work spike_iat_ms dev_thresholds_ms in
  bursts <~ estimate_missing_bursts (map seq work) ;;
  events <~ (if nonempty bursts
             then bursts_events <~ burst_events work bursts ;;
                  Ok (events ++ bursts_events)
             else Ok events) ;;
  let na (s : string) : string := if nonempty iat then s else "n/a"%string in
  let na_dev (s : string) : string :=
    if nonempty abs_dev then s else "n/a"%string in
  let summary : Summary :=
    [ ("packets_observed", Fmt.str (len work));
      ("seq_min", Fmt.str (seq_min i));
      ("seq_max", Fmt.str (seq_max i));
      ("missing_packets_est", Fmt.str (missing i));
      ("loss_rate_est",
        if (expected_total i >? 0)%Z then Fmt.fixed 4 (loss_rate i)
        else "n/a");
      ("iat_ms_mean", na (Fmt.fixed 3 (mean red iat)));
      ("iat_ms_min", na (Fmt.fixed 3 (minimum red iat)));
      ("iat_ms_max", na (Fmt.fixed 3 (maximum red iat)));
      ("jitter_ms_std", na (Fmt.fixed 3 jitter_ms));
      ("abs_dev_ms_mean", na_dev (Fmt.fixed 3 mean_dev_ms));
      ("abs_dev_ms_p95", na_dev (Fmt.fixed 3 p95_dev_ms));
      ("duplicates", Fmt.str (duplicates i));
      ("out_of_order", Fmt.str (out_of_order i));
      ("iat_spike_threshold_ms", Fmt.fixed 3 spike_iat_ms);
      ("iat_spike_count", Fmt.str spike_count) ]%string in
  let summary :=
    fold_left (fun s kv => Py.setitem (fst kv) (Fmt.str (snd kv)) s)
      vio_counts summary in
  summary <~ (if nonempty bursts then
                burst_max <~ Py.int (Pandas.max (map missing_count bursts)) ;;
                Ok (Py.setitem "missing_burst_max" (Fmt.str burst_max)
                      (Py.setitem "missing_bursts_count"
                         (Fmt.str (len bursts)) summary))
              else
                Ok (Py.setitem "missing_burst_max" "0"%string
                      (Py.setitem "missing_bursts_count" "0"%string
                         summary))) ;;
  Ok (summary, events).

(** Lines 34-147. The second component is the working table, the third
    the event table. *)
Definition compute_metrics (df : ref) (expected_period_ms : float)
  (dev_thresholds_ms : list float) (spike_factor : float)
  : M (Summary * ref * list Event) :=
  work <- derivation_stage df expected_period_ms ;;
  w <- load work ;;
  r <- lift (analyze w expected_period_ms dev_thresholds_ms spike_factor) ;;
  ret (fst r, work, snd r).

(** A call on a table that nothing else refers to: the summary, the cells
    of the working table and the events. *)
Definition run_compute_metrics (df : DataFrame) (expected_period_ms : float)
  (dev_thresholds_ms : list float) (spike_factor : float)
  : result (Summary * DataFrame * list Event) :=
  match compute_metrics 0%nat expected_period_ms dev_thresholds_ms
          spike_factor [df] with
  | (Ok (s, work, ev), h) =>
      match nth_error h work with
      | Some w => Ok (s, w, ev)
      | None => Raise Dangling
      end
  | (Raise e, _) => Raise e
  end.

End Program.

(** ** Reductions to run the embedding with

    Summation from left to right and interpolation between the two
    neighbouring order statistics: one instance of [Reductions], to evaluate
    the embedding on examples. *)

Module Sequential.

Definition sum (l : list float) : float := fold_left add l 0.

Definition mean (l : list float) : float := sum l / F64.of_Z (len l).

Definition least (l : list float) : float :=
  match l with
  | [] => nan
  | x :: l' => fold_left (fun a b => if b <? a then b else a) l' x
  end.

Definition greatest (l : list float) : float :=
  match l with
  | [] => nan
  | x :: l' => fold_left (fun a b => if a <? b then b else a) l' x
  end.

Definition std (l : list float) : float :=
  let m := mean l in
  sqrt (mean (map (fun x => (x - m) * (x - m)) l)).

Definition percentile (l : list float) (q : Z) : float :=
  let sorted := rev (Py.sorted_reverse l) in
  let pos := F64.of_Z (len l - 1) * (F64.of_Z q / 100) in
  match F64.trunc pos with
  | Some j =>
      let lo := nth (Z.to_nat j) sorted nan in
      let hi := nth (Z.to_nat (Z.min (j + 1) (len l - 1))) sorted nan in
      lo + (hi - lo) * (pos - F64.of_Z j)
  | None => nan
  end.

Definition reductions : Reductions :=
  mkReductions mean least greatest std percentile.

End Sequential.

(** ** The order of binary64

    [rank] sends the floats other than [nan] into triples of integers
    ordered lexicographically: the comparisons of the floats are the
    comparisons of their ranks. *)

Module FloatOrder.

Local Open Scope Z_scope.

Definition rank (x : spec_float) : Z * Z * Z :=
  match x with
  | S754_nan => (0, 0, 0)
  | S754_zero _ => (0, 0, 0)
  | S754_infinity s => (if s then -2 else 2, 0, 0)
  | S754_finite s m e =>
      if s then (-1, - e, - Zpos m) else (1, e, Zpos m)
  end.

Definition lex_lt (a b : Z * Z * Z) : Prop :=
  let '(a1, a2, a3) := a in
  let '(b1, b2, b3) := b in
  a1 < b1 \/ (a1 = b1 /\ (a2 < b2 \/ (a2 = b2 /\ a3 < b3))).

Definition lex_le (a b : Z * Z * Z) : Prop :=
  let '(a1, a2, a3) := a in
  let '(b1, b2, b3) := b in
  a1 < b1 \/ (a1 = b1 /\ (a2 < b2 \/ (a2 = b2 /\ a3 <= b3))).

(** A float that is not [nan]. *)
Definition number (x : float) : Prop := Prim2SF x <> S754_nan.

Definition lt (x y : float) : Prop :=
  number x /\ number y /\ lex_lt (rank (Prim2SF x)) (rank (Prim2SF y)).

Definition le (x y : float) : Prop :=
  number x /\ number y /\ lex_le (rank (Prim2SF x)) (rank (Prim2SF y)).

End FloatOrder.

(** ** The functional view of the program, and the words of its
    specification *)

(** The rows of the working table after lines 51-56, from the rows of the
    caller's table. *)
Definition derive (f : DataFrame) (expected_period_ms : float) : DataFrame :=
  let w := Pandas.sort_by_ts f in
  let w :=
    Pandas.assign Pandas.set_iat
      (map (fun d => d / 1e6) (Pandas.diff (map ts_rx_ns w))) w in
  Pandas.assign Pandas.set_abs_dev
    (map (fun x => abs (x - expected_period_ms)) (map iat_ms w)) w.

(** The same rows, one after the other: [prev] is the timestamp of the row
    before, if there is one. *)
Fixpoint derive_rows (prev : option Z) (expected_period_ms : float)
  (l : list Row) : list Row :=
  match l with
  | [] => []
  | r :: l' =>
      let d := match prev with
               | None => nan
               | Some t => F64.of_Z (Int64.sub64 (ts_rx_ns r) t)
               end in
      mkRow (ts_rx_ns r) (seq r) (stream_id r) (d / 1e6)
        (abs (d / 1e6 - expected_period_ms))
      :: derive_rows (Some (ts_rx_ns r)) expected_period_ms l'
  end.

(** A table in arrival order. *)
Definition ordered (f : DataFrame) : Prop :=
  StronglySorted (fun a b => (ts_rx_ns a <= ts_rx_ns b)%Z) f.

(** The burst estimator as its specification words it: the gap of each
    adjacent pair, in integers. *)
Fixpoint spec_bursts_from (idx prev : Z) (l : list Z) : list Burst :=
  match l with
  | [] => []
  | curr :: l' =>
      (if (curr - prev >? 1)%Z
       then [mkBurst idx prev curr (curr - prev - 1)] else [])
      ++ spec_bursts_from (idx + 1) curr l'
  end.

Definition spec_bursts (l : list Z) : list Burst :=
  match l with
  | [] => []
  | first :: l' => spec_bursts_from 1 first l'
  end.

(** The label of a record as the specification words it: a spike, or else
    the largest threshold that the deviation exceeds, or else nothing. *)
Inductive classified (spike_iat_ms : float) (ths : list float) (r : Row)
  : string -> Prop :=
| classified_spike :
    F64.gtb (iat_ms r) spike_iat_ms = true ->
    classified spike_iat_ms ths r "iat_spike"
| classified_deviation (t : float) :
    F64.gtb (iat_ms r) spike_iat_ms = false ->
    In t ths ->
    F64.gtb (abs_dev_ms r) t = true ->
    (forall t', In t' ths -> F64.gtb (abs_dev_ms r) t' = true ->
                (t' <=? t) = true) ->
    classified spike_iat_ms ths r (deviation_label t)
| classified_none :
    F64.gtb (iat_ms r) spike_iat_ms = false ->
    (forall t, In t ths -> F64.gtb (abs_dev_ms r) t = false) ->
    classified spike_iat_ms ths r "".

(** The event of a labelled record: none under the empty label. *)
Definition event_of (r : Row) (label : string) : list Event :=
  if String.eqb label "" then []
  else [Timing (ts_rx_ns r) (seq r) (iat_ms r) (abs_dev_ms r) label
          (stream_id r)].

(** The records that have an inter-arrival time. *)
Definition with_iat (work : DataFrame) : list Row :=
  filter (fun r => negb (F64.isna (iat_ms r))) work.

Definition is_spike_event (e : Event) : bool :=
  String.eqb (event_type e) "iat_spike".

(** A record whose inter-arrival time is defined and above the cut. *)
Definition is_spike_record (spike_iat_ms : float) (r : Row) : bool :=
  negb (F64.isna (iat_ms r)) && F64.gtb (iat_ms r) spike_iat_ms.

(** A record whose deviation is defined and above a threshold. *)
Definition exceeds (th : float) (r : Row) : bool :=
  negb (F64.isna (abs_dev_ms r)) && F64.gtb (abs_dev_ms r) th.

(** The label that lines 90-98 leave in the [event_type] cell of a record:
    the passes over the thresholds, seen from one row. *)
Definition relabel (ths : list float) (p : Row * string) : Row * string :=
  fold_left (fun q th => mark_deviation th q) ths p.

Definition final_label (spike_iat_ms : float) (ths : list float) (r : Row)
  : string :=
  snd (relabel (Py.sorted_reverse ths) (mark_spike spike_iat_ms (r, ""%string))).

(** The keys of a [dict]. *)
Definition keys {V : Type} (d : Py.dict V) : list string := map fst d.

(** The summary before the counts of the bursts are added: lines 119-138. *)
Definition with_violations (vio_counts : Py.dict Z) (summary : Summary)
  : Summary :=
  fold_left (fun s kv => Py.setitem (fst kv) (Fmt.str (snd kv)) s)
    vio_counts summary.

(** The entries of lines 119-135. *)
Definition base_summary (red : Reductions) (work : DataFrame)
  (expected_period_ms spike_factor : float) (i : Integrity) : Summary :=
  let iat := Pandas.dropna (map iat_ms work) in
  let abs_dev := Pandas.dropna (map abs_dev_ms work) in
  let spike_iat_ms := expected_period_ms * spike_factor in
  let na (s : string) : string := if nonempty iat then s else "n/a"%string in
  let na_dev (s : string) : string :=
    if nonempty abs_dev then s else "n/a"%string in
  [ ("packets_observed", Fmt.str (len work));
    ("seq_min", Fmt.str (seq_min i));
    ("seq_max", Fmt.str (seq_max i));
    ("missing_packets_est", Fmt.str (missing i));
    ("loss_rate_est",
      if (expected_total i >? 0)%Z then Fmt.fixed 4 (loss_rate i)
      else "n/a");
    ("iat_ms_mean", na (Fmt.fixed 3 (mean red iat)));
    ("iat_ms_min", na (Fmt.fixed 3 (minimum red iat)));
    ("iat_ms_max", na (Fmt.fixed 3 (maximum red iat)));
    ("jitter_ms_std",
      na (Fmt.fixed 3 (if nonempty iat then std red iat else nan)));
    ("abs_dev_ms_mean",
      na_dev (Fmt.fixed 3 (if nonempty abs_dev then mean red abs_dev
                           else nan)));
    ("abs_dev_ms_p95",
      na_dev (Fmt.fixed 3 (if nonempty abs_dev
                           then percentile red abs_dev 95 else nan)));
    ("duplicates", Fmt.str (duplicates i));
    ("out_of_order", Fmt.str (out_of_order i));
    ("iat_spike_threshold_ms", Fmt.fixed 3 spike_iat_ms);
    ("iat_spike_count",
      Fmt.str (Pandas.count (fun x => F64.gtb x spike_iat_ms)
                 (map iat_ms work))) ]%string.

(** A float that is zero, or finite and below [2 ^ T] in magnitude. *)
Definition below (T : Z) (x : spec_float) : Prop :=
  match x with
  | S754_zero _ => True
  | S754_finite _ m e =>
      valid_binary x = true /\ (Zpos (digits2_pos m) + e <= T)%Z
  | _ => False
  end.

(** The binary64 of an integer below [2 ^ 53] in magnitude: no rounding. *)
Definition canon_pos (s : bool) (p : positive) : spec_float :=
  S754_finite s
    (Z.to_pos (Zpos p * 2 ^ (53 - Zpos (digits2_pos p))))
    (Zpos (digits2_pos p) - 53).

Definition canon (z : Z) : spec_float :=
  match z with
  | Z0 => S754_zero false
  | Zpos p => canon_pos false p
  | Zneg p => canon_pos true p
  end.

(** A sequence number that float64 holds with room for a difference. *)
Definition small (z : Z) : Prop := (Z.abs z < 2 ^ 52)%Z.

(** A cell of the sequence column with the cell that [shift] puts beside
    it: [nan], or the float of an int64. *)
Definition shifted_pair (c : Z) (p : float) : Prop :=
  Int64.in_range c /\
  (p = nan \/ exists q : Z, Int64.in_range q /\ p = F64.of_Z q).

(** A list of floats from the largest to the smallest. *)
Definition descending (l : list float) : Prop :=
  StronglySorted (fun a b => FloatOrder.le b a) l.

(** ** Words for the further properties of [metrics.py] *)

(** A float that is not [nan], with sign bit [s]. *)
Definition signed (s : bool) (x : spec_float) : Prop :=
  match x with
  | S754_nan => False
  | S754_zero s' | S754_infinity s' | S754_finite s' _ _ => s' = s
  end.

(** The cells of a row that the caller gave. *)
Definition given (r : Row) : Z * Z * option string :=
  (ts_rx_ns r, seq r, stream_id r).

(** The number of adjacent pairs [(prev, curr)] of a column that [P]
    holds of. *)
Fixpoint adjacent_from (P : Z -> Z -> bool) (prev : Z) (l : list Z) : Z :=
  match l with
  | [] => 0%Z
  | curr :: l' =>
      ((if P prev curr then 1 else 0) + adjacent_from P curr l')%Z
  end.

Definition adjacent (P : Z -> Z -> bool) (l : list Z) : Z :=
  match l with
  | [] => 0%Z
  | first :: l' => adjacent_from P first l'
  end.

(** The packets that a list of bursts reports missing. *)
Definition total_missing (bs : list Burst) : Z :=
  fold_right (fun b a => (missing_count b + a)%Z) 0%Z bs.

(** An adjacent pair that repeats a sequence number, and one that steps
    back. *)
Definition repeats (prev curr : Z) : bool := (curr =? prev)%Z.
Definition steps_back (prev curr : Z) : bool := (curr <? prev)%Z.

(** The adjacent pairs of a column where the number climbs. *)
Definition climbs (prev curr : Z) : bool := (prev <? curr)%Z.

(** A burst, as the gap between positions [i] and [i + 1] of a column
    makes it. *)
Definition burst_at (l : list Z) (i : nat) (b : Burst) : Prop :=
  exists prev curr : Z,
    nth_error l i = Some prev /\ nth_error l (S i) = Some curr /\
    (curr - prev > 1)%Z /\
    b = mkBurst (Z.of_nat (S i)) prev curr (curr - prev - 1).

(** The rows of the event table: those of the timing anomalies and those
    of the bursts. *)
Definition is_timing (e : Event) : bool :=
  match e with
  | Timing _ _ _ _ _ _ => true
  | MissingBurst _ _ _ _ _ _ => false
  end.

Definition is_burst_event (e : Event) : bool :=
  String.eqb (event_type e) "missing_burst".

Definition event_ts (e : Event) : Z :=
  match e with
  | Timing ts _ _ _ _ _ => ts
  | MissingBurst ts _ _ _ _ _ => ts
  end.

(** The [missing_count] cells of the event table. *)
Definition burst_sizes (ev : list Event) : list Z :=
  flat_map (fun e => match e with
                     | MissingBurst _ _ _ m _ _ => [m]
                     | Timing _ _ _ _ _ _ => []
                     end) ev.

(** The sum of a list of numbers. *)
Definition total (l : list Z) : Z := fold_right Z.add 0%Z l.

(** The greatest number of a list, zero for the empty list. *)
Definition greatest (l : list Z) : Z :=
  match l with
  | [] => 0%Z
  | x :: l' => fold_left Z.max l' x
  end.

(** The keys that lines 119-135 put in the summary, in their order. *)
Definition fixed_keys : list string :=
  [ "packets_observed"; "seq_min"; "seq_max"; "missing_packets_est";
    "loss_rate_est"; "iat_ms_mean"; "iat_ms_min"; "iat_ms_max";
    "jitter_ms_std"; "abs_dev_ms_mean"; "abs_dev_ms_p95"; "duplicates";
    "out_of_order"; "iat_spike_threshold_ms"; "iat_spike_count" ]%string.

(** The strings of a list that are not in [seen], each once, in the order
    in which they first come. *)
Fixpoint first_seen (seen : list string) (l : list string) : list string :=
  match l with
  | [] => []
  | k :: l' =>
      if existsb (String.eqb k) seen then first_seen seen l'
      else k :: first_seen (k :: seen) l'
  end.

(** ** Strings to integers

    Python's [int(s)] on a string [s], read as its code points, all below
    256. The blanks that [int] skips are the ASCII ones (9 to 13 and 32),
    and the two of Latin-1 (133 and 160); the digits are ["0"] to ["9"], and
    an underscore may stand between two of them. The interpreter's bound on
    the number of digits (4300 from Python 3.11 on, off when set to zero) is
    no part of the embedding. *)

Module PyStr.

Local Open Scope Z_scope.

Definition code (c : ascii) : N := N_of_ascii c.

Definition isspace (c : ascii) : bool :=
  ((9 <=? code c) && (code c <=? 13) || (code c =? 32) || (code c =? 133)
   || (code c =? 160))%N.

Definition digit (c : ascii) : option Z :=
  if ((48 <=? code c) && (code c <=? 57))%N
  then Some (Z.of_N (code c) - 48) else None.

Fixpoint skip_space (l : list ascii) : list ascii :=
  match l with
  | c :: l' => if isspace c then skip_space l' else l
  | [] => []
  end.

(** The digits behind a first digit, with the text that follows them; an
    underscore that no digit follows is an error. *)
Fixpoint digits (acc : Z) (l : list ascii) : option (Z * list ascii) :=
  match l with
  | [] => Some (acc, [])
  | c :: l' =>
      match digit c with
      | Some d => digits (10 * acc + d) l'
      | None =>
          if Ascii.eqb c "_" then
            match l' with
            | c' :: l'' =>
                match digit c' with
                | Some d => digits (10 * acc + d) l''
                | None => None
                end
            | [] => None
            end
          else Some (acc, l)
      end
  end.

Definition int (s : string) : result Z :=
  let l := skip_space (list_ascii_of_string s) in
  let '(negative, l) :=
    match l with
    | "-"%char :: l' => (true, l')
    | "+"%char :: l' => (false, l')
    | _ => (false, l)
    end in
  match l with
  | c :: l' =>
      match digit c with
      | Some d =>
          match digits d l' with
          | Some (v, rest) =>
              match skip_space rest with
              | [] => Ok (if negative then - v else v)
              | _ :: _ => Raise ValueError
              end
          | None => Raise ValueError
          end
      | None => Raise ValueError
      end
  | [] => Raise ValueError
  end.

End PyStr.

(** ** The command line: [cli.py]

    The run of [main] that writes no report, no plot, no event list and no
    table by stream (lines 65-110 are skipped): the table that [load_csv]
    returned, the selection of a stream, the call of [compute_metrics] and
    the exit status. What [main] prints is no part of the embedding. *)

Module Cli.

(** Lines 44-45. [has_stream_id] tells whether the table has a column
    [stream_id]; a cell that holds no text is equal to no stream. *)
Definition select_stream (has_stream_id : bool) (stream : option string)
  (df : DataFrame) : DataFrame :=
  match stream with
  | Some (String _ _ as s) =>
      if has_stream_id then
        filter (fun r => match stream_id r with
                         | Some t => String.eqb t s
                         | None => false
                         end) df
      else df
  | Some EmptyString | None => df
  end.

(** Line 114. *)
Definition fail_key (x : float) : string :=
  ("violations_abs_dev_gt_" ++ Fmt.general x ++ "ms")%string.

(** [d.get(k, default)]. *)
Definition get_default {V : Type} (k : string) (d : Py.dict V) (default : V)
  : V :=
  match Py.get k d with
  | Some v => v
  | None => default
  end.

(** Lines 113-120. *)
Definition exit_status (metrics : Summary) (fail_on_abs_dev_gt : option float)
  : result Z :=
  match fail_on_abs_dev_gt with
  | Some x =>
      let key := fail_key x in
      count <~ PyStr.int (get_default key metrics "0"%string) ;;
      if (count >? 0)%Z then Ok 2%Z else Ok 0%Z
  | None => Ok 0%Z
  end.

Section Main.

Variable red : Reductions.

(** Lines 42-54 and 112-120. *)
Definition main (df : DataFrame) (has_stream_id : bool)
  (stream : option string) (period_ms : float)
  (dev_thresholds : list float) (spike_factor : float)
  (fail_on_abs_dev_gt : option float) : result Z :=
  let df := select_stream has_stream_id stream df in
  r <~ run_compute_metrics red df period_ms dev_thresholds spike_factor ;;
  exit_status (fst (fst r)) fail_on_abs_dev_gt.

End Main.

End Cli.

(** The number that a run of decimal digits adds to what was read. *)
Fixpoint uint_value (d : Decimal.uint) (acc : Z) : Z :=
  match d with
  | Decimal.Nil => acc
  | Decimal.D0 l => uint_value l (10 * acc)
  | Decimal.D1 l => uint_value l (10 * acc + 1)
  | Decimal.D2 l => uint_value l (10 * acc + 2)
  | Decimal.D3 l => uint_value l (10 * acc + 3)
  | Decimal.D4 l => uint_value l (10 * acc + 4)
  | Decimal.D5 l => uint_value l (10 * acc + 5)
  | Decimal.D6 l => uint_value l (10 * acc + 6)
  | Decimal.D7 l => uint_value l (10 * acc + 7)
  | Decimal.D8 l => uint_value l (10 * acc + 8)
  | Decimal.D9 l => uint_value l (10 * acc + 9)
  end%Z.

(** The last of the thresholds whose count the summary holds under the
    key [k]. *)
Definition last_named (k : string) (ths : list float) : option float :=
  find (fun t => String.eqb (violation_key t) k) (rev ths).

(** The exit status that a threshold to fail on asks for, given the
    thresholds of the run and the detail table. *)
Definition status_for (fail_on_abs_dev_gt : option float) (ths : list float)
  (w : DataFrame) : Z :=
  match fail_on_abs_dev_gt with
  | None => 0%Z
  | Some x =>
      match last_named (Cli.fail_key x) ths with
      | Some t => if (Pandas.count (exceeds t) w >? 0)%Z then 2%Z else 0%Z
      | None => 0%Z
      end
  end.

(** ** The header of the CSV file: [src/vnta/io.py], lines 11-15

    A column name is a Python [str], here the list of its code points. *)

Module Io.

Local Open Scope N_scope.

Definition str : Type := list N.

Definition of_string (s : string) : str :=
  map N_of_ascii (list_ascii_of_string s).

(** [c.isspace()] on one character: what [strip()] removes. *)
Definition isspace (c : N) : bool :=
  (9 <=? c) && (c <=? 13) || (28 <=? c) && (c <=? 32) || (c =? 133)
  || (c =? 160) || (c =? 5760) || (8192 <=? c) && (c <=? 8202)
  || (c =? 8232) || (c =? 8233) || (c =? 8239) || (c =? 8287)
  || (c =? 12288).

(** The byte order mark, U+FEFF. *)
Definition bom : N := 65279.

Fixpoint lstrip (p : N -> bool) (s : str) : str :=
  match s with
  | c :: s' => if p c then lstrip p s' else s
  | [] => []
  end.

Definition rstrip (p : N -> bool) (s : str) : str :=
  rev (lstrip p (rev s)).

(** [s.strip()]. *)
Definition strip (s : str) : str := rstrip isspace (lstrip isspace s).

(** Line 11: [c.strip().lstrip("\ufeff")]. *)
Definition normalize (c : str) : str := lstrip (N.eqb bom) (strip c).

Definition eqb (a b : str) : bool :=
  if list_eq_dec N.eq_dec a b then true else false.

(** Lines 11-15: the names of the columns, or [ValueError] where
    [ts_rx_ns] or [seq] is not among them. *)
Definition columns (header : list str) : result (list str) :=
  let names := map normalize header in
  if negb (existsb (eqb (of_string "ts_rx_ns")) names)
     || negb (existsb (eqb (of_string "seq")) names)
  then Raise ValueError
  else Ok names.

(** A name with blanks around it and byte order marks before it. *)
Definition decorated (name : str) (c : str) : Prop :=
  exists blanks marks blanks' : str,
    Forall (fun x => isspace x = true) blanks /\
    Forall (fun x => x = bom) marks /\
    Forall (fun x => isspace x = true) blanks' /\
    c = blanks ++ marks ++ name ++ blanks'.

(** A name that normalisation leaves as it is: it starts with no blank and
    no byte order mark, and ends with no blank. *)
Definition plain (name : str) : Prop :=
  match name with
  | [] => False
  | c :: _ => isspace c = false /\ c <> bom
  end /\
  isspace (last name 0) = false.

End Io.

(** ** The generator of sample logs: [gen_sample_log.py]

    The random numbers are a parameter of the embedding: [draws k] holds
    what [random.random()] and [random.randint(...)] return in turn [k] of
    the loop of lines 33-42, [swaps i] what [random.random()] returns in
    turn [i] of the loop of lines 48-50. *)

Module Gen.

Record Draw : Type := mkDraw {
  uniform : float;   (* [random.random()] *)
  offset : Z         (* [random.randint(-jitter_ns, jitter_ns)] *)
}.

(** Line 27. *)
Definition start_ns : Z := 1700000000000000000.

(** [random.randint(a, b)]: [ValueError] on an empty range, and else the
    number drawn. *)
Definition randint (a b drawn : Z) : result Z :=
  if (a >? b)%Z then Raise ValueError else Ok drawn.

(** Lines 33-42, from turn [k] on, for [turns] turns. *)
Fixpoint rows_from (stream : string) (period_ns jitter_ns : Z)
  (loss_rate : float) (draws : nat -> Draw) (turns k : nat)
  (ts_ns seq : Z) : result (list Row) :=
  match turns with
  | O => Ok []
  | S turns' =>
      let seq := (seq + 1)%Z in
      if (uniform (draws k) <? loss_rate)%float then
        j <~ randint (- jitter_ns) jitter_ns (offset (draws k)) ;;
        let ts_ns := (ts_ns + (period_ns + j))%Z in
        rows_from stream period_ns jitter_ns loss_rate draws turns' (S k)
          ts_ns seq
      else
        j <~ randint (- jitter_ns) jitter_ns (offset (draws k)) ;;
        let ts_ns := (ts_ns + (period_ns + j))%Z in
        rows <~ rows_from stream period_ns jitter_ns loss_rate draws turns'
                  (S k) ts_ns seq ;;
        Ok (record ts_ns seq (Some stream) :: rows)
  end.

Definition set_seq (r : Row) (s : Z) : Row :=
  mkRow (ts_rx_ns r) s (stream_id r) (iat_ms r) (abs_dev_ms r).

(** Line 50: the sequence numbers of rows [i] and [i + 1] change places. *)
Fixpoint swap_seq (i : nat) (rows : list Row) : list Row :=
  match i, rows with
  | O, a :: b :: rows' => set_seq a (seq b) :: set_seq b (seq a) :: rows'
  | S i', a :: rows' => a :: swap_seq i' rows'
  | _, _ => rows
  end.

(** Lines 48-50, from turn [i] on, for [turns] turns. *)
Fixpoint shuffle_from (rate : float) (swaps : nat -> float) (turns i : nat)
  (rows : list Row) : list Row :=
  match turns with
  | O => rows
  | S turns' =>
      let rows := if (swaps i <? rate)%float then swap_seq i rows
                  else rows in
      shuffle_from rate swaps turns' (S i) rows
  end.

(** Lines 47-50. *)
Definition out_of_order (rate : float) (swaps : nat -> float)
  (rows : list Row) : list Row :=
  if (0 <? rate)%float && (2 <? len rows)%Z
  then shuffle_from rate swaps (length rows - 1) 0 rows
  else rows.

(** Lines 23-50: the table that [main] writes. *)
Definition generate (stream : string) (n : Z)
  (period_ms jitter_ms loss_rate out_of_order_rate : float)
  (draws : nat -> Draw) (swaps : nat -> float) : result DataFrame :=
  period_ns <~ Py.int_of_float (period_ms * 1e6) ;;
  jitter_ns <~ Py.int_of_float (jitter_ms * 1e6) ;;
  rows <~ rows_from stream period_ns jitter_ns loss_rate draws (Z.to_nat n)
            0 start_ns 0 ;;
  Ok (out_of_order out_of_order_rate swaps rows).

(** Draws that [random.randint(-jitter_ns, jitter_ns)] can return. *)
Definition within (jitter_ns : Z) (draws : nat -> Draw) : Prop :=
  forall k : nat, (- jitter_ns <= offset (draws k) <= jitter_ns)%Z.

End Gen.

(** ** The [%g] text of a threshold, as a number *)

(** The six digits before they are carried over: the rounding of
    [num / den] in units of [10 ^ (x - 5)]. *)
Definition six_raw (num den : Z) : Z :=
  (let x := Fmt.exp10 num den in
   if 5 <=? x then Fmt.round_half_even num (den * 10 ^ (x - 5))
   else Fmt.round_half_even (num * 10 ^ (5 - x)) den)%Z.

(** The rounded value as one integer: the decade, then the six digits. *)
Definition six_rank (num den : Z) : Z :=
  (let (n, x) := Fmt.six_digits num den in (x + 401) * 10 ^ 6 + n)%Z.

(** The rounding of a float that its [%g] text shows, as one integer: none
    for [nan], the two infinities beyond every finite float. *)
Definition rounded (x : float) : option Z :=
  match Prim2SF x with
  | S754_nan => None
  | S754_infinity s => Some (if s then - 10 ^ 9 else 10 ^ 9)%Z
  | S754_zero _ => Some 0%Z
  | S754_finite s m e =>
      let (num, den) := Fmt.magnitude m e in
      Some (if s then - six_rank num den else six_rank num den)%Z
  end.

(** Reading a [%g] text back: the sign, the kind of the value ([1] for
    [nan], [2] for [inf], [3] for digits), and for digits the integer [a]
    that they spell without their point, the number [k] of digits behind
    the point and the exponent [E], so that the text stands for
    [a * 10 ^ (E - k)]. *)

Definition dig (c : ascii) : Z := (Z.of_N (N_of_ascii c) - 48)%Z.

Definition is_digit (c : ascii) : bool :=
  ((0 <=? dig c) && (dig c <=? 9))%Z.

Fixpoint ival (acc : Z) (l : list ascii) : Z :=
  match l with
  | [] => acc
  | c :: l' => ival (10 * acc + dig c)%Z l'
  end.

Definition scan_exp (l : list ascii) : Z :=
  match l with
  | [] => 0%Z
  | c :: l' => if Ascii.eqb c "-" then (- ival 0 l')%Z else ival 0%Z l'
  end.

Fixpoint scan_frac (acc k : Z) (l : list ascii) : Z * Z * Z :=
  match l with
  | [] => (acc, k, 0%Z)
  | c :: l' =>
      if Ascii.eqb c "e" then (acc, k, scan_exp l')
      else scan_frac (10 * acc + dig c)%Z (k + 1)%Z l'
  end.

Fixpoint scan_int (acc : Z) (l : list ascii) : Z * Z * Z :=
  match l with
  | [] => (acc, 0%Z, 0%Z)
  | c :: l' =>
      if Ascii.eqb c "." then scan_frac acc 0%Z l'
      else if Ascii.eqb c "e" then (acc, 0%Z, scan_exp l')
      else scan_int (10 * acc + dig c)%Z l'
  end.

Definition scan_number (l : list ascii) : Z * (Z * Z * Z) :=
  match l with
  | [] => (0, (0, 0, 0))%Z
  | c :: _ =>
      if Ascii.eqb c "n" then (1, (0, 0, 0))%Z
      else if Ascii.eqb c "i" then (2, (0, 0, 0))%Z
      else (3%Z, scan_int 0%Z l)
  end.

Definition scan (l : list ascii) : bool * (Z * (Z * Z * Z)) :=
  match l with
  | [] => (false, scan_number [])
  | c :: l' =>
      if Ascii.eqb c "-" then (true, scan_number l')
      else (false, scan_number l)
  end.

(** The value that [scan_int] finds behind the mantissa. *)
Definition scan_tail (rest : list ascii) : Z :=
  match rest with
  | [] => 0%Z
  | _ :: r => scan_exp r
  end.

(** * Properties *)

(** ** Facts on binary64 *)

Module FloatFacts.

Import FloatOrder.
Local Open Scope Z_scope.

Ltac cmp_cases :=
  repeat match goal with
  | |- context [Z.compare ?a ?b] => destruct (Z.compare_spec a b)
  | |- context [Pos.compare_cont Eq ?a ?b] =>
      change (Pos.compare_cont Eq a b) with (Pos.compare a b);
      destruct (Pos.compare_spec a b)
  end.

Ltac rank_cases :=
  split;
  [ let E := fresh "E" in
    intros E; try discriminate E; repeat split; try discriminate; lia
  | let E := fresh "E" in
    intros (? & ? & E); try reflexivity; try congruence; lia ].

Lemma SFltb_rank (a b : spec_float) :
  SFltb a b = true <->
  a <> S754_nan /\ b <> S754_nan /\ lex_lt (rank a) (rank b).
Proof.
  unfold SFltb, SFcompare, lex_lt, rank.
  destruct a as [sa|sa| |sa ma ea], b as [sb|sb| |sb mb eb];
    try destruct sa; try destruct sb; cmp_cases; simpl; rank_cases.
Qed.

Lemma SFleb_rank (a b : spec_float) :
  SFleb a b = true <->
  a <> S754_nan /\ b <> S754_nan /\ lex_le (rank a) (rank b).
Proof.
  unfold SFleb, SFcompare, lex_le, rank.
  destruct a as [sa|sa| |sa ma ea], b as [sb|sb| |sb mb eb];
    try destruct sa; try destruct sb; cmp_cases; simpl; rank_cases.
Qed.

Lemma SFeqb_diag (a : spec_float) :
  SFeqb a a = false <-> a = S754_nan.
Proof.
  unfold SFeqb, SFcompare.
  destruct a as [sa|sa| |sa ma ea]; try destruct sa; simpl;
    try rewrite Z.compare_refl;
    try (change (Pos.compare_cont Eq ma ma) with (Pos.compare ma ma);
         rewrite Pos.compare_refl);
    split; intros E; try discriminate E; reflexivity.
Qed.

Lemma ltb_lt (x y : float) : (x <? y)%float = true <-> lt x y.
Proof. rewrite ltb_spec. apply SFltb_rank. Qed.

Lemma leb_le (x y : float) : (x <=? y)%float = true <-> le x y.
Proof. rewrite leb_spec. apply SFleb_rank. Qed.

Lemma isna_nan (x : float) : F64.isna x = true <-> x = nan.
Proof.
  unfold F64.isna. rewrite negb_true_iff, eqb_spec, SFeqb_diag. split.
  - intros E. apply Prim2SF_inj. rewrite E. reflexivity.
  - intros ->. reflexivity.
Qed.

Lemma isna_number (x : float) : F64.isna x = false <-> number x.
Proof.
  unfold number. rewrite <- not_true_iff_false, isna_nan. split.
  - intros N E. apply N, Prim2SF_inj. rewrite E. reflexivity.
  - intros N ->. apply N. reflexivity.
Qed.

(** No comparison holds of [nan]. *)
Lemma gtb_isna (x y : float) : F64.isna x = true -> F64.gtb x y = false.
Proof.
  rewrite isna_nan. intros ->. unfold F64.gtb.
  apply not_true_iff_false. rewrite ltb_lt. intros (_ & N & _).
  apply N. reflexivity.
Qed.

Lemma gtb_number (x y : float) :
  F64.gtb x y = true -> F64.isna x = false.
Proof.
  intros G. destruct (F64.isna x) eqn:E; [|reflexivity].
  rewrite (gtb_isna _ y E) in G. discriminate G.
Qed.

Lemma lt_trans (x y z : float) : lt x y -> lt y z -> lt x z.
Proof.
  unfold lt, lex_lt. intros (Nx & Ny & H1) (_ & Nz & H2).
  repeat split; try assumption.
  destruct (rank (Prim2SF x)) as [[? ?] ?], (rank (Prim2SF y)) as [[? ?] ?],
    (rank (Prim2SF z)) as [[? ?] ?]. lia.
Qed.

Lemma le_trans (x y z : float) : le x y -> le y z -> le x z.
Proof.
  unfold le, lex_le. intros (Nx & Ny & H1) (_ & Nz & H2).
  repeat split; try assumption.
  destruct (rank (Prim2SF x)) as [[? ?] ?], (rank (Prim2SF y)) as [[? ?] ?],
    (rank (Prim2SF z)) as [[? ?] ?]. lia.
Qed.

Lemma le_refl (x : float) : number x -> le x x.
Proof.
  unfold le, lex_le. intros N. repeat split; try assumption.
  destruct (rank (Prim2SF x)) as [[? ?] ?]. lia.
Qed.

Lemma not_lt_le (x y : float) :
  number x -> number y -> ~ lt x y -> le y x.
Proof.
  unfold lt, le, lex_lt, lex_le. intros Nx Ny H.
  repeat split; try assumption.
  destruct (rank (Prim2SF x)) as [[? ?] ?], (rank (Prim2SF y)) as [[? ?] ?].
  assert (~ (z < z2 \/ z = z2 /\ (z0 < z3 \/ z0 = z3 /\ z1 < z4))) by tauto.
  lia.
Qed.

Lemma lt_le_trans (x y z : float) : lt x y -> le y z -> lt x z.
Proof.
  unfold lt, le, lex_lt, lex_le. intros (Nx & Ny & H1) (_ & Nz & H2).
  repeat split; try assumption.
  destruct (rank (Prim2SF x)) as [[? ?] ?], (rank (Prim2SF y)) as [[? ?] ?],
    (rank (Prim2SF z)) as [[? ?] ?]. lia.
Qed.

(** Arithmetic on [nan]. *)
Lemma sub_nan_l (y : float) : (nan - y)%float = nan.
Proof.
  apply Prim2SF_inj. rewrite sub_spec.
  change (Prim2SF nan) with S754_nan.
  destruct (Prim2SF y); reflexivity.
Qed.

Lemma abs_nan : abs nan = nan.
Proof. reflexivity. Qed.

End FloatFacts.

(** ** The heap *)

Lemma nth_error_snoc {A : Type} (h : list A) (x : A) :
  nth_error (h ++ [x]) (length h) = Some x.
Proof. induction h as [|y h IH]; simpl; auto. Qed.

Lemma nth_error_keep {A : Type} (h : list A) (x : A) (r : nat) (y : A) :
  nth_error h r = Some y -> nth_error (h ++ [x]) r = Some y.
Proof.
  intros E. rewrite nth_error_app1; [assumption|].
  apply nth_error_Some. congruence.
Qed.

Lemma update_snoc (h : heap) (x y : DataFrame) :
  update (length h) y (h ++ [x]) = h ++ [y].
Proof. induction h as [|z h IH]; simpl; congruence. Qed.

(** What the derivation stage does to a heap: three objects are allocated
    behind it, the copy, the sorted copy and the working table. *)
Lemma derivation_stage_run (h : heap) (df : ref) (f : DataFrame) (p : float) :
  nth_error h df = Some f ->
  derivation_stage df p h =
    (Ok (length ((h ++ [f]) ++ [Pandas.sort_by_ts f])),
     ((h ++ [f]) ++ [Pandas.sort_by_ts f]) ++ [derive f p]).
Proof.
  intros E.
  unfold derivation_stage, Pandas.copy, Pandas.sort_values,
    Pandas.reset_index, Pandas.getitem, Pandas.setitem_iat,
    Pandas.setitem_abs_dev, bind, load, alloc, modify, ret.
  rewrite E.
  repeat (rewrite ?nth_error_snoc, ?update_snoc; cbv beta iota).
  reflexivity.
Qed.

(** ** Rounding to binary64

    What the rounding of [SpecFloat] does to a mantissa, as far as the
    program needs it: the floats it makes of int64 cells, their differences
    and the quotient of the loss rate are finite, and the quotient is at
    most one. *)

Module Rounding.

Local Open Scope Z_scope.

Lemma digits2_bounds (p : positive) :
  2 ^ (Zpos (digits2_pos p) - 1) <= Zpos p < 2 ^ Zpos (digits2_pos p).
Proof.
  induction p as [p IH|p IH|]; cbn [digits2_pos].
  - rewrite Pos2Z.inj_succ. change (Zpos p~1) with (2 * Zpos p + 1).
    replace (Z.succ (Zpos (digits2_pos p)) - 1)
      with (Z.succ (Zpos (digits2_pos p) - 1)) by lia.
    rewrite !Z.pow_succ_r by lia. lia.
  - rewrite Pos2Z.inj_succ. change (Zpos p~0) with (2 * Zpos p).
    replace (Z.succ (Zpos (digits2_pos p)) - 1)
      with (Z.succ (Zpos (digits2_pos p) - 1)) by lia.
    rewrite !Z.pow_succ_r by lia. lia.
  - simpl. lia.
Qed.

Lemma Zdigits2_bounds (m : Z) :
  0 < m -> 2 ^ (Zdigits2 m - 1) <= m < 2 ^ Zdigits2 m.
Proof. destruct m as [|p|p]; try lia. intros _. apply digits2_bounds. Qed.

Lemma Zdigits2_pos (m : Z) : 0 < m -> 0 < Zdigits2 m.
Proof. destruct m; simpl; lia. Qed.

Lemma Zdigits2_unique (m k : Z) :
  0 < m -> 2 ^ (k - 1) <= m < 2 ^ k -> Zdigits2 m = k.
Proof.
  intros Hm Hk. pose proof (Zdigits2_bounds m Hm) as Hd.
  pose proof (Zdigits2_pos m Hm) as Hp.
  assert (0 < k).
  { destruct (Z.lt_ge_cases 0 k) as [|N]; [assumption|].
    assert (2 ^ k <= 1).
    { destruct (Z.eq_dec k 0) as [->|]; [simpl; lia|].
      rewrite Z.pow_neg_r by lia. lia. }
    lia. }
  destruct (Z.lt_trichotomy (Zdigits2 m) k) as [L|[E|G]]; [|exact E|].
  - assert (2 ^ Zdigits2 m <= 2 ^ (k - 1)) by (apply Z.pow_le_mono_r; lia).
    lia.
  - assert (2 ^ k <= 2 ^ (Zdigits2 m - 1)) by (apply Z.pow_le_mono_r; lia).
    lia.
Qed.

Lemma shr_1_m (mrs : shr_record) :
  0 <= shr_m mrs -> shr_m (shr_1 mrs) = shr_m mrs / 2.
Proof.
  destruct mrs as [m r s]. cbn [shr_m]. intros H.
  destruct m as [|[p|p|]|p]; cbn [shr_1 shr_m]; try lia.
  - reflexivity.
  - change (Zpos p~1) with (2 * Zpos p + 1).
    apply Z.div_unique with 1; lia.
  - change (Zpos p~0) with (2 * Zpos p).
    apply Z.div_unique with 0; lia.
  - reflexivity.
Qed.

Lemma shr_1_nonneg (mrs : shr_record) :
  0 <= shr_m mrs -> 0 <= shr_m (shr_1 mrs).
Proof.
  intros H. rewrite shr_1_m by exact H. apply Z.div_pos; lia.
Qed.

Lemma iter_shr_m (p : positive) (mrs : shr_record) :
  0 <= shr_m mrs ->
  shr_m (iter_pos shr_1 p mrs) = shr_m mrs / 2 ^ Zpos p.
Proof.
  revert mrs. induction p as [p IH|p IH|]; intros mrs H; cbn [iter_pos].
  - assert (H1 : 0 <= shr_m (shr_1 mrs)) by (apply shr_1_nonneg, H).
    assert (H2 : 0 <= shr_m (iter_pos shr_1 p (shr_1 mrs))).
    { rewrite IH by exact H1. apply Z.div_pos; lia. }
    rewrite IH by exact H2. rewrite IH by exact H1. rewrite shr_1_m by exact H.
    rewrite !Z.div_div by lia.
    f_equal. change (Zpos p~1) with (2 * Zpos p + 1).
    replace (2 * Zpos p + 1) with (1 + Zpos p + Zpos p) by lia.
    rewrite !Z.pow_add_r by lia. change (2 ^ 1) with 2. ring.
  - assert (H2 : 0 <= shr_m (iter_pos shr_1 p mrs)).
    { rewrite IH by exact H. apply Z.div_pos; lia. }
    rewrite IH by exact H2. rewrite IH by exact H.
    rewrite !Z.div_div by lia.
    f_equal. change (Zpos p~0) with (2 * Zpos p).
    replace (2 * Zpos p) with (Zpos p + Zpos p) by lia.
    rewrite !Z.pow_add_r by lia. ring.
  - rewrite shr_1_m by exact H. reflexivity.
Qed.

Lemma shr_1_even (k : Z) :
  0 <= k ->
  shr_1 (Build_shr_record (2 * k) false false) = Build_shr_record k false false.
Proof. destruct k as [|q|q]; try lia; reflexivity. Qed.

(** Shifting out zeros leaves the location exact. *)
Lemma iter_shr_exact (p : positive) (k : Z) :
  0 <= k ->
  iter_pos shr_1 p (Build_shr_record (k * 2 ^ Zpos p) false false)
  = Build_shr_record k false false.
Proof.
  revert k. induction p as [p IH|p IH|]; intros k Hk; cbn [iter_pos].
  - change (Zpos p~1) with (2 * Zpos p + 1).
    replace (k * 2 ^ (2 * Zpos p + 1))
      with (2 * (k * 2 ^ Zpos p * 2 ^ Zpos p)).
    + assert (P : 0 < 2 ^ Zpos p) by (apply Z.pow_pos_nonneg; lia).
      rewrite shr_1_even by nia. rewrite IH by nia. apply IH, Hk.
    + replace (2 * Zpos p + 1) with (1 + Zpos p + Zpos p) by lia.
      rewrite !Z.pow_add_r by lia. change (2 ^ 1) with 2. ring.
  - change (Zpos p~0) with (2 * Zpos p).
    replace (k * 2 ^ (2 * Zpos p)) with (k * 2 ^ Zpos p * 2 ^ Zpos p).
    + assert (P : 0 < 2 ^ Zpos p) by (apply Z.pow_pos_nonneg; lia).
      rewrite IH by nia. apply IH, Hk.
    + replace (2 * Zpos p) with (Zpos p + Zpos p) by lia.
      rewrite !Z.pow_add_r by lia. ring.
  - change (2 ^ 1) with 2. rewrite Z.mul_comm. apply shr_1_even, Hk.
Qed.

Lemma loc_of_record_of_loc (m : Z) (l : location) :
  loc_of_shr_record (shr_record_of_loc m l) = l.
Proof. destruct l as [|[| |]]; reflexivity. Qed.

Lemma shr_m_record_of_loc (m : Z) (l : location) :
  shr_m (shr_record_of_loc m l) = m.
Proof. destruct l as [|[| |]]; reflexivity. Qed.

(** [shr_fexp] when the shift is not negative. *)
Lemma shr_fexp_spec (m e : Z) (l : location) :
  0 <= m ->
  0 <= fexp prec emax (Zdigits2 m + e) - e ->
  shr_m (fst (shr_fexp prec emax m e l))
    = m / 2 ^ (fexp prec emax (Zdigits2 m + e) - e) /\
  snd (shr_fexp prec emax m e l) = fexp prec emax (Zdigits2 m + e) /\
  (fexp prec emax (Zdigits2 m + e) - e = 0 ->
   loc_of_shr_record (fst (shr_fexp prec emax m e l)) = l).
Proof.
  intros Hm Hn. unfold shr_fexp, shr.
  destruct (fexp prec emax (Zdigits2 m + e) - e) as [|p|p] eqn:E; try lia.
  - cbn [fst snd]. rewrite shr_m_record_of_loc, Z.div_1_r.
    split; [reflexivity|]. split; [lia|]. intros _.
    apply loc_of_record_of_loc.
  - cbn [fst snd]. rewrite iter_shr_m by (rewrite shr_m_record_of_loc; exact Hm).
    rewrite shr_m_record_of_loc. split; [reflexivity|]. split; [lia|].
    intros N. discriminate N.
Qed.

Lemma shr_fexp_exact (m e : Z) :
  0 <= m ->
  (2 ^ (fexp prec emax (Zdigits2 m + e) - e) | m) ->
  loc_of_shr_record (fst (shr_fexp prec emax m e loc_Exact)) = loc_Exact.
Proof.
  intros Hm (k & Hk). unfold shr_fexp, shr.
  destruct (fexp prec emax (Zdigits2 m + e) - e) as [|p|p]; cbn [fst];
    try reflexivity.
  cbn [shr_record_of_loc]. rewrite Hk.
  assert (P : 0 < 2 ^ Zpos p) by (apply Z.pow_pos_nonneg; lia).
  rewrite iter_shr_exact by nia. reflexivity.
Qed.

Lemma round_nearest_even_bounds (m : Z) (l : location) :
  m <= round_nearest_even m l <= m + 1 /\
  (l = loc_Exact -> round_nearest_even m l = m).
Proof.
  unfold round_nearest_even. destruct l as [|[| |]]; try destruct (Z.even m);
    (split; [lia|]; intros E; try discriminate E; reflexivity).
Qed.

(** Quotient digits. *)
Lemma Zdigits2_div_pow (m n : Z) :
  0 < m -> 0 <= n -> n < Zdigits2 m ->
  0 < m / 2 ^ n /\ Zdigits2 (m / 2 ^ n) = Zdigits2 m - n.
Proof.
  intros Hm Hn Hd. pose proof (Zdigits2_bounds m Hm) as [Lo Hi].
  assert (P : 0 < 2 ^ n) by (apply Z.pow_pos_nonneg; lia).
  assert (E1 : 2 ^ (Zdigits2 m - 1) = 2 ^ (Zdigits2 m - n - 1) * 2 ^ n).
  { rewrite <- Z.pow_add_r by lia. f_equal. lia. }
  assert (E2 : 2 ^ Zdigits2 m = 2 ^ (Zdigits2 m - n) * 2 ^ n).
  { rewrite <- Z.pow_add_r by lia. f_equal. lia. }
  assert (Q : 2 ^ (Zdigits2 m - n - 1) <= m / 2 ^ n < 2 ^ (Zdigits2 m - n)).
  { split.
    - apply Z.div_le_lower_bound; [exact P|]. rewrite Z.mul_comm. lia.
    - apply Z.div_lt_upper_bound; [exact P|]. rewrite Z.mul_comm. lia. }
  assert (0 < 2 ^ (Zdigits2 m - n - 1)) by (apply Z.pow_pos_nonneg; lia).
  split; [lia|]. apply Zdigits2_unique; [lia|].
  replace (Zdigits2 m - n - 1) with (Zdigits2 m - n - 1) in Q by lia. exact Q.
Qed.

Lemma fexp_eq (t : Z) : fexp prec emax t = Z.max (t - 53) (-1074).
Proof. reflexivity. Qed.

Lemma Zdigits2_le (a b : Z) : 0 < a -> a <= b -> Zdigits2 a <= Zdigits2 b.
Proof.
  intros Ha Hab.
  pose proof (Zdigits2_bounds a Ha) as [La Ua].
  pose proof (Zdigits2_bounds b ltac:(lia)) as [Lb Ub].
  destruct (Z.le_gt_cases (Zdigits2 a) (Zdigits2 b)) as [|G]; [assumption|].
  assert (2 ^ Zdigits2 b <= 2 ^ (Zdigits2 a - 1))
    by (apply Z.pow_le_mono_r; lia).
  lia.
Qed.

(** The digits of a successor: one more only at a power of two. *)
Lemma Zdigits2_succ (a : Z) :
  0 < a ->
  Zdigits2 (a + 1) = Zdigits2 a \/
  (Zdigits2 (a + 1) = Zdigits2 a + 1 /\ a + 1 = 2 ^ Zdigits2 a).
Proof.
  intros Ha. pose proof (Zdigits2_bounds a Ha) as [La Ua].
  destruct (Z.eq_dec (a + 1) (2 ^ Zdigits2 a)) as [E|N].
  - right. split; [|exact E]. apply Zdigits2_unique; [lia|].
    replace (Zdigits2 a + 1 - 1) with (Zdigits2 a) by lia.
    rewrite Z.pow_add_r by (pose proof (Zdigits2_pos a Ha); lia).
    change (2 ^ 1) with 2. lia.
  - left. apply Zdigits2_unique; lia.
Qed.

Lemma binary_round_aux_spec (sx : bool) (mx ex : Z) (lx : location) :
  0 < mx ->
  0 <= fexp prec emax (Zdigits2 mx + ex) - ex ->
  exists m1 : Z,
    mx / 2 ^ (fexp prec emax (Zdigits2 mx + ex) - ex) <= m1
      <= mx / 2 ^ (fexp prec emax (Zdigits2 mx + ex) - ex) + 1 /\
    (lx = loc_Exact ->
     (2 ^ (fexp prec emax (Zdigits2 mx + ex) - ex) | mx) ->
     m1 = mx / 2 ^ (fexp prec emax (Zdigits2 mx + ex) - ex)) /\
    ((m1 = 0 /\ binary_round_aux prec emax sx mx ex lx = S754_zero sx) \/
     exists (m : positive) (k : Z),
       0 <= k <= 1 /\ Zpos m * 2 ^ k = m1 /\
       canonical_mantissa prec emax m
         (fexp prec emax (Zdigits2 mx + ex) + k) = true /\
       binary_round_aux prec emax sx mx ex lx =
         if fexp prec emax (Zdigits2 mx + ex) + k <=? emax - prec
         then S754_finite sx m (fexp prec emax (Zdigits2 mx + ex) + k)
         else S754_infinity sx).
Proof.
  intros Hm Hn.
  destruct (shr_fexp_spec mx ex lx ltac:(lia) Hn) as (S1 & S2 & S3).
  pose proof (shr_fexp_exact mx ex ltac:(lia)) as S4.
  unfold binary_round_aux.
  destruct (shr_fexp prec emax mx ex lx) as [mrs' e'] eqn:E1.
  cbn [fst snd] in S1, S2, S3. subst e'.
  assert (S5 : lx = loc_Exact ->
               (2 ^ (fexp prec emax (Zdigits2 mx + ex) - ex) | mx) ->
               loc_of_shr_record mrs' = loc_Exact).
  { intros L Dv. rewrite L in E1. rewrite E1 in S4. apply S4, Dv. }
  clear S4.
  set (e1 := fexp prec emax (Zdigits2 mx + ex)) in *.
  set (n := e1 - ex) in *.
  set (m' := mx / 2 ^ n) in *.
  assert (Hm' : 0 <= m') by (apply Z.div_pos; [lia|apply Z.pow_pos_nonneg; lia]).
  destruct (round_nearest_even_bounds (shr_m mrs') (loc_of_shr_record mrs'))
    as (R1 & R2).
  set (m1 := round_nearest_even (shr_m mrs') (loc_of_shr_record mrs')) in *.
  rewrite S1 in R1, R2.
  exists m1. split; [exact R1|]. split.
  { intros L Dv. apply R2, S5; assumption. }
  destruct (Z.eq_dec m1 0) as [Z|NZ].
  - left. split; [exact Z|]. rewrite Z.
    unfold shr_fexp, shr. cbn [Zdigits2 shr_record_of_loc].
    destruct (fexp prec emax (0 + e1) - e1) as [|p|p]; cbn [shr_m];
      try reflexivity.
    rewrite iter_shr_m by (cbn [shr_m]; lia). reflexivity.
  - right.
    assert (P1 : 0 < m1) by lia.
    (* the second shift is by zero or by one *)
    assert (K : 0 <= fexp prec emax (Zdigits2 m1 + e1) - e1 <= 1 /\
                exists m : positive,
                  Zpos m * 2 ^ (fexp prec emax (Zdigits2 m1 + e1) - e1) = m1).
    { destruct (Z.eq_dec m' 0) as [Z'|NZ'].
      - (* everything was shifted out: the smallest subnormal *)
        assert (M1 : m1 = 1) by lia.
        assert (mx < 2 ^ n).
        { destruct (Z.lt_ge_cases mx (2 ^ n)) as [|G]; [assumption|].
          assert (1 <= mx / 2 ^ n).
          { apply Z.div_le_lower_bound; [apply Z.pow_pos_nonneg; lia|lia]. }
          unfold m' in Z'. lia. }
        pose proof (Zdigits2_bounds mx Hm) as [Lo _].
        assert (Zdigits2 mx <= n).
        { destruct (Z.le_gt_cases (Zdigits2 mx) n) as [|G]; [assumption|].
          assert (2 ^ n <= 2 ^ (Zdigits2 mx - 1))
            by (apply Z.pow_le_mono_r; lia).
          lia. }
        rewrite M1.
        assert (E : fexp prec emax (Zdigits2 1 + e1) - e1 = 0).
        { unfold n, e1 in *. rewrite !fexp_eq in *. simpl Zdigits2. lia. }
        rewrite E. split; [lia|]. exists 1%positive. reflexivity.
      - assert (P' : 0 < m') by lia.
        assert (n < Zdigits2 mx).
        { pose proof (Zdigits2_bounds mx Hm) as [_ Hi].
          destruct (Z.lt_ge_cases n (Zdigits2 mx)) as [|G]; [assumption|].
          assert (2 ^ Zdigits2 mx <= 2 ^ n) by (apply Z.pow_le_mono_r; lia).
          assert (mx / 2 ^ n = 0) by (apply Z.div_small; lia).
          unfold m' in NZ'. lia. }
        destruct (Zdigits2_div_pow mx n Hm Hn ltac:(lia)) as (_ & D').
        fold m' in D'.
        assert (C : m1 = m' \/ m1 = m' + 1) by lia.
        destruct C as [C|C].
        + rewrite C, D'.
          replace (fexp prec emax (Zdigits2 mx - n + e1) - e1) with 0.
          * split; [lia|]. exists (Z.to_pos m'). rewrite Z2Pos.id by lia.
            simpl. lia.
          * unfold e1, n. rewrite !fexp_eq. unfold n, e1 in *.
            rewrite !fexp_eq in *. lia.
        + destruct (Zdigits2_succ m' P') as [D|(D & Pw)].
          * rewrite C, D, D'.
            replace (fexp prec emax (Zdigits2 mx - n + e1) - e1) with 0.
            -- split; [lia|]. exists (Z.to_pos (m' + 1)).
               rewrite Z2Pos.id by lia. simpl. lia.
            -- unfold e1, n. rewrite !fexp_eq. unfold n, e1 in *.
               rewrite !fexp_eq in *. lia.
          * rewrite C, D, D'.
            assert (R : fexp prec emax (Zdigits2 mx - n + 1 + e1) - e1 = 0 \/
                        fexp prec emax (Zdigits2 mx - n + 1 + e1) - e1 = 1).
            { unfold e1, n. rewrite !fexp_eq. unfold n, e1 in *.
              rewrite !fexp_eq in *. lia. }
            destruct R as [R|R]; rewrite R.
            -- split; [lia|]. exists (Z.to_pos (m' + 1)).
               rewrite Z2Pos.id by lia. simpl. lia.
            -- split; [lia|]. exists (Z.to_pos (2 ^ (Zdigits2 m' - 1))).
               rewrite Z2Pos.id by (apply Z.pow_pos_nonneg;
                                    pose proof (Zdigits2_pos m' P'); lia).
               rewrite Pw. rewrite <- Z.pow_add_r
                 by (pose proof (Zdigits2_pos m' P'); lia).
               f_equal. lia. }
    destruct K as (K1 & m & K2).
    set (k := fexp prec emax (Zdigits2 m1 + e1) - e1) in *.
    destruct (shr_fexp_spec m1 e1 loc_Exact ltac:(lia) ltac:(lia))
      as (T1 & T2 & _).
    fold k in T1.
    destruct (shr_fexp prec emax m1 e1 loc_Exact) as [mrs'' e''] eqn:E2.
    cbn [fst snd] in T1, T2.
    assert (Q : m1 / 2 ^ k = Zpos m).
    { rewrite <- K2. apply Z.div_mul.
      assert (0 < 2 ^ k) by (apply Z.pow_pos_nonneg; lia). lia. }
    rewrite T1, Q.
    exists m, k. split; [exact K1|]. split; [exact K2|].
    assert (Ee : e'' = e1 + k) by (unfold k; lia).
    rewrite Ee. split; [|reflexivity].
    unfold canonical_mantissa. apply Z.eqb_eq.
    change (Zpos (digits2_pos m)) with (Zdigits2 (Zpos m)).
    rewrite <- Q.
    assert (Dk : Zdigits2 (m1 / 2 ^ k) = Zdigits2 m1 - k).
    { assert (k < Zdigits2 m1).
      { pose proof (Zdigits2_pos m1 P1).
        destruct (Z.eq_dec k 0) as [K0|K0]; [lia|].
        assert (Hk : k = 1) by lia.
        destruct (Z.eq_dec (Zdigits2 m1) 1) as [D1|]; [|lia].
        exfalso. pose proof (Zdigits2_bounds m1 P1) as [_ U].
        rewrite D1 in U. change (2 ^ 1) with 2 in U.
        rewrite Hk in K2. change (2 ^ 1) with 2 in K2. lia. }
      apply Zdigits2_div_pow; lia. }
    rewrite Dk.
    replace (Zdigits2 m1 - k + (e1 + k)) with (Zdigits2 m1 + e1) by lia.
    unfold k. lia.
Qed.

Lemma iter_xO (p d : positive) :
  Zpos (Pos.iter xO p d) = Zpos p * 2 ^ Zpos d.
Proof.
  induction d as [|d IH] using Pos.peano_ind.
  - simpl. lia.
  - rewrite Pos.iter_succ, Pos2Z.inj_succ, Z.pow_succ_r by lia.
    change (Zpos (Pos.iter xO p d)~0) with (2 * Zpos (Pos.iter xO p d)).
    rewrite IH. ring.
Qed.

Lemma Zdigits2_mul_pow (m n : Z) :
  0 < m -> 0 <= n -> Zdigits2 (m * 2 ^ n) = Zdigits2 m + n.
Proof.
  intros Hm Hn. pose proof (Zdigits2_bounds m Hm) as [Lo Hi].
  pose proof (Zdigits2_pos m Hm).
  assert (P : 0 < 2 ^ n) by (apply Z.pow_pos_nonneg; lia).
  apply Zdigits2_unique; [nia|].
  replace (Zdigits2 m + n - 1) with (Zdigits2 m - 1 + n) by lia.
  rewrite !Z.pow_add_r by lia. nia.
Qed.

Lemma Zdigits2_lt_pow (m k : Z) : 0 < m -> m < 2 ^ k -> Zdigits2 m <= k.
Proof.
  intros Hm Hk. pose proof (Zdigits2_bounds m Hm) as [Lo _].
  destruct (Z.le_gt_cases (Zdigits2 m) k) as [|G]; [assumption|].
  assert (0 <= k).
  { destruct (Z.le_gt_cases 0 k); [assumption|].
    rewrite Z.pow_neg_r in Hk by lia. lia. }
  assert (2 ^ k <= 2 ^ (Zdigits2 m - 1)) by (apply Z.pow_le_mono_r; lia).
  lia.
Qed.

Lemma digits_after_round (mz n m1 : Z) :
  0 < mz -> 0 <= n -> m1 <= mz / 2 ^ n + 1 -> 0 < m1 ->
  Zdigits2 m1 <= Z.max (Zdigits2 mz - n + 1) 1.
Proof.
  intros Hm Hn H1 P1.
  pose proof (Zdigits2_bounds mz Hm) as [_ U].
  assert (P : 0 < 2 ^ n) by (apply Z.pow_pos_nonneg; lia).
  destruct (Z.lt_ge_cases n (Zdigits2 mz)) as [L|G].
  - assert (Q : mz / 2 ^ n < 2 ^ (Zdigits2 mz - n)).
    { apply Z.div_lt_upper_bound; [exact P|].
      rewrite <- Z.pow_add_r by lia.
      replace (n + (Zdigits2 mz - n)) with (Zdigits2 mz) by lia. exact U. }
    assert (Q1 : m1 < 2 ^ (Zdigits2 mz - n + 1)).
    { rewrite Z.pow_add_r by lia. change (2 ^ 1) with 2. lia. }
    pose proof (Zdigits2_lt_pow m1 _ P1 Q1). lia.
  - assert (Q : 2 ^ Zdigits2 mz <= 2 ^ n) by (apply Z.pow_le_mono_r; lia).
    assert (Q0 : mz / 2 ^ n = 0) by (apply Z.div_small; lia).
    assert (Q1 : m1 = 1) by lia. rewrite Q1. simpl. lia.
Qed.

(** [binary_round] on a mantissa below [2 ^ T]. *)
Lemma binary_round_below (s : bool) (p : positive) (e T : Z) :
  Zpos (digits2_pos p) + e <= T -> -1074 <= T -> T + 1 <= 1024 ->
  below (T + 1) (binary_round prec emax s p e).
Proof.
  intros HT HT0 HT'. unfold binary_round, shl_align.
  set (d := Zpos (digits2_pos p)) in *.
  assert (A : exists mz ez,
             (match fexp prec emax (d + e) - e with
              | Zneg dd => (Pos.iter xO p dd, fexp prec emax (d + e))
              | _ => (p, e)
              end) = (mz, ez) /\
             Zdigits2 (Zpos mz) + ez = d + e /\
             0 <= fexp prec emax (Zdigits2 (Zpos mz) + ez) - ez).
  { destruct (fexp prec emax (d + e) - e) as [|q|q] eqn:E.
    - exists p, e. split; [reflexivity|]. split; [reflexivity|].
      change (Zdigits2 (Zpos p)) with d. lia.
    - exists p, e. split; [reflexivity|]. split; [reflexivity|].
      change (Zdigits2 (Zpos p)) with d. lia.
    - eexists _, _. split; [reflexivity|].
      rewrite iter_xO, Zdigits2_mul_pow by lia.
      change (Zdigits2 (Zpos p)) with d.
      assert (Zpos q = e - fexp prec emax (d + e)) by lia.
      split; [lia|].
      replace (d + Zpos q + fexp prec emax (d + e)) with (d + e) by lia.
      lia. }
  destruct A as (mz & ez & -> & Top & Hn).
  destruct (binary_round_aux_spec s (Zpos mz) ez loc_Exact ltac:(lia) Hn)
    as (m1 & (_ & B1) & _ & [(_ & ->)|(m & k & Hk & Hmk & C & ->)]).
  - exact I.
  - assert (P1 : 0 < m1).
    { rewrite <- Hmk. assert (0 < 2 ^ k) by (apply Z.pow_pos_nonneg; lia).
      lia. }
    pose proof (digits_after_round (Zpos mz) _ m1 ltac:(lia) Hn B1 P1) as D1.
    assert (Dm : Zdigits2 m1 = Zpos (digits2_pos m) + k).
    { rewrite <- Hmk. apply (Zdigits2_mul_pow (Zpos m) k); lia. }
    rewrite Top in *.
    pose proof C as C'. unfold canonical_mantissa in C'.
    apply Z.eqb_eq in C'. rewrite !fexp_eq in *.
    assert (Le : (Z.max (d + e - 53) (-1074) + k <=? emax - prec) = true).
    { apply Z.leb_le. change (emax - prec) with 971. lia. }
    rewrite Le. unfold below, SpecFloat.valid_binary, bounded.
    rewrite C, Le. split; [reflexivity|lia].
Qed.

Lemma binary_normalize_below (m e T : Z) (sz : bool) :
  Zdigits2 m + e <= T -> -1074 <= T -> T + 1 <= 1024 ->
  below (T + 1) (binary_normalize prec emax m e sz).
Proof.
  intros HT HT0 HT'. destruct m as [|p|p]; cbn [binary_normalize].
  - exact I.
  - apply binary_round_below; assumption.
  - apply binary_round_below; assumption.
Qed.

Lemma below_valid (T : Z) (x : spec_float) :
  below T x -> valid_binary x = true.
Proof. destruct x; simpl; intros H; try reflexivity; tauto. Qed.

Lemma below_weaken (T T' : Z) (x : spec_float) :
  T <= T' -> below T x -> below T' x.
Proof. destruct x; simpl; intros L H; try tauto. split; [tauto|lia]. Qed.

Lemma Zdigits2_abs_lt_pow (z k : Z) :
  0 <= k -> Z.abs z < 2 ^ k -> Zdigits2 z <= k.
Proof.
  intros Hk H. destruct z as [|p|p]; cbn [Zdigits2]; [exact Hk| |].
  - apply (Zdigits2_lt_pow (Zpos p)); lia.
  - apply (Zdigits2_lt_pow (Zpos p)); lia.
Qed.

Lemma shl_align_fst (m : positive) (e ez : Z) :
  ez <= e -> Zpos (fst (shl_align m e ez)) = Zpos m * 2 ^ (e - ez).
Proof.
  intros L. unfold shl_align.
  destruct (ez - e) as [|q|q] eqn:E; cbn [fst]; try lia.
  - replace (e - ez) with 0 by lia. simpl. lia.
  - rewrite iter_xO. f_equal. f_equal. lia.
Qed.

(** The difference of two floats below [2 ^ T] is below [2 ^ (T + 2)]. *)
Lemma SFsub_below (x y : spec_float) (T : Z) :
  below T x -> below T y -> -1074 <= T -> T + 2 <= 1024 ->
  below (T + 2) (SFsub prec emax x y).
Proof.
  intros Hx Hy L U.
  destruct x as [sx|sx| |sx mx ex], y as [sy|sy| |sy my ey];
    try contradiction.
  - destruct sx, sy; exact I.
  - destruct Hy as (Vy & Ty). cbn [SFsub below]. split; [exact Vy|lia].
  - apply (below_weaken T); [lia|exact Hx].
  - destruct Hx as (_ & Tx), Hy as (_ & Ty). cbn [SFsub].
    replace (T + 2) with (T + 1 + 1) by lia.
    apply binary_normalize_below; try lia.
    set (ez := Z.min ex ey).
    rewrite !shl_align_fst by (unfold ez; lia).
    pose proof (digits2_bounds mx) as [_ Ux].
    pose proof (digits2_bounds my) as [_ Uy].
    assert (Px : 0 < 2 ^ (ex - ez)) by (apply Z.pow_pos_nonneg; unfold ez; lia).
    assert (Py : 0 < 2 ^ (ey - ez)) by (apply Z.pow_pos_nonneg; unfold ez; lia).
    assert (Bx : Zpos mx * 2 ^ (ex - ez) < 2 ^ (T - ez)).
    { apply Z.lt_le_trans with (2 ^ Zpos (digits2_pos mx) * 2 ^ (ex - ez));
        [nia|].
      rewrite <- Z.pow_add_r by (unfold ez; lia).
      apply Z.pow_le_mono_r; lia. }
    assert (By : Zpos my * 2 ^ (ey - ez) < 2 ^ (T - ez)).
    { apply Z.lt_le_trans with (2 ^ Zpos (digits2_pos my) * 2 ^ (ey - ez));
        [nia|].
      rewrite <- Z.pow_add_r by (unfold ez; lia).
      apply Z.pow_le_mono_r; lia. }
    assert (Tz : 0 <= T - ez) by (unfold ez; lia).
    enough (Zdigits2
              (cond_Zopp sx (Zpos mx * 2 ^ (ex - ez))
               - cond_Zopp sy (Zpos my * 2 ^ (ey - ez))) <= T - ez + 1) by lia.
    apply Zdigits2_abs_lt_pow; [lia|].
    rewrite Z.pow_add_r by lia. change (2 ^ 1) with 2.
    unfold cond_Zopp. destruct sx, sy; lia.
Qed.

Lemma in_range_digits (z : Z) :
  - 2 ^ 63 <= z <= 2 ^ 63 - 1 -> Zdigits2 z <= 64.
Proof.
  intros H. apply Zdigits2_abs_lt_pow; [lia|].
  change (2 ^ 64) with 18446744073709551616.
  change (2 ^ 63) with 9223372036854775808 in H. lia.
Qed.

(** The quotient of two positive integers [a < b], rounded: at most one. *)
Lemma SFdiv_below_one (a b : positive) :
  Zpos a < Zpos b -> Zpos (digits2_pos b) <= 1000 ->
  exists (m : positive) (e : Z),
    SFdiv prec emax (S754_finite false a 0) (S754_finite false b 0)
      = S754_finite false m e /\
    valid_binary (S754_finite false m e) = true /\
    (e < -52 \/ (e = -52 /\ Zpos m <= 2 ^ 52)).
Proof.
  intros Hab Hb.
  pose proof (digits2_bounds a) as [La Ua].
  pose proof (digits2_bounds b) as [Lb Ub].
  assert (Dab : Zpos (digits2_pos a) <= Zpos (digits2_pos b)).
  { apply (Zdigits2_le (Zpos a) (Zpos b)); lia. }
  set (d1 := Zpos (digits2_pos a)) in *.
  set (d2 := Zpos (digits2_pos b)) in *.
  unfold SFdiv, SFdiv_core_binary. cbn [Zdigits2 xorb]. fold d1 d2.
  replace (Z.min (fexp prec emax (d1 + 0 - (d2 + 0))) (0 - 0))
    with (d1 - d2 - 53) by (rewrite fexp_eq; lia).
  set (s := 53 + d2 - d1).
  replace (0 - 0 - (d1 - d2 - 53)) with s by (unfold s; lia).
  assert (Hs : 0 < s) by (unfold s; lia).
  destruct s as [|sp|sp] eqn:Es; try lia. rewrite <- Es in *.
  rewrite Z.shiftl_mul_pow2 by lia.
  assert (P2 : 0 < 2 ^ s) by (apply Z.pow_pos_nonneg; lia).
  pose proof (Z.div_eucl_eq (Zpos a * 2 ^ s) (Zpos b) ltac:(lia)) as DE.
  pose proof (Z.mod_pos_bound (Zpos a * 2 ^ s) (Zpos b) ltac:(lia)) as MB.
  unfold Z.modulo in MB.
  destruct (Z.div_eucl (Zpos a * 2 ^ s) (Zpos b)) as [q r] eqn:Eq.
  (* the quotient has 53 or 54 digits *)
  assert (Qhi : q < 2 ^ s) by nia.
  assert (Qlo : 2 ^ 52 <= q).
  { assert (E1 : 2 ^ (d1 - 1 + s) = 2 ^ d2 * 2 ^ 52).
    { rewrite <- Z.pow_add_r by lia. f_equal. unfold s. lia. }
    assert (E2 : 2 ^ (d1 - 1 + s) = 2 ^ (d1 - 1) * 2 ^ s).
    { rewrite <- Z.pow_add_r by lia. reflexivity. }
    assert (P52 : 0 < 2 ^ 52) by reflexivity.
    assert (Zpos b * 2 ^ 52 <= Zpos a * 2 ^ s) by nia.
    nia. }
  assert (Pq : 0 < q) by (assert (0 < 2 ^ 52) by reflexivity; lia).
  assert (Dq : 53 <= Zdigits2 q <= s).
  { split.
    - change 53 with (Zdigits2 (2 ^ 52)). apply Zdigits2_le; [reflexivity|].
      exact Qlo.
    - apply Zdigits2_lt_pow; assumption. }
  assert (Hn : fexp prec emax (Zdigits2 q + (d1 - d2 - 53)) - (d1 - d2 - 53)
               = Zdigits2 q - 53) by (rewrite fexp_eq; lia).
  destruct (binary_round_aux_spec false q (d1 - d2 - 53)
              (new_location (Zpos b) r) Pq ltac:(lia))
    as (m1 & (B0 & B1) & _ & [(Z1 & _)|(m & k & Hk & Hmk & C & ->)]).
  - exfalso. rewrite Hn in B0.
    assert (0 < q / 2 ^ (Zdigits2 q - 53)).
    { apply (Zdigits2_div_pow q (Zdigits2 q - 53)); lia. }
    lia.
  - rewrite Hn in B1.
    replace (fexp prec emax (Zdigits2 q + (d1 - d2 - 53)))
      with (Zdigits2 q - 53 + (d1 - d2 - 53)) in * by lia.
    set (n := Zdigits2 q - 53) in *.
    set (e := n + (d1 - d2 - 53) + k) in *.
    assert (Le : (e <=? emax - prec) = true).
    { apply Z.leb_le. change (emax - prec) with 971. unfold e, n. lia. }
    rewrite Le. exists m, e. split; [reflexivity|].
    split.
    { unfold SpecFloat.valid_binary, bounded. rewrite C, Le. reflexivity. }
    (* the mantissa is at most [2 ^ (- e)] and has 53 digits *)
    assert (W : 0 <= s - n - k) by (unfold n; lia).
    assert (Pn : 0 < 2 ^ n) by (apply Z.pow_pos_nonneg; unfold n; lia).
    assert (Q1 : q / 2 ^ n < 2 ^ (s - n)).
    { apply Z.div_lt_upper_bound; [exact Pn|].
      rewrite <- Z.pow_add_r by (unfold n; lia).
      replace (n + (s - n)) with s by lia. exact Qhi. }
    assert (M1 : Zpos m * 2 ^ k <= 2 ^ (s - n - k) * 2 ^ k).
    { rewrite <- Z.pow_add_r by lia.
      replace (s - n - k + k) with (s - n) by lia. lia. }
    assert (Pk : 0 < 2 ^ k) by (apply Z.pow_pos_nonneg; lia).
    assert (M2 : Zpos m <= 2 ^ (s - n - k)) by nia.
    assert (Ee : - e = s - n - k) by (unfold e, s; lia).
    unfold canonical_mantissa in C. apply Z.eqb_eq in C.
    rewrite fexp_eq in C.
    assert (D53 : Zpos (digits2_pos m) = 53) by (unfold e, n in *; lia).
    pose proof (digits2_bounds m) as [Lm _]. rewrite D53 in Lm.
    change (2 ^ (53 - 1)) with (2 ^ 52) in Lm.
    assert (52 <= s - n - k).
    { destruct (Z.le_gt_cases 52 (s - n - k)) as [|G]; [assumption|].
      assert (2 ^ (s - n - k) < 2 ^ 52)
        by (apply Z.pow_lt_mono_r; lia).
      lia. }
    destruct (Z.eq_dec e (-52)) as [E52|]; [|left; lia].
    right. split; [exact E52|].
    replace (s - n - k) with 52 in M2 by lia. exact M2.
Qed.

(** *** Integers that need no rounding *)

Lemma binary_round_exact (s : bool) (q p : positive) (j : Z) :
  0 <= j -> Zpos (digits2_pos q) <= 53 -> Zpos p = Zpos q * 2 ^ j ->
  binary_round prec emax s p (- j) = canon_pos s q.
Proof.
  intros Hj Hd Hp. unfold binary_round, shl_align, canon_pos.
  set (d := Zpos (digits2_pos q)) in *.
  assert (D1 : 1 <= d) by (unfold d; lia).
  assert (Dp : Zpos (digits2_pos p) = d + j).
  { change (Zpos (digits2_pos p)) with (Zdigits2 (Zpos p)). rewrite Hp.
    apply (Zdigits2_mul_pow (Zpos q) j); lia. }
  rewrite Dp.
  replace (fexp prec emax (d + j + - j)) with (d - 53)
    by (rewrite fexp_eq; lia).
  set (M := Zpos q * 2 ^ (53 - d)).
  assert (P53 : 0 < 2 ^ (53 - d)) by (apply Z.pow_pos_nonneg; lia).
  assert (PM : 0 < M) by (unfold M; nia).
  assert (DM : Zdigits2 M = 53).
  { unfold M. rewrite Zdigits2_mul_pow by lia.
    change (Zdigits2 (Zpos q)) with d. lia. }
  assert (A : exists mz ez,
             (match d - 53 - - j with
              | Zneg dd => (Pos.iter xO p dd, d - 53)
              | _ => (p, - j)
              end) = (mz, ez) /\
             fexp prec emax (Zdigits2 (Zpos mz) + ez) = d - 53 /\
             0 <= d - 53 - ez /\
             Zpos mz = M * 2 ^ (d - 53 - ez)).
  { assert (Fp : fexp prec emax (Zdigits2 (Zpos p) + - j) = d - 53).
    { change (Zdigits2 (Zpos p)) with (Zpos (digits2_pos p)).
      rewrite Dp, fexp_eq. lia. }
    assert (Ep : d - 53 - - j >= 0 -> Zpos p = M * 2 ^ (d - 53 - - j)).
    { intros G. unfold M. rewrite Hp, <- Z.mul_assoc, <- Z.pow_add_r by lia.
      do 2 f_equal. lia. }
    destruct (d - 53 - - j) as [|dd|dd] eqn:E.
    - exists p, (- j). split; [reflexivity|]. split; [exact Fp|].
      split; [lia|]. rewrite (Ep ltac:(lia)). do 2 f_equal. lia.
    - exists p, (- j). split; [reflexivity|]. split; [exact Fp|].
      split; [lia|]. rewrite (Ep ltac:(lia)). do 2 f_equal. lia.
    - eexists _, _. split; [reflexivity|].
      assert (Ei : Zpos (Pos.iter xO p dd) = M).
      { rewrite iter_xO, Hp. unfold M.
        rewrite <- Z.mul_assoc, <- Z.pow_add_r by lia. do 2 f_equal. lia. }
      rewrite Ei, DM, fexp_eq. split; [lia|]. split; [lia|].
      replace (d - 53 - (d - 53)) with 0 by lia. simpl. lia. }
  destruct A as (mz & ez & -> & Fz & Hn & Ez).
  destruct (binary_round_aux_spec s (Zpos mz) ez loc_Exact ltac:(lia)
              ltac:(lia))
    as (m1 & _ & X & [(Z1 & _)|(m & k & Hk & Hmk & C & ->)]).
  - exfalso. rewrite Fz in X.
    assert (Dv : (2 ^ (d - 53 - ez) | Zpos mz))
      by (exists M; exact Ez).
    specialize (X eq_refl Dv). rewrite Ez, Z.div_mul in X
      by (assert (0 < 2 ^ (d - 53 - ez)) by (apply Z.pow_pos_nonneg; lia);
          lia).
    lia.
  - rewrite Fz in *.
    assert (Dv : (2 ^ (d - 53 - ez) | Zpos mz))
      by (exists M; exact Ez).
    specialize (X eq_refl Dv). rewrite Ez, Z.div_mul in X
      by (assert (0 < 2 ^ (d - 53 - ez)) by (apply Z.pow_pos_nonneg; lia);
          lia).
    assert (K0 : k = 0).
    { unfold canonical_mantissa in C. apply Z.eqb_eq in C.
      rewrite fexp_eq in C.
      assert (Dk : Zdigits2 (Zpos m * 2 ^ k) = Zdigits2 (Zpos m) + k)
        by (apply Zdigits2_mul_pow; lia).
      rewrite Hmk, X, DM in Dk. cbn [Zdigits2] in Dk. lia. }
    rewrite K0 in *. rewrite Z.add_0_r.
    replace (d - 53 <=? emax - prec) with true
      by (symmetry; apply Z.leb_le; change (emax - prec) with 971; lia).
    f_equal. apply Pos2Z.inj. rewrite Z2Pos.id by exact PM.
    rewrite <- X, <- Hmk. simpl. lia.
Qed.

Lemma cond_Zopp_mul (s : bool) (a b : Z) :
  cond_Zopp s a * b = cond_Zopp s (a * b).
Proof. destruct s; simpl; ring. Qed.

Lemma binary_normalize_exact (z j : Z) (sz : bool) :
  0 <= j -> Z.abs z < 2 ^ 53 -> z <> 0 ->
  binary_normalize prec emax (z * 2 ^ j) (- j) sz = canon z.
Proof.
  intros Hj Hz Nz.
  assert (P : 0 < 2 ^ j) by (apply Z.pow_pos_nonneg; lia).
  destruct z as [|q|q]; [congruence| |].
  - assert (Dq : Zpos (digits2_pos q) <= 53)
      by (apply (Zdigits2_lt_pow (Zpos q)); lia).
    destruct (Zpos q * 2 ^ j) as [|p|p] eqn:E; try nia.
    cbn [binary_normalize canon]. apply binary_round_exact; auto.
  - assert (Dq : Zpos (digits2_pos q) <= 53)
      by (apply (Zdigits2_lt_pow (Zpos q)); lia).
    destruct (Zneg q * 2 ^ j) as [|p|p] eqn:E; try nia.
    cbn [binary_normalize canon]. apply binary_round_exact; auto. nia.
Qed.

Lemma canon_mantissa (s : bool) (q : positive) :
  Zpos (digits2_pos q) <= 53 ->
  exists m : positive,
    canon_pos s q = S754_finite s m (Zpos (digits2_pos q) - 53) /\
    Zpos m = Zpos q * 2 ^ (53 - Zpos (digits2_pos q)) /\
    Zpos (digits2_pos m) = 53.
Proof.
  intros Hd. unfold canon_pos.
  assert (P : 0 < 2 ^ (53 - Zpos (digits2_pos q)))
    by (apply Z.pow_pos_nonneg; lia).
  exists (Z.to_pos (Zpos q * 2 ^ (53 - Zpos (digits2_pos q)))).
  split; [reflexivity|]. rewrite Z2Pos.id by nia. split; [reflexivity|].
  change (Zpos (digits2_pos (Z.to_pos (Zpos q * 2 ^ (53 - Zpos (digits2_pos q))))))
    with (Zdigits2 (Zpos (Z.to_pos (Zpos q * 2 ^ (53 - Zpos (digits2_pos q)))))).
  rewrite Z2Pos.id by nia. rewrite Zdigits2_mul_pow by lia.
  cbn [Zdigits2]. lia.
Qed.

Lemma canon_pos_valid (s : bool) (q : positive) :
  Zpos (digits2_pos q) <= 53 -> valid_binary (canon_pos s q) = true.
Proof.
  intros Dq. destruct (canon_mantissa s q Dq) as (m & -> & _ & D).
  unfold SpecFloat.valid_binary, bounded, canonical_mantissa.
  rewrite D, fexp_eq. apply andb_true_intro.
  split; [apply Z.eqb_eq|apply Z.leb_le]; change (emax - prec) with 971; lia.
Qed.

Lemma canon_valid (z : Z) : Z.abs z < 2 ^ 53 -> valid_binary (canon z) = true.
Proof.
  intros Hz. destruct z as [|q|q]; [reflexivity| |]; cbn [canon];
    apply canon_pos_valid; apply (Zdigits2_lt_pow (Zpos q)); lia.
Qed.

Lemma SFsub_exact_finite (sa sb : bool) (p q : positive) :
  Zpos (digits2_pos p) <= 53 -> Zpos (digits2_pos q) <= 53 ->
  Z.abs (cond_Zopp sa (Zpos p) - cond_Zopp sb (Zpos q)) < 2 ^ 53 ->
  SFsub prec emax (canon_pos sa p) (canon_pos sb q)
  = canon (cond_Zopp sa (Zpos p) - cond_Zopp sb (Zpos q)).
Proof.
  intros Dp Dq Hab.
  destruct (canon_mantissa sa p Dp) as (ma & -> & Ema & _).
  destruct (canon_mantissa sb q Dq) as (mb & -> & Emb & _).
  cbn [SFsub].
  set (ea := Zpos (digits2_pos p) - 53) in *.
  set (eb := Zpos (digits2_pos q) - 53) in *.
  set (ez := Z.min ea eb).
  rewrite !shl_align_fst by (unfold ez; lia).
  rewrite Ema, Emb.
  assert (Pa : Zpos p * 2 ^ (53 - Zpos (digits2_pos p)) * 2 ^ (ea - ez)
               = Zpos p * 2 ^ (- ez)).
  { rewrite <- Z.mul_assoc, <- Z.pow_add_r by (unfold ea, ez; lia).
    do 2 f_equal. unfold ea. lia. }
  assert (Pb : Zpos q * 2 ^ (53 - Zpos (digits2_pos q)) * 2 ^ (eb - ez)
               = Zpos q * 2 ^ (- ez)).
  { rewrite <- Z.mul_assoc, <- Z.pow_add_r by (unfold eb, ez; lia).
    do 2 f_equal. unfold eb. lia. }
  rewrite Pa, Pb, <- !cond_Zopp_mul, <- Z.mul_sub_distr_r.
  set (c := cond_Zopp sa (Zpos p) - cond_Zopp sb (Zpos q)) in *.
  destruct (Z.eq_dec c 0) as [Z0|NZ]; [rewrite Z0; reflexivity|].
  replace ez with (- - ez) at 2 by lia.
  apply binary_normalize_exact; [unfold ez, ea, eb; lia|exact Hab|exact NZ].
Qed.

(** The difference of two such integers, when it is one. *)
Lemma SFsub_exact (a b : Z) :
  Z.abs a < 2 ^ 53 -> Z.abs b < 2 ^ 53 -> Z.abs (a - b) < 2 ^ 53 ->
  SFsub prec emax (canon a) (canon b) = canon (a - b).
Proof.
  intros Ha Hb Hab.
  destruct a as [|p|p], b as [|q|q]; try reflexivity;
    try (simpl (_ - _); cbn [canon]; unfold canon_pos; reflexivity).
  - apply (SFsub_exact_finite false false p q); try exact Hab;
      [apply (Zdigits2_lt_pow (Zpos p)) | apply (Zdigits2_lt_pow (Zpos q))];
      lia.
  - apply (SFsub_exact_finite false true p q); try exact Hab;
      [apply (Zdigits2_lt_pow (Zpos p)) | apply (Zdigits2_lt_pow (Zpos q))];
      lia.
  - apply (SFsub_exact_finite true false p q); try exact Hab;
      [apply (Zdigits2_lt_pow (Zpos p)) | apply (Zdigits2_lt_pow (Zpos q))];
      lia.
  - apply (SFsub_exact_finite true true p q); try exact Hab;
      [apply (Zdigits2_lt_pow (Zpos p)) | apply (Zdigits2_lt_pow (Zpos q))];
      lia.
Qed.

Lemma canon_one : canon 1 = Prim2SF 1.
Proof. reflexivity. Qed.

(** Above one. *)
Lemma SFltb_one_canon (g : Z) :
  Z.abs g < 2 ^ 53 -> SFltb (canon 1) (canon g) = (1 <? g).
Proof.
  intros Hg. destruct g as [|q|q]; try reflexivity.
  assert (Dq : Zpos (digits2_pos q) <= 53)
    by (apply (Zdigits2_lt_pow (Zpos q)); lia).
  cbn [canon]. destruct (canon_mantissa false q Dq) as (m & -> & Em & _).
  change (canon_pos false 1) with (S754_finite false 4503599627370496 (-52)).
  unfold SFltb, SFcompare.
  destruct (Z.eq_dec (Zpos q) 1) as [E1|N1].
  - injection E1 as ->. cbn [digits2_pos] in *. simpl in Em.
    replace m with 4503599627370496%positive by lia. reflexivity.
  - assert (2 <= Zpos (digits2_pos q)).
    { pose proof (digits2_bounds q) as [_ U].
      destruct (Z.eq_dec (Zpos (digits2_pos q)) 1) as [E|]; [|lia].
      rewrite E in U. change (2 ^ 1) with 2 in U. lia. }
    replace (-52 ?= Zpos (digits2_pos q) - 53) with Lt
      by (symmetry; apply Z.compare_lt_iff; lia).
    symmetry. apply Z.ltb_lt. lia.
Qed.

End Rounding.

(** ** The floats of the program are finite *)

Lemma of_Z_below (z : Z) :
  Int64.in_range z -> below 65 (Prim2SF (F64.of_Z z)).
Proof.
  intros R.
  assert (B : below (64 + 1) (binary_normalize prec emax z 0 false)).
  { apply Rounding.binary_normalize_below; try lia.
    rewrite Z.add_0_r. apply Rounding.in_range_digits. exact R. }
  unfold F64.of_Z.
  rewrite Prim2SF_SF2Prim by (eapply Rounding.below_valid, B). exact B.
Qed.

Lemma sub_below (x y : float) (T : Z) :
  below T (Prim2SF x) -> below T (Prim2SF y) ->
  (-1074 <= T)%Z -> (T + 2 <= 1024)%Z ->
  below (T + 2) (Prim2SF (x - y)).
Proof. rewrite sub_spec. apply Rounding.SFsub_below. Qed.

Lemma trunc_below (x : float) (T : Z) :
  below T (Prim2SF x) -> exists z : Z, F64.trunc x = Some z.
Proof.
  unfold F64.trunc. destruct (Prim2SF x); simpl; intros H;
    try contradiction; eexists; reflexivity.
Qed.

Lemma one_below : below 1 (Prim2SF 1).
Proof. vm_compute. split; [reflexivity|discriminate]. Qed.

(** Python's quotient of two integers [0 <= a < b]: a float between zero
    and one. *)
Lemma int_true_div_unit (a b : Z) :
  (0 <= a < b)%Z -> (b <= 2 ^ 64)%Z ->
  (0 <=? F64.int_true_div a b) = true /\
  (F64.int_true_div a b <=? 1) = true.
Proof.
  intros Hab Hb. unfold F64.int_true_div.
  destruct b as [|b|b]; try lia.
  destruct a as [|a|a]; try lia.
  - split; reflexivity.
  - assert (Db : (Zpos (digits2_pos b) <= 1000)%Z).
    { assert (Zdigits2 (Zpos b) <= 65)%Z.
      { apply Rounding.Zdigits2_lt_pow; [lia|].
        change (2 ^ 65)%Z with (2 * 2 ^ 64)%Z. lia. }
      simpl in H. lia. }
    destruct (Rounding.SFdiv_below_one a b ltac:(lia) Db)
      as (m & e & E & V & B).
    cbn [F64.Z2SF]. rewrite E, !leb_spec, (Prim2SF_SF2Prim _ V).
    split; [reflexivity|].
    apply FloatFacts.SFleb_rank.
    split; [discriminate|]. split; [discriminate|].
    change (Prim2SF 1) with (S754_finite false 4503599627370496 (-52)).
    cbn [FloatOrder.rank FloatOrder.lex_le].
    change (2 ^ 52)%Z with 4503599627370496%Z in B. lia.
Qed.

(** ** The floats of small integers are exact *)

Lemma of_Z_canon (z : Z) :
  (Z.abs z < 2 ^ 53)%Z -> Prim2SF (F64.of_Z z) = canon z.
Proof.
  intros Hz. unfold F64.of_Z.
  assert (E : binary_normalize prec emax z 0 false = canon z).
  { destruct (Z.eq_dec z 0) as [->|N]; [reflexivity|].
    replace z with (z * 2 ^ 0)%Z at 1 by (simpl; lia).
    apply (Rounding.binary_normalize_exact z 0 false); [lia|exact Hz|exact N]. }
  rewrite E. apply Prim2SF_SF2Prim, Rounding.canon_valid, Hz.
Qed.

Lemma sub_canon (x y : float) (a b : Z) :
  Prim2SF x = canon a -> Prim2SF y = canon b ->
  (Z.abs a < 2 ^ 53)%Z -> (Z.abs b < 2 ^ 53)%Z ->
  (Z.abs (a - b) < 2 ^ 53)%Z ->
  Prim2SF (x - y) = canon (a - b).
Proof.
  intros Ex Ey Ha Hb Hab. rewrite sub_spec, Ex, Ey.
  apply Rounding.SFsub_exact; assumption.
Qed.

Lemma isna_canon (x : float) (z : Z) :
  Prim2SF x = canon z -> F64.isna x = false.
Proof.
  intros E. apply FloatFacts.isna_number. unfold FloatOrder.number.
  rewrite E. destruct z; discriminate.
Qed.

Lemma gtb_one_canon (x : float) (g : Z) :
  Prim2SF x = canon g -> (Z.abs g < 2 ^ 53)%Z ->
  F64.gtb x 1 = (g >? 1)%Z.
Proof.
  intros E Hg. unfold F64.gtb.
  rewrite ltb_spec, E, <- Rounding.canon_one, Z.gtb_ltb.
  apply Rounding.SFltb_one_canon, Hg.
Qed.

Lemma trunc_canon (x : float) (z : Z) :
  Prim2SF x = canon z -> (Z.abs z < 2 ^ 53)%Z -> F64.trunc x = Some z.
Proof.
  intros E Hz. unfold F64.trunc. rewrite E.
  destruct z as [|q|q]; [reflexivity| |];
    (assert (Dq : (Zpos (digits2_pos q) <= 53)%Z)
       by (apply (Rounding.Zdigits2_lt_pow (Zpos q)); lia));
    cbn [canon];
    [destruct (Rounding.canon_mantissa false q Dq) as (m & -> & Em & _)
    |destruct (Rounding.canon_mantissa true q Dq) as (m & -> & Em & _)];
    (destruct (Zpos (digits2_pos q) - 53)%Z as [|e|e] eqn:Ee; [| lia |];
     [ replace (53 - Zpos (digits2_pos q))%Z with 0%Z in Em by lia;
       simpl in Em; f_equal; simpl; lia
     | replace (53 - Zpos (digits2_pos q))%Z with (Zpos e) in Em by lia;
       rewrite Em, Z.div_mul
         by (assert (0 < 2 ^ Zpos e)%Z by (apply Z.pow_pos_nonneg; lia);
             lia);
       reflexivity ]).
Qed.

(** ** The derivation stage *)

Lemma assign_cons (set : Row -> float -> Row) (c : float)
  (col : list float) (r : Row) (w : DataFrame) :
  Pandas.assign set (c :: col) (r :: w) = set r c :: Pandas.assign set col w.
Proof. reflexivity. Qed.

Lemma derive_rows_eq (t : Z) (p : float) (w : DataFrame) :
  Pandas.assign Pandas.set_abs_dev
    (map (fun x => abs (x - p))
       (map iat_ms
          (Pandas.assign Pandas.set_iat
             (map (fun d => d / 1e6) (Pandas.diff_from t (map ts_rx_ns w)))
             w)))
    (Pandas.assign Pandas.set_iat
       (map (fun d => d / 1e6) (Pandas.diff_from t (map ts_rx_ns w))) w)
  = derive_rows (Some t) p w.
Proof.
  revert t. induction w as [|r w IH]; intros t.
  - reflexivity.
  - cbn [map Pandas.diff_from]. rewrite assign_cons.
    cbn [map]. rewrite assign_cons.
    cbn [derive_rows]. rewrite IH. reflexivity.
Qed.

Lemma derive_eq (f : DataFrame) (p : float) :
  derive f p = derive_rows None p (Pandas.sort_by_ts f).
Proof.
  unfold derive. destruct (Pandas.sort_by_ts f) as [|r w].
  - reflexivity.
  - cbn [map Pandas.diff]. rewrite assign_cons.
    cbn [map]. rewrite assign_cons.
    cbn [derive_rows]. rewrite derive_rows_eq. reflexivity.
Qed.

Lemma derive_rows_length (prev : option Z) (p : float) (l : list Row) :
  length (derive_rows prev p l) = length l.
Proof.
  revert prev. induction l as [|r l IH]; intros prev; simpl; auto.
Qed.

(** Row [S i] of the derived rows, from rows [i] and [S i] of the table. *)
Lemma derive_rows_nth (prev : option Z) (p : float) (l : list Row)
  (i : nat) (q r : Row) :
  nth_error l i = Some q ->
  nth_error l (S i) = Some r ->
  nth_error (derive_rows prev p l) (S i) =
    Some (mkRow (ts_rx_ns r) (seq r) (stream_id r)
            (F64.of_Z (Int64.sub64 (ts_rx_ns r) (ts_rx_ns q)) / 1e6)
            (abs (F64.of_Z (Int64.sub64 (ts_rx_ns r) (ts_rx_ns q)) / 1e6
                  - p))).
Proof.
  revert prev i. induction l as [|a l IH]; intros prev i Hq Hr.
  - destruct i; discriminate Hq.
  - destruct i as [|i].
    + simpl in Hq. injection Hq as ->. destruct l as [|b l]; [discriminate Hr|].
      simpl in Hr. injection Hr as ->. reflexivity.
    + simpl in Hq. change (nth_error l (S i) = Some r) in Hr.
      simpl. apply (IH (Some (ts_rx_ns a)) i Hq Hr).
Qed.

Lemma derive_rows_first (p : float) (l : list Row) (r : Row) :
  nth_error l 0%nat = Some r ->
  nth_error (derive_rows None p l) 0%nat =
    Some (mkRow (ts_rx_ns r) (seq r) (stream_id r) nan nan).
Proof.
  destruct l as [|a l]; [discriminate|]. simpl. intros E. injection E as ->.
  change (nan / 1e6) with nan. rewrite FloatFacts.sub_nan_l.
  reflexivity.
Qed.

(** Sorting a table that is in arrival order changes nothing. *)
Lemma insert_by_ts_head (r : Row) (l : list Row) :
  Forall (fun b => (ts_rx_ns r <= ts_rx_ns b)%Z) l ->
  Pandas.insert_by_ts r l = r :: l.
Proof.
  destruct l as [|x l]; [reflexivity|]. intros F. simpl.
  inversion F as [|? ? Hx _]; subst.
  apply Z.leb_le in Hx. rewrite Hx. reflexivity.
Qed.

Lemma sort_by_ts_ordered (f : DataFrame) :
  ordered f -> Pandas.sort_by_ts f = f.
Proof.
  induction 1 as [|r l Hs IH Hr]; [reflexivity|].
  unfold Pandas.sort_by_ts in *. simpl. rewrite IH.
  apply insert_by_ts_head, Hr.
Qed.

(** Where the int64 difference is the difference. *)
Lemma ascending_ordered (f : DataFrame) :
  StronglySorted (fun a b => (ts_rx_ns a < ts_rx_ns b)%Z) f -> ordered f.
Proof.
  unfold ordered. induction 1 as [|r l _ IH F]; constructor; [exact IH|].
  eapply Forall_impl; [|exact F]. cbn beta. intros b. lia.
Qed.

(** C6. On a table whose timestamps climb from row to row, no two of them
    further apart than int64 holds, the derivation stage raises nothing and
    leaves a working table that has the rows of the input, in their order:
    its first row has [nan] for [iat_ms] and for [abs_dev_ms]; row [i > 0]
    has for [iat_ms] the difference of the timestamps of rows [i] and
    [i - 1], an integer, turned into the nearest binary64 and divided by
    [1e6], and for [abs_dev_ms] the absolute value of
    [iat_ms - expected_period_ms]. *)
Theorem derivation_stage_spec (h : heap) (df : ref) (f : DataFrame)
  (expected_period_ms : float) :
  nth_error h df = Some f ->
  StronglySorted (fun a b => (ts_rx_ns a < ts_rx_ns b)%Z) f ->
  (forall (j : nat) (q r : Row),
     nth_error f j = Some q -> nth_error f (S j) = Some r ->
     (ts_rx_ns r - ts_rx_ns q <= Int64.max_int)%Z) ->
  exists (work : ref) (h' : heap) (w : DataFrame),
    derivation_stage df expected_period_ms h = (Ok work, h') /\
    nth_error h' work = Some w /\
    length w = length f /\
    forall (i : nat) (r : Row),
      nth_error f i = Some r ->
      exists r' : Row,
        nth_error w i = Some r' /\
        ts_rx_ns r' = ts_rx_ns r /\
        seq r' = seq r /\
        stream_id r' = stream_id r /\
        match i with
        | O => iat_ms r' = nan /\ abs_dev_ms r' = nan
        | S j =>
            exists q : Row,
              nth_error f j = Some q /\
              iat_ms r' =
                SF2Prim (binary_normalize prec emax
                           (ts_rx_ns r - ts_rx_ns q) 0 false) / 1e6 /\
              abs_dev_ms r' = abs (iat_ms r' - expected_period_ms)
        end.
Proof.
  intros E Asc Fit.
  eexists _, _, (derive f expected_period_ms).
  split; [apply derivation_stage_run, E|].
  split; [apply nth_error_snoc|].
  rewrite derive_eq, (sort_by_ts_ordered f (ascending_ordered f Asc)).
  split; [apply derive_rows_length|].
  intros [|j] r Hr.
  - eexists. split; [apply derive_rows_first, Hr|]. simpl. auto.
  - destruct (nth_error f j) as [q|] eqn:Hq.
    + eexists. split; [apply (derive_rows_nth _ _ _ _ q r Hq Hr)|].
      cbn [ts_rx_ns seq stream_id iat_ms abs_dev_ms].
      repeat split. exists q. split; [reflexivity|].
      assert (Lt : (ts_rx_ns q < ts_rx_ns r)%Z).
      { clear - Asc Hq Hr. revert j Hq Hr.
        induction Asc as [|a l _ IH F]; intros j Hq Hr;
          [destruct j; discriminate Hq|].
        destruct j as [|j].
        - cbn [nth_error] in Hq, Hr. injection Hq as ->.
          rewrite Forall_forall in F. apply F.
          destruct l as [|b l]; [discriminate Hr|].
          injection Hr as ->. left. reflexivity.
        - apply (IH j); assumption. }
      specialize (Fit j q r Hq Hr).
      assert (X : Int64.sub64 (ts_rx_ns r) (ts_rx_ns q)
                  = (ts_rx_ns r - ts_rx_ns q)%Z).
      { unfold Int64.sub64, Int64.wrap.
        unfold Int64.max_int in Fit. rewrite Z.mod_small; lia. }
      rewrite X. split; reflexivity.
    + exfalso. apply nth_error_None in Hq.
      assert (S j < length f)%nat by (apply nth_error_Some; congruence). lia.
Qed.

Lemma derivation_stage_spec_witness :
  let f := [record 5 1 None; record 1000005 2 None;
            record 3500005 4 None] in
  nth_error [f] 0%nat = Some f /\
  StronglySorted (fun a b => (ts_rx_ns a < ts_rx_ns b)%Z) f /\
  (forall (j : nat) (q r : Row),
     nth_error f j = Some q -> nth_error f (S j) = Some r ->
     (ts_rx_ns r - ts_rx_ns q <= Int64.max_int)%Z) /\
  exists (work : ref) (h' : heap) (w : DataFrame),
    derivation_stage 0%nat 1 [f] = (Ok work, h') /\
    nth_error h' work = Some w /\
    length w = length f /\
    forall (i : nat) (r : Row),
      nth_error f i = Some r ->
      exists r' : Row,
        nth_error w i = Some r' /\
        ts_rx_ns r' = ts_rx_ns r /\
        seq r' = seq r /\
        stream_id r' = stream_id r /\
        match i with
        | O => iat_ms r' = nan /\ abs_dev_ms r' = nan
        | S j =>
            exists q : Row,
              nth_error f j = Some q /\
              iat_ms r' =
                SF2Prim (binary_normalize prec emax
                           (ts_rx_ns r - ts_rx_ns q) 0 false) / 1e6 /\
              abs_dev_ms r' = abs (iat_ms r' - 1)
        end.
Proof.
  intros f.
  assert (Asc : StronglySorted (fun a b => (ts_rx_ns a < ts_rx_ns b)%Z) f).
  { unfold f. repeat constructor; cbn [ts_rx_ns record]; lia. }
  assert (Fit : forall (j : nat) (q r : Row),
             nth_error f j = Some q -> nth_error f (S j) = Some r ->
             (ts_rx_ns r - ts_rx_ns q <= Int64.max_int)%Z).
  { intros [|[|[|j]]] q r Hq Hr; cbn in Hq, Hr;
      try discriminate Hr; injection Hq as <-; injection Hr as <-;
      cbn [ts_rx_ns record]; unfold Int64.max_int; lia. }
  split; [reflexivity|]. split; [exact Asc|]. split; [exact Fit|].
  apply (derivation_stage_spec [f] 0%nat f 1 eq_refl Asc Fit).
Defined.

(** C6, as it is stated, fails on two timestamps further apart than int64
    holds: the table is in arrival order and the period is above zero, but
    the int64 difference of line 55 wraps around, and [iat_ms] of the later
    row is below zero, not the quotient of the difference by [1e6]. *)
Lemma derivation_stage_wraps_counterexample :
  let f := [record (-9223372036854775808) 1 None; record 0 2 None] in
  ordered f /\ (0 <? 1)%float = true /\
  exists (work : ref) (h' : heap) (w : DataFrame) (r' : Row),
    derivation_stage 0%nat 1 [f] = (Ok work, h') /\
    nth_error h' work = Some w /\
    nth_error w 1%nat = Some r' /\
    (iat_ms r' <? 0)%float = true /\
    iat_ms r' <>
      SF2Prim (binary_normalize prec emax
                 (0 - (-9223372036854775808)) 0 false) / 1e6.
Proof.
  intros f. split.
  { unfold f, ordered. repeat constructor. cbn [ts_rx_ns record]. lia. }
  split; [reflexivity|].
  eexists _, _, _, _.
  split; [apply (derivation_stage_run [f] 0%nat f 1 eq_refl)|].
  split; [apply nth_error_snoc|].
  split; [vm_compute; reflexivity|].
  split; [vm_compute; reflexivity|].
  intros E. apply (f_equal (fun x => (x <? 0)%float)) in E.
  vm_compute in E. discriminate E.
Qed.

Lemma sub64_exact (a b : Z) :
  Int64.in_range (a - b) -> Int64.sub64 a b = (a - b)%Z.
Proof.
  unfold Int64.in_range, Int64.min_int, Int64.max_int, Int64.sub64,
    Int64.wrap.
  intros H. rewrite Z.mod_small; lia.
Qed.

(** ** The whole call *)

Section Call.

Variable red : Reductions.

Lemma compute_metrics_run (h : heap) (df : ref) (f : DataFrame)
  (p : float) (ths : list float) (sf : float) :
  nth_error h df = Some f ->
  compute_metrics red df p ths sf h =
    (match analyze red (derive f p) p ths sf with
     | Ok r =>
         Ok (fst r, length ((h ++ [f]) ++ [Pandas.sort_by_ts f]), snd r)
     | Raise e => Raise e
     end,
     ((h ++ [f]) ++ [Pandas.sort_by_ts f]) ++ [derive f p]).
Proof.
  intros E. unfold compute_metrics, bind.
  rewrite (derivation_stage_run h df f p E).
  unfold load, lift, ret. rewrite nth_error_snoc.
  destruct (analyze red (derive f p) p ths sf); reflexivity.
Qed.

Lemma run_compute_metrics_eq (f : DataFrame) (p : float)
  (ths : list float) (sf : float) :
  run_compute_metrics red f p ths sf =
    match analyze red (derive f p) p ths sf with
    | Ok r => Ok (fst r, derive f p, snd r)
    | Raise e => Raise e
    end.
Proof.
  unfold run_compute_metrics.
  rewrite (compute_metrics_run [f] 0%nat f p ths sf eq_refl).
  destruct (analyze red (derive f p) p ths sf) as [[s ev]|e];
    reflexivity.
Qed.

(** C8. A call of [compute_metrics] leaves every table of the caller as it
    was, cell for cell and row for row, the table it was given among
    them, whether the call returns or raises: what it writes, it writes
    to the tables it allocated. *)
Theorem compute_metrics_preserves_input (h : heap) (df : ref)
  (f : DataFrame) (p : float) (ths : list float) (sf : float) :
  nth_error h df = Some f ->
  exists fresh : heap,
    snd (compute_metrics red df p ths sf h) = h ++ fresh /\
    nth_error (snd (compute_metrics red df p ths sf h)) df = Some f.
Proof.
  intros E. rewrite (compute_metrics_run h df f p ths sf E). simpl.
  exists [f; Pandas.sort_by_ts f; derive f p].
  split.
  - rewrite <- !app_assoc. reflexivity.
  - now repeat apply nth_error_keep.
Qed.

(** C1, the empty table. [int(seq.min())] raises on it. *)
Theorem compute_metrics_empty_raises (p : float) (ths : list float)
  (sf : float) :
  run_compute_metrics red [] p ths sf = Raise ValueError.
Proof. rewrite run_compute_metrics_eq. reflexivity. Qed.

End Call.

Lemma compute_metrics_preserves_input_witness :
  let f := [record 5 1 None; record 0 2 None] in
  nth_error [f] 0%nat = Some f /\
  exists fresh : heap,
    snd (compute_metrics Sequential.reductions 0%nat 1 [1; 5] 2 [f])
      = [f] ++ fresh /\
    nth_error
      (snd (compute_metrics Sequential.reductions 0%nat 1 [1; 5] 2 [f]))
      0%nat = Some f.
Proof.
  intros f. split; [reflexivity|].
  apply (compute_metrics_preserves_input Sequential.reductions [f] 0%nat f
           1 [1; 5] 2 eq_refl).
Defined.

(** ** Sorting by timestamp *)

Lemma insert_by_ts_perm (r : Row) (l : list Row) :
  Permutation (Pandas.insert_by_ts r l) (r :: l).
Proof.
  induction l as [|x l IH]; simpl.
  - apply Permutation_refl.
  - destruct (ts_rx_ns r <=? ts_rx_ns x)%Z.
    + apply Permutation_refl.
    + eapply perm_trans; [apply perm_skip, IH | apply perm_swap].
Qed.

Lemma sort_by_ts_perm (l : list Row) : Permutation (Pandas.sort_by_ts l) l.
Proof.
  induction l as [|r l IH]; simpl.
  - apply perm_nil.
  - eapply perm_trans; [apply insert_by_ts_perm | apply perm_skip, IH].
Qed.

Lemma insert_by_ts_ordered (r : Row) (l : list Row) :
  ordered l -> ordered (Pandas.insert_by_ts r l).
Proof.
  unfold ordered. induction 1 as [|x l Hs IH Hx]; simpl.
  - repeat constructor.
  - destruct (ts_rx_ns r <=? ts_rx_ns x)%Z eqn:E.
    + apply Z.leb_le in E. constructor; [constructor; assumption|].
      constructor; [assumption|].
      eapply Forall_impl; [|exact Hx]. simpl. intros; lia.
    + apply Z.leb_gt in E. constructor; [assumption|].
      eapply Permutation_Forall.
      * apply Permutation_sym, insert_by_ts_perm.
      * constructor; [lia | assumption].
Qed.

Lemma sort_by_ts_is_ordered (l : list Row) : ordered (Pandas.sort_by_ts l).
Proof.
  induction l as [|r l IH]; simpl.
  - constructor.
  - apply insert_by_ts_ordered, IH.
Qed.

(** Two tables in arrival order with the same rows are the same table, when
    no two rows have the same timestamp. *)
Lemma ordered_unique (l1 l2 : list Row) :
  ordered l1 -> ordered l2 -> Permutation l1 l2 ->
  NoDup (map ts_rx_ns l1) -> l1 = l2.
Proof.
  intros H1. revert l2. induction H1 as [|a l1 Hs1 IH Ha]; intros l2 H2 P N.
  - apply Permutation_nil in P. congruence.
  - destruct H2 as [|b l2 Hs2 Hb].
    + apply Permutation_sym, Permutation_nil in P. discriminate P.
    + assert (a = b) as <-.
      { assert (Ia : In a (b :: l2))
          by (eapply Permutation_in; [exact P | left; reflexivity]).
        assert (Ib : In b (a :: l1))
          by (eapply Permutation_in;
              [apply Permutation_sym, P | left; reflexivity]).
        destruct Ia as [Ia|Ia]; [congruence|].
        destruct Ib as [Ib|Ib]; [congruence|].
        exfalso.
        rewrite Forall_forall in Ha, Hb.
        specialize (Ha b Ib). specialize (Hb a Ia).
        simpl in N. inversion N as [|? ? Hn _]; subst.
        apply Hn. replace (ts_rx_ns a) with (ts_rx_ns b) by lia.
        apply in_map, Ib. }
      f_equal. apply IH.
      * assumption.
      * eapply Permutation_cons_inv, P.
      * simpl in N. inversion N; assumption.
Qed.

Lemma sort_by_ts_permutation (l1 l2 : list Row) :
  Permutation l1 l2 -> NoDup (map ts_rx_ns l1) ->
  Pandas.sort_by_ts l1 = Pandas.sort_by_ts l2.
Proof.
  intros P N. apply ordered_unique.
  - apply sort_by_ts_is_ordered.
  - apply sort_by_ts_is_ordered.
  - eapply perm_trans; [apply sort_by_ts_perm|].
    eapply perm_trans; [exact P | apply Permutation_sym, sort_by_ts_perm].
  - eapply Permutation_NoDup; [|exact N].
    apply Permutation_map, Permutation_sym, sort_by_ts_perm.
Qed.

(** C3, as the code has it. Two tables that hold the same records give the
    same summary, the same working table and the same events, provided no
    two records have the same timestamp. *)
Theorem order_invariance_distinct_timestamps (red : Reductions)
  (l1 l2 : DataFrame) (p : float) (ths : list float) (sf : float) :
  Permutation l1 l2 ->
  NoDup (map ts_rx_ns l1) ->
  run_compute_metrics red l1 p ths sf = run_compute_metrics red l2 p ths sf.
Proof.
  intros P N. rewrite !run_compute_metrics_eq.
  assert (E : derive l1 p = derive l2 p).
  { unfold derive. rewrite (sort_by_ts_permutation l1 l2 P N). reflexivity. }
  rewrite E. reflexivity.
Qed.

Lemma order_invariance_distinct_timestamps_witness :
  let l1 := [record 0 1 None; record 1000000 2 None] in
  let l2 := [record 1000000 2 None; record 0 1 None] in
  Permutation l1 l2 /\ NoDup (map ts_rx_ns l1) /\
  run_compute_metrics Sequential.reductions l1 1 [1; 5] 2
  = run_compute_metrics Sequential.reductions l2 1 [1; 5] 2.
Proof.
  intros l1 l2.
  assert (P : Permutation l1 l2) by apply perm_swap.
  assert (N : NoDup (map ts_rx_ns l1)).
  { simpl. repeat constructor; simpl; intuition discriminate. }
  split; [exact P|]. split; [exact N|].
  apply (order_invariance_distinct_timestamps Sequential.reductions l1 l2
           1 [1; 5] 2 P N).
Defined.

(** C3, as it is stated, fails on two records that arrived at the same
    time: the tables [a] and [b] hold the same two records, and the call
    counts no record out of order in the one and one in the other. *)
Lemma order_invariance_counterexample :
  let a := [record 0 1 None; record 0 2 None] in
  let b := [record 0 2 None; record 0 1 None] in
  Permutation a b /\
  run_compute_metrics Sequential.reductions a 1 [1; 5] 2
  <> run_compute_metrics Sequential.reductions b 1 [1; 5] 2.
Proof.
  intros a b. split; [apply perm_swap|].
  intros E.
  apply (f_equal (fun r => match r with
                           | Ok (s, _, _) => Py.get "out_of_order" s
                           | Raise _ => None
                           end)) in E.
  vm_compute in E. discriminate E.
Qed.

(** ** Dictionaries *)

Lemma get_setitem_same {V : Type} (k : string) (v : V) (d : Py.dict V) :
  Py.get k (Py.setitem k v d) = Some v.
Proof.
  induction d as [|[k' v'] d IH]; simpl.
  - rewrite String.eqb_refl. reflexivity.
  - destruct (String.eqb k k') eqn:E; simpl; rewrite ?String.eqb_refl, ?E;
      auto.
Qed.

Lemma get_setitem_other {V : Type} (k k' : string) (v : V) (d : Py.dict V) :
  String.eqb k k' = false ->
  Py.get k (Py.setitem k' v d) = Py.get k d.
Proof.
  intros N. induction d as [|[k2 v2] d IH]; simpl.
  - rewrite N. reflexivity.
  - destruct (String.eqb k' k2) eqn:E; simpl.
    + apply String.eqb_eq in E. subst k2. rewrite N. reflexivity.
    + rewrite IH. reflexivity.
Qed.

Lemma keys_setitem {V : Type} (k : string) (v : V) (d : Py.dict V) :
  forall x, In x (keys (Py.setitem k v d)) -> x = k \/ In x (keys d).
Proof.
  unfold keys. induction d as [|[k' v'] d IH]; simpl; intros x H.
  - intuition.
  - destruct (String.eqb k k') eqn:E; simpl in H.
    + apply String.eqb_eq in E. subst. intuition.
    + destruct H as [H|H]; [auto|]. apply IH in H. intuition.
Qed.

Lemma NoDup_keys_setitem {V : Type} (k : string) (v : V) (d : Py.dict V) :
  NoDup (keys d) -> NoDup (keys (Py.setitem k v d)).
Proof.
  unfold keys. induction d as [|[k' v'] d IH]; simpl; intros N.
  - repeat constructor. intros [].
  - inversion N as [|? ? Hn Hd]; subst.
    destruct (String.eqb k k') eqn:E; simpl.
    + apply String.eqb_eq in E. subst. constructor; assumption.
    + constructor; [|apply IH, Hd].
      intros H. apply keys_setitem in H. destruct H as [H|H]; [|auto].
      subst. rewrite String.eqb_refl in E. discriminate E.
Qed.

Lemma get_not_in {V : Type} (k : string) (d : Py.dict V) :
  ~ In k (keys d) -> Py.get k d = None.
Proof.
  unfold keys. induction d as [|[k' v'] d IH]; simpl; intros N; [reflexivity|].
  destruct (String.eqb k k') eqn:E.
  - apply String.eqb_eq in E. subst. exfalso. auto.
  - apply IH. auto.
Qed.

(** The counts of the violations, once in the summary. *)
Lemma get_with_violations_other (k : string) (vio : Py.dict Z)
  (base : Summary) :
  ~ In k (keys vio) ->
  Py.get k (with_violations vio base) = Py.get k base.
Proof.
  unfold with_violations, keys. revert base.
  induction vio as [|[k' c] vio IH]; simpl; intros base N; [reflexivity|].
  rewrite IH by auto. apply get_setitem_other.
  destruct (String.eqb k k') eqn:E; [|reflexivity].
  apply String.eqb_eq in E. subst. exfalso. auto.
Qed.

Lemma get_with_violations (k : string) (c : Z) (vio : Py.dict Z)
  (base : Summary) :
  NoDup (keys vio) ->
  Py.get k vio = Some c ->
  Py.get k (with_violations vio base) = Some (Fmt.str c).
Proof.
  unfold with_violations, keys. revert base.
  induction vio as [|[k' c'] vio IH]; simpl; intros base N G;
    [discriminate G|].
  inversion N as [|? ? Hn Hd]; subst.
  destruct (String.eqb k k') eqn:E.
  - apply String.eqb_eq in E. subst k'. injection G as ->.
    change (Py.get k (with_violations vio (Py.setitem k (Fmt.str c) base))
            = Some (Fmt.str c)).
    rewrite get_with_violations_other by exact Hn.
    apply get_setitem_same.
  - apply IH; assumption.
Qed.

Lemma violation_counts_keys (col : list float) (ths : list float) :
  NoDup (keys (violation_counts col ths)) /\
  forall k, In k (keys (violation_counts col ths)) ->
            exists th, In th ths /\ k = violation_key th.
Proof.
  unfold violation_counts.
  assert (G : forall d : Py.dict Z,
             NoDup (keys d) ->
             (forall k, In k (keys d) ->
                        exists th, In th ths /\ k = violation_key th) ->
             forall l, incl l ths ->
             let d' :=
               fold_left
                 (fun d th =>
                    Py.setitem (violation_key th)
                      (Pandas.count (fun x => F64.gtb x th) col) d) l d in
             NoDup (keys d') /\
             forall k, In k (keys d') ->
                       exists th, In th ths /\ k = violation_key th).
  { intros d N K l. revert d N K.
    induction l as [|a l IH]; intros d N K I; simpl; [auto|].
    apply IH.
    - apply NoDup_keys_setitem, N.
    - intros k H. apply keys_setitem in H. destruct H as [->|H]; [|auto].
      exists a. split; [apply I; left|]; reflexivity.
    - intros x Hx. apply I. right. exact Hx. }
  apply (G [] (NoDup_nil _)).
  - intros k [].
  - apply incl_refl.
Qed.

(** The entry of a threshold whose name no other threshold has. *)
Lemma get_violation_counts (col : list float) (ths : list float)
  (t : float) :
  In t ths ->
  (forall a, In a ths -> violation_key a = violation_key t -> a = t) ->
  Py.get (violation_key t) (violation_counts col ths)
  = Some (Pandas.count (fun x => F64.gtb x t) col).
Proof.
  unfold violation_counts. intros I U.
  assert (G : forall l (d : Py.dict Z),
             incl l ths ->
             In t l \/ Py.get (violation_key t) d
                       = Some (Pandas.count (fun x => F64.gtb x t) col) ->
             Py.get (violation_key t)
               (fold_left
                  (fun d th =>
                     Py.setitem (violation_key th)
                       (Pandas.count (fun x => F64.gtb x th) col) d) l d)
             = Some (Pandas.count (fun x => F64.gtb x t) col)).
  { induction l as [|a l IH]; intros d Il H; simpl.
    - destruct H as [[]|H]. exact H.
    - assert (Ia : In a ths) by (apply Il; left; reflexivity).
      apply IH; [intros x Hx; apply Il; right; exact Hx|].
      destruct (String.eqb (violation_key t) (violation_key a)) eqn:E.
      + apply String.eqb_eq in E. right.
        rewrite (U a Ia (eq_sym E)). apply get_setitem_same.
      + destruct H as [[->|H]|H].
        * rewrite String.eqb_refl in E. discriminate E.
        * left. exact H.
        * right. rewrite get_setitem_other by exact E. exact H. }
  apply G; [apply incl_refl | left; exact I].
Qed.

(** ** The labels of the events *)

Lemma deviation_label_not_empty (t : float) :
  String.eqb (deviation_label t) "" = false.
Proof. reflexivity. Qed.

Lemma deviation_label_not_spike (t : float) :
  String.eqb (deviation_label t) "iat_spike" = false.
Proof. reflexivity. Qed.

Lemma mark_deviation_fst (th : float) (p : Row * string) :
  fst (mark_deviation th p) = fst p.
Proof.
  unfold mark_deviation.
  destruct (F64.gtb (abs_dev_ms (fst p)) th && String.eqb (snd p) "");
    reflexivity.
Qed.

Lemma relabel_fst (ths : list float) (p : Row * string) :
  fst (relabel ths p) = fst p.
Proof.
  unfold relabel. revert p. induction ths as [|t ths IH]; intros p; simpl.
  - reflexivity.
  - rewrite IH. apply mark_deviation_fst.
Qed.

(** A cell that holds a label keeps it. *)
Lemma relabel_labelled (ths : list float) (r : Row) (l : string) :
  String.eqb l "" = false -> relabel ths (r, l) = (r, l).
Proof.
  unfold relabel. intros N. induction ths as [|t ths IH]; simpl.
  - reflexivity.
  - unfold mark_deviation at 2. simpl. rewrite N, andb_false_r. exact IH.
Qed.

(** An empty cell takes the label of the first threshold, in the order of
    the passes, that the deviation exceeds. *)
Lemma relabel_empty (ths : list float) (r : Row) :
  relabel ths (r, ""%string) =
    (r, match find (fun t => F64.gtb (abs_dev_ms r) t) ths with
        | Some t => deviation_label t
        | None => ""%string
        end).
Proof.
  induction ths as [|t ths IH]; simpl.
  - reflexivity.
  - unfold relabel in *. simpl. unfold mark_deviation at 2. simpl.
    destruct (F64.gtb (abs_dev_ms r) t); simpl.
    + apply (relabel_labelled ths r (deviation_label t)).
      apply deviation_label_not_empty.
    + exact IH.
Qed.

Lemma final_label_eq (spike : float) (ths : list float) (r : Row) :
  final_label spike ths r =
    if F64.gtb (iat_ms r) spike then "iat_spike"%string
    else match find (fun t => F64.gtb (abs_dev_ms r) t)
                 (Py.sorted_reverse ths) with
         | Some t => deviation_label t
         | None => ""%string
         end.
Proof.
  unfold final_label, mark_spike. simpl.
  destruct (F64.gtb (iat_ms r) spike).
  - rewrite relabel_labelled; reflexivity.
  - rewrite relabel_empty. reflexivity.
Qed.

Lemma passes_rowwise (ths : list float) (ev : list (Row * string)) :
  fold_left (fun ev th => map (mark_deviation th) ev) ths ev
  = map (relabel ths) ev.
Proof.
  unfold relabel. revert ev. induction ths as [|t ths IH]; intros ev; simpl.
  - symmetry. apply map_id.
  - rewrite IH, map_map. reflexivity.
Qed.

Lemma label_events_rowwise (work : DataFrame) (spike : float)
  (ths : list float) :
  label_events work spike ths =
    filter (fun p => negb (String.eqb (snd p) ""))
      (map (fun r => (r, final_label spike ths r)) (with_iat work)).
Proof.
  unfold label_events, with_iat. rewrite passes_rowwise, !map_map.
  f_equal. apply map_ext. intros r. unfold final_label.
  rewrite (surjective_pairing (relabel _ _)) at 1.
  rewrite relabel_fst. unfold mark_spike. simpl.
  destruct (F64.gtb (iat_ms r) spike); reflexivity.
Qed.

Lemma timing_events_rowwise (work : DataFrame) (spike : float)
  (ths : list float) :
  timing_events work spike ths =
    flat_map (fun r => event_of r (final_label spike ths r)) (with_iat work).
Proof.
  unfold timing_events. rewrite label_events_rowwise.
  induction (with_iat work) as [|r l IH]; simpl; [reflexivity|].
  unfold event_of at 1.
  destruct (String.eqb (final_label spike ths r) ""); simpl; rewrite IH;
    reflexivity.
Qed.

(** *** The order of the passes *)

Lemma insert_desc_perm (x : float) (l : list float) :
  Permutation (Py.insert_desc x l) (x :: l).
Proof.
  induction l as [|y l IH]; simpl.
  - apply Permutation_refl.
  - destruct (x <? y).
    + eapply perm_trans; [apply perm_skip, IH | apply perm_swap].
    + apply Permutation_refl.
Qed.

Lemma sorted_reverse_perm (l : list float) :
  Permutation (Py.sorted_reverse l) l.
Proof.
  induction l as [|x l IH]; simpl.
  - apply perm_nil.
  - eapply perm_trans; [apply insert_desc_perm | apply perm_skip, IH].
Qed.

Lemma lt_le (x y : float) : FloatOrder.lt x y -> FloatOrder.le x y.
Proof.
  unfold FloatOrder.lt, FloatOrder.le, FloatOrder.lex_lt, FloatOrder.lex_le.
  intros (Nx & Ny & H). repeat split; try assumption.
  destruct (FloatOrder.rank (Prim2SF x)) as [[? ?] ?],
    (FloatOrder.rank (Prim2SF y)) as [[? ?] ?]. lia.
Qed.

Lemma insert_desc_descending (x : float) (l : list float) :
  FloatOrder.number x -> Forall FloatOrder.number l ->
  descending l -> descending (Py.insert_desc x l).
Proof.
  unfold descending. intros Nx Nl H.
  induction H as [|y l Hs IH Hy]; simpl.
  - repeat constructor.
  - inversion Nl as [|? ? Ny Nl']; subst.
    destruct (x <? y) eqn:E.
    + constructor; [apply IH, Nl'|].
      eapply Permutation_Forall;
        [apply Permutation_sym, insert_desc_perm|].
      constructor; [|exact Hy].
      apply lt_le, FloatFacts.ltb_lt, E.
    + assert (Hyx : FloatOrder.le y x).
      { apply FloatFacts.not_lt_le; try assumption.
        rewrite <- FloatFacts.ltb_lt, E. discriminate. }
      constructor; [constructor; assumption|].
      constructor; [exact Hyx|].
      eapply Forall_impl; [|exact Hy]. simpl.
      intros a Ha. eapply FloatFacts.le_trans; eassumption.
Qed.

Lemma sorted_reverse_descending (l : list float) :
  Forall FloatOrder.number l -> descending (Py.sorted_reverse l).
Proof.
  induction 1 as [|x l Nx Nl IH]; simpl.
  - constructor.
  - apply insert_desc_descending; [exact Nx| |exact IH].
    eapply Permutation_Forall; [apply Permutation_sym, sorted_reverse_perm|].
    exact Nl.
Qed.

(** The first match of a descending list is a largest match. *)
Lemma find_descending (P : float -> bool) (l : list float) (t : float) :
  Forall FloatOrder.number l -> descending l ->
  find P l = Some t ->
  In t l /\ P t = true /\
  forall t', In t' l -> P t' = true -> FloatOrder.le t' t.
Proof.
  unfold descending. intros N H. induction H as [|y l Hs IH Hy]; simpl.
  - discriminate.
  - inversion N as [|? ? Ny Nl]; subst.
    destruct (P y) eqn:E.
    + intros F. injection F as <-. split; [left; reflexivity|].
      split; [exact E|].
      intros t' [<-|I] _; [apply FloatFacts.le_refl, Ny|].
      rewrite Forall_forall in Hy. apply Hy, I.
    + intros F. destruct (IH Nl F) as (I & Pt & M).
      split; [right; exact I|]. split; [exact Pt|].
      intros t' [<-|I'] Pt'; [congruence|]. apply M; assumption.
Qed.

Lemma find_none (P : float -> bool) (l : list float) :
  find P l = None -> forall t, In t l -> P t = false.
Proof.
  induction l as [|y l IH]; simpl; [intros _ t []|].
  destruct (P y) eqn:E; [discriminate|].
  intros F t [<-|I]; [exact E | apply IH; assumption].
Qed.

Lemma final_label_classified (spike : float) (ths : list float) (r : Row) :
  Forall FloatOrder.number ths ->
  classified spike ths r (final_label spike ths r).
Proof.
  intros N. rewrite final_label_eq.
  destruct (F64.gtb (iat_ms r) spike) eqn:S; [constructor; exact S|].
  assert (Ns : Forall FloatOrder.number (Py.sorted_reverse ths)).
  { eapply Permutation_Forall; [apply Permutation_sym, sorted_reverse_perm|].
    exact N. }
  destruct (find _ (Py.sorted_reverse ths)) as [t|] eqn:F.
  - destruct (find_descending _ _ _ Ns (sorted_reverse_descending ths N) F)
      as (I & Pt & M).
    apply classified_deviation; try assumption.
    + eapply Permutation_in; [apply sorted_reverse_perm | exact I].
    + intros t' I' Pt'. apply FloatFacts.leb_le, M; [|exact Pt'].
      eapply Permutation_in; [apply Permutation_sym, sorted_reverse_perm|].
      exact I'.
  - apply classified_none; [exact S|].
    intros t I. apply (find_none _ _ F).
    eapply Permutation_in; [apply Permutation_sym, sorted_reverse_perm|].
    exact I.
Qed.

(** C2. Every record that has an inter-arrival time gets one label, and so
    at most one event: [iat_spike] when the inter-arrival time is above the
    cut; or else the label of a largest threshold among those that the
    deviation exceeds; or else the empty label, and no event. The thresholds
    are numbers: none is [nan]. *)
Theorem classifier_spec (work : DataFrame) (spike_iat_ms : float)
  (dev_thresholds_ms : list float) :
  Forall FloatOrder.number dev_thresholds_ms ->
  exists labels : list string,
    Forall2 (classified spike_iat_ms dev_thresholds_ms) (with_iat work)
      labels /\
    timing_events work spike_iat_ms dev_thresholds_ms =
      flat_map (fun p => event_of (fst p) (snd p))
        (combine (with_iat work) labels).
Proof.
  intros N.
  exists (map (final_label spike_iat_ms dev_thresholds_ms) (with_iat work)).
  split.
  - induction (with_iat work) as [|r l IH]; simpl; constructor.
    + apply final_label_classified, N.
    + exact IH.
  - rewrite timing_events_rowwise.
    induction (with_iat work) as [|r l IH]; simpl; [reflexivity|].
    rewrite IH. reflexivity.
Qed.

Lemma classifier_spec_witness :
  let work :=
    derive [record 0 1 None; record 1000000 2 None; record 31000000 3 None;
            record 40500000 4 None] 10 in
  Forall FloatOrder.number [1; 5] /\
  exists labels : list string,
    Forall2 (classified 20 [1; 5]) (with_iat work) labels /\
    timing_events work 20 [1; 5] =
      flat_map (fun p => event_of (fst p) (snd p))
        (combine (with_iat work) labels).
Proof.
  intros work.
  assert (N : Forall FloatOrder.number [1; 5]).
  { repeat constructor; intros E; vm_compute in E; discriminate E. }
  split; [exact N|].
  apply (classifier_spec work 20 [1; 5] N).
Defined.

(** ** The summary and the events of a call *)

Lemma burst_events_type (work : DataFrame) (bursts : list Burst)
  (es : list Event) :
  burst_events work bursts = Ok es ->
  Forall (fun e => event_type e = "missing_burst"%string) es.
Proof.
  revert es. induction bursts as [|b bursts IH]; simpl; intros es H.
  - injection H as <-. constructor.
  - destruct (iloc work (Z.to_nat (index b))) as [r|]; [|discriminate H].
    simpl in H.
    destruct (burst_events work bursts) as [es'|]; [|discriminate H].
    simpl in H. injection H as <-. constructor; [reflexivity|].
    apply IH. reflexivity.
Qed.

(** What a call that returns has returned. *)
Lemma analyze_inv (red : Reductions) (w : DataFrame) (p : float)
  (ths : list float) (sf : float) (s : Summary) (ev : list Event) :
  analyze red w p ths sf = Ok (s, ev) ->
  exists (i : Integrity) (bev : list Event) (x y : string),
    integrity (map seq w) = Ok i /\
    ev = timing_events w (p * sf) ths ++ bev /\
    Forall (fun e => event_type e = "missing_burst"%string) bev /\
    s = Py.setitem "missing_burst_max" x
          (Py.setitem "missing_bursts_count" y
             (with_violations (violation_counts (map abs_dev_ms w) ths)
                (base_summary red w p sf i))).
Proof.
  unfold analyze. intros H.
  destruct (integrity (map seq w)) as [i|]; [|discriminate H].
  cbn [bindR] in H.
  destruct (estimate_missing_bursts (map seq w)) as [bursts|];
    [|discriminate H].
  cbn [bindR] in H.
  destruct (nonempty bursts).
  - destruct (burst_events w bursts) as [bev|] eqn:B; [|discriminate H].
    cbn [bindR] in H.
    destruct (Py.int (Pandas.max (map missing_count bursts))) as [m|];
      [|discriminate H].
    cbn [bindR] in H. injection H as <- <-.
    exists i, bev, (Fmt.str m), (Fmt.str (len bursts)).
    split; [reflexivity|]. split; [reflexivity|].
    split; [eapply burst_events_type, B|]. reflexivity.
  - cbn [bindR] in H. injection H as <- <-.
    exists i, [], "0"%string, "0"%string.
    split; [reflexivity|]. split; [symmetry; apply app_nil_r|].
    split; [constructor|]. reflexivity.
Qed.

Lemma run_inv (red : Reductions) (f : DataFrame) (p : float)
  (ths : list float) (sf : float) (s : Summary) (w : DataFrame)
  (ev : list Event) :
  run_compute_metrics red f p ths sf = Ok (s, w, ev) ->
  w = derive f p /\ analyze red w p ths sf = Ok (s, ev).
Proof.
  rewrite run_compute_metrics_eq.
  destruct (analyze red (derive f p) p ths sf) as [[s' ev']|] eqn:A;
    [|discriminate].
  simpl. intros H. injection H as <- <- <-. auto.
Qed.

(** The names of the violation counts are no other key of the summary. *)
Lemma fixed_key_not_violation (k : string) (vio_col : list float)
  (ths : list float) :
  (forall th, String.eqb k (violation_key th) = false) ->
  ~ In k (keys (violation_counts vio_col ths)).
Proof.
  intros N I.
  destruct (proj2 (violation_counts_keys vio_col ths) k I) as (th & _ & E).
  specialize (N th). rewrite E, String.eqb_refl in N. discriminate N.
Qed.

Lemma count_filter_le {A : Type} (P Q : A -> bool) (l : list A) :
  (forall a, P a = true -> Q a = true) ->
  (Pandas.count P l <= Pandas.count Q l)%Z.
Proof.
  intros I. unfold Pandas.count. apply Nat2Z.inj_le.
  induction l as [|a l IH]; simpl; [lia|].
  destruct (P a) eqn:E.
  - rewrite (I a E). simpl. lia.
  - destruct (Q a); simpl; lia.
Qed.

Lemma count_ext {A : Type} (P Q : A -> bool) (l : list A) :
  (forall a, P a = Q a) -> Pandas.count P l = Pandas.count Q l.
Proof.
  intros E. unfold Pandas.count. f_equal. f_equal. apply filter_ext, E.
Qed.

Lemma count_map {A B : Type} (g : A -> B) (P : B -> bool) (l : list A) :
  Pandas.count P (map g l) = Pandas.count (fun a => P (g a)) l.
Proof.
  unfold Pandas.count. f_equal.
  induction l as [|a l IH]; simpl; [reflexivity|].
  destruct (P (g a)); simpl; rewrite IH; reflexivity.
Qed.

Lemma count_app {A : Type} (P : A -> bool) (l1 l2 : list A) :
  Pandas.count P (l1 ++ l2) = (Pandas.count P l1 + Pandas.count P l2)%Z.
Proof.
  unfold Pandas.count. rewrite filter_app, length_app. lia.
Qed.

Lemma count_none {A : Type} (P : A -> bool) (l : list A) :
  Forall (fun a => P a = false) l -> Pandas.count P l = 0%Z.
Proof.
  unfold Pandas.count. induction 1 as [|a l E _ IH]; simpl; [reflexivity|].
  rewrite E. exact IH.
Qed.

Lemma exceeds_gtb (th : float) (r : Row) :
  exceeds th r = F64.gtb (abs_dev_ms r) th.
Proof.
  unfold exceeds. destruct (F64.gtb (abs_dev_ms r) th) eqn:E.
  - rewrite (FloatFacts.gtb_number _ _ E). reflexivity.
  - apply andb_false_r.
Qed.

Lemma is_spike_record_gtb (spike : float) (r : Row) :
  is_spike_record spike r = F64.gtb (iat_ms r) spike.
Proof.
  unfold is_spike_record. destruct (F64.gtb (iat_ms r) spike) eqn:E.
  - rewrite (FloatFacts.gtb_number _ _ E). reflexivity.
  - apply andb_false_r.
Qed.

(** The spikes among the timing events are the records above the cut. *)
Lemma spike_events_count (work : DataFrame) (spike : float)
  (ths : list float) :
  Pandas.count is_spike_event (timing_events work spike ths)
  = Pandas.count (is_spike_record spike) work.
Proof.
  rewrite timing_events_rowwise. unfold with_iat, Pandas.count. f_equal.
  induction work as [|r w IH]; simpl; [reflexivity|].
  unfold is_spike_record at 1.
  destruct (F64.isna (iat_ms r)) eqn:Na; simpl; [exact IH|].
  rewrite filter_app, length_app, IH.
  rewrite final_label_eq. unfold event_of.
  destruct (F64.gtb (iat_ms r) spike); [reflexivity|].
  destruct (find _ (Py.sorted_reverse ths)) as [t|]; [|reflexivity].
  rewrite deviation_label_not_empty.
  cbn [negb]. unfold is_spike_event at 1.
  cbn [filter event_type].
  rewrite deviation_label_not_spike. reflexivity.
Qed.

(** C10. When a call returns, the entry [iat_spike_count] of the summary is
    the number of rows of type [iat_spike] in the event table, and this is
    the number of records of the detail table whose inter-arrival time is
    above [expected_period_ms * spike_factor] (an undefined one, [nan], is
    above nothing). The rows and the records are counted here by the length
    of a filtered list, not by the program's own sum of a mask. *)
Theorem spike_count_agrees (red : Reductions) (df : DataFrame)
  (expected_period_ms : float) (dev_thresholds_ms : list float)
  (spike_factor : float) (s : Summary) (w : DataFrame) (ev : list Event) :
  run_compute_metrics red df expected_period_ms dev_thresholds_ms
    spike_factor = Ok (s, w, ev) ->
  Py.get "iat_spike_count" s
  = Some (Fmt.str
            (Z.of_nat
               (length
                  (filter (fun e => String.eqb (event_type e) "iat_spike")
                     ev)))) /\
  length (filter (fun e => String.eqb (event_type e) "iat_spike") ev)
  = length
      (filter (fun r => (expected_period_ms * spike_factor <? iat_ms r)%float)
         w).
Proof.
  intros H. apply run_inv in H. destruct H as (_ & H).
  apply analyze_inv in H.
  destruct H as (i & bev & x & y & _ & -> & Tb & ->).
  assert (C : Pandas.count is_spike_event
                (timing_events w (expected_period_ms * spike_factor)
                   dev_thresholds_ms ++ bev)
              = Pandas.count
                  (is_spike_record (expected_period_ms * spike_factor)) w).
  { rewrite count_app, spike_events_count, (count_none _ bev); [lia|].
    eapply Forall_impl; [|exact Tb].
    intros e E. unfold is_spike_event. rewrite E. reflexivity. }
  assert (R : Pandas.count
                (is_spike_record (expected_period_ms * spike_factor)) w
              = Z.of_nat
                  (length
                     (filter
                        (fun r => (expected_period_ms * spike_factor
                                   <? iat_ms r)%float) w))).
  { unfold Pandas.count. do 2 f_equal. apply filter_ext. intros r.
    apply is_spike_record_gtb. }
  change (fun e => String.eqb (event_type e) "iat_spike")
    with is_spike_event.
  split.
  - rewrite !get_setitem_other by reflexivity.
    rewrite get_with_violations_other
      by (apply fixed_key_not_violation; reflexivity).
    change (Z.of_nat (length (filter is_spike_event
              (timing_events w (expected_period_ms * spike_factor)
                 dev_thresholds_ms ++ bev))))
      with (Pandas.count is_spike_event
              (timing_events w (expected_period_ms * spike_factor)
                 dev_thresholds_ms ++ bev)).
    rewrite C. simpl. rewrite count_map. do 2 f_equal.
    apply count_ext. intros r. symmetry. apply is_spike_record_gtb.
  - apply Nat2Z.inj. rewrite <- R, <- C. reflexivity.
Qed.

Lemma spike_count_agrees_witness :
  let df := [record 0 1 None; record 1000000 2 None;
             record 5000000 3 None; record 9000000 4 None] in
  let w := derive df 1 in
  let ev := [Timing 5000000 3 4 3 "iat_spike" None;
             Timing 9000000 4 4 3 "iat_spike" None] in
  exists s : Summary,
    run_compute_metrics Sequential.reductions df 1 [1; 5] 2 = Ok (s, w, ev) /\
    Py.get "iat_spike_count" s
    = Some (Fmt.str
              (Z.of_nat
                 (length
                    (filter (fun e => String.eqb (event_type e) "iat_spike")
                       ev)))) /\
    length (filter (fun e => String.eqb (event_type e) "iat_spike") ev)
    = length (filter (fun r => (1 * 2 <? iat_ms r)%float) w).
Proof.
  intros df w ev.
  destruct (run_compute_metrics Sequential.reductions df 1 [1; 5] 2)
    as [[[s w'] ev']|] eqn:R; [|vm_compute in R; discriminate R].
  assert (E : (w', ev') = (w, ev)).
  { vm_compute in R. injection R as _ <- <-. vm_compute. reflexivity. }
  injection E as -> ->.
  exists s. split; [reflexivity|].
  apply (spike_count_agrees Sequential.reductions df 1 [1; 5] 2 s w ev R).
Defined.

(** ** One record *)

Lemma sub_nan_r (x : float) : x - nan = nan.
Proof.
  apply Prim2SF_inj. rewrite sub_spec. change (Prim2SF nan) with S754_nan.
  unfold SF64sub, SFsub. destruct (Prim2SF x) as [| | |[|] ? ?]; reflexivity.
Qed.

Lemma derive_single (r : Row) (p : float) :
  derive [r] p = [mkRow (ts_rx_ns r) (seq r) (stream_id r) nan nan].
Proof.
  rewrite derive_eq. simpl. change (nan / 1e6) with nan.
  rewrite FloatFacts.sub_nan_l. reflexivity.
Qed.

Lemma integrity_single (s : Z) :
  integrity [s] = Ok (mkIntegrity 0 0 s s 1 1 0 0).
Proof.
  unfold integrity. simpl.
  rewrite Z.geb_leb, Z.leb_refl, Z.sub_diag. reflexivity.
Qed.

Lemma estimate_missing_bursts_single (s : Z) :
  estimate_missing_bursts [s] = Ok [].
Proof.
  unfold estimate_missing_bursts. simpl. rewrite sub_nan_r. reflexivity.
Qed.

Lemma violation_counts_nan (ths : list float) (k : string) (c : Z) :
  Py.get k (violation_counts [nan] ths) = Some c -> c = 0%Z.
Proof.
  unfold violation_counts.
  assert (G : forall l (d : Py.dict Z),
             (forall c, Py.get k d = Some c -> c = 0%Z) ->
             forall c,
               Py.get k
                 (fold_left
                    (fun d th =>
                       Py.setitem (violation_key th)
                         (Pandas.count (fun x => F64.gtb x th) [nan]) d)
                    l d) = Some c -> c = 0%Z).
  { induction l as [|a l IH]; intros d Hd c'; simpl; [apply Hd|].
    apply IH. intros c2.
    destruct (String.eqb k (violation_key a)) eqn:E.
    - apply String.eqb_eq in E. subst k. rewrite get_setitem_same.
      intros H. injection H as <-.
      unfold Pandas.count. simpl.
      rewrite (FloatFacts.gtb_isna nan a eq_refl). reflexivity.
    - rewrite get_setitem_other by exact E. apply Hd. }
  apply G. intros c' H. discriminate H.
Qed.

(** The summary of a table of one record, entry by entry: the statistics
    of the inter-arrival times are not available, the counts are zero, and
    the loss rate is a measured zero. *)
Lemma analyze_single (red : Reductions) (r : Row) (p : float)
  (ths : list float) (sf : float) :
  exists s : Summary,
    run_compute_metrics red [r] p ths sf
    = Ok (s, [mkRow (ts_rx_ns r) (seq r) (stream_id r) nan nan], []) /\
    s = Py.setitem "missing_burst_max" "0"%string
          (Py.setitem "missing_bursts_count" "0"%string
             (with_violations (violation_counts [nan] ths)
                (base_summary red
                   [mkRow (ts_rx_ns r) (seq r) (stream_id r) nan nan] p sf
                   (mkIntegrity 0 0 (seq r) (seq r) 1 1 0 0)))).
Proof.
  eexists. split; [|reflexivity].
  rewrite run_compute_metrics_eq, derive_single.
  unfold analyze. cbn [map seq abs_dev_ms iat_ms].
  rewrite integrity_single, estimate_missing_bursts_single.
  rewrite timing_events_rowwise.
  reflexivity.
Qed.

Lemma get_single (red : Reductions) (r : Row) (p : float)
  (ths : list float) (sf : float) (k : string) :
  (forall th, String.eqb k (violation_key th) = false) ->
  String.eqb k "missing_burst_max" = false ->
  String.eqb k "missing_bursts_count" = false ->
  Py.get k
    (Py.setitem "missing_burst_max" "0"%string
       (Py.setitem "missing_bursts_count" "0"%string
          (with_violations (violation_counts [nan] ths)
             (base_summary red
                [mkRow (ts_rx_ns r) (seq r) (stream_id r) nan nan] p sf
                (mkIntegrity 0 0 (seq r) (seq r) 1 1 0 0)))))
  = Py.get k
      (base_summary red
         [mkRow (ts_rx_ns r) (seq r) (stream_id r) nan nan] p sf
         (mkIntegrity 0 0 (seq r) (seq r) 1 1 0 0)).
Proof.
  intros N N1 N2. rewrite !get_setitem_other by assumption.
  apply get_with_violations_other, fixed_key_not_violation, N.
Qed.

(** C9. The summary of a table of one record reports a loss rate of
    ["0.0000"] and ["0"] missing packets, not ["n/a"], and the sequence
    number of the record as [seq_min] and as [seq_max]. *)
Theorem single_record_loss_rate (red : Reductions) (r : Row)
  (expected_period_ms : float) (dev_thresholds_ms : list float)
  (spike_factor : float) :
  exists (s : Summary) (w : DataFrame) (ev : list Event),
    run_compute_metrics red [r] expected_period_ms dev_thresholds_ms
      spike_factor = Ok (s, w, ev) /\
    Py.get "loss_rate_est" s = Some "0.0000"%string /\
    Py.get "missing_packets_est" s = Some "0"%string /\
    Py.get "seq_min" s = Some (Fmt.str (seq r)) /\
    Py.get "seq_max" s = Some (Fmt.str (seq r)).
Proof.
  destruct (analyze_single red r expected_period_ms dev_thresholds_ms
              spike_factor) as (s & R & ->).
  eexists _, _, _. split; [exact R|].
  rewrite !get_single by reflexivity.
  repeat split; reflexivity.
Qed.

Lemma get_violation_counts_some (col : list float) (ths : list float)
  (t : float) :
  In t ths ->
  exists c, Py.get (violation_key t) (violation_counts col ths) = Some c.
Proof.
  unfold violation_counts. intros I.
  assert (G : forall l (d : Py.dict Z),
             In t l \/ (exists c, Py.get (violation_key t) d = Some c) ->
             exists c,
               Py.get (violation_key t)
                 (fold_left
                    (fun d th =>
                       Py.setitem (violation_key th)
                         (Pandas.count (fun x => F64.gtb x th) col) d)
                    l d) = Some c).
  { induction l as [|a l IH]; intros d H; simpl.
    - destruct H as [[]|H]. exact H.
    - apply IH.
      destruct (String.eqb (violation_key t) (violation_key a)) eqn:E.
      + apply String.eqb_eq in E. right. rewrite E, get_setitem_same.
        eexists. reflexivity.
      + destruct H as [[->|H]|H].
        * rewrite String.eqb_refl in E. discriminate E.
        * left. exact H.
        * right. rewrite get_setitem_other by exact E. exact H. }
  apply G. left. exact I.
Qed.

(** C1, the table of one record: the call returns; the statistics that need
    an inter-arrival time are ["n/a"], and the counts are ["0"]. *)
Lemma single_record_degenerate (red : Reductions) (r : Row) (p : float)
  (ths : list float) (sf : float) :
  exists (s : Summary) (w : DataFrame),
    run_compute_metrics red [r] p ths sf = Ok (s, w, []) /\
    Py.get "packets_observed" s = Some "1"%string /\
    Forall (fun k => Py.get k s = Some "n/a"%string)
      ["iat_ms_mean"; "iat_ms_min"; "iat_ms_max"; "jitter_ms_std";
       "abs_dev_ms_mean"; "abs_dev_ms_p95"]%string /\
    Forall (fun k => Py.get k s = Some "0"%string)
      ["duplicates"; "out_of_order"; "iat_spike_count";
       "missing_bursts_count"; "missing_burst_max";
       "missing_packets_est"]%string /\
    forall th, In th ths -> Py.get (violation_key th) s = Some "0"%string.
Proof.
  destruct (analyze_single red r p ths sf) as (s & R & E).
  eexists s, _. split; [exact R|]. subst s.
  split; [rewrite get_single by reflexivity; reflexivity|].
  split; [repeat constructor; rewrite get_single by reflexivity; reflexivity|].
  split.
  - repeat constructor;
      try (rewrite get_single by reflexivity; reflexivity).
    + rewrite get_single by reflexivity.
      cbn [base_summary Py.get String.eqb Ascii.eqb Bool.eqb map iat_ms].
      unfold Pandas.count. cbn [filter].
      rewrite (FloatFacts.gtb_isna nan (p * sf) eq_refl). reflexivity.
    + rewrite get_setitem_other by reflexivity. apply get_setitem_same.
    + apply get_setitem_same.
  - intros th I. rewrite !get_setitem_other by reflexivity.
    destruct (get_violation_counts_some [nan] ths th I) as (c & G).
    rewrite (get_with_violations _ c).
    + rewrite (violation_counts_nan ths _ c G). reflexivity.
    + apply violation_counts_keys.
    + exact G.
Qed.

(** ** The integrity metrics *)

Lemma fold_min_spec (l : list Z) (x : Z) :
  (forall y, In y (x :: l) -> (fold_left Z.min l x <= y)%Z) /\
  In (fold_left Z.min l x) (x :: l).
Proof.
  revert x. induction l as [|a l IH]; intros x; simpl.
  - split; [intros y [<-|[]]; lia | left; reflexivity].
  - destruct (IH (Z.min x a)) as (B & I). split.
    + intros y [<-|[<-|H]].
      * specialize (B (Z.min x a) (or_introl eq_refl)). lia.
      * specialize (B (Z.min x a) (or_introl eq_refl)). lia.
      * apply B. right. exact H.
    + destruct I as [I|I]; [|right; right; exact I].
      rewrite <- I. destruct (Z.min_spec x a) as [[_ ->]|[_ ->]]; auto.
Qed.

Lemma fold_max_spec (l : list Z) (x : Z) :
  (forall y, In y (x :: l) -> (y <= fold_left Z.max l x)%Z) /\
  In (fold_left Z.max l x) (x :: l).
Proof.
  revert x. induction l as [|a l IH]; intros x; simpl.
  - split; [intros y [<-|[]]; lia | left; reflexivity].
  - destruct (IH (Z.max x a)) as (B & I). split.
    + intros y [<-|[<-|H]].
      * specialize (B (Z.max x a) (or_introl eq_refl)). lia.
      * specialize (B (Z.max x a) (or_introl eq_refl)). lia.
      * apply B. right. exact H.
    + destruct I as [I|I]; [|right; right; exact I].
      rewrite <- I. destruct (Z.max_spec x a) as [[_ ->]|[_ ->]]; auto.
Qed.

(** The distinct values of a column between [lo] and [hi] are at most
    [hi - lo + 1]. *)
Lemma nunique_range (l : list Z) (lo hi : Z) :
  (forall y, In y l -> lo <= y <= hi)%Z ->
  (Pandas.nunique l <= Z.max (hi - lo + 1) 0)%Z.
Proof.
  intros B. unfold Pandas.nunique.
  set (range := map (fun k => (lo + Z.of_nat k)%Z)
                  (List.seq 0 (Z.to_nat (hi - lo + 1)))).
  assert (L : (length (nodup Z.eq_dec l) <= length range)%nat).
  { apply NoDup_incl_length; [apply NoDup_nodup|].
    intros y Hy. apply nodup_In in Hy. specialize (B y Hy).
    unfold range. apply in_map_iff. exists (Z.to_nat (y - lo)).
    split; [lia|]. apply in_seq. lia. }
  unfold range in L. rewrite length_map, length_seq in L. lia.
Qed.

Lemma nunique_positive (x : Z) (l : list Z) :
  (1 <= Pandas.nunique (x :: l))%Z.
Proof.
  unfold Pandas.nunique.
  assert (I : In x (nodup Z.eq_dec (x :: l)))
    by (apply nodup_In; left; reflexivity).
  destruct (nodup Z.eq_dec (x :: l)); [destruct I|]. simpl. lia.
Qed.

Lemma integrity_cons (x : Z) (l : list Z) :
  let lo := fold_left Z.min l x in
  let hi := fold_left Z.max l x in
  integrity (x :: l) =
    Ok (mkIntegrity
          (Pandas.count (fun d => d =? 0) (Pandas.diff (x :: l)))
          (Pandas.count (fun d => d <? 0) (Pandas.diff (x :: l)))
          lo hi (hi - lo + 1) (Pandas.nunique (x :: l))
          (Z.max (hi - lo + 1 - Pandas.nunique (x :: l)) 0)
          (F64.int_true_div
             (Z.max (hi - lo + 1 - Pandas.nunique (x :: l)) 0)
             (hi - lo + 1))) /\
  (lo <= hi)%Z.
Proof.
  intros lo hi.
  assert (Hle : (lo <= hi)%Z).
  { pose proof (proj1 (fold_min_spec l x) x (or_introl eq_refl)).
    pose proof (proj1 (fold_max_spec l x) x (or_introl eq_refl)).
    unfold lo, hi. lia. }
  split; [|exact Hle].
  unfold integrity. cbn [Pandas.min Pandas.max Py.int bindR]. fold lo hi.
  replace (hi >=? lo)%Z with true
    by (symmetry; rewrite Z.geb_leb; apply Z.leb_le, Hle).
  replace (hi - lo + 1 >? 0)%Z with true
    by (symmetry; apply Z.gtb_lt; lia).
  reflexivity.
Qed.

(** C5. On a column that is not empty, lines 66-76 raise nothing, and:
    [seq_min] and [seq_max] are the least and the greatest sequence number;
    [expected_total] is [seq_max - seq_min + 1] when [seq_max >= seq_min]
    (which holds) and [0] otherwise; [missing] is
    [max (expected_total - observed_unique) 0]; [expected_total] is
    positive, [loss_rate] is the float of the quotient
    [missing / expected_total], and the quotient and the float are between
    0 and 1. The sequence numbers are int64. *)
Theorem integrity_spec (sq : list Z) :
  sq <> [] ->
  Forall Int64.in_range sq ->
  exists i : Integrity,
    integrity sq = Ok i /\
    (forall y, In y sq -> (seq_min i <= y <= seq_max i)%Z) /\
    In (seq_min i) sq /\ In (seq_max i) sq /\
    observed_unique i = Pandas.nunique sq /\
    expected_total i =
      (if (seq_max i >=? seq_min i)%Z then (seq_max i - seq_min i + 1)%Z
       else 0%Z) /\
    missing i = Z.max (expected_total i - observed_unique i) 0 /\
    (expected_total i > 0)%Z /\
    loss_rate i = F64.int_true_div (missing i) (expected_total i) /\
    (0 <= missing i <= expected_total i)%Z /\
    (0 <=? loss_rate i) = true /\ (loss_rate i <=? 1) = true.
Proof.
  destruct sq as [|x l]; [congruence|]. intros _ R.
  destruct (integrity_cons x l) as (E & Hle).
  destruct (fold_min_spec l x) as (Bmin & Imin).
  destruct (fold_max_spec l x) as (Bmax & Imax).
  eexists. split; [exact E|].
  cbn [seq_min seq_max observed_unique expected_total missing loss_rate].
  split; [intros y Hy; split; [apply Bmin | apply Bmax]; exact Hy|].
  split; [exact Imin|]. split; [exact Imax|]. split; [reflexivity|].
  split.
  { replace (fold_left Z.max l x >=? fold_left Z.min l x)%Z with true
      by (symmetry; rewrite Z.geb_leb; apply Z.leb_le, Hle).
    reflexivity. }
  split; [reflexivity|]. split; [lia|]. split; [reflexivity|].
  pose proof (nunique_positive x l) as U.
  split; [lia|].
  apply int_true_div_unit; [lia|].
  rewrite Forall_forall in R.
  pose proof (R _ Imin) as Rmin. pose proof (R _ Imax) as Rmax.
  unfold Int64.in_range, Int64.min_int, Int64.max_int in Rmin, Rmax.
  change (2 ^ 64)%Z with 18446744073709551616%Z.
  change (2 ^ 63)%Z with 9223372036854775808%Z in Rmin, Rmax. lia.
Qed.

Lemma integrity_spec_witness :
  [3; 1; 1; 5]%Z <> [] /\ Forall Int64.in_range [3; 1; 1; 5]%Z /\
  exists i : Integrity,
    integrity [3; 1; 1; 5]%Z = Ok i /\
    (forall y, In y [3; 1; 1; 5]%Z -> (seq_min i <= y <= seq_max i)%Z) /\
    In (seq_min i) [3; 1; 1; 5]%Z /\ In (seq_max i) [3; 1; 1; 5]%Z /\
    observed_unique i = Pandas.nunique [3; 1; 1; 5]%Z /\
    expected_total i =
      (if (seq_max i >=? seq_min i)%Z then (seq_max i - seq_min i + 1)%Z
       else 0%Z) /\
    missing i = Z.max (expected_total i - observed_unique i) 0 /\
    (expected_total i > 0)%Z /\
    loss_rate i = F64.int_true_div (missing i) (expected_total i) /\
    (0 <= missing i <= expected_total i)%Z /\
    (0 <=? loss_rate i) = true /\ (loss_rate i <=? 1) = true.
Proof.
  assert (N : [3; 1; 1; 5]%Z <> []) by discriminate.
  assert (R : Forall Int64.in_range [3; 1; 1; 5]%Z).
  { repeat constructor; vm_compute; discriminate. }
  split; [exact N|]. split; [exact R|].
  apply (integrity_spec [3; 1; 1; 5]%Z N R).
Defined.

(** The maximum with zero in [missing] is never the zero: the distinct
    sequence numbers all lie between the least and the greatest. *)
Lemma missing_exact (sq : list Z) (i : Integrity) :
  integrity sq = Ok i ->
  missing i = (expected_total i - observed_unique i)%Z.
Proof.
  destruct sq as [|x l]; [discriminate|]. intros H.
  destruct (integrity_cons x l) as (E & Hle).
  rewrite H in E. injection E as ->.
  cbn [missing expected_total observed_unique].
  pose proof (nunique_range (x :: l) (fold_left Z.min l x)
                (fold_left Z.max l x)) as R.
  assert (B : forall y, In y (x :: l) ->
                (fold_left Z.min l x <= y <= fold_left Z.max l x)%Z).
  { intros y Hy. split;
      [apply (proj1 (fold_min_spec l x)) | apply (proj1 (fold_max_spec l x))];
      exact Hy. }
  specialize (R B). lia.
Qed.

(** The summary reports the integrity metrics of the working table. *)
Lemma summary_integrity (red : Reductions) (df : DataFrame) (p : float)
  (ths : list float) (sf : float) (s : Summary) (w : DataFrame)
  (ev : list Event) :
  run_compute_metrics red df p ths sf = Ok (s, w, ev) ->
  exists i : Integrity,
    integrity (map seq w) = Ok i /\
    Py.get "seq_min" s = Some (Fmt.str (seq_min i)) /\
    Py.get "seq_max" s = Some (Fmt.str (seq_max i)) /\
    Py.get "missing_packets_est" s = Some (Fmt.str (missing i)) /\
    Py.get "loss_rate_est" s = Some (Fmt.fixed 4 (loss_rate i)).
Proof.
  intros H. apply run_inv in H. destruct H as (_ & H).
  apply analyze_inv in H.
  destruct H as (i & bev & x & y & I & _ & _ & ->).
  exists i. split; [exact I|].
  assert (P : (expected_total i >? 0)%Z = true).
  { destruct (map seq w) as [|a l] eqn:E; [discriminate I|].
    destruct (integrity_cons a l) as (E' & Hle).
    rewrite I in E'. injection E' as ->. apply Z.gtb_lt.
    cbn [expected_total]. lia. }
  repeat split;
    rewrite !get_setitem_other by reflexivity;
    rewrite get_with_violations_other
      by (apply fixed_key_not_violation; reflexivity);
    cbn [base_summary Py.get String.eqb Ascii.eqb Bool.eqb];
    rewrite ?P; reflexivity.
Qed.

(** ** The burst estimator *)

(** The example of the documentation. *)
Lemma bursts_example :
  estimate_missing_bursts [1; 2; 5; 6]%Z = Ok [mkBurst 2 2 5 2] /\
  spec_bursts [1; 2; 5; 6]%Z = [mkBurst 2 2 5 2].
Proof. split; vm_compute; reflexivity. Qed.

Lemma bursts_consecutive_example :
  estimate_missing_bursts [7; 8; 9; 10]%Z = Ok [].
Proof. vm_compute. reflexivity. Qed.

(** C4, above [2 ^ 53]. The two sequence numbers [2 ^ 53 + 1] and
    [2 ^ 53 + 2] are consecutive, and the specification wants no burst;
    [shift] has made floats of them, the gap of the floats is 2, and the
    estimator reports one missing packet behind [2 ^ 53], which is not
    the sequence number before. *)
Theorem bursts_beyond_float_precision :
  estimate_missing_bursts [9007199254740993; 9007199254740994]%Z
  = Ok [mkBurst 1 9007199254740992 9007199254740994 1] /\
  spec_bursts [9007199254740993; 9007199254740994]%Z = [].
Proof. split; vm_compute; reflexivity. Qed.

Lemma bursts_wrong_count_example :
  estimate_missing_bursts
    [9007199254740992; 9007199254740993; 9007199254740995]%Z
  = Ok [mkBurst 2 9007199254740992 9007199254740995 3] /\
  spec_bursts [9007199254740992; 9007199254740993; 9007199254740995]%Z
  = [mkBurst 2 9007199254740993 9007199254740995 1].
Proof. split; vm_compute; reflexivity. Qed.

(** ** The call returns on a table that is not empty *)

Lemma skipn_cons_nth {A : Type} (l : list A) (idx : nat) (a : A)
  (r : list A) :
  skipn idx l = a :: r -> nth_error l idx = Some a /\ skipn (S idx) l = r.
Proof.
  revert l. induction idx as [|idx IH]; intros l H.
  - simpl in H. subst l. split; reflexivity.
  - destruct l as [|b l]; [discriminate H|]. simpl in H.
    destruct (IH l H) as (N & S'). split; [exact N|exact S'].
Qed.

Lemma shift_pairs (l : list Z) :
  Forall Int64.in_range l -> Forall2 shifted_pair l (Pandas.shift l).
Proof.
  destruct l as [|x l]; [constructor|]. intros H.
  inversion H as [|? ? Hx Hl]; subst.
  unfold Pandas.shift. constructor; [split; [exact Hx|left; reflexivity]|].
  clear H. revert x Hx. induction Hl as [|y l Hy Hl IH]; intros x Hx.
  - constructor.
  - change (removelast (x :: y :: l)) with (x :: removelast (y :: l)).
    cbn [map]. constructor.
    + split; [exact Hy|]. right. exists x. split; [exact Hx|reflexivity].
    + apply IH, Hy.
Qed.

(** The loop of the estimator raises nothing, and reports positions of its
    column. *)
Lemma bursts_from_total (sq : list Z) (prev : list float) (rs : list Z)
  (rp : list float) :
  Forall2 shifted_pair rs rp ->
  forall idx : nat,
    skipn idx sq = rs -> skipn idx prev = rp ->
    exists bs : list Burst,
      bursts_from sq prev idx
        (map (fun p => F64.of_Z (fst p) - snd p) (combine rs rp)) = Ok bs /\
      Forall (fun b => (0 <= index b < Z.of_nat (idx + length rs))%Z) bs.
Proof.
  induction 1 as [|c p rs rp (Rc & Rp) _ IH]; intros idx Hs Hp.
  - exists []. split; [reflexivity|constructor].
  - destruct (skipn_cons_nth sq idx c rs Hs) as (Nc & Ss).
    destruct (skipn_cons_nth prev idx p rp Hp) as (Np & Sp).
    destruct (IH (S idx) Ss Sp) as (bs & E & B).
    assert (B' : Forall
                   (fun b =>
                      (0 <= index b < Z.of_nat (idx + length (c :: rs)))%Z)
                   bs).
    { eapply Forall_impl; [|exact B]. cbn [length]. intros b. lia. }
    cbn [map combine fst snd bursts_from].
    destruct (F64.isna (F64.of_Z c - p)) eqn:Na;
      [exists bs; split; [exact E|exact B']|].
    destruct (F64.gtb (F64.of_Z c - p) 1) eqn:G;
      [|exists bs; split; [exact E|exact B']].
    destruct Rp as [->|(q & Rq & ->)].
    { rewrite sub_nan_r in Na. discriminate Na. }
    pose proof (of_Z_below c Rc) as Bc.
    pose proof (of_Z_below q Rq) as Bq.
    pose proof (sub_below _ _ 65 Bc Bq ltac:(lia) ltac:(lia)) as Bg.
    assert (B1 : below (65 + 2) (Prim2SF 1)).
    { eapply Rounding.below_weaken; [|exact one_below]. lia. }
    pose proof (sub_below _ _ (65 + 2) Bg B1 ltac:(lia) ltac:(lia)) as Bm.
    destruct (trunc_below _ _ Bq) as (zq & Tq).
    destruct (trunc_below _ _ Bm) as (zm & Tm).
    unfold iloc. rewrite Np, Nc. cbn [bindR].
    unfold Py.int_of_float. rewrite Tq, Tm. cbn [bindR]. rewrite E.
    cbn [bindR]. eexists. split; [reflexivity|].
    constructor; [|exact B']. cbn [index length]. lia.
Qed.

Lemma estimate_missing_bursts_total (l : list Z) :
  Forall Int64.in_range l ->
  exists bs : list Burst,
    estimate_missing_bursts l = Ok bs /\
    Forall (fun b => (0 <= index b < len l)%Z) bs.
Proof.
  intros H. unfold estimate_missing_bursts, len.
  apply (bursts_from_total l (Pandas.shift l) l (Pandas.shift l)
           (shift_pairs l H) 0%nat eq_refl eq_refl).
Qed.

Lemma burst_events_total (work : DataFrame) (bursts : list Burst) :
  Forall (fun b => (0 <= index b < len work)%Z) bursts ->
  exists es : list Event, burst_events work bursts = Ok es.
Proof.
  induction 1 as [|b bursts Hb _ (es & IH)]; cbn [burst_events].
  - eexists. reflexivity.
  - unfold iloc.
    destruct (nth_error work (Z.to_nat (index b))) as [r|] eqn:N.
    + cbn [bindR]. rewrite IH. cbn [bindR]. eexists. reflexivity.
    + exfalso. apply nth_error_None in N. unfold len in Hb. lia.
Qed.

Lemma analyze_total (red : Reductions) (w : DataFrame) (p : float)
  (ths : list float) (sf : float) :
  w <> [] -> Forall Int64.in_range (map seq w) ->
  exists (s : Summary) (ev : list Event),
    analyze red w p ths sf = Ok (s, ev).
Proof.
  intros N R. unfold analyze.
  destruct (map seq w) as [|x l] eqn:E.
  { destruct w; [congruence|discriminate E]. }
  destruct (integrity_cons x l) as (-> & _). cbn [bindR].
  destruct (estimate_missing_bursts_total (x :: l) R) as (bs & -> & B).
  cbn [bindR].
  assert (B' : Forall (fun b => (0 <= index b < len w)%Z) bs).
  { eapply Forall_impl; [|exact B]. intros b.
    unfold len. rewrite <- E, length_map. tauto. }
  destruct (burst_events_total w bs B') as (es & ->).
  destruct bs as [|b bs]; cbn [nonempty bindR map Pandas.max Py.int];
    eexists _, _; reflexivity.
Qed.

Lemma seq_derive_rows (prev : option Z) (p : float) (l : list Row) :
  map seq (derive_rows prev p l) = map seq l.
Proof.
  revert prev. induction l as [|r l IH]; intros prev; simpl;
    [reflexivity|]. rewrite IH. reflexivity.
Qed.

(** On a table that is not empty, whose sequence numbers are int64, the
    call returns, and the detail table it returns is the derived copy: the
    empty table is the only one the call raises on. *)
Lemma compute_metrics_returns (red : Reductions) (df : DataFrame)
  (p : float) (ths : list float) (sf : float) :
  df <> [] -> Forall Int64.in_range (map seq df) ->
  exists (s : Summary) (ev : list Event),
    run_compute_metrics red df p ths sf = Ok (s, derive df p, ev).
Proof.
  intros N R. rewrite run_compute_metrics_eq.
  destruct (analyze_total red (derive df p) p ths sf) as (s & ev & ->).
  - intros E. apply (f_equal (@length Row)) in E.
    rewrite derive_eq, derive_rows_length in E.
    rewrite (Permutation_length (sort_by_ts_perm df)) in E.
    destruct df; [congruence|discriminate E].
  - rewrite derive_eq, seq_derive_rows.
    eapply Permutation_Forall; [|exact R].
    apply Permutation_map, Permutation_sym, sort_by_ts_perm.
  - exists s, ev. reflexivity.
Qed.

(** ** The burst estimator on small sequence numbers *)

Lemma small_53 (z : Z) : small z -> (Z.abs z < 2 ^ 53)%Z.
Proof.
  unfold small. change (2 ^ 53)%Z with (2 * 2 ^ 52)%Z. lia.
Qed.

Lemma small_sub_53 (a b : Z) :
  small a -> small b -> (Z.abs (a - b) < 2 ^ 53)%Z.
Proof.
  unfold small. change (2 ^ 53)%Z with (2 * 2 ^ 52)%Z. lia.
Qed.

Lemma bursts_from_exact (sq : list Z) (prev : list float) (rs : list Z) :
  Forall small rs ->
  forall (q : Z) (idx : nat),
    small q ->
    skipn idx sq = rs ->
    skipn idx prev = map F64.of_Z (removelast (q :: rs)) ->
    bursts_from sq prev idx
      (map (fun p => F64.of_Z (fst p) - snd p)
         (combine rs (map F64.of_Z (removelast (q :: rs)))))
    = Ok (spec_bursts_from (Z.of_nat idx) q rs).
Proof.
  induction 1 as [|c rs Hc Hrs IH]; intros q idx Hq Hs Hp.
  - reflexivity.
  - change (removelast (q :: c :: rs)) with (q :: removelast (c :: rs))
      in *.
    cbn [map] in Hp.
    destruct (skipn_cons_nth sq idx c rs Hs) as (Nc & Ss).
    destruct (skipn_cons_nth prev idx _ _ Hp) as (Np & Sp).
    specialize (IH c (S idx) Hc Ss Sp).
    cbn [map combine fst snd bursts_from spec_bursts_from].
    pose proof (of_Z_canon c (small_53 c Hc)) as Ec.
    pose proof (of_Z_canon q (small_53 q Hq)) as Eq.
    pose proof (sub_canon _ _ c q Ec Eq (small_53 c Hc) (small_53 q Hq)
                  (small_sub_53 c q Hc Hq)) as Eg.
    rewrite (isna_canon _ _ Eg).
    rewrite (gtb_one_canon _ _ Eg (small_sub_53 c q Hc Hq)).
    rewrite Nat2Z.inj_succ in IH. unfold Z.succ in IH.
    destruct (c - q >? 1)%Z eqn:G; [|exact IH].
    unfold iloc. rewrite Np, Nc. cbn [bindR].
    unfold Py.int_of_float.
    rewrite (trunc_canon _ q Eq (small_53 q Hq)). cbn [bindR].
    assert (Hm : (Z.abs (c - q - 1) < 2 ^ 53)%Z).
    { pose proof (small_sub_53 c q Hc Hq). apply Z.gtb_lt in G. lia. }
    assert (Em : Prim2SF (F64.of_Z c - F64.of_Z q - 1) = canon (c - q - 1)).
    { apply sub_canon; try assumption.
      - symmetry. apply Rounding.canon_one.
      - apply small_sub_53; assumption.
      - reflexivity. }
    rewrite (trunc_canon _ _ Em Hm). cbn [bindR]. rewrite IH.
    reflexivity.
Qed.

(** Below [2 ^ 52] in absolute value, where float64 holds every sequence
    number and every gap, the estimator raises nothing and returns the
    bursts of its specification:
    one for each adjacent pair whose gap exceeds one, with the position,
    the two sequence numbers and the gap less one. *)
Lemma bursts_of_small_sequences (l : list Z) :
  Forall small l -> estimate_missing_bursts l = Ok (spec_bursts l).
Proof.
  destruct l as [|x l]; [reflexivity|]. intros H.
  inversion H as [|? ? Hx Hl]; subst.
  unfold estimate_missing_bursts, Pandas.shift, spec_bursts.
  cbn [map combine fst snd bursts_from].
  rewrite sub_nan_r. change (F64.isna nan) with true. cbv iota.
  apply (bursts_from_exact (x :: l)
           (nan :: map F64.of_Z (removelast (x :: l))) l Hl x 1%nat Hx
           eq_refl eq_refl).
Qed.

(** ** The signs of the floats of the program *)

Lemma shr_fexp_nonneg (m e : Z) (l : location) :
  (0 <= m)%Z -> (0 <= shr_m (fst (shr_fexp prec emax m e l)))%Z.
Proof.
  intros Hm. unfold shr_fexp, shr.
  destruct (fexp prec emax (Zdigits2 m + e) - e)%Z as [|p|p];
    cbn [fst]; try (rewrite Rounding.shr_m_record_of_loc; exact Hm).
  rewrite Rounding.iter_shr_m
    by (rewrite Rounding.shr_m_record_of_loc; exact Hm).
  rewrite Rounding.shr_m_record_of_loc.
  apply Z.div_pos; [exact Hm|]. apply Z.pow_pos_nonneg; lia.
Qed.

(** Rounding keeps the sign, and makes no [nan]. *)
Lemma binary_round_aux_signed (s : bool) (m e : Z) (l : location) :
  (0 <= m)%Z -> signed s (binary_round_aux prec emax s m e l).
Proof.
  intros Hm. unfold binary_round_aux.
  pose proof (shr_fexp_nonneg m e l Hm) as H1.
  destruct (shr_fexp prec emax m e l) as (mrs', e') eqn:E1.
  cbn [fst] in H1.
  pose proof (Rounding.round_nearest_even_bounds (shr_m mrs')
                (loc_of_shr_record mrs')) as (B & _).
  assert (H2 : (0 <= round_nearest_even (shr_m mrs')
                       (loc_of_shr_record mrs'))%Z) by lia.
  pose proof (shr_fexp_nonneg _ e' loc_Exact H2) as H3.
  destruct (shr_fexp prec emax
              (round_nearest_even (shr_m mrs') (loc_of_shr_record mrs')) e'
              loc_Exact) as (mrs'', e'').
  cbn [fst] in H3.
  destruct (shr_m mrs'') as [|q|q]; [reflexivity| |lia].
  destruct (e'' <=? emax - prec)%Z; reflexivity.
Qed.

Lemma binary_normalize_signed (z : Z) :
  signed (z <? 0)%Z (binary_normalize prec emax z 0 false).
Proof.
  destruct z as [|p|p]; [reflexivity| |];
    unfold binary_normalize, binary_round;
    destruct (shl_align p 0 (fexp prec emax (Zpos (digits2_pos p) + 0)))
      as (mz, ez);
    apply binary_round_aux_signed; lia.
Qed.

Lemma of_Z_signed (z : Z) :
  Int64.in_range z -> signed (z <? 0)%Z (Prim2SF (F64.of_Z z)).
Proof.
  intros R. unfold F64.of_Z.
  assert (B : below (64 + 1) (binary_normalize prec emax z 0 false)).
  { apply Rounding.binary_normalize_below; try lia.
    rewrite Z.add_0_r. apply Rounding.in_range_digits. exact R. }
  rewrite Prim2SF_SF2Prim by (eapply Rounding.below_valid, B).
  apply binary_normalize_signed.
Qed.

Lemma SFdiv_signed (sx sy : bool) (mx my : positive) (ex ey : Z) :
  signed (xorb sx sy)
    (SFdiv prec emax (S754_finite sx mx ex) (S754_finite sy my ey)).
Proof.
  cbn [SFdiv]. unfold SFdiv_core_binary.
  set (s := (ex - ey -
             Z.min (fexp prec emax (Zdigits2 (Zpos mx) + ex
                                    - (Zdigits2 (Zpos my) + ey)))
               (ex - ey))%Z).
  set (m' := match s with
             | 0%Z => Zpos mx
             | Zpos _ => Z.shiftl (Zpos mx) s
             | Zneg _ => 0%Z
             end).
  assert (Hm : (0 <= m')%Z).
  { unfold m'. destruct s; try lia. apply Z.shiftl_nonneg. lia. }
  pose proof (Z_div_mod m' (Zpos my) ltac:(lia)) as D.
  change IntDef.Z.div_eucl with Z.div_eucl.
  destruct (Z.div_eucl m' (Zpos my)) as (q, r).
  apply binary_round_aux_signed. destruct D as (D1 & D2). nia.
Qed.

Lemma leb_zero_signed (x : float) :
  signed false (Prim2SF x) -> (0 <=? x)%float = true.
Proof.
  rewrite leb_spec. change (Prim2SF 0) with (S754_zero false).
  destruct (Prim2SF x) as [s|s| |s m e]; cbn [signed]; intros H;
    try contradiction; subst; reflexivity.
Qed.

Lemma div_1e6_nonneg (z : Z) :
  Int64.in_range z -> (0 <= z)%Z -> (0 <=? F64.of_Z z / 1e6)%float = true.
Proof.
  intros R Hz. apply leb_zero_signed. rewrite div_spec.
  pose proof (of_Z_signed z R) as S.
  replace (z <? 0)%Z with false in S by (symmetry; apply Z.ltb_ge, Hz).
  pose proof (of_Z_below z R) as B.
  change (Prim2SF 1e6) with (S754_finite false 8589934592000000 (-33)).
  destruct (Prim2SF (F64.of_Z z)) as [s|s| |s m e]; cbn [signed below] in *;
    try contradiction; subst s.
  - reflexivity.
  - apply (SFdiv_signed false false).
Qed.

Lemma abs_nonneg (x : float) :
  F64.isna (abs x) = true \/ (0 <=? abs x)%float = true.
Proof.
  destruct (F64.isna (abs x)) eqn:N; [left; reflexivity|right].
  apply leb_zero_signed. unfold F64.isna in N.
  rewrite eqb_spec, abs_spec in N. rewrite abs_spec.
  destruct (Prim2SF x) as [s|s| |s m e]; cbn [SFabs signed] in *;
    try reflexivity. discriminate N.
Qed.

(** The derived rows behind a row of timestamp [t]: where the timestamps
    ascend within int64 from zero on, the inter-arrival times are zero or
    more. *)
Lemma derive_rows_nonneg (p : float) (l : list Row) (t : Z) :
  (0 <= t)%Z ->
  ordered l ->
  Forall (fun r => (t <= ts_rx_ns r <= Int64.max_int)%Z) l ->
  Forall (fun r => (0 <=? iat_ms r)%float = true)
    (derive_rows (Some t) p l).
Proof.
  intros Ht O. revert t Ht. induction O as [|r l O IH Hr]; intros t Ht F.
  - constructor.
  - inversion F as [|? ? (Hlo & Hhi) F']; subst. cbn [derive_rows].
    constructor.
    + cbn [iat_ms]. unfold Int64.max_int in Hhi.
      assert (Rg : Int64.in_range (ts_rx_ns r - t)).
      { unfold Int64.in_range, Int64.min_int, Int64.max_int. lia. }
      rewrite (sub64_exact _ _ Rg). apply div_1e6_nonneg; [exact Rg|lia].
    + apply IH; [lia|]. rewrite Forall_forall in *. intros x Hx.
      specialize (Hr x Hx). specialize (F' x Hx). lia.
Qed.

Lemma derive_rows_abs_dev (prev : option Z) (p : float) (l : list Row) :
  Forall (fun r => F64.isna (abs_dev_ms r) = true \/
                   (0 <=? abs_dev_ms r)%float = true)
    (derive_rows prev p l).
Proof.
  revert prev. induction l as [|r l IH]; intros prev; cbn [derive_rows];
    constructor; [apply abs_nonneg|apply IH].
Qed.

Lemma analyze_nil (red : Reductions) (p : float) (ths : list float)
  (sf : float) : analyze red [] p ths sf = Raise ValueError.
Proof. reflexivity. Qed.

Lemma derive_nil_inv (df : DataFrame) (p : float) :
  derive df p = [] -> df = [].
Proof.
  intros E. apply (f_equal (@length Row)) in E.
  rewrite derive_eq, derive_rows_length in E.
  rewrite (Permutation_length (sort_by_ts_perm df)) in E.
  destruct df; [reflexivity|discriminate E].
Qed.

(** X1. Inter-arrival times are never negative. Where the timestamps of the
    table are int64 from zero on, the detail table that a call returns has
    [nan] for the [iat_ms] of its first row and a float that is zero or more
    for every other row; its [abs_dev_ms] cells are [nan] or zero or more
    whatever the timestamps are. *)
Theorem interarrival_nonnegative (red : Reductions) (df : DataFrame)
  (p : float) (ths : list float) (sf : float) (s : Summary)
  (w : DataFrame) (ev : list Event) :
  run_compute_metrics red df p ths sf = Ok (s, w, ev) ->
  Forall (fun r => (0 <= ts_rx_ns r <= Int64.max_int)%Z) df ->
  exists (first : Row) (rest : list Row),
    w = first :: rest /\
    F64.isna (iat_ms first) = true /\
    Forall (fun r => (0 <=? iat_ms r)%float = true) rest /\
    Forall (fun r => F64.isna (abs_dev_ms r) = true \/
                     (0 <=? abs_dev_ms r)%float = true) w.
Proof.
  intros H F. apply run_inv in H. destruct H as (-> & A).
  rewrite derive_eq in *.
  pose proof (sort_by_ts_is_ordered df) as O.
  assert (F' : Forall (fun r => (0 <= ts_rx_ns r <= Int64.max_int)%Z)
                 (Pandas.sort_by_ts df)).
  { eapply Permutation_Forall; [|exact F].
    apply Permutation_sym, sort_by_ts_perm. }
  destruct (Pandas.sort_by_ts df) as [|r l].
  { rewrite analyze_nil in A. discriminate A. }
  inversion O as [|? ? O' Hr]; subst.
  inversion F' as [|? ? Hr0 Fl]; subst.
  cbn [derive_rows].
  eexists _, _. split; [reflexivity|]. split; [reflexivity|].
  split.
  - apply derive_rows_nonneg; [lia|exact O'|].
    rewrite Forall_forall in *. intros x Hx.
    specialize (Hr x Hx). specialize (Fl x Hx). lia.
  - apply (derive_rows_abs_dev None p (r :: l)).
Qed.

Lemma interarrival_nonnegative_witness :
  let df := [record 40 2 None; record 10 1 None; record 90 3 None] in
  exists (s : Summary) (w : DataFrame) (ev : list Event),
    run_compute_metrics Sequential.reductions df 1 [1; 5] 2 = Ok (s, w, ev) /\
    Forall (fun r => (0 <= ts_rx_ns r <= Int64.max_int)%Z) df /\
    exists (first : Row) (rest : list Row),
      w = first :: rest /\
      F64.isna (iat_ms first) = true /\
      Forall (fun r => (0 <=? iat_ms r)%float = true) rest /\
      Forall (fun r => F64.isna (abs_dev_ms r) = true \/
                       (0 <=? abs_dev_ms r)%float = true) w.
Proof.
  intros df.
  destruct (run_compute_metrics Sequential.reductions df 1 [1; 5] 2)
    as [[[s w] ev]|e] eqn:R; [|vm_compute in R; discriminate R].
  assert (F : Forall (fun r => (0 <= ts_rx_ns r <= Int64.max_int)%Z) df).
  { repeat constructor; vm_compute; discriminate. }
  exists s, w, ev. split; [reflexivity|]. split; [exact F|].
  apply (interarrival_nonnegative Sequential.reductions df 1 [1; 5] 2 s w
           ev R F).
Defined.

(** ** Duplicates and reorderings *)

(** An int64 that is not zero has a float that is not zero. *)
Lemma of_Z_finite (z : Z) :
  Int64.in_range z -> z <> 0%Z ->
  exists (m : positive) (e : Z),
    Prim2SF (F64.of_Z z) = S754_finite (z <? 0)%Z m e.
Proof.
  intros R N.
  pose proof (of_Z_signed z R) as S. pose proof (of_Z_below z R) as B.
  destruct (Z_lt_le_dec (Z.abs z) (2 ^ 53)) as [Hs|Hb].
  { rewrite (of_Z_canon z Hs) in *.
    destruct z as [|q|q]; [congruence| |]; cbn [canon canon_pos];
      eexists _, _; reflexivity. }
  destruct (Prim2SF (F64.of_Z z)) as [s|s| |s m e] eqn:E;
    cbn [signed below] in *; try contradiction.
  2:{ subst s. exists m, e. reflexivity. }
  exfalso. clear S B. unfold F64.of_Z in E.
  assert (V : valid_binary (binary_normalize prec emax z 0 false) = true).
  { eapply Rounding.below_valid.
    apply (Rounding.binary_normalize_below z 0 64); try lia.
    rewrite Z.add_0_r. apply Rounding.in_range_digits. exact R. }
  rewrite (Prim2SF_SF2Prim _ V) in E. clear V.
  assert (G : forall (sg : bool) (q : positive),
             (2 ^ 53 <= Zpos q)%Z -> (Zpos q <= 2 ^ 63)%Z ->
             binary_round prec emax sg q 0 <> S754_zero s).
  { intros sg q Hlo Hhi. unfold binary_round.
    pose proof (Rounding.digits2_bounds q) as D.
    assert (D54 : (54 <= Zpos (digits2_pos q))%Z).
    { destruct (Z_lt_le_dec (Zpos (digits2_pos q)) 54) as [L|L]; [|exact L].
      exfalso.
      assert (2 ^ Zpos (digits2_pos q) <= 2 ^ 53)%Z
        by (apply Z.pow_le_mono_r; lia).
      lia. }
    assert (D64 : (Zpos (digits2_pos q) <= 64)%Z).
    { apply (Rounding.Zdigits2_lt_pow (Zpos q)); [lia|].
      change (2 ^ 64)%Z with (2 * 2 ^ 63)%Z. lia. }
    rewrite Z.add_0_r, Rounding.fexp_eq.
    replace (Z.max (Zpos (digits2_pos q) - 53) (-1074))
      with (Zpos (digits2_pos q) - 53)%Z by lia.
    unfold shl_align.
    destruct (Zpos (digits2_pos q) - 53 - 0)%Z as [|d|d] eqn:Ed; try lia.
    destruct (Rounding.binary_round_aux_spec sg (Zpos q) 0 loc_Exact)
      as (m1 & (Lo & _) & _ & [(Z0 & _)|(m & k & Hk & Hm & _ & ->)]).
    - lia.
    - change (Zdigits2 (Zpos q)) with (Zpos (digits2_pos q)).
      rewrite Z.add_0_r, Rounding.fexp_eq. lia.
    - exfalso. revert Lo. rewrite Z0.
      change (Zdigits2 (Zpos q)) with (Zpos (digits2_pos q)).
      rewrite Z.add_0_r, Rounding.fexp_eq.
      replace (Z.max (Zpos (digits2_pos q) - 53) (-1074) - 0)%Z
        with (Zpos (digits2_pos q) - 53)%Z by lia.
      intros Lo.
      assert (P : (0 < 2 ^ (Zpos (digits2_pos q) - 53))%Z)
        by (apply Z.pow_pos_nonneg; lia).
      assert (2 ^ (Zpos (digits2_pos q) - 53) <= Zpos q)%Z.
      { transitivity (2 ^ (Zpos (digits2_pos q) - 1))%Z; [|lia].
        apply Z.pow_le_mono_r; lia. }
      assert (1 <= Zpos q / 2 ^ (Zpos (digits2_pos q) - 53))%Z.
      { apply Z.div_le_lower_bound; lia. }
      lia.
    - destruct (_ <=? _)%Z; discriminate. }
  unfold Int64.in_range, Int64.min_int, Int64.max_int in R.
  destruct z as [|q|q]; [congruence| |]; cbn [binary_normalize] in E;
    apply G in E; try assumption; lia.
Qed.

Lemma of_Z_eqb_zero (z : Z) :
  Int64.in_range z -> (F64.of_Z z =? 0)%float = (z =? 0)%Z.
Proof.
  intros R. destruct (Z.eq_dec z 0) as [->|N]; [reflexivity|].
  destruct (of_Z_finite z R N) as (m & e & E).
  rewrite eqb_spec, E. apply Z.eqb_neq in N. rewrite N.
  change (Prim2SF 0) with (S754_zero false).
  unfold SFeqb, SFcompare. destruct (z <? 0)%Z; reflexivity.
Qed.

Lemma of_Z_ltb_zero (z : Z) :
  Int64.in_range z -> (F64.of_Z z <? 0)%float = (z <? 0)%Z.
Proof.
  intros R. destruct (Z.eq_dec z 0) as [->|N]; [reflexivity|].
  destruct (of_Z_finite z R N) as (m & e & E).
  rewrite ltb_spec, E. change (Prim2SF 0) with (S754_zero false).
  unfold SFltb, SFcompare. destruct (z <? 0)%Z; reflexivity.
Qed.

Lemma sub64_in_range (a b : Z) : Int64.in_range (Int64.sub64 a b).
Proof.
  unfold Int64.in_range, Int64.min_int, Int64.max_int, Int64.sub64,
    Int64.wrap.
  pose proof (Z.mod_pos_bound (a - b + 2 ^ 63) (2 ^ 64) ltac:(lia)).
  change (2 ^ 64)%Z with (2 * 2 ^ 63)%Z in *. lia.
Qed.

Lemma sub64_zero (a b : Z) :
  Int64.in_range a -> Int64.in_range b ->
  (Int64.sub64 a b =? 0)%Z = (a =? b)%Z.
Proof.
  unfold Int64.in_range, Int64.min_int, Int64.max_int, Int64.sub64,
    Int64.wrap.
  intros Ha Hb.
  destruct (Z.eqb_spec a b) as [->|N].
  - rewrite Z.sub_diag, Z.add_0_l, Z.mod_small;
      [reflexivity|change (2 ^ 64)%Z with (2 * 2 ^ 63)%Z; lia].
  - apply Z.eqb_neq. intros E.
    pose proof (Z.div_mod (a - b + 2 ^ 63) (2 ^ 64) ltac:(lia)) as D.
    change (2 ^ 64)%Z with (2 * 2 ^ 63)%Z in *.
    assert (Q : ((a - b + 2 ^ 63) / (2 * 2 ^ 63) = 0)%Z) by nia.
    rewrite Q in D. lia.
Qed.

Lemma count_cons {A : Type} (P : A -> bool) (a : A) (l : list A) :
  Pandas.count P (a :: l)
  = ((if P a then 1 else 0) + Pandas.count P l)%Z.
Proof.
  unfold Pandas.count. cbn [filter]. destruct (P a); cbn [length]; lia.
Qed.

Lemma diff_from_repeats (prev : Z) (l : list Z) :
  Int64.in_range prev -> Forall Int64.in_range l ->
  Pandas.count (fun d => d =? 0)%float (Pandas.diff_from prev l)
  = adjacent_from repeats prev l.
Proof.
  intros Hp F. revert prev Hp.
  induction F as [|c l Hc _ IH]; intros prev Hp; [reflexivity|].
  cbn [Pandas.diff_from adjacent_from]. rewrite count_cons, (IH c Hc).
  rewrite (of_Z_eqb_zero _ (sub64_in_range c prev)).
  rewrite (sub64_zero c prev Hc Hp). reflexivity.
Qed.

Lemma diff_from_steps_back (prev : Z) (l : list Z) :
  (Z.abs prev < 2 ^ 62)%Z -> Forall (fun z => (Z.abs z < 2 ^ 62)%Z) l ->
  Pandas.count (fun d => d <? 0)%float (Pandas.diff_from prev l)
  = adjacent_from steps_back prev l.
Proof.
  intros Hp F. revert prev Hp.
  induction F as [|c l Hc _ IH]; intros prev Hp; [reflexivity|].
  cbn [Pandas.diff_from adjacent_from]. rewrite count_cons, (IH c Hc).
  rewrite (of_Z_ltb_zero _ (sub64_in_range c prev)).
  rewrite sub64_exact.
  - unfold steps_back.
    replace (c - prev <? 0)%Z with (c <? prev)%Z; [reflexivity|].
    destruct (Z.ltb_spec c prev), (Z.ltb_spec (c - prev) 0); lia.
  - unfold Int64.in_range, Int64.min_int, Int64.max_int.
    change (2 ^ 63)%Z with (2 * 2 ^ 62)%Z. lia.
Qed.

(** The entries of lines 119-135 are not touched by the later ones. *)
Lemma get_base (k x y : string) (col ths : list float) (base : Summary) :
  (forall th, String.eqb k (violation_key th) = false) ->
  String.eqb k "missing_burst_max" = false ->
  String.eqb k "missing_bursts_count" = false ->
  Py.get k
    (Py.setitem "missing_burst_max" x
       (Py.setitem "missing_bursts_count" y
          (with_violations (violation_counts col ths) base)))
  = Py.get k base.
Proof.
  intros N N1 N2. rewrite !get_setitem_other by assumption.
  apply get_with_violations_other, fixed_key_not_violation, N.
Qed.

Lemma integrity_counts (x : Z) (l : list Z) (i : Integrity) :
  integrity (x :: l) = Ok i ->
  duplicates i
    = Pandas.count (fun d => d =? 0)%float (Pandas.diff_from x l) /\
  out_of_order i
    = Pandas.count (fun d => d <? 0)%float (Pandas.diff_from x l).
Proof.
  intros H. destruct (integrity_cons x l) as (E & _).
  rewrite H in E. injection E as ->.
  cbn [duplicates out_of_order Pandas.diff]. rewrite !count_cons.
  split; reflexivity.
Qed.

Lemma seq_derive (df : DataFrame) (p : float) :
  map seq (derive df p) = map seq (Pandas.sort_by_ts df).
Proof. rewrite derive_eq. apply seq_derive_rows. Qed.

Lemma Forall_seq_derive (P : Z -> Prop) (df : DataFrame) (p : float) :
  Forall P (map seq df) -> Forall P (map seq (derive df p)).
Proof.
  intros F. rewrite seq_derive.
  eapply Permutation_Forall; [|exact F].
  apply Permutation_map, Permutation_sym, sort_by_ts_perm.
Qed.

(** X2. The summary counts as [duplicates] the adjacent records, in arrival
    order, that carry the same sequence number: on every int64 column, the
    wrap-around of the difference makes no other zero. *)
Theorem duplicates_count_exact (red : Reductions) (df : DataFrame)
  (p : float) (ths : list float) (sf : float) (s : Summary)
  (w : DataFrame) (ev : list Event) :
  run_compute_metrics red df p ths sf = Ok (s, w, ev) ->
  Forall Int64.in_range (map seq df) ->
  Py.get "duplicates" s = Some (Fmt.str (adjacent repeats (map seq w))).
Proof.
  intros H F. apply run_inv in H. destruct H as (-> & H).
  apply (Forall_seq_derive _ df p) in F.
  apply analyze_inv in H.
  destruct H as (i & bev & x & y & I & _ & _ & ->).
  rewrite get_base by reflexivity.
  cbn [base_summary Py.get String.eqb Ascii.eqb Bool.eqb].
  destruct (map seq (derive df p)) as [|a l]; [discriminate I|].
  destruct (integrity_counts a l i I) as (-> & _).
  inversion F as [|? ? Ha Fl]; subst.
  rewrite (diff_from_repeats a l Ha Fl). reflexivity.
Qed.

Lemma duplicates_count_exact_witness :
  let df := [record 0 7 None; record 20 7 None; record 10 7 None;
             record 30 8 None] in
  exists (s : Summary) (w : DataFrame) (ev : list Event),
    run_compute_metrics Sequential.reductions df 1 [1; 5] 2 = Ok (s, w, ev) /\
    Forall Int64.in_range (map seq df) /\
    Py.get "duplicates" s = Some (Fmt.str (adjacent repeats (map seq w))).
Proof.
  intros df.
  destruct (run_compute_metrics Sequential.reductions df 1 [1; 5] 2)
    as [[[s w] ev]|e] eqn:R; [|vm_compute in R; discriminate R].
  assert (F : Forall Int64.in_range (map seq df)).
  { repeat constructor; vm_compute; discriminate. }
  exists s, w, ev. split; [reflexivity|]. split; [exact F|].
  apply (duplicates_count_exact Sequential.reductions df 1 [1; 5] 2 s w ev
           R F).
Defined.

(** X3. The summary counts as [out_of_order] the adjacent records, in arrival
    order, whose sequence number steps back, where the sequence numbers are
    below [2 ^ 62] in magnitude: there the int64 difference does not wrap. *)
Theorem out_of_order_count_exact (red : Reductions) (df : DataFrame)
  (p : float) (ths : list float) (sf : float) (s : Summary)
  (w : DataFrame) (ev : list Event) :
  run_compute_metrics red df p ths sf = Ok (s, w, ev) ->
  Forall (fun z => (Z.abs z < 2 ^ 62)%Z) (map seq df) ->
  Py.get "out_of_order" s
  = Some (Fmt.str (adjacent steps_back (map seq w))).
Proof.
  intros H F. apply run_inv in H. destruct H as (-> & H).
  apply (Forall_seq_derive _ df p) in F.
  apply analyze_inv in H.
  destruct H as (i & bev & x & y & I & _ & _ & ->).
  rewrite get_base by reflexivity.
  cbn [base_summary Py.get String.eqb Ascii.eqb Bool.eqb].
  destruct (map seq (derive df p)) as [|a l]; [discriminate I|].
  destruct (integrity_counts a l i I) as (_ & ->).
  inversion F as [|? ? Ha Fl]; subst.
  rewrite (diff_from_steps_back a l Ha Fl). reflexivity.
Qed.

Lemma out_of_order_count_exact_witness :
  let df := [record 0 7 None; record 20 5 None; record 10 9 None;
             record 30 8 None] in
  exists (s : Summary) (w : DataFrame) (ev : list Event),
    run_compute_metrics Sequential.reductions df 1 [1; 5] 2 = Ok (s, w, ev) /\
    Forall (fun z => (Z.abs z < 2 ^ 62)%Z) (map seq df) /\
    Py.get "out_of_order" s
    = Some (Fmt.str (adjacent steps_back (map seq w))).
Proof.
  intros df.
  destruct (run_compute_metrics Sequential.reductions df 1 [1; 5] 2)
    as [[[s w] ev]|e] eqn:R; [|vm_compute in R; discriminate R].
  assert (F : Forall (fun z => (Z.abs z < 2 ^ 62)%Z) (map seq df)).
  { repeat constructor. }
  exists s, w, ev. split; [reflexivity|]. split; [exact F|].
  apply (out_of_order_count_exact Sequential.reductions df 1 [1; 5] 2 s w
           ev R F).
Defined.

(** ** The detail table and the range of the sequence numbers *)

Lemma given_derive_rows (prev : option Z) (p : float) (l : list Row) :
  map given (derive_rows prev p l) = map given l.
Proof.
  revert prev. induction l as [|r l IH]; intros prev; cbn [derive_rows map];
    [reflexivity|]. rewrite IH. reflexivity.
Qed.

Lemma ordered_given (l l' : list Row) :
  map given l = map given l' -> ordered l -> ordered l'.
Proof.
  intros E O. revert l' E.
  induction O as [|r l O IH Hr]; intros l' E.
  - destruct l'; [constructor|discriminate E].
  - destruct l' as [|r' l']; [discriminate E|].
    cbn [map given] in E. injection E as Et _ _ El.
    constructor; [apply IH, El|].
    rewrite <- Et. clear IH O.
    revert l' El. induction Hr as [|x l Hx Hr IH]; intros l' El.
    + destruct l'; [constructor|discriminate El].
    + destruct l' as [|x' l']; [discriminate El|].
      cbn [map given] in El. injection El as Ex _ _ El.
      constructor; [|apply IH, El].
      rewrite <- Ex. exact Hx.
Qed.

(** X4. The detail table is the caller's table in arrival order: the same
    records, each as often as the caller gave it, by ascending timestamp; and
    the summary counts them all. *)
Theorem detail_is_sorted_input (red : Reductions) (df : DataFrame)
  (p : float) (ths : list float) (sf : float) (s : Summary)
  (w : DataFrame) (ev : list Event) :
  run_compute_metrics red df p ths sf = Ok (s, w, ev) ->
  ordered w /\
  Permutation (map given w) (map given df) /\
  Py.get "packets_observed" s = Some (Fmt.str (len df)).
Proof.
  intros H. apply run_inv in H. destruct H as (-> & H).
  assert (G : map given (derive df p) = map given (Pandas.sort_by_ts df)).
  { rewrite derive_eq. apply given_derive_rows. }
  split; [|split].
  - apply (ordered_given (Pandas.sort_by_ts df)); [symmetry; exact G|].
    apply sort_by_ts_is_ordered.
  - rewrite G. apply Permutation_map, sort_by_ts_perm.
  - apply analyze_inv in H.
    destruct H as (i & bev & x & y & _ & _ & _ & ->).
    rewrite get_base by reflexivity.
    cbn [base_summary Py.get String.eqb Ascii.eqb Bool.eqb].
    unfold len. rewrite derive_eq, derive_rows_length.
    rewrite (Permutation_length (sort_by_ts_perm df)). reflexivity.
Qed.

Lemma detail_is_sorted_input_witness :
  let df := [record 40 2 None; record 10 1 None; record 40 3 None] in
  exists (s : Summary) (w : DataFrame) (ev : list Event),
    run_compute_metrics Sequential.reductions df 1 [1; 5] 2 = Ok (s, w, ev) /\
    ordered w /\
    Permutation (map given w) (map given df) /\
    Py.get "packets_observed" s = Some (Fmt.str (len df)).
Proof.
  intros df.
  destruct (run_compute_metrics Sequential.reductions df 1 [1; 5] 2)
    as [[[s w] ev]|e] eqn:R; [|vm_compute in R; discriminate R].
  exists s, w, ev. split; [reflexivity|].
  apply (detail_is_sorted_input Sequential.reductions df 1 [1; 5] 2 s w ev
           R).
Defined.

Lemma nunique_perm (l l' : list Z) :
  Permutation l l' -> Pandas.nunique l = Pandas.nunique l'.
Proof.
  intros P. unfold Pandas.nunique. f_equal. apply Permutation_length.
  apply NoDup_Permutation; try apply NoDup_nodup.
  intros x. rewrite !nodup_In.
  split; intros I; [apply (Permutation_in _ P I)|].
  apply (Permutation_in _ (Permutation_sym P) I).
Qed.

(** X5. What the summary tells of the sequence numbers: [seq_min] and [seq_max]
    are the least and the greatest sequence number of the table, and
    [missing_packets_est] is the size of their range less the number of
    distinct sequence numbers, which is never negative: the [max] with zero of
    line 75 changes nothing. *)
Theorem summary_sequence_range (red : Reductions) (df : DataFrame)
  (p : float) (ths : list float) (sf : float) (s : Summary)
  (w : DataFrame) (ev : list Event) :
  run_compute_metrics red df p ths sf = Ok (s, w, ev) ->
  exists lo hi : Z,
    In lo (map seq df) /\ In hi (map seq df) /\
    (forall z, In z (map seq df) -> (lo <= z <= hi)%Z) /\
    Py.get "seq_min" s = Some (Fmt.str lo) /\
    Py.get "seq_max" s = Some (Fmt.str hi) /\
    Py.get "missing_packets_est" s
    = Some (Fmt.str (hi - lo + 1 - Pandas.nunique (map seq df))) /\
    (0 <= hi - lo + 1 - Pandas.nunique (map seq df))%Z.
Proof.
  intros H. apply run_inv in H. destruct H as (-> & H).
  apply analyze_inv in H.
  destruct H as (i & bev & x & y & I & _ & _ & ->).
  assert (P : Permutation (map seq (derive df p)) (map seq df)).
  { rewrite seq_derive. apply Permutation_map, sort_by_ts_perm. }
  rewrite <- (nunique_perm _ _ P).
  destruct (map seq (derive df p)) as [|a l] eqn:E; [discriminate I|].
  destruct (integrity_cons a l) as (E' & Hle).
  pose proof (missing_exact (a :: l) i I) as M.
  rewrite I in E'. injection E' as ->.
  destruct (fold_min_spec l a) as (Bmin & Imin).
  destruct (fold_max_spec l a) as (Bmax & Imax).
  exists (fold_left Z.min l a), (fold_left Z.max l a).
  split; [apply (Permutation_in _ P Imin)|].
  split; [apply (Permutation_in _ P Imax)|].
  split.
  { intros z Hz. apply (Permutation_in _ (Permutation_sym P)) in Hz.
    split; [apply Bmin|apply Bmax]; exact Hz. }
  rewrite !get_base by reflexivity.
  cbn [base_summary Py.get String.eqb Ascii.eqb Bool.eqb seq_min seq_max
       missing].
  cbn [missing expected_total observed_unique] in M.
  replace (fold_left Z.max l a >=? fold_left Z.min l a)%Z with true in *
    by (symmetry; rewrite Z.geb_leb; apply Z.leb_le, Hle).
  rewrite M. repeat split; try reflexivity.
  pose proof (nunique_range (a :: l) (fold_left Z.min l a)
                (fold_left Z.max l a)) as R.
  assert (B : forall y, In y (a :: l) ->
                (fold_left Z.min l a <= y <= fold_left Z.max l a)%Z).
  { intros z Hz. split; [apply Bmin|apply Bmax]; exact Hz. }
  specialize (R B). lia.
Qed.

Lemma summary_sequence_range_witness :
  let df := [record 40 9 None; record 10 4 None; record 40 4 None] in
  exists (s : Summary) (w : DataFrame) (ev : list Event),
    run_compute_metrics Sequential.reductions df 1 [1; 5] 2 = Ok (s, w, ev) /\
    exists lo hi : Z,
      In lo (map seq df) /\ In hi (map seq df) /\
      (forall z, In z (map seq df) -> (lo <= z <= hi)%Z) /\
      Py.get "seq_min" s = Some (Fmt.str lo) /\
      Py.get "seq_max" s = Some (Fmt.str hi) /\
      Py.get "missing_packets_est" s
      = Some (Fmt.str (hi - lo + 1 - Pandas.nunique (map seq df))) /\
      (0 <= hi - lo + 1 - Pandas.nunique (map seq df))%Z.
Proof.
  intros df.
  destruct (run_compute_metrics Sequential.reductions df 1 [1; 5] 2)
    as [[[s w] ev]|e] eqn:R; [|vm_compute in R; discriminate R].
  exists s, w, ev. split; [reflexivity|].
  apply (summary_sequence_range Sequential.reductions df 1 [1; 5] 2 s w ev
           R).
Defined.

(** ** The bursts of a column of small sequence numbers *)

Lemma spec_bursts_from_In (l : list Z) (idx : nat) (prev : Z) (b : Burst) :
  In b (spec_bursts_from (Z.of_nat (S idx)) prev l) <->
  exists i : nat,
    (idx <= i)%nat /\ burst_at (repeat 0%Z idx ++ prev :: l) i b.
Proof.
  revert idx prev. induction l as [|c l IH]; intros idx prev.
  - cbn [spec_bursts_from]. split; [intros []|].
    intros (i & Hi & p & q & Np & Nq & _).
    exfalso.
    assert (L : (S i < length (repeat 0%Z idx ++ [prev]))%nat).
    { apply nth_error_Some. congruence. }
    rewrite length_app, repeat_length in L. cbn [length] in L. lia.
  - cbn [spec_bursts_from]. rewrite in_app_iff.
    replace (Z.of_nat (S idx) + 1)%Z with (Z.of_nat (S (S idx))) by lia.
    rewrite (IH (S idx) c).
    assert (Shape : repeat 0%Z (S idx) ++ c :: l
                    = repeat 0%Z idx ++ 0%Z :: c :: l).
    { change (0%Z :: c :: l) with ([0%Z] ++ c :: l).
      rewrite app_assoc, <- (repeat_cons idx 0%Z). reflexivity. }
    assert (Nth : forall (x : Z) (j : nat),
               (idx < j)%nat ->
               nth_error (repeat 0%Z idx ++ x :: c :: l) j
               = nth_error (c :: l) (j - S idx)).
    { intros x j Hj.
      rewrite nth_error_app2 by (rewrite repeat_length; lia).
      rewrite repeat_length.
      replace (j - idx)%nat with (S (j - S idx)) by lia. reflexivity. }
    assert (At : nth_error (repeat 0%Z idx ++ prev :: c :: l) idx
                 = Some prev).
    { rewrite nth_error_app2 by (rewrite repeat_length; lia).
      rewrite repeat_length, Nat.sub_diag. reflexivity. }
    split.
    + intros [H|(i & Hi & p & q & Np & Nq & G & ->)].
      * exists idx. split; [lia|]. exists prev, c.
        destruct (c - prev >? 1)%Z eqn:G; [|destruct H].
        destruct H as [<-|[]].
        split; [exact At|]. split; [|split; [lia|reflexivity]].
        rewrite Nth by lia. rewrite Nat.sub_diag. reflexivity.
      * exists i. split; [lia|]. exists p, q.
        rewrite Shape in Np, Nq. rewrite Nth in Np, Nq by lia.
        rewrite !Nth by lia. repeat split; assumption.
    + intros (i & Hi & p & q & Np & Nq & G & ->).
      destruct (Nat.eq_dec i idx) as [->|Ni].
      * left. rewrite At in Np. injection Np as <-.
        rewrite Nth in Nq by lia. rewrite Nat.sub_diag in Nq.
        injection Nq as <-.
        replace (c - prev >? 1)%Z with true
          by (symmetry; apply Z.gtb_lt; lia).
        left. reflexivity.
      * right. exists i. split; [lia|]. exists p, q.
        rewrite Shape. rewrite Nth in Np, Nq by lia.
        rewrite !Nth by lia. repeat split; assumption.
Qed.

Lemma spec_bursts_from_sorted (l : list Z) (idx prev : Z) :
  StronglySorted (fun a b => (index a < index b)%Z)
    (spec_bursts_from idx prev l) /\
  Forall (fun b => (idx <= index b)%Z) (spec_bursts_from idx prev l).
Proof.
  revert idx prev. induction l as [|c l IH]; intros idx prev.
  - split; constructor.
  - cbn [spec_bursts_from].
    destruct (IH (idx + 1)%Z c) as (S' & F').
    assert (F2 : Forall (fun b => (idx < index b)%Z)
                   (spec_bursts_from (idx + 1) c l)).
    { eapply Forall_impl; [|exact F']. cbn beta. intros b. lia. }
    destruct (c - prev >? 1)%Z; cbn [app].
    + split; constructor; try assumption.
      * cbn [index]. lia.
      * eapply Forall_impl; [|exact F2]. cbn beta. intros b. lia.
    + split; [exact S'|]. eapply Forall_impl; [|exact F2].
      cbn beta. intros b. lia.
Qed.

(** X6. The bursts of a column of small sequence numbers. The estimator raises
    nothing; it returns one burst for each adjacent pair whose gap exceeds one
    and none for any other pair, in the order of the column; the burst holds
    the position of the later record, the two sequence numbers and the gap less
    one. *)
Theorem missing_bursts_small (l : list Z) :
  Forall small l ->
  exists bs : list Burst,
    estimate_missing_bursts l = Ok bs /\
    (forall b, In b bs <-> exists i : nat, burst_at l i b) /\
    StronglySorted (fun a b => (index a < index b)%Z) bs.
Proof.
  intros H. exists (spec_bursts l).
  split; [apply bursts_of_small_sequences, H|].
  destruct l as [|x l].
  - split; [|constructor]. intros b. split; [intros []|].
    intros (i & p & q & Np & _). destruct i; discriminate Np.
  - cbn [spec_bursts]. split.
    + intros b. change 1%Z with (Z.of_nat 1).
      rewrite (spec_bursts_from_In l 0 x b). cbn [repeat app].
      split; [intros (i & _ & B)|intros (i & B)]; exists i;
        [exact B|split; [lia|exact B]].
    + apply spec_bursts_from_sorted.
Qed.

Lemma missing_bursts_small_witness :
  Forall small [1; 2; 5; 6; 6; 4; 9]%Z /\
  exists bs : list Burst,
    estimate_missing_bursts [1; 2; 5; 6; 6; 4; 9]%Z = Ok bs /\
    (forall b, In b bs <->
               exists i : nat, burst_at [1; 2; 5; 6; 6; 4; 9]%Z i b) /\
    StronglySorted (fun a b => (index a < index b)%Z) bs.
Proof.
  assert (S : Forall small [1; 2; 5; 6; 6; 4; 9]%Z).
  { repeat constructor. }
  split; [exact S|].
  apply (missing_bursts_small [1; 2; 5; 6; 6; 4; 9]%Z S).
Defined.

(** ** Bursts and missing packets on a column that never steps back *)

Lemma last_cons (l : list Z) (x y : Z) : last (y :: l) x = last l y.
Proof.
  revert x y. induction l as [|a l IH]; intros x y; [reflexivity|].
  change (last (y :: a :: l) x) with (last (a :: l) x).
  rewrite (IH x a), (IH y a). reflexivity.
Qed.

Lemma last_In (l : list Z) (x : Z) : In (last l x) (x :: l).
Proof.
  revert x. induction l as [|y l IH]; intros x; [left; reflexivity|].
  right. rewrite last_cons. apply IH.
Qed.

Lemma sorted_le_last (l : list Z) (x z : Z) :
  StronglySorted Z.le (x :: l) -> In z (x :: l) -> (z <= last l x)%Z.
Proof.
  revert x z. induction l as [|y l IH]; intros x z S Hz.
  - destruct Hz as [<-|[]]. cbn [last]. lia.
  - inversion S as [|? ? S' F]; subst.
    inversion F as [|? ? Hxy _]; subst.
    rewrite last_cons. destruct Hz as [<-|Hz].
    + transitivity y; [exact Hxy|]. apply (IH y y S'). left. reflexivity.
    + apply (IH y z S' Hz).
Qed.

Lemma sorted_last_max (l : list Z) (x : Z) :
  StronglySorted Z.le (x :: l) ->
  fold_left Z.max l x = last l x /\ fold_left Z.min l x = x.
Proof.
  intros S. destruct (fold_max_spec l x) as (Bmax & Imax).
  destruct (fold_min_spec l x) as (Bmin & Imin).
  split.
  - apply Z.le_antisymm;
      [apply (sorted_le_last l x _ S Imax)|apply Bmax, last_In].
  - apply Z.le_antisymm; [apply Bmin; left; reflexivity|].
    inversion S as [|? ? _ F]; subst.
    destruct Imin as [<-|I]; [lia|].
    rewrite Forall_forall in F. apply F, I.
Qed.

Lemma nunique_sorted (l : list Z) (x : Z) :
  StronglySorted Z.le (x :: l) ->
  Pandas.nunique (x :: l) = (1 + adjacent_from climbs x l)%Z.
Proof.
  revert x. induction l as [|c l IH]; intros x S; [reflexivity|].
  inversion S as [|? ? S' F]; subst.
  inversion F as [|? ? Hxc Fx]; subst.
  specialize (IH c S'). unfold Pandas.nunique in *.
  cbn [adjacent_from].
  change (nodup Z.eq_dec (x :: c :: l))
    with (if in_dec Z.eq_dec x (c :: l) then nodup Z.eq_dec (c :: l)
          else x :: nodup Z.eq_dec (c :: l)).
  destruct (in_dec Z.eq_dec x (c :: l)) as [I|N].
  - assert (x = c).
    { inversion S' as [|? ? _ Fc]; subst. destruct I as [->|I]; [reflexivity|].
      rewrite Forall_forall in Fc. specialize (Fc x I). lia. }
    subst c. unfold climbs at 1. rewrite Z.ltb_irrefl.
    rewrite IH. lia.
  - assert (x <> c) by (intros ->; apply N; left; reflexivity).
    unfold climbs at 1.
    replace (x <? c)%Z with true by (symmetry; apply Z.ltb_lt; lia).
    cbn [length]. rewrite Nat2Z.inj_succ, IH. lia.
Qed.

Lemma total_missing_sorted (l : list Z) (idx prev : Z) :
  StronglySorted Z.le (prev :: l) ->
  total_missing (spec_bursts_from idx prev l)
  = (last l prev - prev - adjacent_from climbs prev l)%Z.
Proof.
  revert idx prev. induction l as [|c l IH]; intros idx prev S.
  - cbn [spec_bursts_from total_missing fold_right last adjacent_from]. lia.
  - inversion S as [|? ? S' F]; subst.
    inversion F as [|? ? Hpc _]; subst.
    cbn [spec_bursts_from adjacent_from].
    rewrite last_cons. unfold total_missing in *.
    rewrite fold_right_app. unfold climbs at 1.
    specialize (IH (idx + 1)%Z c S').
    destruct (Z.gtb_spec (c - prev) 1) as [G|G];
      destruct (Z.ltb_spec prev c) as [L|L];
      cbn [fold_right missing_count]; rewrite IH; lia.
Qed.

Lemma missing_of_sorted (x : Z) (l : list Z) (i : Integrity) :
  StronglySorted Z.le (x :: l) -> integrity (x :: l) = Ok i ->
  total_missing (spec_bursts (x :: l)) = missing i.
Proof.
  intros S I. destruct (integrity_cons x l) as (E & _).
  rewrite I in E. injection E as ->. cbn [missing spec_bursts].
  destruct (sorted_last_max l x S) as (-> & ->).
  rewrite (total_missing_sorted l 1 x S), (nunique_sorted l x S).
  assert (Hx : (x <= last l x)%Z).
  { destruct (fold_max_spec l x) as (B & _).
    destruct (sorted_last_max l x S) as (<- & _).
    apply B. left. reflexivity. }
  replace (last l x >=? x)%Z with true
    by (symmetry; rewrite Z.geb_leb; apply Z.leb_le, Hx).
  assert (A : (0 <= last l x - x - adjacent_from climbs x l)%Z).
  { rewrite <- (total_missing_sorted l 1 x S).
    assert (G : forall bs, Forall (fun b => 0 <= missing_count b)%Z bs ->
                           (0 <= total_missing bs)%Z).
    { induction 1 as [|b bs Hb _ IH]; cbn [total_missing fold_right];
        [lia|]. unfold total_missing in IH. lia. }
    apply G. clear. generalize 1%Z at 1. revert x.
    induction l as [|c l IH]; intros x idx; cbn [spec_bursts_from];
      [constructor|].
    apply Forall_app. split; [|apply IH].
    destruct (Z.gtb_spec (c - x) 1); constructor; [|constructor].
    cbn [missing_count]. lia. }
  lia.
Qed.

(** X7. On a column of small sequence numbers that never steps back, the bursts
    account for the missing packets: the [missing_count]s of the bursts add up
    to the [missing] of lines 71-75. *)
Theorem bursts_account_for_missing (l : list Z) :
  l <> [] -> Forall small l -> StronglySorted Z.le l ->
  exists (bs : list Burst) (i : Integrity),
    estimate_missing_bursts l = Ok bs /\
    integrity l = Ok i /\
    total_missing bs = missing i.
Proof.
  intros N H S. destruct l as [|x l]; [congruence|].
  exists (spec_bursts (x :: l)).
  destruct (integrity_cons x l) as (E & _).
  eexists. split; [apply bursts_of_small_sequences, H|].
  split; [exact E|]. apply (missing_of_sorted x l _ S E).
Qed.

Lemma bursts_account_for_missing_witness :
  [3; 4; 4; 9; 12]%Z <> [] /\ Forall small [3; 4; 4; 9; 12]%Z /\
  StronglySorted Z.le [3; 4; 4; 9; 12]%Z /\
  exists (bs : list Burst) (i : Integrity),
    estimate_missing_bursts [3; 4; 4; 9; 12]%Z = Ok bs /\
    integrity [3; 4; 4; 9; 12]%Z = Ok i /\
    total_missing bs = missing i.
Proof.
  assert (N : [3; 4; 4; 9; 12]%Z <> []) by discriminate.
  assert (H : Forall small [3; 4; 4; 9; 12]%Z) by (repeat constructor).
  assert (S : StronglySorted Z.le [3; 4; 4; 9; 12]%Z).
  { repeat constructor; discriminate. }
  split; [exact N|]. split; [exact H|]. split; [exact S|].
  apply (bursts_account_for_missing [3; 4; 4; 9; 12]%Z N H S).
Defined.

(** ** The event table and the keys of the summary *)

(** What a call that returns has returned, with the bursts it found. *)
Lemma analyze_inv_bursts (red : Reductions) (w : DataFrame) (p : float)
  (ths : list float) (sf : float) (s : Summary) (ev : list Event) :
  analyze red w p ths sf = Ok (s, ev) ->
  exists (i : Integrity) (bursts : list Burst) (bev : list Event),
    integrity (map seq w) = Ok i /\
    estimate_missing_bursts (map seq w) = Ok bursts /\
    burst_events w bursts = Ok bev /\
    ev = timing_events w (p * sf) ths ++ bev /\
    s = Py.setitem "missing_burst_max"
          (Fmt.str (greatest (map missing_count bursts)))
          (Py.setitem "missing_bursts_count" (Fmt.str (len bursts))
             (with_violations (violation_counts (map abs_dev_ms w) ths)
                (base_summary red w p sf i))).
Proof.
  unfold analyze. intros H.
  destruct (integrity (map seq w)) as [i|]; [|discriminate H].
  cbn [bindR] in H.
  destruct (estimate_missing_bursts (map seq w)) as [bursts|];
    [|discriminate H].
  cbn [bindR] in H. exists i, bursts.
  destruct bursts as [|b bursts].
  - cbn [nonempty bindR] in H. injection H as <- <-.
    exists []. repeat split; try reflexivity. symmetry. apply app_nil_r.
  - cbn [nonempty] in H.
    destruct (burst_events w (b :: bursts)) as [bev|] eqn:B;
      [|discriminate H].
    cbn [bindR map Pandas.max Py.int] in H. injection H as <- <-.
    exists bev. repeat split; reflexivity.
Qed.

Lemma burst_events_sizes (work : DataFrame) (bursts : list Burst)
  (es : list Event) :
  burst_events work bursts = Ok es ->
  burst_sizes es = map missing_count bursts /\
  length es = length bursts /\
  Forall (fun e => is_timing e = false) es /\
  map event_ts es
  = map (fun b => ts_rx_ns (nth (Z.to_nat (index b)) work (record 0 0 None)))
      bursts /\
  Forall (fun b => (Z.to_nat (index b) < length work)%nat) bursts.
Proof.
  revert es. induction bursts as [|b bursts IH]; cbn [burst_events];
    intros es H.
  - injection H as <-. repeat split; constructor.
  - unfold iloc in H.
    destruct (nth_error work (Z.to_nat (index b))) as [r|] eqn:N;
      [|discriminate H].
    cbn [bindR] in H.
    destruct (burst_events work bursts) as [es'|]; [|discriminate H].
    cbn [bindR] in H. injection H as <-.
    destruct (IH es' eq_refl) as (S & Le & T & E & L).
    unfold burst_sizes in *. cbn [flat_map map app event_ts length].
    rewrite S, Le, E, (nth_error_nth _ _ _ N).
    repeat split; try reflexivity; constructor; try assumption.
    + reflexivity.
    + apply nth_error_Some. congruence.
Qed.

Lemma timing_events_labels (work : DataFrame) (spike : float)
  (ths : list float) :
  Forall (fun e => is_timing e = true /\
                   is_burst_event e = false /\
                   String.eqb (event_type e) "" = false)
    (timing_events work spike ths).
Proof.
  rewrite timing_events_rowwise.
  induction (with_iat work) as [|r l IH]; cbn [flat_map]; [constructor|].
  apply Forall_app. split; [|exact IH].
  unfold event_of.
  destruct (String.eqb (final_label spike ths r) "") eqn:E;
    constructor; [|constructor].
  split; [reflexivity|]. split; [|exact E].
  unfold is_burst_event. cbn [event_type]. rewrite final_label_eq.
  destruct (F64.gtb (iat_ms r) spike); [reflexivity|].
  destruct (find _ _); reflexivity.
Qed.

Lemma burst_sizes_app (a b : list Event) :
  burst_sizes (a ++ b) = burst_sizes a ++ burst_sizes b.
Proof. apply flat_map_app. Qed.

Lemma burst_sizes_timing (l : list Event) :
  Forall (fun e => is_timing e = true) l -> burst_sizes l = [].
Proof.
  induction 1 as [|e l He _ IH]; [reflexivity|].
  unfold burst_sizes in *. cbn [flat_map]. rewrite IH.
  destruct e; [reflexivity|discriminate He].
Qed.

Lemma count_all {A : Type} (P : A -> bool) (l : list A) :
  Forall (fun a => P a = true) l -> Pandas.count P l = len l.
Proof.
  unfold Pandas.count, len. induction 1 as [|a l E _ IH]; [reflexivity|].
  cbn [filter]. rewrite E. cbn [length]. lia.
Qed.

(** X8. The counts of the bursts in the summary are those of the event table:
    [missing_bursts_count] is the number of its rows of type ["missing_burst"],
    and [missing_burst_max] the greatest [missing_count] among them, zero when
    there is none. *)
Theorem burst_summary_agrees (red : Reductions) (df : DataFrame)
  (p : float) (ths : list float) (sf : float) (s : Summary)
  (w : DataFrame) (ev : list Event) :
  run_compute_metrics red df p ths sf = Ok (s, w, ev) ->
  Py.get "missing_bursts_count" s
  = Some (Fmt.str (Pandas.count is_burst_event ev)) /\
  Py.get "missing_burst_max" s = Some (Fmt.str (greatest (burst_sizes ev))).
Proof.
  intros H. apply run_inv in H. destruct H as (_ & H).
  apply analyze_inv_bursts in H.
  destruct H as (i & bursts & bev & _ & _ & B & -> & ->).
  pose proof (timing_events_labels w (p * sf) ths) as T.
  pose proof (burst_events_type w bursts bev B) as Ty.
  destruct (burst_events_sizes w bursts bev B) as (Sz & L & _ & _ & _).
  split.
  - rewrite get_setitem_other by reflexivity. rewrite get_setitem_same.
    do 2 f_equal. rewrite count_app.
    rewrite count_none
      by (eapply Forall_impl; [|exact T]; cbn beta; tauto).
    rewrite count_all.
    + unfold len. rewrite L. reflexivity.
    + eapply Forall_impl; [|exact Ty]. cbn beta. intros e He.
      unfold is_burst_event. rewrite He. reflexivity.
  - rewrite get_setitem_same. do 3 f_equal.
    rewrite burst_sizes_app, burst_sizes_timing, Sz; [reflexivity|].
    eapply Forall_impl; [|exact T]. cbn beta. tauto.
Qed.

Lemma burst_summary_agrees_witness :
  let df := [record 0 1 None; record 10 2 None; record 20 5 None;
             record 30 6 None; record 40 10 None] in
  exists (s : Summary) (w : DataFrame) (ev : list Event),
    run_compute_metrics Sequential.reductions df 1 [1; 5] 2 = Ok (s, w, ev) /\
    Py.get "missing_bursts_count" s
    = Some (Fmt.str (Pandas.count is_burst_event ev)) /\
    Py.get "missing_burst_max" s
    = Some (Fmt.str (greatest (burst_sizes ev))).
Proof.
  intros df.
  destruct (run_compute_metrics Sequential.reductions df 1 [1; 5] 2)
    as [[[s w] ev]|e] eqn:R; [|vm_compute in R; discriminate R].
  exists s, w, ev. split; [reflexivity|].
  apply (burst_summary_agrees Sequential.reductions df 1 [1; 5] 2 s w ev R).
Defined.

(** *** The order of the rows of the event table *)

Lemma sorted_app {A : Type} (R : A -> A -> Prop) (a b : list A) :
  StronglySorted R a -> StronglySorted R b ->
  (forall x y, In x a -> In y b -> R x y) ->
  StronglySorted R (a ++ b).
Proof.
  intros Sa Sb H. induction Sa as [|x a Sa IH Fx]; [exact Sb|].
  cbn [app]. constructor.
  - apply IH. intros u v Hu Hv. apply H; [right; exact Hu|exact Hv].
  - apply Forall_app. split; [exact Fx|].
    apply Forall_forall. intros y Hy. apply H; [left; reflexivity|exact Hy].
Qed.

Lemma flat_map_sorted (f : Row -> list Event) (l : list Row) :
  (forall r e, In e (f r) -> event_ts e = ts_rx_ns r) ->
  ordered l ->
  StronglySorted (fun a b => (event_ts a <= event_ts b)%Z) (flat_map f l).
Proof.
  intros Hf O. induction O as [|r l O IH Hr]; [constructor|].
  cbn [flat_map]. apply sorted_app; [|exact IH|].
  - assert (G : forall es, (forall e, In e es -> event_ts e = ts_rx_ns r) ->
                StronglySorted (fun a b => (event_ts a <= event_ts b)%Z) es).
    { induction es as [|e es IHes]; intros He; constructor.
      - apply IHes. intros e' I. apply He. right. exact I.
      - apply Forall_forall. intros e' I.
        rewrite (He e (or_introl eq_refl)), (He e' (or_intror I)). lia. }
    apply G, Hf.
  - intros x y Hx Hy. apply in_flat_map in Hy. destruct Hy as (r' & Ir & Iy).
    rewrite (Hf r x Hx), (Hf r' y Iy).
    rewrite Forall_forall in Hr. apply Hr, Ir.
Qed.

Lemma timing_events_sorted (work : DataFrame) (spike : float)
  (ths : list float) :
  ordered work ->
  StronglySorted (fun a b => (event_ts a <= event_ts b)%Z)
    (timing_events work spike ths).
Proof.
  intros O. rewrite timing_events_rowwise. unfold with_iat.
  assert (E : forall l,
             flat_map (fun r => event_of r (final_label spike ths r))
               (filter (fun r => negb (F64.isna (iat_ms r))) l)
             = flat_map
                 (fun r => if negb (F64.isna (iat_ms r))
                           then event_of r (final_label spike ths r)
                           else []) l).
  { induction l as [|r l IH]; [reflexivity|]. cbn [filter flat_map].
    destruct (negb (F64.isna (iat_ms r))); cbn [flat_map app]; rewrite IH;
      reflexivity. }
  rewrite E. apply flat_map_sorted; [|exact O].
  intros r e. destruct (negb (F64.isna (iat_ms r))); [|intros []].
  unfold event_of. destruct (String.eqb _ _); [intros []|].
  intros [<-|[]]. reflexivity.
Qed.

Lemma bursts_from_sorted (sq : list Z) (prev : list float)
  (gap : list float) (idx : nat) (bs : list Burst) :
  bursts_from sq prev idx gap = Ok bs ->
  StronglySorted (fun a b => (index a < index b)%Z) bs /\
  Forall (fun b => (Z.of_nat idx <= index b)%Z) bs.
Proof.
  revert idx bs. induction gap as [|g gap IH]; intros idx bs H.
  - injection H as <-. split; constructor.
  - cbn [bursts_from] in H.
    assert (Next : forall bs',
               bursts_from sq prev (S idx) gap = Ok bs' ->
               StronglySorted (fun a b => (index a < index b)%Z) bs' /\
               Forall (fun b => (Z.of_nat idx < index b)%Z) bs').
    { intros bs' H'. destruct (IH (S idx) bs' H') as (S' & F').
      split; [exact S'|]. eapply Forall_impl; [|exact F']. cbn beta.
      intros b. lia. }
    destruct (F64.isna g).
    { destruct (Next bs H) as (S' & F'). split; [exact S'|].
      eapply Forall_impl; [|exact F']. cbn beta. intros b. lia. }
    destruct (F64.gtb g 1).
    2:{ destruct (Next bs H) as (S' & F'). split; [exact S'|].
        eapply Forall_impl; [|exact F']. cbn beta. intros b. lia. }
    destruct (iloc prev idx) as [q|]; [|discriminate H]. cbn [bindR] in H.
    destruct (Py.int_of_float q) as [zq|]; [|discriminate H].
    cbn [bindR] in H.
    destruct (iloc sq idx) as [c|]; [|discriminate H]. cbn [bindR] in H.
    destruct (Py.int_of_float (g - 1)) as [m|]; [|discriminate H].
    cbn [bindR] in H.
    destruct (bursts_from sq prev (S idx) gap) as [bs'|]; [|discriminate H].
    cbn [bindR] in H. injection H as <-.
    destruct (Next bs' eq_refl) as (S' & F').
    split; constructor; try assumption.
    + cbn [index]. lia.
    + eapply Forall_impl; [|exact F']. cbn beta. intros b. lia.
Qed.

Lemma ordered_nth_le (w : DataFrame) (d : Row) (i j : nat) :
  ordered w -> (i <= j)%nat -> (j < length w)%nat ->
  (ts_rx_ns (nth i w d) <= ts_rx_ns (nth j w d))%Z.
Proof.
  intros O. revert i j. induction O as [|r l O IH Hr]; intros i j Hij Hj.
  - cbn [length] in Hj. lia.
  - destruct j as [|j].
    + replace i with 0%nat by lia. lia.
    + cbn [length] in Hj. destruct i as [|i].
      * cbn [nth]. rewrite Forall_forall in Hr. apply Hr, nth_In. lia.
      * cbn [nth]. apply IH; lia.
Qed.

Lemma burst_events_sorted (work : DataFrame) (bursts : list Burst)
  (es : list Event) :
  ordered work ->
  StronglySorted (fun a b => (index a < index b)%Z) bursts ->
  Forall (fun b => (0 <= index b)%Z) bursts ->
  burst_events work bursts = Ok es ->
  StronglySorted (fun a b => (event_ts a <= event_ts b)%Z) es.
Proof.
  intros O S P H.
  destruct (burst_events_sizes work bursts es H) as (_ & _ & _ & E & L).
  assert (G : StronglySorted Z.le (map event_ts es)).
  { rewrite E. clear E H es.
    induction S as [|b bs S IH Fb]; [constructor|].
    inversion P as [|? ? Pb Pbs]; subst.
    inversion L as [|? ? Lb Lbs]; subst.
    cbn [map]. constructor; [apply IH; assumption|].
    apply Forall_forall. intros t Ht. apply in_map_iff in Ht.
    destruct Ht as (b' & <- & Ib).
    rewrite Forall_forall in Fb, Pbs, Lbs.
    apply ordered_nth_le; [exact O| |apply Lbs, Ib].
    specialize (Fb b' Ib). specialize (Pbs b' Ib). lia. }
  clear - G. induction es as [|e es IH]; [constructor|].
  cbn [map] in G. inversion G as [|? ? G' F]; subst.
  constructor; [apply IH, G'|].
  apply Forall_forall. intros e' I. rewrite Forall_forall in F.
  apply F, in_map, I.
Qed.

Lemma derive_ordered (df : DataFrame) (p : float) : ordered (derive df p).
Proof.
  apply (ordered_given (Pandas.sort_by_ts df));
    [|apply sort_by_ts_is_ordered].
  rewrite derive_eq. symmetry. apply given_derive_rows.
Qed.

(** X9. The event table has the rows of the timing anomalies first, then the
    rows of the bursts. Each part is in arrival order; the type of a timing row
    is neither empty nor ["missing_burst"], the type of a burst row is
    ["missing_burst"]. *)
Theorem events_layout (red : Reductions) (df : DataFrame)
  (p : float) (ths : list float) (sf : float) (s : Summary)
  (w : DataFrame) (ev : list Event) :
  run_compute_metrics red df p ths sf = Ok (s, w, ev) ->
  exists te be : list Event,
    ev = te ++ be /\
    Forall (fun e => is_timing e = true /\ is_burst_event e = false /\
                     String.eqb (event_type e) "" = false) te /\
    Forall (fun e => is_timing e = false /\ is_burst_event e = true) be /\
    StronglySorted (fun a b => (event_ts a <= event_ts b)%Z) te /\
    StronglySorted (fun a b => (event_ts a <= event_ts b)%Z) be.
Proof.
  intros H. apply run_inv in H. destruct H as (-> & H).
  apply analyze_inv_bursts in H.
  destruct H as (i & bursts & bev & _ & Eb & B & -> & _).
  pose proof (derive_ordered df p) as O.
  exists (timing_events (derive df p) (p * sf) ths), bev.
  split; [reflexivity|]. split; [apply timing_events_labels|].
  destruct (burst_events_sizes _ _ _ B) as (_ & _ & T & _ & _).
  pose proof (burst_events_type _ _ _ B) as Ty.
  split.
  { rewrite Forall_forall in *. intros e I. split; [apply T, I|].
    unfold is_burst_event. rewrite (Ty e I). reflexivity. }
  split; [apply timing_events_sorted, O|].
  unfold estimate_missing_bursts in Eb.
  destruct (bursts_from_sorted _ _ _ _ _ Eb) as (S & F).
  apply (burst_events_sorted (derive df p) bursts bev O S); [|exact B].
  eapply Forall_impl; [|exact F]. cbn beta. intros b. lia.
Qed.

Lemma events_layout_witness :
  let df := [record 0 1 None; record 10000000 2 None;
             record 11000000 5 None; record 40000000 6 None] in
  exists (s : Summary) (w : DataFrame) (ev : list Event),
    run_compute_metrics Sequential.reductions df 1 [1; 5] 2 = Ok (s, w, ev) /\
    exists te be : list Event,
      ev = te ++ be /\
      Forall (fun e => is_timing e = true /\ is_burst_event e = false /\
                       String.eqb (event_type e) "" = false) te /\
      Forall (fun e => is_timing e = false /\ is_burst_event e = true) be /\
      StronglySorted (fun a b => (event_ts a <= event_ts b)%Z) te /\
      StronglySorted (fun a b => (event_ts a <= event_ts b)%Z) be.
Proof.
  intros df.
  destruct (run_compute_metrics Sequential.reductions df 1 [1; 5] 2)
    as [[[s w] ev]|e] eqn:R; [|vm_compute in R; discriminate R].
  exists s, w, ev. split; [reflexivity|].
  apply (events_layout Sequential.reductions df 1 [1; 5] 2 s w ev R).
Defined.

(** *** The keys of the summary *)

Lemma keys_setitem_new {V : Type} (k : string) (v : V) (d : Py.dict V) :
  ~ In k (keys d) -> keys (Py.setitem k v d) = keys d ++ [k].
Proof.
  unfold keys. induction d as [|[k' v'] d IH]; cbn [Py.setitem map app fst];
    intros N; [reflexivity|].
  destruct (String.eqb k k') eqn:E.
  - apply String.eqb_eq in E. subst k'. exfalso. apply N. left. reflexivity.
  - cbn [map fst]. rewrite IH; [reflexivity|].
    intros I. apply N. right. exact I.
Qed.

Lemma keys_setitem_old {V : Type} (k : string) (v : V) (d : Py.dict V) :
  In k (keys d) -> keys (Py.setitem k v d) = keys d.
Proof.
  unfold keys. induction d as [|[k' v'] d IH]; cbn [Py.setitem map fst];
    intros I; [destruct I|].
  destruct (String.eqb k k') eqn:E.
  - apply String.eqb_eq in E. subst k'. reflexivity.
  - cbn [map fst]. rewrite IH; [reflexivity|].
    destruct I as [->|I]; [|exact I].
    rewrite String.eqb_refl in E. discriminate E.
Qed.

Lemma existsb_eqb_In (k : string) (l : list string) :
  existsb (String.eqb k) l = true <-> In k l.
Proof.
  rewrite existsb_exists. split.
  - intros (x & I & E). apply String.eqb_eq in E. subst x. exact I.
  - intros I. exists k. split; [exact I|apply String.eqb_refl].
Qed.

Lemma first_seen_ext (seen seen' l : list string) :
  (forall k, In k seen <-> In k seen') ->
  first_seen seen l = first_seen seen' l.
Proof.
  revert seen seen'. induction l as [|k l IH]; intros seen seen' H;
    [reflexivity|].
  cbn [first_seen].
  assert (E : existsb (String.eqb k) seen = existsb (String.eqb k) seen').
  { destruct (existsb (String.eqb k) seen) eqn:A;
      destruct (existsb (String.eqb k) seen') eqn:B; try reflexivity.
    - apply existsb_eqb_In, H, existsb_eqb_In in A. congruence.
    - apply existsb_eqb_In, H, existsb_eqb_In in B. congruence. }
  rewrite E. destruct (existsb (String.eqb k) seen').
  - apply IH, H.
  - f_equal. apply IH. intros x. cbn [In]. rewrite H. tauto.
Qed.

(** The keys of the counts of the violations: the names of the thresholds,
    each once, in the order in which they first come. *)
Lemma violation_counts_first_seen (col : list float) (ths : list float) :
  keys (violation_counts col ths) = first_seen [] (map violation_key ths).
Proof.
  unfold violation_counts.
  assert (G : forall l (d : Py.dict Z),
             keys (fold_left
                     (fun d th =>
                        Py.setitem (violation_key th)
                          (Pandas.count (fun x => F64.gtb x th) col) d) l d)
             = keys d ++ first_seen (keys d) (map violation_key l)).
  { induction l as [|a l IH]; intros d; cbn [fold_left map first_seen].
    - symmetry. apply app_nil_r.
    - rewrite IH.
      destruct (existsb (String.eqb (violation_key a)) (keys d)) eqn:E.
      + apply existsb_eqb_In in E. rewrite keys_setitem_old by exact E.
        reflexivity.
      + assert (N : ~ In (violation_key a) (keys d)).
        { intros I. apply existsb_eqb_In in I. congruence. }
        rewrite keys_setitem_new by exact N.
        rewrite <- app_assoc. cbn [app]. do 2 f_equal.
        apply first_seen_ext. intros k. rewrite in_app_iff. cbn [In].
        tauto. }
  apply (G ths []).
Qed.

Lemma keys_with_violations (vio : Py.dict Z) (base : Summary) :
  NoDup (keys vio) ->
  (forall k, In k (keys vio) -> ~ In k (keys base)) ->
  keys (with_violations vio base) = keys base ++ keys vio.
Proof.
  unfold with_violations. revert base.
  induction vio as [|[k c] vio IH]; intros base N D; cbn [fold_left].
  - symmetry. apply app_nil_r.
  - unfold keys in N, D. cbn [map fst] in N, D.
    inversion N as [|? ? Nk Nv]; subst.
    assert (Nb : ~ In k (keys base)) by (apply D; left; reflexivity).
    cbn [fst snd]. rewrite IH.
    + rewrite keys_setitem_new by exact Nb. rewrite <- app_assoc.
      reflexivity.
    + exact Nv.
    + intros x Hx. rewrite keys_setitem_new by exact Nb.
      rewrite in_app_iff. intros [I|[<-|[]]].
      * apply (D x); [right; exact Hx|exact I].
      * apply Nk, Hx.
Qed.

Lemma violation_key_not_fixed (th : float) :
  ~ In (violation_key th)
      (fixed_keys ++ ["missing_bursts_count"; "missing_burst_max"]%string).
Proof.
  intros I. apply existsb_eqb_In in I.
  unfold fixed_keys in I. cbn [app existsb] in I.
  repeat (match type of I with
          | (String.eqb (violation_key th) ?k || _)%bool = true =>
              change (String.eqb (violation_key th) k) with false in I;
              cbn [orb] in I
          end).
  discriminate I.
Qed.

(** X10. The keys of the summary, in the order in which a text report prints
    them: the fifteen of lines 119-135, then one for each name of a threshold,
    in the order in which the names first come, then [missing_bursts_count] and
    [missing_burst_max]. *)
Theorem summary_keys (red : Reductions) (df : DataFrame)
  (p : float) (ths : list float) (sf : float) (s : Summary)
  (w : DataFrame) (ev : list Event) :
  run_compute_metrics red df p ths sf = Ok (s, w, ev) ->
  keys s = fixed_keys ++ first_seen [] (map violation_key ths)
           ++ ["missing_bursts_count"; "missing_burst_max"]%string.
Proof.
  intros H. apply run_inv in H. destruct H as (_ & H).
  apply analyze_inv_bursts in H.
  destruct H as (i & bursts & bev & _ & _ & _ & _ & ->).
  destruct (violation_counts_keys (map abs_dev_ms w) ths) as (N & K).
  assert (V : forall k, In k (keys (violation_counts (map abs_dev_ms w) ths))
                        -> ~ In k (fixed_keys ++
                                   ["missing_bursts_count";
                                    "missing_burst_max"]%string)).
  { intros k I. destruct (K k I) as (th & _ & ->).
    apply violation_key_not_fixed. }
  assert (B : keys (base_summary red w p sf i) = fixed_keys) by reflexivity.
  assert (W : keys (with_violations
                      (violation_counts (map abs_dev_ms w) ths)
                      (base_summary red w p sf i))
              = fixed_keys ++ first_seen [] (map violation_key ths)).
  { rewrite keys_with_violations, B, violation_counts_first_seen;
      [reflexivity|exact N|].
    intros k I. rewrite B. intros F. apply (V k I), in_or_app. left.
    exact F. }
  rewrite keys_setitem_new.
  - rewrite keys_setitem_new.
    + rewrite W, <- !app_assoc. reflexivity.
    + rewrite W, <- (violation_counts_first_seen (map abs_dev_ms w)). intros I.
      apply in_app_or in I. destruct I as [I|I].
      * revert I. unfold fixed_keys. cbn [In]. intuition discriminate.
      * apply (V _ I), in_or_app. right. left. reflexivity.
  - rewrite keys_setitem_new.
    + rewrite W, <- (violation_counts_first_seen (map abs_dev_ms w)). intros I.
      apply in_app_or in I. destruct I as [I|I].
      * apply in_app_or in I. destruct I as [I|I].
        -- revert I. unfold fixed_keys. cbn [In]. intuition discriminate.
        -- apply (V _ I), in_or_app. right. right. left. reflexivity.
      * cbn [In] in I. intuition discriminate.
    + rewrite W, <- (violation_counts_first_seen (map abs_dev_ms w)). intros I.
      apply in_app_or in I. destruct I as [I|I].
      * revert I. unfold fixed_keys. cbn [In]. intuition discriminate.
      * apply (V _ I), in_or_app. right. left. reflexivity.
Qed.

Lemma summary_keys_witness :
  let df := [record 0 1 None; record 10000000 2 None;
             record 11000000 5 None] in
  exists (s : Summary) (w : DataFrame) (ev : list Event),
    run_compute_metrics Sequential.reductions df 1 [1; 5; 1] 2
    = Ok (s, w, ev) /\
    keys s = fixed_keys ++ first_seen [] (map violation_key [1; 5; 1])
             ++ ["missing_bursts_count"; "missing_burst_max"]%string.
Proof.
  intros df.
  destruct (run_compute_metrics Sequential.reductions df 1 [1; 5; 1] 2)
    as [[[s w] ev]|e] eqn:R; [|vm_compute in R; discriminate R].
  exists s, w, ev. split; [reflexivity|].
  apply (summary_keys Sequential.reductions df 1 [1; 5; 1] 2 s w ev R).
Defined.

(** ** Integers through strings *)

Lemma digits_string_of_uint (d : Decimal.uint) (acc : Z) (rest : list ascii) :
  match rest with
  | [] => True
  | c :: _ => PyStr.digit c = None /\ Ascii.eqb c "_" = false
  end ->
  PyStr.digits acc (list_ascii_of_string (NilEmpty.string_of_uint d) ++ rest)
  = Some (uint_value d acc, rest).
Proof.
  intros T. revert acc.
  induction d as [|d IH|d IH|d IH|d IH|d IH|d IH|d IH|d IH|d IH|d IH];
    intros acc;
    cbn [NilEmpty.string_of_uint list_ascii_of_string app PyStr.digits
         uint_value].
  - destruct rest as [|c rest]; [reflexivity|].
    destruct T as (D & U). cbn [PyStr.digits]. rewrite D, U. reflexivity.
  - change (PyStr.digit "0") with (Some 0%Z). cbv iota. rewrite IH.
    do 3 f_equal. lia.
  - change (PyStr.digit "1") with (Some 1%Z). cbv iota. apply IH.
  - change (PyStr.digit "2") with (Some 2%Z). cbv iota. apply IH.
  - change (PyStr.digit "3") with (Some 3%Z). cbv iota. apply IH.
  - change (PyStr.digit "4") with (Some 4%Z). cbv iota. apply IH.
  - change (PyStr.digit "5") with (Some 5%Z). cbv iota. apply IH.
  - change (PyStr.digit "6") with (Some 6%Z). cbv iota. apply IH.
  - change (PyStr.digit "7") with (Some 7%Z). cbv iota. apply IH.
  - change (PyStr.digit "8") with (Some 8%Z). cbv iota. apply IH.
  - change (PyStr.digit "9") with (Some 9%Z). cbv iota. apply IH.
Qed.

Lemma uint_value_acc (d : Decimal.uint) (acc : positive) :
  uint_value d (Zpos acc) = Zpos (Pos.of_uint_acc d acc).
Proof.
  revert acc.
  induction d as [|d IH|d IH|d IH|d IH|d IH|d IH|d IH|d IH|d IH|d IH];
    intros acc; cbn [uint_value Pos.of_uint_acc]; [reflexivity|..];
    rewrite <- IH; f_equal; lia.
Qed.

Lemma uint_value_zero (d : Decimal.uint) :
  uint_value d 0%Z = Z.of_N (Pos.of_uint d).
Proof.
  induction d as [|d IH|d IH|d IH|d IH|d IH|d IH|d IH|d IH|d IH|d IH];
    cbn [uint_value Pos.of_uint]; [reflexivity|exact IH|..];
    cbn [Z.mul Z.add Z.of_N];
    match goal with
    | |- uint_value d (Zpos ?k) = _ => apply (uint_value_acc d k)
    end.
Qed.

Lemma skip_space_blanks (a l : list ascii) :
  Forall (fun c => PyStr.isspace c = true) a ->
  PyStr.skip_space (a ++ l) = PyStr.skip_space l.
Proof.
  induction 1 as [|c a Hc _ IH]; [reflexivity|].
  cbn [app PyStr.skip_space]. rewrite Hc. exact IH.
Qed.

Lemma space_no_digit (c : ascii) :
  PyStr.isspace c = true ->
  PyStr.digit c = None /\ Ascii.eqb c "_" = false /\
  Ascii.eqb c "-" = false /\ Ascii.eqb c "+" = false.
Proof.
  destruct c as [[|] [|] [|] [|] [|] [|] [|] [|]]; vm_compute;
    intros H; try discriminate H; repeat split; reflexivity.
Qed.

Lemma digit_no_space (c : ascii) (d : Z) :
  PyStr.digit c = Some d ->
  PyStr.isspace c = false /\ Ascii.eqb c "-" = false /\
  Ascii.eqb c "+" = false.
Proof.
  destruct c as [[|] [|] [|] [|] [|] [|] [|] [|]]; vm_compute;
    intros H; try discriminate H; repeat split; reflexivity.
Qed.

(** The digits of a positive number between blanks, read back. *)
Lemma digits_to_uint (p : positive) (b : list ascii) :
  Forall (fun c => PyStr.isspace c = true) b ->
  exists (c : ascii) (l : list ascii) (d : Z),
    list_ascii_of_string (NilZero.string_of_uint (Pos.to_uint p)) ++ b
    = c :: l /\
    PyStr.digit c = Some d /\
    PyStr.digits d l = Some (Zpos p, b).
Proof.
  intros B.
  assert (G : uint_value (Pos.to_uint p) 0%Z = Zpos p).
  { rewrite uint_value_zero, DecimalPos.Unsigned.of_to. reflexivity. }
  pose proof (Unsigned.to_uint_nonnil p) as N.
  assert (T : match b with
              | [] => True
              | c :: _ => PyStr.digit c = None /\ Ascii.eqb c "_" = false
              end).
  { destruct B as [|c b Hc _]; [exact I|].
    destruct (space_no_digit c Hc) as (D & U & _). split; assumption. }
  revert G N. generalize (Pos.to_uint p) as u. intros u G N.
  unfold NilZero.string_of_uint.
  destruct u as [|u|u|u|u|u|u|u|u|u|u]; [congruence|..];
    cbn [NilEmpty.string_of_uint list_ascii_of_string app];
    cbn [uint_value Z.mul Z.add] in G;
    eexists _, _, _; (split; [reflexivity|]);
    (split; [vm_compute; reflexivity|]);
    rewrite (digits_string_of_uint u _ b T), G; reflexivity.
Qed.

Lemma int_padded_list (z : Z) (a b : list ascii) :
  Forall (fun c => PyStr.isspace c = true) a ->
  Forall (fun c => PyStr.isspace c = true) b ->
  PyStr.int
    (string_of_list_ascii (a ++ list_ascii_of_string (Fmt.str z) ++ b))
  = Ok z.
Proof.
  intros A B. unfold PyStr.int.
  rewrite list_ascii_of_string_of_list_ascii, (skip_space_blanks a _ A).
  assert (Sb : PyStr.skip_space b = []).
  { rewrite <- (app_nil_r b), (skip_space_blanks b [] B). reflexivity. }
  assert (P : forall (p : positive) (negative : bool),
             match list_ascii_of_string
                     (NilZero.string_of_uint (Pos.to_uint p)) ++ b with
             | c :: l' =>
                 match PyStr.digit c with
                 | Some d =>
                     match PyStr.digits d l' with
                     | Some (v, rest) =>
                         match PyStr.skip_space rest with
                         | [] => Ok (if negative then (- v)%Z else v)
                         | _ :: _ => Raise ValueError
                         end
                     | None => Raise ValueError
                     end
                 | None => Raise ValueError
                 end
             | [] => Raise ValueError
             end = Ok (if negative then Zneg p else Zpos p)).
  { intros p negative.
    destruct (digits_to_uint p b B) as (c & l & d & -> & -> & ->).
    rewrite Sb. destruct negative; reflexivity. }
  unfold Fmt.str. destruct z as [|p|p].
  - cbn [Z.to_int NilZero.string_of_int NilZero.string_of_uint
         NilEmpty.string_of_uint list_ascii_of_string app PyStr.skip_space].
    change (PyStr.isspace "0") with false. cbv iota.
    change (PyStr.digit "0") with (Some 0%Z). cbv iota.
    destruct b as [|c b]; [reflexivity|].
    inversion B as [|? ? Hc _]; subst.
    destruct (space_no_digit c Hc) as (D & U & _).
    cbn [PyStr.digits]. rewrite D, U. rewrite Sb. reflexivity.
  - cbn [Z.to_int NilZero.string_of_int].
    specialize (P p false).
    destruct (digits_to_uint p b B) as (c & l & d & E & D & _).
    rewrite E in *. destruct (digit_no_space c d D) as (S & S1 & S2).
    cbn [PyStr.skip_space]. rewrite S.
    assert (Shape : match c :: l with
                    | "-"%char :: l' => (true, l')
                    | "+"%char :: l' => (false, l')
                    | _ => (false, c :: l)
                    end = (false, c :: l)).
    { destruct (Ascii.eqb_spec c "-") as [->|]; [discriminate S1|].
      destruct (Ascii.eqb_spec c "+") as [->|]; [discriminate S2|].
      destruct c as [[|] [|] [|] [|] [|] [|] [|] [|]]; try reflexivity;
        congruence. }
    rewrite Shape. exact P.
  - cbn [Z.to_int NilZero.string_of_int list_ascii_of_string app
         PyStr.skip_space].
    change (PyStr.isspace "-") with false. cbv iota.
    apply (P p true).
Qed.

Lemma int_digits (z : Z) : PyStr.int (Fmt.str z) = Ok z.
Proof.
  pose proof (int_padded_list z [] [] (Forall_nil _) (Forall_nil _)) as H.
  cbn [app] in H.
  rewrite app_nil_r, string_of_list_ascii_of_string in H. exact H.
Qed.

Lemma list_ascii_of_string_app (s t : string) :
  list_ascii_of_string (s ++ t)
  = list_ascii_of_string s ++ list_ascii_of_string t.
Proof.
  induction s as [|c s IH]; [reflexivity|].
  cbn [String.append list_ascii_of_string app]. rewrite IH. reflexivity.
Qed.

(** X11. An integer written by [str] is read back by [int], also with blanks
    before and behind it: what the program writes of a count in the summary,
    the command line reads as that count. *)
Theorem int_of_str_round_trip (z : Z) (before behind : string) :
  Forall (fun c => PyStr.isspace c = true) (list_ascii_of_string before) ->
  Forall (fun c => PyStr.isspace c = true) (list_ascii_of_string behind) ->
  PyStr.int (before ++ Fmt.str z ++ behind)%string = Ok z.
Proof.
  intros A B.
  rewrite <- (string_of_list_ascii_of_string
                (before ++ Fmt.str z ++ behind)%string).
  rewrite !list_ascii_of_string_app. apply int_padded_list; assumption.
Qed.

Lemma int_of_str_round_trip_witness :
  Forall (fun c => PyStr.isspace c = true) (list_ascii_of_string " ") /\
  Forall (fun c => PyStr.isspace c = true) (list_ascii_of_string "") /\
  PyStr.int (" " ++ Fmt.str (-2048) ++ "")%string = Ok (-2048)%Z.
Proof.
  assert (A : Forall (fun c => PyStr.isspace c = true)
                (list_ascii_of_string " ")) by (repeat constructor).
  assert (B : Forall (fun c => PyStr.isspace c = true)
                (list_ascii_of_string "")) by constructor.
  split; [exact A|]. split; [exact B|].
  apply (int_of_str_round_trip (-2048) " " "" A B).
Defined.

(** ** The exit status of the command line *)

Lemma find_app {A : Type} (f : A -> bool) (l1 l2 : list A) :
  find f (l1 ++ l2)
  = match find f l1 with Some a => Some a | None => find f l2 end.
Proof.
  induction l1 as [|a l1 IH]; [reflexivity|]. cbn [app find].
  destruct (f a); [reflexivity|exact IH].
Qed.

(** The count under a key is the count of the last threshold of that
    name. *)
Lemma get_violation_counts_last (col : list float) (ths : list float)
  (k : string) :
  Py.get k (violation_counts col ths)
  = option_map (fun t => Pandas.count (fun x => F64.gtb x t) col)
      (last_named k ths).
Proof.
  unfold violation_counts, last_named.
  assert (G : forall l (d : Py.dict Z),
             Py.get k
               (fold_left
                  (fun d th =>
                     Py.setitem (violation_key th)
                       (Pandas.count (fun x => F64.gtb x th) col) d) l d)
             = match find (fun t => String.eqb (violation_key t) k) (rev l)
               with
               | Some t => Some (Pandas.count (fun x => F64.gtb x t) col)
               | None => Py.get k d
               end).
  { induction l as [|a l IH]; intros d; cbn [fold_left rev];
      [reflexivity|].
    rewrite IH, find_app. cbn [find].
    destruct (find _ (rev l)); [reflexivity|].
    destruct (String.eqb (violation_key a) k) eqn:E.
    - apply String.eqb_eq in E. subst k. apply get_setitem_same.
    - apply get_setitem_other. rewrite String.eqb_sym. exact E. }
  rewrite (G ths []). destruct (find _ (rev ths)); reflexivity.
Qed.

Lemma get_with_violations_none (k : string) (vio : Py.dict Z)
  (base : Summary) :
  Py.get k vio = None -> Py.get k base = None ->
  Py.get k (with_violations vio base) = None.
Proof.
  intros V B. rewrite get_with_violations_other; [exact B|].
  intros I. unfold keys in I. clear B.
  induction vio as [|[k' c] vio IH]; [destruct I|].
  cbn [Py.get] in V. cbn [map fst In] in I.
  destruct (String.eqb k k') eqn:E; [discriminate V|].
  destruct I as [->|I]; [rewrite String.eqb_refl in E; discriminate E|].
  apply IH; assumption.
Qed.

(** What the summary of a call holds under the key of a threshold to fail
    on. *)
Lemma get_fail_key (red : Reductions) (w : DataFrame) (p : float)
  (ths : list float) (sf : float) (s : Summary) (ev : list Event)
  (x : float) :
  analyze red w p ths sf = Ok (s, ev) ->
  Py.get (Cli.fail_key x) s
  = option_map (fun t => Fmt.str (Pandas.count (exceeds t) w))
      (last_named (Cli.fail_key x) ths).
Proof.
  intros H. apply analyze_inv in H.
  destruct H as (i & bev & a & b & _ & _ & _ & ->).
  rewrite !get_setitem_other by reflexivity.
  pose proof (get_violation_counts_last (map abs_dev_ms w) ths
                (Cli.fail_key x)) as G.
  destruct (last_named (Cli.fail_key x) ths) as [t|]; cbn [option_map] in *.
  - rewrite (get_with_violations _ _ _ _
               (proj1 (violation_counts_keys _ _)) G).
    rewrite count_map. do 2 f_equal. apply count_ext. intros r.
    symmetry. apply exceeds_gtb.
  - apply get_with_violations_none; [exact G|reflexivity].
Qed.

Lemma exit_status_run (red : Reductions) (w : DataFrame) (p : float)
  (ths : list float) (sf : float) (s : Summary) (ev : list Event)
  (fail_on : option float) :
  analyze red w p ths sf = Ok (s, ev) ->
  Cli.exit_status s fail_on = Ok (status_for fail_on ths w).
Proof.
  intros H. unfold Cli.exit_status, status_for, Cli.get_default.
  destruct fail_on as [x|]; [|reflexivity].
  rewrite (get_fail_key red w p ths sf s ev x H).
  destruct (last_named (Cli.fail_key x) ths) as [t|]; cbn [option_map].
  - rewrite int_digits. cbn [bindR].
    destruct (Pandas.count (exceeds t) w >? 0)%Z; reflexivity.
  - reflexivity.
Qed.

(** X12. The exit status is 2 when the summary holds, under the key of the
    threshold to fail on, a count above zero, and 0 otherwise. The key is the
    name of the threshold, so the count is the number of records whose
    deviation exceeds the last configured threshold of that name; a threshold
    to fail on that bears the name of no configured threshold finds no count,
    and the status is 0. *)
Theorem exit_status_of_summary (red : Reductions) (df : DataFrame)
  (p : float) (ths : list float) (sf : float) (s : Summary)
  (w : DataFrame) (ev : list Event) (fail_on : option float) :
  run_compute_metrics red df p ths sf = Ok (s, w, ev) ->
  Cli.exit_status s fail_on = Ok (status_for fail_on ths w).
Proof.
  intros H. apply run_inv in H. destruct H as (_ & H).
  revert H. apply exit_status_run.
Qed.

Lemma exit_status_of_summary_witness :
  let df := [record 0 1 None; record 3000000 2 None;
             record 10000000 3 None] in
  exists (s : Summary) (w : DataFrame) (ev : list Event),
    run_compute_metrics Sequential.reductions df 1 [1; 5] 2 = Ok (s, w, ev) /\
    Cli.exit_status s (Some 5) = Ok (status_for (Some 5) [1; 5] w) /\
    status_for (Some 5) [1; 5] w = 2%Z /\
    status_for (Some 3) [1; 5] w = 0%Z.
Proof.
  intros df.
  destruct (run_compute_metrics Sequential.reductions df 1 [1; 5] 2)
    as [[[s w] ev]|e] eqn:R; [|vm_compute in R; discriminate R].
  exists s, w, ev. split; [reflexivity|].
  split;
    [apply (exit_status_of_summary Sequential.reductions df 1 [1; 5] 2 s w
              ev (Some 5) R)|].
  vm_compute in R. injection R as _ <- _. split; vm_compute; reflexivity.
Defined.

(** ** The run of the command line *)

Lemma select_stream_none (s : string) (df : DataFrame) :
  s <> ""%string ->
  Forall (fun r => stream_id r <> Some s) df ->
  Cli.select_stream true (Some s) df = [].
Proof.
  intros N F. destruct s as [|c s]; [congruence|].
  cbn [Cli.select_stream]. induction F as [|r df Hr _ IH]; [reflexivity|].
  cbn [filter]. rewrite IH. destruct (stream_id r) as [t|]; [|reflexivity].
  destruct (String.eqb_spec t (String c s)) as [->|]; [congruence|].
  reflexivity.
Qed.

(** X13. To ask for a stream that no record belongs to makes the run raise
    [ValueError]: the selection is empty, and [compute_metrics] raises on the
    empty table. *)
Theorem main_unknown_stream_raises (red : Reductions) (df : DataFrame)
  (s : string) (p : float) (ths : list float) (sf : float)
  (fail_on : option float) :
  s <> ""%string ->
  Forall (fun r => stream_id r <> Some s) df ->
  Cli.main red df true (Some s) p ths sf fail_on = Raise ValueError.
Proof.
  intros N F. unfold Cli.main. rewrite (select_stream_none s df N F).
  rewrite run_compute_metrics_eq. reflexivity.
Qed.

Lemma main_unknown_stream_raises_witness :
  let df := [record 0 1 (Some "front"); record 10 2 None;
             record 20 3 (Some "rear")]%string in
  "left"%string <> ""%string /\
  Forall (fun r => stream_id r <> Some "left"%string) df /\
  Cli.main Sequential.reductions df true (Some "left"%string) 1 [1; 5] 2
    None = Raise ValueError.
Proof.
  intros df.
  assert (N : "left"%string <> ""%string) by discriminate.
  assert (F : Forall (fun r => stream_id r <> Some "left"%string) df).
  { repeat constructor; discriminate. }
  split; [exact N|]. split; [exact F|].
  apply (main_unknown_stream_raises Sequential.reductions df "left" 1
           [1; 5] 2 None N F).
Defined.

Lemma select_stream_incl (h : bool) (st : option string) (df : DataFrame) :
  incl (Cli.select_stream h st df) df.
Proof.
  unfold Cli.select_stream.
  destruct st as [[|c s]|]; try apply incl_refl.
  destruct h; [|apply incl_refl]. apply incl_filter.
Qed.

(** X14. Where the selection is not empty and the sequence numbers are int64,
    the run raises nothing, and its exit status is 0 or 2: 2 when a threshold
    to fail on is given, bears the name of a configured threshold, and the
    deviation of some selected record exceeds the last configured threshold of
    that name; 0 otherwise. *)
Theorem main_status (red : Reductions) (df : DataFrame)
  (has_stream_id : bool) (stream : option string) (p : float)
  (ths : list float) (sf : float) (fail_on : option float) :
  Cli.select_stream has_stream_id stream df <> [] ->
  Forall Int64.in_range (map seq df) ->
  Cli.main red df has_stream_id stream p ths sf fail_on
  = Ok (status_for fail_on ths
          (derive (Cli.select_stream has_stream_id stream df) p)).
Proof.
  intros N R. unfold Cli.main.
  set (sel := Cli.select_stream has_stream_id stream df) in *.
  assert (Rs : Forall Int64.in_range (map seq sel)).
  { rewrite Forall_forall in *. intros z Hz. apply in_map_iff in Hz.
    destruct Hz as (r & <- & Ir). apply R, in_map.
    apply (select_stream_incl has_stream_id stream df), Ir. }
  rewrite run_compute_metrics_eq.
  destruct (analyze_total red (derive sel p) p ths sf) as (s & ev & A).
  - intros E. apply N, (derive_nil_inv sel p), E.
  - apply Forall_seq_derive, Rs.
  - rewrite A. cbn [bindR fst].
    apply (exit_status_run red (derive sel p) p ths sf s ev fail_on A).
Qed.

Lemma main_status_witness :
  let df := [record 0 1 (Some "front"); record 3000000 2 (Some "front");
             record 4000000 1 (Some "rear");
             record 10000000 3 (Some "front")]%string in
  Cli.select_stream true (Some "front"%string) df <> [] /\
  Forall Int64.in_range (map seq df) /\
  Cli.main Sequential.reductions df true (Some "front"%string) 1 [1; 5] 2
    (Some 5)
  = Ok (status_for (Some 5) [1; 5]
          (derive (Cli.select_stream true (Some "front"%string) df) 1)) /\
  status_for (Some 5) [1; 5]
    (derive (Cli.select_stream true (Some "front"%string) df) 1) = 2%Z.
Proof.
  intros df.
  assert (N : Cli.select_stream true (Some "front"%string) df <> [])
    by discriminate.
  assert (R : Forall Int64.in_range (map seq df)).
  { repeat constructor; vm_compute; discriminate. }
  split; [exact N|]. split; [exact R|].
  split; [|vm_compute; reflexivity].
  apply (main_status Sequential.reductions df true (Some "front"%string) 1
           [1; 5] 2 (Some 5) N R).
Defined.

(** ** The header of the CSV file *)

Lemma lstrip_all (p : N -> bool) (a s : Io.str) :
  Forall (fun x => p x = true) a -> Io.lstrip p (a ++ s) = Io.lstrip p s.
Proof.
  induction 1 as [|c a Hc _ IH]; [reflexivity|].
  cbn [app Io.lstrip]. rewrite Hc. exact IH.
Qed.

Lemma lstrip_stop (p : N -> bool) (c : N) (s : Io.str) :
  p c = false -> Io.lstrip p (c :: s) = c :: s.
Proof. intros H. cbn [Io.lstrip]. rewrite H. reflexivity. Qed.

Lemma last_behind {A : Type} (a b : list A) (d : A) :
  b <> [] -> last (a ++ b) d = last b d.
Proof.
  intros N. induction a as [|x a IH]; [reflexivity|].
  cbn [app]. rewrite <- IH. destruct (a ++ b) as [|y l] eqn:E.
  - destruct a; cbn [app] in E; [congruence|discriminate E].
  - reflexivity.
Qed.

Lemma bom_not_space : Io.isspace Io.bom = false.
Proof. reflexivity. Qed.

Lemma rstrip_all (p : N -> bool) (s b : Io.str) :
  Forall (fun x => p x = true) b -> Io.rstrip p (s ++ b) = Io.rstrip p s.
Proof.
  intros B. unfold Io.rstrip. rewrite rev_app_distr.
  rewrite (lstrip_all p (rev b)); [reflexivity|].
  apply Forall_rev, B.
Qed.

Lemma rstrip_stop (p : N -> bool) (s : Io.str) (d : N) :
  s <> [] -> p (last s d) = false -> Io.rstrip p s = s.
Proof.
  intros N L. unfold Io.rstrip.
  destruct (exists_last N) as (s' & c & ->).
  rewrite last_last in L. rewrite rev_app_distr. cbn [rev app].
  rewrite (lstrip_stop p c _ L). cbn [rev]. rewrite rev_involutive.
  reflexivity.
Qed.

(** Normalisation takes the blanks and the byte order marks off a plain
    name. *)
Lemma normalize_decorated (name c : Io.str) :
  Io.plain name -> Io.decorated name c -> Io.normalize c = name.
Proof.
  intros (Hd & Tl) (blanks & marks & blanks' & B & M & B' & ->).
  destruct name as [|x name]; [destruct Hd|]. destruct Hd as (Xs & Xb).
  unfold Io.normalize, Io.strip.
  rewrite (lstrip_all Io.isspace blanks _ B).
  assert (Stop : Io.lstrip Io.isspace (marks ++ (x :: name) ++ blanks')
                 = marks ++ (x :: name) ++ blanks').
  { destruct M as [|m marks Hm _]; cbn [app].
    - apply lstrip_stop, Xs.
    - subst m. apply lstrip_stop, bom_not_space. }
  rewrite Stop, !app_assoc, (rstrip_all Io.isspace _ blanks' B').
  rewrite (rstrip_stop Io.isspace (marks ++ x :: name) 0%N).
  - rewrite (lstrip_all (N.eqb Io.bom) marks).
    + apply lstrip_stop. apply N.eqb_neq. congruence.
    + eapply Forall_impl; [|exact M]. cbn beta. intros m ->.
      apply N.eqb_refl.
  - destruct marks; discriminate.
  - rewrite last_behind by discriminate. exact Tl.
Qed.

Lemma existsb_eqb_In_str (a : Io.str) (l : list Io.str) :
  In a l -> existsb (Io.eqb a) l = true.
Proof.
  intros I. apply existsb_exists. exists a. split; [exact I|].
  unfold Io.eqb. destruct (list_eq_dec N.eq_dec a a); congruence.
Qed.

(** X15. A header that names [ts_rx_ns] and [seq], with blanks around the names
    or byte order marks before them, passes the check of [load_csv], and the
    two columns bear their plain names afterwards. *)
Theorem decorated_header_accepted (header : list Io.str) (ts sq : Io.str) :
  In ts header -> In sq header ->
  Io.decorated (Io.of_string "ts_rx_ns") ts ->
  Io.decorated (Io.of_string "seq") sq ->
  Io.columns header = Ok (map Io.normalize header) /\
  In (Io.of_string "ts_rx_ns") (map Io.normalize header) /\
  In (Io.of_string "seq") (map Io.normalize header).
Proof.
  intros It Is Dt Ds.
  assert (Pt : Io.plain (Io.of_string "ts_rx_ns")).
  { split; [split; [reflexivity|discriminate]|reflexivity]. }
  assert (Ps : Io.plain (Io.of_string "seq")).
  { split; [split; [reflexivity|discriminate]|reflexivity]. }
  assert (Nt : In (Io.of_string "ts_rx_ns") (map Io.normalize header)).
  { rewrite <- (normalize_decorated _ ts Pt Dt). apply in_map, It. }
  assert (Ns : In (Io.of_string "seq") (map Io.normalize header)).
  { rewrite <- (normalize_decorated _ sq Ps Ds). apply in_map, Is. }
  split; [|split; assumption].
  unfold Io.columns.
  rewrite (existsb_eqb_In_str _ _ Nt), (existsb_eqb_In_str _ _ Ns).
  reflexivity.
Qed.

Lemma decorated_header_accepted_witness :
  let ts := (Io.bom :: Io.of_string "ts_rx_ns")%list in
  let sq := Io.of_string " seq " in
  let header := [ts; sq; Io.of_string "stream_id"] in
  In ts header /\ In sq header /\
  Io.decorated (Io.of_string "ts_rx_ns") ts /\
  Io.decorated (Io.of_string "seq") sq /\
  Io.columns header = Ok (map Io.normalize header) /\
  In (Io.of_string "ts_rx_ns") (map Io.normalize header) /\
  In (Io.of_string "seq") (map Io.normalize header).
Proof.
  intros ts sq header.
  assert (It : In ts header) by (left; reflexivity).
  assert (Is : In sq header) by (right; left; reflexivity).
  assert (Dt : Io.decorated (Io.of_string "ts_rx_ns") ts).
  { exists [], [Io.bom], []. repeat split; repeat constructor. }
  assert (Ds : Io.decorated (Io.of_string "seq") sq).
  { exists [32%N], [], [32%N]. repeat split; repeat constructor. }
  split; [exact It|]. split; [exact Is|]. split; [exact Dt|].
  split; [exact Ds|].
  apply (decorated_header_accepted header ts sq It Is Dt Ds).
Defined.

Lemma lstrip_head (p : N -> bool) (s : Io.str) :
  match Io.lstrip p s with
  | [] => True
  | x :: _ => p x = false
  end.
Proof.
  induction s as [|c s IH]; [exact I|]. cbn [Io.lstrip].
  destruct (p c) eqn:E; [exact IH|exact E].
Qed.

Lemma lstrip_suffix (p : N -> bool) (s : Io.str) :
  exists a : Io.str, s = a ++ Io.lstrip p s.
Proof.
  induction s as [|c s (a & IH)]; [exists []; reflexivity|].
  cbn [Io.lstrip]. destruct (p c).
  - exists (c :: a). cbn [app]. rewrite <- IH. reflexivity.
  - exists []. reflexivity.
Qed.

Lemma rstrip_last (p : N -> bool) (s : Io.str) (d : N) :
  Io.rstrip p s <> [] -> p (last (Io.rstrip p s) d) = false.
Proof.
  unfold Io.rstrip. pose proof (lstrip_head p (rev s)) as H.
  destruct (Io.lstrip p (rev s)) as [|x l]; [intros N; exfalso; apply N;
                                             reflexivity|].
  intros _. cbn [rev]. rewrite last_last. exact H.
Qed.

(** X16. What normalisation leaves of a name starts with no byte order mark and
    ends with no blank. *)
Theorem normalized_name_clean (c : Io.str) :
  match Io.normalize c with
  | [] => True
  | x :: _ => x <> Io.bom
  end /\
  (Io.normalize c = [] \/ Io.isspace (last (Io.normalize c) 0%N) = false).
Proof.
  unfold Io.normalize. split.
  - pose proof (lstrip_head (N.eqb Io.bom) (Io.strip c)) as H.
    destruct (Io.lstrip (N.eqb Io.bom) (Io.strip c)) as [|x l]; [exact I|].
    apply N.eqb_neq in H. congruence.
  - destruct (list_eq_dec N.eq_dec
                (Io.lstrip (N.eqb Io.bom) (Io.strip c)) []) as [Z|N];
      [left; exact Z|right].
    destruct (lstrip_suffix (N.eqb Io.bom) (Io.strip c)) as (a & E).
    assert (L : last (Io.strip c) 0%N
                = last (Io.lstrip (N.eqb Io.bom) (Io.strip c)) 0%N).
    { rewrite E at 1. apply last_behind, N. }
    rewrite <- L. unfold Io.strip. apply rstrip_last.
    intros Z. apply N. unfold Io.strip. rewrite Z. reflexivity.
Qed.

(** ** The generator of sample logs *)

Lemma randint_drawn (a b drawn j : Z) :
  Gen.randint a b drawn = Ok j -> j = drawn /\ (a <= b)%Z.
Proof.
  unfold Gen.randint. destruct (Z.gtb_spec a b) as [G|G]; intros H;
    [discriminate H|].
  injection H as <-. split; [reflexivity|lia].
Qed.

(** The loop of lines 33-42 numbers the rows it writes upwards, within the
    turns it makes. *)
Lemma rows_from_inv (stream : string) (period_ns jitter_ns : Z)
  (loss_rate : float) (draws : nat -> Gen.Draw) (turns k : nat)
  (ts_ns sq : Z) (rows : list Row) :
  Gen.rows_from stream period_ns jitter_ns loss_rate draws turns k ts_ns sq
  = Ok rows ->
  (length rows <= turns)%nat /\
  Forall (fun r => stream_id r = Some stream /\
                   (sq < seq r <= sq + Z.of_nat turns)%Z) rows /\
  StronglySorted Z.lt (map seq rows).
Proof.
  revert k ts_ns sq rows.
  induction turns as [|turns IH]; intros k ts_ns sq rows H.
  - injection H as <-. repeat split; constructor.
  - cbn [Gen.rows_from] in H.
    destruct (Gen.uniform (draws k) <? loss_rate)%float;
      destruct (Gen.randint (- jitter_ns) jitter_ns (Gen.offset (draws k)))
        as [j|]; try discriminate H; cbn [bindR] in H.
    + apply IH in H. destruct H as (L & F & S).
      split; [lia|]. split; [|exact S].
      eapply Forall_impl; [|exact F]. cbn beta. intros r (E & B).
      split; [exact E|lia].
    + destruct (Gen.rows_from stream period_ns jitter_ns loss_rate draws
                  turns (S k) (ts_ns + (period_ns + j)) (sq + 1))
        as [rows'|] eqn:R; [|discriminate H].
      cbn [bindR] in H. injection H as <-.
      apply IH in R. destruct R as (L & F & S).
      split; [cbn [length]; lia|]. split.
      * constructor.
        -- cbn [record stream_id seq]. split; [reflexivity|lia].
        -- eapply Forall_impl; [|exact F]. cbn beta. intros r (E & B).
           split; [exact E|lia].
      * cbn [map]. constructor; [exact S|].
        apply Forall_forall. intros s I. apply in_map_iff in I.
        destruct I as (r & <- & I). rewrite Forall_forall in F.
        destruct (F r I) as (_ & B). cbn [record seq]. lia.
Qed.

(** Where every turn moves the clock on by [d] at least, the timestamps of
    the rows are [d] apart at least. *)
Lemma rows_from_ts (stream : string) (period_ns jitter_ns : Z)
  (loss_rate : float) (draws : nat -> Gen.Draw) (d : Z) (turns k : nat)
  (ts_ns sq : Z) (rows : list Row) :
  (0 <= d)%Z ->
  (forall k, (d <= period_ns + Gen.offset (draws k))%Z) ->
  Gen.rows_from stream period_ns jitter_ns loss_rate draws turns k ts_ns sq
  = Ok rows ->
  Forall (fun r => (ts_ns + d <= ts_rx_ns r)%Z) rows /\
  StronglySorted (fun a b => (ts_rx_ns a + d <= ts_rx_ns b)%Z) rows.
Proof.
  intros D W. revert k ts_ns sq rows.
  induction turns as [|turns IH]; intros k ts_ns sq rows H.
  - injection H as <-. split; constructor.
  - cbn [Gen.rows_from] in H. specialize (W k).
    destruct (Gen.uniform (draws k) <? loss_rate)%float;
      destruct (Gen.randint (- jitter_ns) jitter_ns (Gen.offset (draws k)))
        as [j|] eqn:J; try discriminate H; cbn [bindR] in H;
      apply randint_drawn in J; destruct J as (-> & _).
    + apply IH in H. destruct H as (F & S). split; [|exact S].
      eapply Forall_impl; [|exact F]. cbn beta. intros r. lia.
    + destruct (Gen.rows_from stream period_ns jitter_ns loss_rate draws
                  turns (S k)
                  (ts_ns + (period_ns + Gen.offset (draws k))) (sq + 1))
        as [rows'|] eqn:R; [|discriminate H].
      cbn [bindR] in H. injection H as <-.
      apply IH in R. destruct R as (F & S). split.
      * constructor; [cbn [record ts_rx_ns]; lia|].
        eapply Forall_impl; [|exact F]. cbn beta. intros r. lia.
      * constructor; [exact S|].
        eapply Forall_impl; [|exact F]. cbn beta. intros r.
        cbn [record ts_rx_ns]. lia.
Qed.

(** The swap of line 50 moves sequence numbers only. *)
Lemma swap_seq_keeps (i : nat) (rows : list Row) :
  map ts_rx_ns (Gen.swap_seq i rows) = map ts_rx_ns rows /\
  map stream_id (Gen.swap_seq i rows) = map stream_id rows /\
  Permutation (map seq (Gen.swap_seq i rows)) (map seq rows).
Proof.
  revert rows. induction i as [|i IH]; intros rows.
  - destruct rows as [|a [|b rows]]; cbn [Gen.swap_seq];
      try (repeat split; reflexivity).
    cbn [map Gen.set_seq ts_rx_ns stream_id seq].
    repeat split; try reflexivity. apply perm_swap.
  - destruct rows as [|a rows]; cbn [Gen.swap_seq];
      [repeat split; reflexivity|].
    destruct (IH rows) as (T & I & P). cbn [map]. rewrite T, I.
    repeat split; try reflexivity. apply perm_skip, P.
Qed.

Lemma shuffle_from_keeps (rate : float) (swaps : nat -> float)
  (turns i : nat) (rows : list Row) :
  map ts_rx_ns (Gen.shuffle_from rate swaps turns i rows)
  = map ts_rx_ns rows /\
  map stream_id (Gen.shuffle_from rate swaps turns i rows)
  = map stream_id rows /\
  Permutation (map seq (Gen.shuffle_from rate swaps turns i rows))
    (map seq rows).
Proof.
  revert i rows. induction turns as [|turns IH]; intros i rows;
    cbn [Gen.shuffle_from]; [repeat split; reflexivity|].
  destruct (swaps i <? rate)%float.
  - destruct (IH (S i) (Gen.swap_seq i rows)) as (T & I & P).
    destruct (swap_seq_keeps i rows) as (T' & I' & P').
    rewrite T, I, T', I'. repeat split; try reflexivity.
    apply (Permutation_trans P P').
  - apply IH.
Qed.

Lemma out_of_order_keeps (rate : float) (swaps : nat -> float)
  (rows : list Row) :
  map ts_rx_ns (Gen.out_of_order rate swaps rows) = map ts_rx_ns rows /\
  map stream_id (Gen.out_of_order rate swaps rows) = map stream_id rows /\
  Permutation (map seq (Gen.out_of_order rate swaps rows)) (map seq rows).
Proof.
  unfold Gen.out_of_order.
  destruct ((0 <? rate)%float && (2 <? len rows)%Z)%bool;
    [apply shuffle_from_keeps|repeat split; reflexivity].
Qed.

Lemma out_of_order_off (rate : float) (swaps : nat -> float)
  (rows : list Row) :
  (0 <? rate)%float = false -> Gen.out_of_order rate swaps rows = rows.
Proof. unfold Gen.out_of_order. intros ->. reflexivity. Qed.

Lemma generate_inv (stream : string) (n : Z)
  (period_ms jitter_ms loss_rate rate : float)
  (draws : nat -> Gen.Draw) (swaps : nat -> float) (rows : DataFrame) :
  Gen.generate stream n period_ms jitter_ms loss_rate rate draws swaps
  = Ok rows ->
  exists (period_ns jitter_ns : Z) (written : list Row),
    Py.int_of_float (period_ms * 1e6) = Ok period_ns /\
    Py.int_of_float (jitter_ms * 1e6) = Ok jitter_ns /\
    Gen.rows_from stream period_ns jitter_ns loss_rate draws (Z.to_nat n)
      0 Gen.start_ns 0 = Ok written /\
    rows = Gen.out_of_order rate swaps written.
Proof.
  unfold Gen.generate. intros H.
  destruct (Py.int_of_float (period_ms * 1e6)) as [period_ns|];
    [|discriminate H].
  cbn [bindR] in H.
  destruct (Py.int_of_float (jitter_ms * 1e6)) as [jitter_ns|];
    [|discriminate H].
  cbn [bindR] in H.
  destruct (Gen.rows_from stream period_ns jitter_ns loss_rate draws
              (Z.to_nat n) 0 Gen.start_ns 0) as [written|] eqn:R;
    [|discriminate H].
  cbn [bindR] in H. injection H as <-.
  exists period_ns, jitter_ns, written. repeat split; assumption.
Qed.

Lemma ascending_NoDup (l : list Z) : StronglySorted Z.lt l -> NoDup l.
Proof.
  induction 1 as [|x l _ IH F]; constructor; [|exact IH].
  intros I. rewrite Forall_forall in F. specialize (F x I). lia.
Qed.

Lemma sorted_map {A : Type} (f : A -> Z) (Q : A -> A -> Prop)
  (R : Z -> Z -> Prop) (l : list A) :
  (forall a b, Q a b -> R (f a) (f b)) ->
  StronglySorted Q l -> StronglySorted R (map f l).
Proof.
  intros M. induction 1 as [|x l _ IH F]; cbn [map]; constructor;
    [exact IH|].
  apply Forall_forall. intros y I. apply in_map_iff in I.
  destruct I as (b & <- & I). rewrite Forall_forall in F. apply M, F, I.
Qed.

(** X17. The rows of a generated log: at most [n] of them, all of the stream
    asked for, with sequence numbers between 1 and [n] of which none comes
    twice, whether the swaps of lines 47-50 ran or not; and where they did not
    run, the sequence numbers climb from row to row. *)
Theorem generated_rows_numbered (stream : string) (n : Z)
  (period_ms jitter_ms loss_rate rate : float)
  (draws : nat -> Gen.Draw) (swaps : nat -> float) (rows : DataFrame) :
  Gen.generate stream n period_ms jitter_ms loss_rate rate draws swaps
  = Ok rows ->
  (length rows <= Z.to_nat n)%nat /\
  Forall (fun sid => sid = Some stream) (map stream_id rows) /\
  Forall (fun s => (1 <= s <= n)%Z) (map seq rows) /\
  NoDup (map seq rows) /\
  ((0 <? rate)%float = false -> StronglySorted Z.lt (map seq rows)).
Proof.
  intros H. apply generate_inv in H.
  destruct H as (period_ns & jitter_ns & written & _ & _ & R & ->).
  apply rows_from_inv in R. destruct R as (L & F & S).
  destruct (out_of_order_keeps rate swaps written) as (T & I & P).
  split.
  { rewrite <- (length_map ts_rx_ns), T, length_map. exact L. }
  split.
  { rewrite I. apply Forall_forall. intros sid Hs. apply in_map_iff in Hs.
    destruct Hs as (r & <- & Hr). rewrite Forall_forall in F.
    apply (F r Hr). }
  split.
  { apply (Permutation_Forall (Permutation_sym P)).
    apply Forall_forall. intros s Hs. apply in_map_iff in Hs.
    destruct Hs as (r & <- & Hr). rewrite Forall_forall in F.
    destruct (F r Hr) as (_ & B). lia. }
  split.
  { apply (Permutation_NoDup (Permutation_sym P)), ascending_NoDup, S. }
  intros Off. rewrite (out_of_order_off rate swaps written Off). exact S.
Qed.

Lemma generated_rows_numbered_witness :
  let draws := fun k : nat =>
    Gen.mkDraw (if Nat.eqb k 1 then 0 else 1) 300 in
  let swaps := fun i : nat => if Nat.eqb i 0 then 0 else 1 in
  exists rows : DataFrame,
    Gen.generate "cam" 4 1 0.5 0.5 0.5 draws swaps = Ok rows /\
    (length rows <= Z.to_nat 4)%nat /\
    Forall (fun sid => sid = Some "cam"%string) (map stream_id rows) /\
    Forall (fun s => (1 <= s <= 4)%Z) (map seq rows) /\
    NoDup (map seq rows) /\
    ((0 <? 0.5)%float = false -> StronglySorted Z.lt (map seq rows)).
Proof.
  intros draws swaps.
  destruct (Gen.generate "cam" 4 1 0.5 0.5 0.5 draws swaps)
    as [rows|e] eqn:G; [|vm_compute in G; discriminate G].
  exists rows. split; [reflexivity|].
  apply (generated_rows_numbered "cam" 4 1 0.5 0.5 0.5 draws swaps rows G).
Defined.

(** X18. The timestamps of a generated log climb from row to row, above the
    start of the clock, when the jitter is smaller than the period and the
    offsets drawn are ones that [random.randint(-jitter_ns, jitter_ns)] can
    return; the swaps of lines 47-50 leave them so. *)
Theorem generated_timestamps_ascend (stream : string) (n : Z)
  (period_ms jitter_ms loss_rate rate : float)
  (draws : nat -> Gen.Draw) (swaps : nat -> float) (rows : DataFrame)
  (period_ns jitter_ns : Z) :
  Gen.generate stream n period_ms jitter_ms loss_rate rate draws swaps
  = Ok rows ->
  Py.int_of_float (period_ms * 1e6) = Ok period_ns ->
  Py.int_of_float (jitter_ms * 1e6) = Ok jitter_ns ->
  Gen.within jitter_ns draws ->
  (jitter_ns < period_ns)%Z ->
  StronglySorted Z.lt (map ts_rx_ns rows) /\
  Forall (fun t => (Gen.start_ns < t)%Z) (map ts_rx_ns rows).
Proof.
  intros H Ep Ej W Lt. apply generate_inv in H.
  destruct H as (period_ns' & jitter_ns' & written & Ep' & Ej' & R & ->).
  rewrite Ep in Ep'. injection Ep' as <-.
  rewrite Ej in Ej'. injection Ej' as <-.
  destruct (out_of_order_keeps rate swaps written) as (-> & _ & _).
  apply (rows_from_ts stream period_ns jitter_ns loss_rate draws 1) in R;
    [|lia|intros k; specialize (W k); lia].
  destruct R as (F & S). split.
  - apply (sorted_map ts_rx_ns _ Z.lt written) in S; [exact S|].
    cbn beta. intros a b. lia.
  - apply Forall_forall. intros t I. apply in_map_iff in I.
    destruct I as (r & <- & I). rewrite Forall_forall in F.
    specialize (F r I). lia.
Qed.

Lemma generated_timestamps_ascend_witness :
  let draws := fun k : nat =>
    Gen.mkDraw (if Nat.eqb k 1 then 0 else 1) 300 in
  let swaps := fun i : nat => if Nat.eqb i 0 then 0 else 1 in
  exists rows : DataFrame,
    Gen.generate "cam" 4 1 0.5 0.5 0.5 draws swaps = Ok rows /\
    Py.int_of_float (1 * 1e6) = Ok 1000000%Z /\
    Py.int_of_float (0.5 * 1e6) = Ok 500000%Z /\
    Gen.within 500000 draws /\
    (500000 < 1000000)%Z /\
    StronglySorted Z.lt (map ts_rx_ns rows) /\
    Forall (fun t => (Gen.start_ns < t)%Z) (map ts_rx_ns rows).
Proof.
  intros draws swaps.
  destruct (Gen.generate "cam" 4 1 0.5 0.5 0.5 draws swaps)
    as [rows|e] eqn:G; [|vm_compute in G; discriminate G].
  assert (Ep : Py.int_of_float (1 * 1e6) = Ok 1000000%Z)
    by (vm_compute; reflexivity).
  assert (Ej : Py.int_of_float (0.5 * 1e6) = Ok 500000%Z)
    by (vm_compute; reflexivity).
  assert (W : Gen.within 500000 draws)
    by (intros k; cbn [draws Gen.offset]; lia).
  assert (Lt : (500000 < 1000000)%Z) by lia.
  exists rows. split; [reflexivity|].
  split; [exact Ep|]. split; [exact Ej|]. split; [exact W|].
  split; [exact Lt|].
  apply (generated_timestamps_ascend "cam" 4 1 0.5 0.5 0.5 draws swaps rows
           1000000 500000 G Ep Ej W Lt).
Defined.

(** X19. A negative jitter stops the generator: with a turn to make, the first
    [random.randint(-jitter_ns, jitter_ns)] has an empty range and raises
    [ValueError], whether the packet of that turn is lost or not. *)
Theorem negative_jitter_raises (stream : string) (n : Z)
  (period_ms jitter_ms loss_rate rate : float)
  (draws : nat -> Gen.Draw) (swaps : nat -> float)
  (period_ns jitter_ns : Z) :
  Py.int_of_float (period_ms * 1e6) = Ok period_ns ->
  Py.int_of_float (jitter_ms * 1e6) = Ok jitter_ns ->
  (jitter_ns < 0)%Z -> (0 < n)%Z ->
  Gen.generate stream n period_ms jitter_ms loss_rate rate draws swaps
  = Raise ValueError.
Proof.
  intros Ep Ej Neg Pos. unfold Gen.generate. rewrite Ep, Ej. cbn [bindR].
  destruct (Z.to_nat n) as [|turns] eqn:E; [lia|].
  cbn [Gen.rows_from]. unfold Gen.randint.
  replace (- jitter_ns >? jitter_ns)%Z with true
    by (symmetry; apply Z.gtb_lt; lia).
  destruct (Gen.uniform (draws 0%nat) <? loss_rate)%float; reflexivity.
Qed.

Lemma negative_jitter_raises_witness :
  let draws := fun k : nat => Gen.mkDraw 1 0 in
  let swaps := fun i : nat => 1 in
  Py.int_of_float (1 * 1e6) = Ok 1000000%Z /\
  Py.int_of_float (-0.5 * 1e6) = Ok (-500000)%Z /\
  (-500000 < 0)%Z /\ (0 < 3)%Z /\
  Gen.generate "cam" 3 1 (-0.5) 0 0 draws swaps = Raise ValueError.
Proof.
  intros draws swaps.
  assert (Ep : Py.int_of_float (1 * 1e6) = Ok 1000000%Z)
    by (vm_compute; reflexivity).
  assert (Ej : Py.int_of_float (-0.5 * 1e6) = Ok (-500000)%Z)
    by (vm_compute; reflexivity).
  assert (Neg : (-500000 < 0)%Z) by lia.
  assert (Pos : (0 < 3)%Z) by lia.
  split; [exact Ep|]. split; [exact Ej|]. split; [exact Neg|].
  split; [exact Pos|].
  apply (negative_jitter_raises "cam" 3 1 (-0.5) 0 0 draws swaps
           1000000 (-500000) Ep Ej Neg Pos).
Defined.

(** X20. The swaps of lines 47-50 move sequence numbers and nothing else: the
    timestamps and the streams stay where they are, row by row, and the
    sequence numbers of the table are the ones it had, in another order. *)
Theorem swaps_move_sequence_numbers_only (rate : float)
  (swaps : nat -> float) (rows : DataFrame) :
  map ts_rx_ns (Gen.out_of_order rate swaps rows) = map ts_rx_ns rows /\
  map stream_id (Gen.out_of_order rate swaps rows) = map stream_id rows /\
  Permutation (map seq (Gen.out_of_order rate swaps rows)) (map seq rows).
Proof. apply out_of_order_keeps. Qed.

(** *** A generated log, analysed *)

Lemma ascending_adjacent (x : Z) (l : list Z) :
  StronglySorted Z.lt (x :: l) ->
  adjacent_from repeats x l = 0%Z /\
  adjacent_from steps_back x l = 0%Z /\
  adjacent_from climbs x l = len l.
Proof.
  revert x. induction l as [|c l IH]; intros x S;
    [repeat split; reflexivity|].
  inversion S as [|? ? S' F]; subst.
  inversion F as [|? ? Hxc _]; subst.
  destruct (IH c S') as (R & B & C).
  cbn [adjacent_from]. rewrite R, B, C.
  unfold repeats, steps_back, climbs, len. cbn [length].
  destruct (Z.eqb_spec c x); [lia|].
  destruct (Z.ltb_spec c x); [lia|].
  destruct (Z.ltb_spec x c); [|lia].
  repeat split; lia.
Qed.

Lemma ascending_sorted (l : list Z) :
  StronglySorted Z.lt l -> StronglySorted Z.le l.
Proof.
  induction 1 as [|x l _ IH F]; constructor; [exact IH|].
  eapply Forall_impl; [|exact F]. cbn beta. intros y. lia.
Qed.

Lemma total_missing_total (bs : list Burst) :
  total_missing bs = total (map missing_count bs).
Proof.
  induction bs as [|b bs IH]; [reflexivity|].
  unfold total_missing, total in *. cbn [map fold_right]. rewrite IH.
  reflexivity.
Qed.

(** The loop of lines 33-42 where no packet is lost: a row for every
    turn. *)
Lemma rows_from_lossless (stream : string) (period_ns jitter_ns : Z)
  (loss_rate : float) (draws : nat -> Gen.Draw) (turns k : nat)
  (ts_ns sq : Z) (rows : list Row) :
  (forall k, (Gen.uniform (draws k) <? loss_rate)%float = false) ->
  Gen.rows_from stream period_ns jitter_ns loss_rate draws turns k ts_ns sq
  = Ok rows ->
  map seq rows
  = map (fun i => (sq + Z.of_nat i)%Z) (List.seq 1 turns).
Proof.
  intros N. revert k ts_ns sq rows.
  induction turns as [|turns IH]; intros k ts_ns sq rows H.
  - injection H as <-. reflexivity.
  - cbn [Gen.rows_from] in H. rewrite (N k) in H.
    destruct (Gen.randint (- jitter_ns) jitter_ns (Gen.offset (draws k)))
      as [j|]; [|discriminate H].
    cbn [bindR] in H.
    destruct (Gen.rows_from stream period_ns jitter_ns loss_rate draws
                turns (S k) (ts_ns + (period_ns + j)) (sq + 1))
      as [rows'|] eqn:R; [|discriminate H].
    cbn [bindR] in H. injection H as <-.
    apply IH in R. cbn [map record seq List.seq]. rewrite R.
    f_equal. rewrite <- (seq_shift turns 1), map_map. apply map_ext.
    intros i. lia.
Qed.

(** X21. With a loss rate that no draw of [random.random()] falls below, the
    generator writes a row for every turn: the sequence numbers of the log are
    1 to [n], each once. *)
Theorem lossless_log_complete (stream : string) (n : Z)
  (period_ms jitter_ms loss_rate rate : float)
  (draws : nat -> Gen.Draw) (swaps : nat -> float) (rows : DataFrame) :
  Gen.generate stream n period_ms jitter_ms loss_rate rate draws swaps
  = Ok rows ->
  (forall k, (Gen.uniform (draws k) <? loss_rate)%float = false) ->
  length rows = Z.to_nat n /\
  Permutation (map seq rows) (map Z.of_nat (List.seq 1 (Z.to_nat n))).
Proof.
  intros H N. apply generate_inv in H.
  destruct H as (period_ns & jitter_ns & written & _ & _ & R & ->).
  apply (rows_from_lossless _ _ _ _ _ _ _ _ _ _ N) in R.
  destruct (out_of_order_keeps rate swaps written) as (_ & _ & P).
  cbn [Z.add] in R.
  assert (E : map seq written = map Z.of_nat (List.seq 1 (Z.to_nat n))).
  { rewrite R. apply map_ext. intros i. reflexivity. }
  split.
  - rewrite <- (length_map seq), (Permutation_length P), E.
    rewrite length_map, length_seq. reflexivity.
  - rewrite <- E. exact P.
Qed.

Lemma lossless_log_complete_witness :
  let draws := fun k : nat => Gen.mkDraw 0.5 (-300) in
  let swaps := fun i : nat => if Nat.eqb i 1 then 0 else 1 in
  exists rows : DataFrame,
    Gen.generate "cam" 4 1 0.5 0 0.5 draws swaps = Ok rows /\
    (forall k, (Gen.uniform (draws k) <? 0)%float = false) /\
    length rows = Z.to_nat 4 /\
    Permutation (map seq rows) (map Z.of_nat (List.seq 1 (Z.to_nat 4))).
Proof.
  intros draws swaps.
  destruct (Gen.generate "cam" 4 1 0.5 0 0.5 draws swaps)
    as [rows|e] eqn:G; [|vm_compute in G; discriminate G].
  assert (N : forall k, (Gen.uniform (draws k) <? 0)%float = false)
    by (intros k; reflexivity).
  exists rows. split; [reflexivity|]. split; [exact N|].
  apply (lossless_log_complete "cam" 4 1 0.5 0 0.5 draws swaps rows G N).
Defined.

(** X22. What the analyzer says of the table that the generator builds without
    swaps, for fewer than 2^52 turns, a jitter that is below the period,
    offsets that [random.randint(-jitter_ns, jitter_ns)] can return and
    timestamps that stay in int64: the detail table has the rows as they were
    written; no duplicate and no packet out of order is counted; the estimate
    of the missing packets is the count of sequence numbers left out between
    the first row and the last, and the sizes of the [missing_burst] events add
    up to it. *)
Theorem generated_log_analysis (red : Reductions) (stream : string) (n : Z)
  (period_ms jitter_ms loss_rate rate : float)
  (draws : nat -> Gen.Draw) (swaps : nat -> float) (rows : DataFrame)
  (period_ns jitter_ns : Z) (p : float) (ths : list float) (sf : float) :
  Gen.generate stream n period_ms jitter_ms loss_rate rate draws swaps
  = Ok rows ->
  (0 <? rate)%float = false ->
  Py.int_of_float (period_ms * 1e6) = Ok period_ns ->
  Py.int_of_float (jitter_ms * 1e6) = Ok jitter_ns ->
  Gen.within jitter_ns draws ->
  (jitter_ns < period_ns)%Z ->
  (n < 2 ^ 52)%Z ->
  Forall Int64.in_range (map ts_rx_ns rows) ->
  rows <> [] ->
  exists (s : Summary) (w : DataFrame) (ev : list Event),
    run_compute_metrics red rows p ths sf = Ok (s, w, ev) /\
    map given w = map given rows /\
    Py.get "duplicates" s = Some "0"%string /\
    Py.get "out_of_order" s = Some "0"%string /\
    Py.get "missing_packets_est" s
    = Some (Fmt.str (last (map seq rows) 0 - hd 0 (map seq rows) + 1
                     - len rows)%Z) /\
    total (burst_sizes ev)
    = (last (map seq rows) 0 - hd 0 (map seq rows) + 1 - len rows)%Z.
Proof.
  intros H Off Ep Ej W Le Small _ Ne. apply generate_inv in H.
  destruct H as (period_ns' & jitter_ns' & written & Ep' & Ej' & R & ->).
  rewrite Ep in Ep'. injection Ep' as <-.
  rewrite Ej in Ej'. injection Ej' as <-.
  rewrite (out_of_order_off rate swaps written Off) in *.
  destruct (rows_from_inv _ _ _ _ _ _ _ _ _ _ R) as (_ & B & S).
  apply (rows_from_ts stream period_ns jitter_ns loss_rate draws 0) in R;
    [|lia|intros k; specialize (W k); lia].
  destruct R as (_ & O).
  assert (Ord : ordered written).
  { unfold ordered. clear - O.
    induction O as [|r l _ IH F]; constructor; [exact IH|].
    eapply Forall_impl; [|exact F]. cbn beta. intros b. lia. }
  assert (Bs : Forall small (map seq written)).
  { apply Forall_forall. intros z I. apply in_map_iff in I.
    destruct I as (r & <- & I). rewrite Forall_forall in B.
    destruct (B r I) as (_ & Br). unfold small. lia. }
  assert (Br : Forall Int64.in_range (map seq written)).
  { eapply Forall_impl; [|exact Bs]. cbn beta. intros z.
    unfold small, Int64.in_range, Int64.min_int, Int64.max_int.
    change (2 ^ 63)%Z with (2048 * 2 ^ 52)%Z. lia. }
  assert (D : derive written p = derive_rows None p written).
  { rewrite derive_eq, (sort_by_ts_ordered written Ord). reflexivity. }
  assert (Sq : map seq (derive written p) = map seq written).
  { rewrite D. apply seq_derive_rows. }
  assert (Nd : derive written p <> []).
  { intros E. apply (f_equal (@length Row)) in E.
    rewrite D, derive_rows_length in E.
    destruct written; [congruence|discriminate E]. }
  destruct (analyze_total red (derive written p) p ths sf Nd)
    as (s & ev & A); [rewrite Sq; exact Br|].
  exists s, (derive written p), ev.
  split; [rewrite run_compute_metrics_eq, A; reflexivity|].
  split; [rewrite D; apply given_derive_rows|].
  apply analyze_inv_bursts in A.
  destruct A as (i & bursts & bev & I & Eb & Be & -> & ->).
  rewrite Sq in I, Eb.
  rewrite (bursts_of_small_sequences _ Bs) in Eb. injection Eb as <-.
  destruct (map seq written) as [|x l] eqn:Ex.
  { destruct written; [congruence|discriminate Ex]. }
  pose proof (ascending_sorted _ S) as Sle.
  pose proof (missing_of_sorted x l i Sle I) as M.
  cbn [spec_bursts] in M.
  rewrite (total_missing_sorted l 1 x Sle) in M.
  destruct (ascending_adjacent x l S) as (Rp & Sb & Cl).
  rewrite Cl in M.
  destruct (integrity_counts x l i I) as (Du & Oo).
  inversion Br as [|? ? Hx Hl]; subst.
  rewrite (diff_from_repeats x l Hx Hl), Rp in Du.
  assert (Hx' : (Z.abs x < 2 ^ 62)%Z /\
                Forall (fun z => (Z.abs z < 2 ^ 62)%Z) l).
  { inversion Bs as [|? ? Sx Sl]; subst. split.
    - unfold small in Sx. change (2 ^ 62)%Z with (1024 * 2 ^ 52)%Z. lia.
    - eapply Forall_impl; [|exact Sl]. cbn beta. intros z. unfold small.
      change (2 ^ 62)%Z with (1024 * 2 ^ 52)%Z. lia. }
  rewrite (diff_from_steps_back x l (proj1 Hx') (proj2 Hx')), Sb in Oo.
  assert (Len : len written = (1 + len l)%Z).
  { unfold len. rewrite <- (length_map seq written), Ex. cbn [length].
    lia. }
  rewrite last_cons. cbn [hd]. rewrite Len.
  replace (last l x - x + 1 - (1 + len l))%Z with (missing i) by lia.
  rewrite !get_base by reflexivity.
  cbn [base_summary Py.get String.eqb Ascii.eqb Bool.eqb].
  rewrite Du, Oo.
  split; [reflexivity|]. split; [reflexivity|]. split; [reflexivity|].
  destruct (burst_events_sizes _ _ _ Be) as (Sz & _).
  rewrite burst_sizes_app, burst_sizes_timing, Sz.
  - cbn [app]. rewrite <- total_missing_total.
    cbn [spec_bursts].
    rewrite (total_missing_sorted l 1 x Sle), Cl. lia.
  - eapply Forall_impl; [|apply timing_events_labels]. cbn beta. tauto.
Qed.

Lemma generated_log_analysis_witness :
  let draws := fun k : nat =>
    Gen.mkDraw (if Nat.eqb k 1 then 0 else 1) 300 in
  let swaps := fun i : nat => 0 in
  exists rows : DataFrame,
    Gen.generate "cam" 4 1 0.5 0.5 0 draws swaps = Ok rows /\
    (0 <? 0)%float = false /\
    Py.int_of_float (1 * 1e6) = Ok 1000000%Z /\
    Py.int_of_float (0.5 * 1e6) = Ok 500000%Z /\
    Gen.within 500000 draws /\
    (500000 < 1000000)%Z /\
    (4 < 2 ^ 52)%Z /\
    Forall Int64.in_range (map ts_rx_ns rows) /\
    rows <> [] /\
    exists (s : Summary) (w : DataFrame) (ev : list Event),
      run_compute_metrics Sequential.reductions rows 1 [1; 5] 2
      = Ok (s, w, ev) /\
      map given w = map given rows /\
      Py.get "duplicates" s = Some "0"%string /\
      Py.get "out_of_order" s = Some "0"%string /\
      Py.get "missing_packets_est" s
      = Some (Fmt.str (last (map seq rows) 0 - hd 0 (map seq rows) + 1
                       - len rows)%Z) /\
      total (burst_sizes ev)
      = (last (map seq rows) 0 - hd 0 (map seq rows) + 1 - len rows)%Z.
Proof.
  intros draws swaps.
  pose (rows := [record 1700000000001000300 1 (Some "cam"%string);
                 record 1700000000003000900 3 (Some "cam"%string);
                 record 1700000000004001200 4 (Some "cam"%string)]).
  assert (G : Gen.generate "cam" 4 1 0.5 0.5 0 draws swaps = Ok rows)
    by (vm_compute; reflexivity).
  assert (Off : (0 <? 0)%float = false) by reflexivity.
  assert (Ep : Py.int_of_float (1 * 1e6) = Ok 1000000%Z)
    by (vm_compute; reflexivity).
  assert (Ej : Py.int_of_float (0.5 * 1e6) = Ok 500000%Z)
    by (vm_compute; reflexivity).
  assert (W : Gen.within 500000 draws)
    by (intros k; cbn [draws Gen.offset]; lia).
  assert (Le : (500000 < 1000000)%Z) by lia.
  assert (Small : (4 < 2 ^ 52)%Z) by (vm_compute; reflexivity).
  assert (T : Forall Int64.in_range (map ts_rx_ns rows))
    by (repeat constructor; vm_compute; discriminate).
  assert (Ne : rows <> []) by discriminate.
  exists rows. split; [exact G|]. split; [exact Off|]. split; [exact Ep|].
  split; [exact Ej|]. split; [exact W|]. split; [exact Le|].
  split; [exact Small|]. split; [exact T|]. split; [exact Ne|].
  apply (generated_log_analysis Sequential.reductions "cam" 4 1 0.5 0.5 0
           draws swaps rows 1000000 500000 1 [1; 5] 2
           G Off Ep Ej W Le Small T Ne).
Defined.

(** ** The entries of the thresholds *)

Lemma le_lt_trans (x y z : float) :
  FloatOrder.le x y -> FloatOrder.lt y z -> FloatOrder.lt x z.
Proof.
  unfold FloatOrder.lt, FloatOrder.le, FloatOrder.lex_lt, FloatOrder.lex_le.
  intros (Nx & Ny & H1) (_ & Nz & H2).
  repeat split; try assumption.
  destruct (FloatOrder.rank (Prim2SF x)) as [[? ?] ?],
    (FloatOrder.rank (Prim2SF y)) as [[? ?] ?],
    (FloatOrder.rank (Prim2SF z)) as [[? ?] ?]. lia.
Qed.

Lemma last_named_In (k : string) (ths : list float) (u : float) :
  last_named k ths = Some u -> In u ths /\ violation_key u = k.
Proof.
  unfold last_named. intros F. apply find_some in F.
  destruct F as (I & E). apply in_rev in I. apply String.eqb_eq in E.
  split; assumption.
Qed.

Lemma last_named_some (t : float) (ths : list float) :
  In t ths -> exists u : float, last_named (violation_key t) ths = Some u.
Proof.
  intros I. unfold last_named.
  destruct (find _ (rev ths)) as [u|] eqn:F; [exists u; reflexivity|].
  apply in_rev in I. apply (find_none _ _ F t) in I.
  rewrite String.eqb_refl in I. discriminate I.
Qed.

(** A threshold that no other bears the name of is the last of its name. *)
Lemma last_named_only (t u : float) (ths : list float) :
  last_named (violation_key t) ths = Some u ->
  (forall a, In a ths -> violation_key a = violation_key t -> a = t) ->
  u = t.
Proof.
  intros L U. apply last_named_In in L. destruct L as (I & E).
  apply (U u I E).
Qed.

(** What the summary holds under the name of a threshold: the sum of the
    mask of the last threshold of that name. *)
Lemma get_violation_entry (red : Reductions) (w : DataFrame) (p : float)
  (ths : list float) (sf : float) (s : Summary) (ev : list Event)
  (t u : float) :
  analyze red w p ths sf = Ok (s, ev) ->
  last_named (violation_key t) ths = Some u ->
  Py.get (violation_key t) s
  = Some (Fmt.str (Pandas.count (fun r => F64.gtb (abs_dev_ms r) u) w)).
Proof.
  intros H L. apply analyze_inv in H.
  destruct H as (i & bev & a & b & _ & _ & _ & ->).
  rewrite !get_setitem_other by reflexivity.
  pose proof (get_violation_counts_last (map abs_dev_ms w) ths
                (violation_key t)) as G.
  rewrite L in G. cbn [option_map] in G.
  rewrite (get_with_violations _ _ _ _
             (proj1 (violation_counts_keys _ _)) G).
  rewrite count_map. reflexivity.
Qed.

Lemma above_le (u1 u2 : float) (w : DataFrame) :
  FloatOrder.le u1 u2 ->
  (length (filter (fun r => (u2 <? abs_dev_ms r)%float) w)
   <= length (filter (fun r => (u1 <? abs_dev_ms r)%float) w))%nat.
Proof.
  intros L. apply Nat2Z.inj_le.
  apply (count_filter_le (fun r => (u2 <? abs_dev_ms r)%float)
           (fun r => (u1 <? abs_dev_ms r)%float) w).
  intros r E. apply FloatFacts.ltb_lt. apply FloatFacts.ltb_lt in E.
  apply (le_lt_trans u1 u2 _ L E).
Qed.

(** ** The order of the thresholds and the order of their names *)

Module Thresholds.

Local Open Scope Z_scope.

(** ** Rounding to six significant digits *)

Lemma rhe_floor (a d : Z) :
  0 < d -> a / d <= Fmt.round_half_even a d <= a / d + 1.
Proof.
  intros D. unfold Fmt.round_half_even.
  destruct (2 * (a mod d) ?= d); [destruct (Z.even (a / d))|..]; lia.
Qed.

Lemma rhe_exact (k d : Z) : 0 < d -> Fmt.round_half_even (k * d) d = k.
Proof.
  intros D. unfold Fmt.round_half_even.
  rewrite Z.div_mul, Z.mod_mul by lia.
  replace (2 * 0 ?= d) with Lt by (symmetry; apply Z.compare_lt_iff; lia).
  reflexivity.
Qed.

Lemma rhe_mono (a b d : Z) :
  0 < d -> a <= b -> Fmt.round_half_even a d <= Fmt.round_half_even b d.
Proof.
  intros D L.
  assert (Q : a / d <= b / d) by (apply Z.div_le_mono; lia).
  destruct (Z.eq_dec (a / d) (b / d)) as [E|N].
  - assert (R : a mod d <= b mod d).
    { rewrite (Z.mod_eq a d), (Z.mod_eq b d), E by lia. lia. }
    unfold Fmt.round_half_even. rewrite E.
    destruct (Z.compare_spec (2 * (a mod d)) d),
      (Z.compare_spec (2 * (b mod d)) d);
      destruct (Z.even (b / d)); lia.
  - pose proof (rhe_floor a d D). pose proof (rhe_floor b d D). lia.
Qed.

Lemma rhe_scale (a d c : Z) :
  0 < d -> 0 < c ->
  Fmt.round_half_even (a * c) (d * c) = Fmt.round_half_even a d.
Proof.
  intros D C. unfold Fmt.round_half_even.
  rewrite Z.div_mul_cancel_r, Z.mul_mod_distr_r by lia.
  replace (2 * (a mod d * c) ?= d * c) with (2 * (a mod d) ?= d);
    [reflexivity|].
  destruct (Z.compare_spec (2 * (a mod d)) d) as [E|E|E]; symmetry.
  - apply Z.compare_eq_iff. nia.
  - apply Z.compare_lt_iff. nia.
  - apply Z.compare_gt_iff. nia.
Qed.

(** The rounding of a fraction grows with the fraction. *)
Lemma rhe_mono_ratio (a d a' d' : Z) :
  0 < d -> 0 < d' -> a * d' <= a' * d ->
  Fmt.round_half_even a d <= Fmt.round_half_even a' d'.
Proof.
  intros D D' L.
  rewrite <- (rhe_scale a d d' D D'), <- (rhe_scale a' d' d D' D).
  rewrite (Z.mul_comm d' d). apply rhe_mono; lia.
Qed.

Lemma rhe_ratio (a d a' d' : Z) :
  0 < d -> 0 < d' -> a * d' = a' * d ->
  Fmt.round_half_even a d = Fmt.round_half_even a' d'.
Proof.
  intros D D' E. apply Z.le_antisymm; apply rhe_mono_ratio; lia.
Qed.

(** The decimal exponent that [exp10] finds. *)
Lemma exp10_down_spec (fuel : nat) (num den k : Z) :
  0 < den -> 0 <= k -> den * 10 ^ k <= num ->
  num < den * 10 ^ (k + Z.of_nat fuel) ->
  k <= Fmt.exp10_down fuel num den k <= k + Z.of_nat fuel /\
  den * 10 ^ Fmt.exp10_down fuel num den k <= num /\
  num < den * 10 ^ (Fmt.exp10_down fuel num den k + 1).
Proof.
  intros D. revert k. induction fuel as [|f IH]; intros k K Lo Hi.
  - rewrite Z.add_0_r in Hi. lia.
  - cbn [Fmt.exp10_down].
    destruct (Z.leb_spec (den * 10 ^ (k + 1)) num) as [T|T].
    + destruct (IH (k + 1)) as (B & L & H); [lia|exact T| |].
      * replace (k + 1 + Z.of_nat f) with (k + Z.of_nat (S f)) by lia.
        exact Hi.
      * split; [lia|]. split; assumption.
    + split; [lia|]. split; assumption.
Qed.

Lemma exp10_up_spec (fuel : nat) (num den k : Z) :
  0 < num -> 1 <= k -> num * 10 ^ (k - 1) < den ->
  den <= num * 10 ^ (k + Z.of_nat fuel - 1) ->
  k <= Fmt.exp10_up fuel num den k <= k + Z.of_nat fuel /\
  den <= num * 10 ^ Fmt.exp10_up fuel num den k /\
  num * 10 ^ (Fmt.exp10_up fuel num den k - 1) < den.
Proof.
  intros N. revert k. induction fuel as [|f IH]; intros k K Lo Hi.
  - rewrite Z.add_0_r in Hi. lia.
  - cbn [Fmt.exp10_up].
    destruct (Z.leb_spec den (num * 10 ^ k)) as [T|T].
    + split; [lia|]. split; assumption.
    + destruct (IH (k + 1)) as (B & L & H); [lia| | |].
      * replace (k + 1 - 1) with k by lia. exact T.
      * replace (k + 1 + Z.of_nat f - 1) with (k + Z.of_nat (S f) - 1)
          by lia.
        exact Hi.
      * split; [lia|]. split; assumption.
Qed.

(** The decade of a fraction, in integers: with [K = 10 ^ 400] and
    [T = 10 ^ (x + 400)], [T / K <= num / den < 10 * T / K]. *)
Lemma exp10_spec (num den : Z) :
  0 < num -> 0 < den ->
  num < den * 10 ^ 400 -> den <= num * 10 ^ 400 ->
  let x := Fmt.exp10 num den in
  -400 <= x <= 400 /\
  10 ^ (x + 400) * den <= num * 10 ^ 400 /\
  num * 10 ^ 400 < 10 * 10 ^ (x + 400) * den.
Proof.
  intros N D Hi Lo x. unfold Fmt.exp10 in x.
  destruct (Z.leb_spec den num) as [T|T].
  - destruct (exp10_down_spec 400 num den 0 D) as (B & L & H);
      [lia|rewrite Z.pow_0_r; lia|exact Hi|].
    fold x in B, L, H. split; [lia|].
    rewrite Z.pow_add_r by lia. rewrite Z.pow_add_r in H by lia.
    change (10 ^ 1) with 10 in H.
    assert (P : 0 < 10 ^ 400) by (apply Z.pow_pos_nonneg; lia).
    clear Hi Lo. revert P L H.
    generalize (10 ^ 400). generalize (10 ^ x).
    intros a b P L H. split.
    + rewrite <- Z.mul_assoc, (Z.mul_comm b den), Z.mul_assoc.
      apply Z.mul_le_mono_nonneg_r; lia.
    + replace (10 * (a * b) * den) with (den * (a * 10) * b) by ring.
      apply Z.mul_lt_mono_pos_r; lia.
  - destruct (exp10_up_spec 400 num den 1 N) as (B & L & H);
      [lia|rewrite Z.pow_0_r; lia|exact Lo|].
    set (r := Fmt.exp10_up 400 num den 1) in *.
    assert (X : x = - r) by reflexivity.
    assert (R : r <= 400).
    { destruct (Z.le_gt_cases r 400) as [?|G]; [assumption|exfalso].
      assert (10 ^ 400 <= 10 ^ (r - 1)) by (apply Z.pow_le_mono_r; lia).
      assert (num * 10 ^ 400 <= num * 10 ^ (r - 1))
        by (apply Z.mul_le_mono_nonneg_l; lia).
      lia. }
    split; [lia|].
    assert (E : 10 ^ 400 = 10 ^ r * 10 ^ (x + 400)).
    { rewrite <- Z.pow_add_r by lia. f_equal. lia. }
    assert (E' : 10 ^ r = 10 * 10 ^ (r - 1)).
    { rewrite <- (Z.pow_succ_r 10 (r - 1)) by lia. f_equal. lia. }
    assert (P : 0 < 10 ^ (x + 400)) by (apply Z.pow_pos_nonneg; lia).
    assert (P' : 0 < 10 ^ (r - 1)) by (apply Z.pow_pos_nonneg; lia).
    rewrite E, E'. rewrite E' in L. clear E E' Hi Lo.
    revert P P' L H.
    generalize (10 ^ (x + 400)). generalize (10 ^ (r - 1)).
    intros a b P P' L H. split.
    + replace (num * (10 * a * b)) with (num * (10 * a) * b) by ring.
      rewrite (Z.mul_comm b den). apply Z.mul_le_mono_nonneg_r; lia.
    + replace (num * (10 * a * b)) with (num * a * (10 * b)) by ring.
      replace (10 * b * den) with (den * (10 * b)) by ring.
      apply Z.mul_lt_mono_pos_r; lia.
Qed.

Lemma six_raw_spec (num den : Z) :
  0 < num -> 0 < den ->
  num < den * 10 ^ 400 -> den <= num * 10 ^ 400 ->
  six_raw num den
  = Fmt.round_half_even (num * 10 ^ 400 * 10 ^ 5)
      (den * 10 ^ (Fmt.exp10 num den + 400)) /\
  10 ^ 5 <= six_raw num den <= 10 ^ 6.
Proof.
  intros N D Hi Lo.
  destruct (exp10_spec num den N D Hi Lo) as (B & L & H).
  unfold six_raw. set (x := Fmt.exp10 num den) in *.
  assert (P : 0 < 10 ^ (x + 400)) by (apply Z.pow_pos_nonneg; lia).
  assert (E : (if 5 <=? x
               then Fmt.round_half_even num (den * 10 ^ (x - 5))
               else Fmt.round_half_even (num * 10 ^ (5 - x)) den)
              = Fmt.round_half_even (num * 10 ^ 400 * 10 ^ 5)
                  (den * 10 ^ (x + 400))).
  { destruct (Z.leb_spec 5 x) as [X|X].
    - assert (P' : 0 < 10 ^ (x - 5)) by (apply Z.pow_pos_nonneg; lia).
      apply rhe_ratio; [nia|nia|].
      replace (x + 400) with (x - 5 + (400 + 5)) by lia.
      rewrite (Z.pow_add_r 10 (x - 5)) by lia.
      rewrite (Z.pow_add_r 10 400 5) by lia. ring.
    - apply rhe_ratio; [lia|nia|].
      assert (F : 10 ^ (5 - x) * 10 ^ (x + 400) = 10 ^ 400 * 10 ^ 5).
      { rewrite <- !Z.pow_add_r by lia. f_equal. lia. }
      replace (num * 10 ^ (5 - x) * (den * 10 ^ (x + 400)))
        with (num * den * (10 ^ (5 - x) * 10 ^ (x + 400))) by ring.
      rewrite F. ring. }
  rewrite E. split; [reflexivity|].
  assert (D' : 0 < den * 10 ^ (x + 400)) by nia.
  split.
  - rewrite <- (rhe_exact (10 ^ 5) (den * 10 ^ (x + 400)) D') at 1.
    apply rhe_mono; [exact D'|].
    replace (10 ^ 5 * (den * 10 ^ (x + 400)))
      with (10 ^ (x + 400) * den * 10 ^ 5) by ring.
    apply Z.mul_le_mono_nonneg_r; [apply Z.pow_nonneg; lia|exact L].
  - rewrite <- (rhe_exact (10 ^ 6) (den * 10 ^ (x + 400)) D') at 1.
    apply rhe_mono; [exact D'|].
    replace (10 ^ 6 * (den * 10 ^ (x + 400)))
      with (10 * 10 ^ (x + 400) * den * 10 ^ 5) by ring.
    apply Z.mul_le_mono_nonneg_r; [apply Z.pow_nonneg; lia|lia].
Qed.

Lemma six_digits_raw (num den : Z) :
  Fmt.six_digits num den
  = if six_raw num den =? 10 ^ 6 then (10 ^ 5, Fmt.exp10 num den + 1)
    else (six_raw num den, Fmt.exp10 num den).
Proof. reflexivity. Qed.

Lemma six_digits_range (num den n x : Z) :
  0 < num -> 0 < den ->
  num < den * 10 ^ 400 -> den <= num * 10 ^ 400 ->
  Fmt.six_digits num den = (n, x) ->
  10 ^ 5 <= n < 10 ^ 6 /\ -400 <= x <= 401.
Proof.
  intros N D Hi Lo. rewrite six_digits_raw.
  destruct (six_raw_spec num den N D Hi Lo) as (_ & R).
  destruct (exp10_spec num den N D Hi Lo) as (B & _).
  destruct (Z.eqb_spec (six_raw num den) (10 ^ 6)) as [E|E];
    intros [= <- <-]; change (10 ^ 6) with 1000000 in *;
    change (10 ^ 5) with 100000 in *; lia.
Qed.

(** The decade of a fraction grows with the fraction. *)
Lemma exp10_mono (num den num' den' : Z) :
  0 < num -> 0 < den -> num < den * 10 ^ 400 -> den <= num * 10 ^ 400 ->
  0 < num' -> 0 < den' -> num' < den' * 10 ^ 400 ->
  den' <= num' * 10 ^ 400 ->
  num * den' <= num' * den ->
  Fmt.exp10 num den <= Fmt.exp10 num' den'.
Proof.
  intros N D Hi Lo N' D' Hi' Lo' V.
  destruct (exp10_spec num den N D Hi Lo) as (B & L & _).
  destruct (exp10_spec num' den' N' D' Hi' Lo') as (B' & _ & H').
  set (x := Fmt.exp10 num den) in *. set (x' := Fmt.exp10 num' den') in *.
  destruct (Z.le_gt_cases x x') as [?|G]; [assumption|exfalso].
  assert (T : 10 * 10 ^ (x' + 400) <= 10 ^ (x + 400)).
  { rewrite <- Z.pow_succ_r by lia. apply Z.pow_le_mono_r; lia. }
  assert (P : 0 < 10 ^ 400) by (apply Z.pow_pos_nonneg; lia).
  assert (P' : 0 < 10 ^ (x' + 400)) by (apply Z.pow_pos_nonneg; lia).
  revert L H' T P P'.
  generalize (10 ^ 400), (10 ^ (x + 400)), (10 ^ (x' + 400)).
  intros k t t' L H' T P P'.
  assert (A1 : num' * k * den < 10 * t' * den' * den)
    by (apply Z.mul_lt_mono_pos_r; assumption).
  assert (A2 : 10 * t' * (den' * den) <= t * (den' * den))
    by (apply Z.mul_le_mono_nonneg_r; nia).
  assert (A3 : t * den * den' <= num * k * den')
    by (apply Z.mul_le_mono_nonneg_r; lia).
  assert (A4 : num * den' * k <= num' * den * k)
    by (apply Z.mul_le_mono_nonneg_r; lia).
  lia.
Qed.

Lemma six_raw_mono (num den num' den' : Z) :
  0 < num -> 0 < den -> num < den * 10 ^ 400 -> den <= num * 10 ^ 400 ->
  0 < num' -> 0 < den' -> num' < den' * 10 ^ 400 ->
  den' <= num' * 10 ^ 400 ->
  num * den' <= num' * den ->
  Fmt.exp10 num den = Fmt.exp10 num' den' ->
  six_raw num den <= six_raw num' den'.
Proof.
  intros N D Hi Lo N' D' Hi' Lo' V X.
  destruct (six_raw_spec num den N D Hi Lo) as (-> & _).
  destruct (six_raw_spec num' den' N' D' Hi' Lo') as (-> & _).
  destruct (exp10_spec num den N D Hi Lo) as (B & _).
  rewrite <- X.
  assert (P : 0 < 10 ^ 400) by (apply Z.pow_pos_nonneg; lia).
  assert (P5 : 0 < 10 ^ 5) by (apply Z.pow_pos_nonneg; lia).
  assert (P' : 0 < 10 ^ (Fmt.exp10 num den + 400))
    by (apply Z.pow_pos_nonneg; lia).
  revert P P5 P'.
  generalize (10 ^ 400), (10 ^ 5), (10 ^ (Fmt.exp10 num den + 400)).
  intros k f t P P5 P'.
  apply rhe_mono_ratio; [nia|nia|].
  replace (num * k * f * (den' * t)) with (num * den' * (k * f * t)) by ring.
  replace (num' * k * f * (den * t)) with (num' * den * (k * f * t)) by ring.
  apply Z.mul_le_mono_nonneg_r; nia.
Qed.

Lemma six_rank_mono (num den num' den' : Z) :
  0 < num -> 0 < den -> num < den * 10 ^ 400 -> den <= num * 10 ^ 400 ->
  0 < num' -> 0 < den' -> num' < den' * 10 ^ 400 ->
  den' <= num' * 10 ^ 400 ->
  num * den' <= num' * den ->
  six_rank num den <= six_rank num' den'.
Proof.
  intros N D Hi Lo N' D' Hi' Lo' V.
  pose proof (exp10_mono _ _ _ _ N D Hi Lo N' D' Hi' Lo' V) as X.
  pose proof (six_raw_mono _ _ _ _ N D Hi Lo N' D' Hi' Lo' V) as R.
  destruct (six_raw_spec num den N D Hi Lo) as (_ & S).
  destruct (six_raw_spec num' den' N' D' Hi' Lo') as (_ & S').
  unfold six_rank. rewrite !six_digits_raw.
  change (10 ^ 6) with 1000000 in *. change (10 ^ 5) with 100000 in *.
  destruct (Z.eqb_spec (six_raw num den) 1000000) as [E|E],
    (Z.eqb_spec (six_raw num' den') 1000000) as [E'|E']; lia.
Qed.

(** ** The order of floats and the order of their roundings *)

Lemma finite_bounds (f : float) (s : bool) (m : positive) (e : Z) :
  Prim2SF f = S754_finite s m e ->
  -1074 <= e <= 971 /\ Zpos m < 2 ^ 53 /\ (-1074 < e -> 2 ^ 52 <= Zpos m).
Proof.
  intros E. pose proof (Prim2SF_valid f) as V. rewrite E in V.
  unfold SpecFloat.valid_binary, bounded, canonical_mantissa, fexp in V.
  apply andb_prop in V. destruct V as (C & B).
  apply Z.eqb_eq in C. apply Z.leb_le in B.
  change (SpecFloat.emin prec emax) with (-1074) in C.
  change prec with 53 in *. change emax with 1024 in *.
  pose proof (Rounding.digits2_bounds m) as (Lo & Hi).
  assert (X : Z.max (Zpos (digits2_pos m) + e - 53) (-1074) = e)
    by exact C.
  clear C.
  split; [lia|]. split.
  - apply (Z.lt_le_trans _ _ _ Hi). apply Z.pow_le_mono_r; lia.
  - intros G. replace 52 with (Zpos (digits2_pos m) - 1) by lia. exact Lo.
Qed.

Lemma magnitude_units (m : positive) (e num den : Z) :
  -1074 <= e -> Fmt.magnitude m e = (num, den) ->
  0 < num /\ 0 < den /\ num * 2 ^ 1074 = Zpos m * 2 ^ (e + 1074) * den.
Proof.
  intros B. unfold Fmt.magnitude.
  destruct e as [|p|p]; intros H; apply pair_equal_spec in H;
    destruct H as (<- & <-).
  - change (2 ^ 0) with 1. change (0 + 1074) with 1074.
    split; [lia|]. split; [lia|]. ring.
  - assert (0 < 2 ^ Zpos p) by (apply Z.pow_pos_nonneg; lia).
    split; [nia|]. split; [lia|].
    rewrite (Z.pow_add_r 2 (Zpos p) 1074) by lia. ring.
  - assert (0 < 2 ^ Zpos p) by (apply Z.pow_pos_nonneg; lia).
    split; [lia|]. split; [assumption|].
    replace 1074 with (Zneg p + 1074 + Zpos p) at 1 by lia.
    rewrite (Z.pow_add_r 2 (Zneg p + 1074) (Zpos p)) by lia. ring.
Qed.

Lemma pow2_1024_400 : 2 ^ 1024 <= 10 ^ 400.
Proof. apply Z.leb_le. vm_compute. reflexivity. Qed.

Lemma pow2_1074_400 : 2 ^ 1074 <= 10 ^ 400.
Proof. apply Z.leb_le. vm_compute. reflexivity. Qed.

(** The fraction of a finite float is within the reach of [exp10]. *)
Lemma magnitude_reach (f : float) (s : bool) (m : positive) (e num den : Z) :
  Prim2SF f = S754_finite s m e -> Fmt.magnitude m e = (num, den) ->
  0 < num /\ 0 < den /\ num < den * 10 ^ 400 /\ den <= num * 10 ^ 400.
Proof.
  intros E M. destruct (finite_bounds f s m e E) as (B & Hi & _).
  destruct (magnitude_units m e num den (proj1 B) M) as (N & D & U).
  split; [exact N|]. split; [exact D|].
  assert (P : 0 < 2 ^ 1074) by (apply Z.pow_pos_nonneg; lia).
  assert (Q : 0 < 2 ^ (e + 1074)) by (apply Z.pow_pos_nonneg; lia).
  pose proof pow2_1024_400 as A1. pose proof pow2_1074_400 as A2.
  assert (R : 2 ^ (e + 1074) <= 2 ^ 2045) by (apply Z.pow_le_mono_r; lia).
  assert (S : 2 ^ 53 * 2 ^ 2045 = 2 ^ 1024 * 2 ^ 1074)
    by (rewrite <- !Z.pow_add_r by lia; reflexivity).
  assert (Pm : 0 < Zpos m) by lia.
  revert N D U P Q A1 A2 R S Hi Pm.
  generalize (2 ^ 1074), (2 ^ (e + 1074)), (10 ^ 400), (2 ^ 53),
    (2 ^ 2045), (2 ^ 1024), (Zpos m).
  intros c t k a b g mm N D U P Q A1 A2 R S Hi Pm. split.
  - apply (Z.mul_lt_mono_pos_r c); [exact P|]. rewrite U.
    assert (mm * t < g * c) by nia.
    assert (g * c <= k * c) by nia.
    replace (den * k * c) with (k * c * den) by ring.
    apply Z.mul_lt_mono_pos_r; lia.
  - apply (Z.mul_le_mono_pos_r _ _ c); [exact P|].
    replace (num * k * c) with (num * c * k) by ring. rewrite U.
    assert (1 <= mm * t) by nia.
    assert (den * c <= den * k) by nia.
    assert (den * k * 1 <= den * k * (mm * t))
      by (apply Z.mul_le_mono_nonneg_l; nia).
    replace (mm * t * den * k) with (den * k * (mm * t)) by ring. lia.
Qed.

Lemma six_rank_bounds (f : float) (s : bool) (m : positive) (e num den : Z) :
  Prim2SF f = S754_finite s m e -> Fmt.magnitude m e = (num, den) ->
  0 < six_rank num den < 10 ^ 9.
Proof.
  intros E M. destruct (magnitude_reach f s m e num den E M)
    as (N & D & Hi & Lo).
  unfold six_rank. destruct (Fmt.six_digits num den) as (n, x) eqn:S.
  destruct (six_digits_range num den n x N D Hi Lo S) as (Rn & Rx).
  change (10 ^ 9) with 1000000000. change (10 ^ 6) with 1000000 in *.
  change (10 ^ 5) with 100000 in *. lia.
Qed.

(** Of two positive finite floats, the one of the smaller rank has the
    smaller rounding. *)
Lemma six_rank_floats (f f' : float) (s s' : bool) (m m' : positive)
  (e e' num den num' den' : Z) :
  Prim2SF f = S754_finite s m e -> Prim2SF f' = S754_finite s' m' e' ->
  Fmt.magnitude m e = (num, den) -> Fmt.magnitude m' e' = (num', den') ->
  e < e' \/ (e = e' /\ Zpos m <= Zpos m') ->
  six_rank num den <= six_rank num' den'.
Proof.
  intros E E' M M' L.
  destruct (magnitude_reach f s m e num den E M) as (N & D & Hi & Lo).
  destruct (magnitude_reach f' s' m' e' num' den' E' M')
    as (N' & D' & Hi' & Lo').
  apply six_rank_mono; try assumption.
  destruct (finite_bounds f s m e E) as (B & T & _).
  destruct (finite_bounds f' s' m' e' E') as (B' & _ & T').
  destruct (magnitude_units m e num den (proj1 B) M) as (_ & _ & U).
  destruct (magnitude_units m' e' num' den' (proj1 B') M') as (_ & _ & U').
  assert (P : 0 < 2 ^ 1074) by (apply Z.pow_pos_nonneg; lia).
  assert (V : Zpos m * 2 ^ (e + 1074) <= Zpos m' * 2 ^ (e' + 1074)).
  { destruct L as [L|(-> & L)].
    - assert (Q : 0 < 2 ^ (e + 1074)) by (apply Z.pow_pos_nonneg; lia).
      assert (R : 2 * 2 ^ (e + 1074) <= 2 ^ (e' + 1074)).
      { rewrite <- Z.pow_succ_r by lia. apply Z.pow_le_mono_r; lia. }
      specialize (T' ltac:(lia)).
      change (2 ^ 53) with (2 * 2 ^ 52) in T.
      assert (Pm : 0 < Zpos m) by lia.
      revert T T' Q R Pm. generalize (2 ^ 52), (2 ^ (e + 1074)),
        (2 ^ (e' + 1074)), (Zpos m), (Zpos m').
      intros h t t' a a' T T' Q R Pm.
      assert (a * t <= 2 * h * t) by nia.
      assert (h * (2 * t) <= h * t') by (apply Z.mul_le_mono_nonneg_l; lia).
      assert (h * t' <= a' * t') by (apply Z.mul_le_mono_nonneg_r; lia).
      lia.
    - apply Z.mul_le_mono_nonneg_r; [apply Z.pow_nonneg; lia|exact L]. }
  apply (Z.mul_le_mono_pos_r _ _ (2 ^ 1074)); [exact P|].
  replace (num * den' * 2 ^ 1074) with (num * 2 ^ 1074 * den') by ring.
  replace (num' * den * 2 ^ 1074) with (num' * 2 ^ 1074 * den) by ring.
  rewrite U, U'.
  replace (Zpos m * 2 ^ (e + 1074) * den * den')
    with (Zpos m * 2 ^ (e + 1074) * (den * den')) by ring.
  replace (Zpos m' * 2 ^ (e' + 1074) * den' * den)
    with (Zpos m' * 2 ^ (e' + 1074) * (den * den')) by ring.
  apply Z.mul_le_mono_nonneg_r; [nia|exact V].
Qed.

(** The rounding grows with the float. *)
Lemma rounded_mono (a b : float) :
  FloatOrder.le a b ->
  exists ra rb : Z, rounded a = Some ra /\ rounded b = Some rb /\ ra <= rb.
Proof.
  unfold FloatOrder.le, FloatOrder.number, rounded.
  intros (Na & Nb & L).
  destruct (Prim2SF a) as [sa|sa| |sa ma ea] eqn:Ea; [| |congruence|];
    (destruct (Prim2SF b) as [sb|sb| |sb mb eb] eqn:Eb; [| |congruence|]);
    cbn [FloatOrder.rank FloatOrder.lex_le] in L;
    try (destruct (Fmt.magnitude ma ea) as (na, da) eqn:Ma;
         pose proof (six_rank_bounds a sa ma ea na da Ea Ma) as Ba);
    try (destruct (Fmt.magnitude mb eb) as (nb, db) eqn:Mb;
         pose proof (six_rank_bounds b sb mb eb nb db Eb Mb) as Bb);
    change (10 ^ 9) with 1000000000 in *;
    eexists _, _; (split; [reflexivity|]); (split; [reflexivity|]).
  - lia.
  - destruct sb; cbv beta iota zeta delta [FloatOrder.lex_le] in L; lia.
  - destruct sb; cbv beta iota zeta delta [FloatOrder.lex_le] in L; lia.
  - destruct sa; cbv beta iota zeta delta [FloatOrder.lex_le] in L; lia.
  - destruct sa, sb; cbv beta iota zeta delta [FloatOrder.lex_le] in L; lia.
  - destruct sa, sb; cbv beta iota zeta delta [FloatOrder.lex_le] in L; lia.
  - destruct sa; cbv beta iota zeta delta [FloatOrder.lex_le] in L; lia.
  - destruct sa, sb; cbv beta iota zeta delta [FloatOrder.lex_le] in L; lia.
  - destruct sa, sb; cbv beta iota zeta delta [FloatOrder.lex_le] in L; try lia.
    + pose proof (six_rank_floats b a true true mb ma eb ea nb db na da
                    Eb Ea Mb Ma) as G.
      assert (H : eb < ea \/ eb = ea /\ Zpos mb <= Zpos ma) by lia.
      specialize (G H). lia.
    + pose proof (six_rank_floats a b false false ma mb ea eb na da nb db
                    Ea Eb Ma Mb) as G.
      assert (H : ea < eb \/ ea = eb /\ Zpos ma <= Zpos mb) by lia.
      specialize (G H). lia.
Qed.

(** ** Reading a [%g] text back *)


Lemma digit_no_mark (c : ascii) :
  is_digit c = true ->
  Ascii.eqb c "." = false /\ Ascii.eqb c "e" = false /\
  Ascii.eqb c "-" = false /\ Ascii.eqb c "n" = false /\
  Ascii.eqb c "i" = false.
Proof.
  destruct c as [[|] [|] [|] [|] [|] [|] [|] [|]]; vm_compute;
    intros H; try discriminate H; repeat split; reflexivity.
Qed.

Lemma digit_range (c : ascii) : is_digit c = true -> 0 <= dig c <= 9.
Proof. unfold is_digit. intros H. apply andb_prop in H. lia. Qed.

Lemma ival_shift (l : list ascii) (acc : Z) :
  ival acc l = acc * 10 ^ Z.of_nat (length l) + ival 0 l.
Proof.
  revert acc. induction l as [|c l IH]; intros acc.
  - cbn [ival length]. change (10 ^ Z.of_nat 0) with 1. lia.
  - cbn [ival length]. rewrite (IH (10 * acc + dig c)), (IH (10 * 0 + dig c)).
    rewrite Nat2Z.inj_succ, Z.pow_succ_r by lia. ring.
Qed.

Lemma ival_app (l l' : list ascii) (acc : Z) :
  ival acc (l ++ l') = ival (ival acc l) l'.
Proof.
  revert acc. induction l as [|c l IH]; intros acc; [reflexivity|].
  cbn [app ival]. apply IH.
Qed.

Lemma ival_zeros (j : nat) (acc : Z) :
  ival acc (repeat "0"%char j) = acc * 10 ^ Z.of_nat j.
Proof.
  revert acc. induction j as [|j IH]; intros acc.
  - cbn [repeat ival]. change (10 ^ Z.of_nat 0) with 1. lia.
  - cbn [repeat ival]. rewrite IH. change (dig "0") with 0.
    rewrite Nat2Z.inj_succ, Z.pow_succ_r by lia. ring.
Qed.

Lemma ival_nonneg (l : list ascii) (acc : Z) :
  Forall (fun c => is_digit c = true) l -> 0 <= acc -> 0 <= ival acc l.
Proof.
  intros F. revert acc. induction F as [|c l Hc _ IH]; intros acc A.
  - exact A.
  - cbn [ival]. apply IH. apply digit_range in Hc. lia.
Qed.

Lemma scan_frac_digits (l rest : list ascii) (acc k : Z) :
  Forall (fun c => is_digit c = true) l ->
  scan_frac acc k (l ++ rest)
  = scan_frac (ival acc l) (k + Z.of_nat (length l)) rest.
Proof.
  intros F. revert acc k. induction F as [|c l Hc _ IH]; intros acc k.
  - cbn [app ival length]. f_equal. lia.
  - cbn [app ival length scan_frac].
    destruct (digit_no_mark c Hc) as (_ & -> & _). rewrite IH. f_equal. lia.
Qed.

Lemma scan_int_digits (l rest : list ascii) (acc : Z) :
  Forall (fun c => is_digit c = true) l ->
  scan_int acc (l ++ rest) = scan_int (ival acc l) rest.
Proof.
  intros F. revert acc. induction F as [|c l Hc _ IH]; intros acc.
  - reflexivity.
  - cbn [app ival scan_int].
    destruct (digit_no_mark c Hc) as (-> & -> & _). apply IH.
Qed.

(** The digits of a number. *)
Lemma uint_digits (d : Decimal.uint) :
  Forall (fun c => is_digit c = true) (list_ascii_of_string (NilEmpty.string_of_uint d)).
Proof.
  induction d; cbn [NilEmpty.string_of_uint list_ascii_of_string];
    constructor; try assumption; reflexivity.
Qed.

Lemma uint_ival (d : Decimal.uint) (acc : Z) :
  ival acc (list_ascii_of_string (NilEmpty.string_of_uint d)) = uint_value d acc.
Proof.
  revert acc. induction d; intros acc;
    cbn [NilEmpty.string_of_uint list_ascii_of_string ival uint_value];
    [reflexivity|..]; rewrite IHd; f_equal;
    match goal with |- context [dig ?c] => change (dig c) with
      ltac:(let v := eval vm_compute in (dig c) in exact v) end; lia.
Qed.

Lemma uint_length (d : Decimal.uint) :
  length (list_ascii_of_string (NilEmpty.string_of_uint d)) = Decimal.nb_digits d.
Proof.
  induction d; cbn [NilEmpty.string_of_uint list_ascii_of_string length
                    Decimal.nb_digits]; congruence.
Qed.

Lemma uint_value_lower (d : Decimal.uint) (acc : Z) :
  0 <= acc -> acc * 10 ^ Z.of_nat (Decimal.nb_digits d) <= uint_value d acc.
Proof.
  revert acc. induction d; intros acc A;
    cbn [uint_value Decimal.nb_digits];
    [change (10 ^ Z.of_nat 0) with 1; lia|..];
    rewrite Nat2Z.inj_succ, Z.pow_succ_r by lia;
    (etransitivity; [|apply IHd; lia]);
    rewrite Z.mul_assoc; apply Z.mul_le_mono_nonneg_r;
    try (apply Z.pow_nonneg; lia); lia.
Qed.

(** A number of [k] digits that does not begin with [0] is at least
    [10 ^ (k - 1)]. *)
Lemma unorm_lower (d : Decimal.uint) :
  Decimal.unorm d = d -> d <> Decimal.D0 Decimal.Nil ->
  10 ^ (Z.of_nat (Decimal.nb_digits d) - 1) <= uint_value d 0.
Proof.
  intros U Z.
  assert (H : Decimal.nzhead d = d).
  { unfold Decimal.unorm in U.
    destruct (Decimal.nzhead d) eqn:E; congruence. }
  destruct d; cbn [Decimal.nzhead] in H;
    try (cbn [uint_value Decimal.nb_digits];
         rewrite Nat2Z.inj_succ;
         match goal with
         | |- _ <= uint_value ?d ?a =>
             replace (Z.succ (Z.of_nat (Decimal.nb_digits d)) - 1)
               with (Z.of_nat (Decimal.nb_digits d)) by lia;
             pose proof (uint_value_lower d a ltac:(lia)); nia
         end).
  - pose proof (DecimalFacts.unorm_nonnil Decimal.Nil). congruence.
  - exfalso. pose proof (DecimalFacts.nb_digits_nzhead d) as B.
    rewrite H in B. cbn [Decimal.nb_digits] in B. lia.
Qed.

Lemma digits_spec (v : Z) :
  0 <= v ->
  exists l : list ascii,
    list_ascii_of_string (Fmt.digits v) = l /\ l <> [] /\
    Forall (fun c => is_digit c = true) l /\ ival 0 l = v /\
    forall d : nat, (1 <= d)%nat -> v < 10 ^ Z.of_nat d ->
      (length l <= d)%nat.
Proof.
  intros V. unfold Fmt.digits.
  destruct (Z.to_N v) as [|p] eqn:E.
  - assert (v = 0) by lia. subst v. cbn. eexists. split; [reflexivity|].
    split; [discriminate|]. split; [repeat constructor|].
    split; [reflexivity|]. intros d D _. exact D.
  - assert (Vp : v = Zpos p) by lia.
    cbn [N.to_uint]. pose proof (Unsigned.to_uint_nonnil p) as NN.
    pose proof (Unsigned.to_uint_nonzero p) as NZ.
    assert (U : Decimal.unorm (Pos.to_uint p) = Pos.to_uint p).
    { rewrite <- (DecimalPos.Unsigned.to_of (Pos.to_uint p)).
      rewrite DecimalPos.Unsigned.of_to. reflexivity. }
    assert (G : uint_value (Pos.to_uint p) 0 = v).
    { rewrite uint_value_zero, DecimalPos.Unsigned.of_to. lia. }
    revert NN NZ U G. generalize (Pos.to_uint p). intros u NN NZ U G.
    assert (S : NilZero.string_of_uint u = NilEmpty.string_of_uint u)
      by (destruct u; [congruence|reflexivity..]).
    rewrite S. eexists. split; [reflexivity|]. split.
    { destruct u; [congruence|discriminate..]. }
    split; [apply uint_digits|]. split; [rewrite uint_ival; exact G|].
    intros d D B. rewrite uint_length.
    pose proof (unorm_lower u U NZ) as W. rewrite G in W.
    destruct (Nat.le_gt_cases (Decimal.nb_digits u) d) as [?|T];
      [assumption|exfalso].
    assert (10 ^ Z.of_nat d <= 10 ^ (Z.of_nat (Decimal.nb_digits u) - 1))
      by (apply Z.pow_le_mono_r; lia).
    lia.
Qed.

Lemma zeros_list (n : nat) : list_ascii_of_string (Fmt.zeros n) = repeat "0"%char n.
Proof.
  induction n as [|n IH]; [reflexivity|].
  cbn [Fmt.zeros list_ascii_of_string repeat]. rewrite IH. reflexivity.
Qed.

Lemma string_length_list (s : string) : String.length s = length (list_ascii_of_string s).
Proof.
  induction s as [|c s IH]; [reflexivity|].
  cbn [String.length list_ascii_of_string length]. rewrite IH. reflexivity.
Qed.

Lemma pad_left_list (w : nat) (s : string) :
  list_ascii_of_string (Fmt.pad_left w s) = repeat "0"%char (w - length (list_ascii_of_string s)) ++ list_ascii_of_string s.
Proof.
  unfold Fmt.pad_left.
  rewrite list_ascii_of_string_app, zeros_list, string_length_list.
  reflexivity.
Qed.

Lemma repeat_digits (j : nat) :
  Forall (fun c => is_digit c = true) (repeat "0"%char j).
Proof. induction j; constructor; [reflexivity|assumption]. Qed.

(** The digits of [v], filled to [d] places. *)
Lemma padded_spec (d : nat) (v : Z) :
  (1 <= d)%nat -> 0 <= v < 10 ^ Z.of_nat d ->
  Forall (fun c => is_digit c = true) (list_ascii_of_string (Fmt.pad_left d (Fmt.digits v))) /\
  length (list_ascii_of_string (Fmt.pad_left d (Fmt.digits v))) = d /\
  ival 0 (list_ascii_of_string (Fmt.pad_left d (Fmt.digits v))) = v.
Proof.
  intros D V.
  destruct (digits_spec v (proj1 V)) as (l & E & _ & F & I & B).
  specialize (B d D (proj2 V)).
  rewrite pad_left_list, E. split; [|split].
  - apply Forall_app. split; [apply repeat_digits|exact F].
  - rewrite List.length_app, repeat_length. lia.
  - rewrite ival_app, ival_zeros. cbn [Z.mul]. exact I.
Qed.

Lemma drop_zeros_spec (l : list ascii) :
  exists j : nat, l = repeat "0"%char j ++ Fmt.drop_zeros l.
Proof.
  induction l as [|c l (j & IH)]; [exists 0%nat; reflexivity|].
  destruct (Ascii.eqb_spec c "0") as [->|N].
  - exists (S j). cbn [Fmt.drop_zeros repeat app]. rewrite <- IH.
    reflexivity.
  - exists 0%nat. cbn [repeat app].
    destruct c as [[|] [|] [|] [|] [|] [|] [|] [|]];
      try reflexivity. congruence.
Qed.

Lemma rev_zeros (j : nat) : rev (repeat "0"%char j) = repeat "0"%char j.
Proof.
  induction j as [|j IH]; [reflexivity|].
  cbn [repeat rev]. rewrite IH. clear IH.
  induction j as [|j IH]; [reflexivity|].
  cbn [repeat app]. rewrite IH. reflexivity.
Qed.

(** What [strip_trailing_zeros] leaves of a text. *)
Lemma strip_spec (s : string) :
  exists j : nat,
    list_ascii_of_string s = list_ascii_of_string (Fmt.strip_trailing_zeros s) ++ repeat "0"%char j.
Proof.
  unfold Fmt.strip_trailing_zeros.
  rewrite list_ascii_of_string_of_list_ascii.
  destruct (drop_zeros_spec (rev (list_ascii_of_string s))) as (j & E). exists j.
  rewrite <- (rev_involutive (list_ascii_of_string s)), E at 1.
  rewrite List.rev_app_distr, rev_zeros. reflexivity.
Qed.

Lemma with_point_list (i f : string) :
  list_ascii_of_string (Fmt.with_point i f)
  = list_ascii_of_string i ++ match list_ascii_of_string (Fmt.strip_trailing_zeros f) with
           | [] => []
           | c :: l => "."%char :: c :: l
           end.
Proof.
  unfold Fmt.with_point.
  destruct (Fmt.strip_trailing_zeros f) as [|c t].
  - cbn [list_ascii_of_string]. rewrite List.app_nil_r. reflexivity.
  - rewrite list_ascii_of_string_app. reflexivity.
Qed.

Lemma scan_mantissa (d : nat) (n : Z) (rest : list ascii) :
  (1 <= d)%nat -> 0 <= n ->
  rest = [] \/ (exists r, rest = "e"%char :: r) ->
  exists (a k : Z) (j : nat),
    scan_int 0
      (list_ascii_of_string (Fmt.with_point (Fmt.digits (n / 10 ^ Z.of_nat d))
            (Fmt.pad_left d (Fmt.digits (n mod 10 ^ Z.of_nat d)))) ++ rest)
    = (a, k, scan_tail rest) /\
    a * 10 ^ Z.of_nat j = n /\ k + Z.of_nat j = Z.of_nat d.
Proof.
  intros D N R.
  assert (P : 0 < 10 ^ Z.of_nat d) by (apply Z.pow_pos_nonneg; lia).
  assert (Q : 0 <= n / 10 ^ Z.of_nat d) by (apply Z.div_pos; lia).
  pose proof (Z.mod_pos_bound n _ P) as M.
  destruct (digits_spec _ Q) as (li & Ei & _ & Fi & Ii & _).
  destruct (padded_spec d _ D M) as (Ff & Lf & If).
  destruct (strip_spec (Fmt.pad_left d (Fmt.digits (n mod 10 ^ Z.of_nat d))))
    as (j & Es).
  rewrite with_point_list, Ei.
  set (s := list_ascii_of_string (Fmt.strip_trailing_zeros _)) in *.
  rewrite Es in Ff, Lf, If. apply Forall_app in Ff. destruct Ff as (Fs & _).
  rewrite List.length_app, repeat_length in Lf.
  rewrite ival_app, ival_zeros in If.
  exists (ival (ival 0 li) s), (Z.of_nat (length s)), j.
  split; [|split].
  - rewrite <- List.app_assoc, (scan_int_digits li _ 0 Fi).
    destruct s as [|c t] eqn:S.
    + cbn [app ival length]. destruct R as [->|(r & ->)]; reflexivity.
    + rewrite <- S in *. cbn [app scan_int]. 
      change (Ascii.eqb "." ".") with true. cbv iota.
      rewrite (scan_frac_digits s rest _ 0 Fs).
      destruct R as [->|(r & ->)]; reflexivity.
  - rewrite ival_shift, Ii.
    rewrite Z.mul_add_distr_r, If, <- Z.mul_assoc, <- Z.pow_add_r by lia.
    rewrite <- Nat2Z.inj_add, Lf.
    rewrite (Z.div_mod n (10 ^ Z.of_nat d)) at 3 by lia. ring.
  - lia.
Qed.

Lemma with_point_head (v : Z) (f : string) (rest : list ascii) :
  0 <= v ->
  exists (c : ascii) (t : list ascii),
    list_ascii_of_string (Fmt.with_point (Fmt.digits v) f) ++ rest = c :: t /\
    is_digit c = true.
Proof.
  intros V. destruct (digits_spec v V) as (l & E & N & F & _).
  rewrite with_point_list, E.
  destruct F as [|c l Hc _]; [congruence|].
  eexists c, _. split; [reflexivity|exact Hc].
Qed.

(** The text of the digits, read back: the digits [a] without the zeros at
    their end, the number [k] of those behind the point, the exponent [E]. *)
Lemma general_digits_scan (num den n x : Z) :
  Fmt.six_digits num den = (n, x) -> 10 ^ 5 <= n < 10 ^ 6 ->
  exists (c : ascii) (t : list ascii) (a k E : Z) (j : nat),
    list_ascii_of_string (Fmt.general_digits num den) = c :: t /\ is_digit c = true /\
    scan_int 0 (c :: t) = (a, k, E) /\
    a * 10 ^ Z.of_nat j = n /\ E - k = x - 5 + Z.of_nat j.
Proof.
  intros S N. unfold Fmt.general_digits. rewrite S.
  change (10 ^ 5) with 100000 in N. change (10 ^ 6) with 1000000 in N.
  destruct ((-4 <=? x) && (x <? 6))%bool eqn:B.
  - apply andb_prop in B. destruct B as (B1 & B2).
    apply Z.leb_le in B1. apply Z.ltb_lt in B2.
    destruct (Z.eq_dec x 5) as [->|X].
    + change (10 ^ (5 - 5)) with 1. rewrite Z.div_1_r, Z.mod_1_r.
      change (Z.to_nat (5 - 5)) with 0%nat.
      destruct (digits_spec n ltac:(lia)) as (l & E & NE & F & I & _).
      rewrite with_point_list, E.
      change (list_ascii_of_string (Fmt.strip_trailing_zeros (Fmt.pad_left 0 (Fmt.digits 0))))
        with (@nil ascii).
      rewrite List.app_nil_r.
      destruct l as [|c t]; [congruence|].
      exists c, t, n, 0, 0, 0%nat. split; [reflexivity|].
      split; [inversion F; assumption|]. split; [|split].
      * rewrite <- (List.app_nil_r (c :: t)), (scan_int_digits _ [] 0 F), I.
        reflexivity.
      * change (10 ^ Z.of_nat 0) with 1. lia.
      * reflexivity.
    + set (d := Z.to_nat (5 - x)).
      assert (D : 5 - x = Z.of_nat d) by (unfold d; lia).
      rewrite D.
      destruct (scan_mantissa d n [] ltac:(lia) ltac:(lia)
                  (or_introl eq_refl)) as (a & k & j & Sc & V & K).
      rewrite List.app_nil_r in Sc.
      destruct (with_point_head (n / 10 ^ Z.of_nat d)
                  (Fmt.pad_left d (Fmt.digits (n mod 10 ^ Z.of_nat d))) [])
        as (c & t & H & Hc).
      { apply Z.div_pos; [lia|apply Z.pow_pos_nonneg; lia]. }
      rewrite List.app_nil_r in H. rewrite H in *.
      exists c, t, a, k, 0, j. split; [reflexivity|]. split; [exact Hc|].
      split; [exact Sc|]. split; [exact V|]. lia.
  - set (tail := if x <? 0 then "-"%string else "+"%string).
    set (p := Fmt.pad_left 2 (Fmt.digits (Z.abs x))).
    rewrite list_ascii_of_string_app.
    change (list_ascii_of_string ("e" ++ tail ++ p)%string) with ("e"%char :: list_ascii_of_string (tail ++ p)).
    destruct (scan_mantissa 5 n ("e"%char :: list_ascii_of_string (tail ++ p))
                ltac:(lia) ltac:(lia)
                (or_intror (ex_intro _ _ eq_refl)))
      as (a & k & j & Sc & V & K).
    destruct (with_point_head (n / 10 ^ Z.of_nat 5)
                (Fmt.pad_left 5 (Fmt.digits (n mod 10 ^ Z.of_nat 5)))
                ("e"%char :: list_ascii_of_string (tail ++ p)))
      as (c & t & H & Hc).
    { apply Z.div_pos; [lia|apply Z.pow_pos_nonneg; lia]. }
    change (10 ^ Z.of_nat 5) with (10 ^ 5) in *.
    rewrite H in *.
    exists c, t, a, k, x, j. split; [reflexivity|]. split; [exact Hc|].
    split; [|split; [exact V|lia]].
    rewrite Sc. f_equal. cbn [scan_tail].
    destruct (digits_spec (Z.abs x) (Z.abs_nonneg x))
      as (l & E & _ & F & I & _).
    assert (P : ival 0 (list_ascii_of_string p) = Z.abs x).
    { unfold p. rewrite pad_left_list, E, ival_app, ival_zeros. exact I. }
    unfold tail. destruct (Z.ltb_spec x 0) as [X|X].
    + change (list_ascii_of_string ("-" ++ p)%string) with ("-"%char :: list_ascii_of_string p).
      cbn [scan_exp]. change (Ascii.eqb "-" "-") with true. cbv iota.
      rewrite P. lia.
    + change (list_ascii_of_string ("+" ++ p)%string) with ("+"%char :: list_ascii_of_string p).
      cbn [scan_exp]. change (Ascii.eqb "+" "-") with false. cbv iota.
      rewrite P. lia.
Qed.

(** Six digits and a decade are told by what is read back. *)
Lemma scan_unique (a : Z) (j j' : nat) (n n' : Z) :
  10 ^ 5 <= n < 10 ^ 6 -> 10 ^ 5 <= n' < 10 ^ 6 ->
  a * 10 ^ Z.of_nat j = n -> a * 10 ^ Z.of_nat j' = n' -> j = j'.
Proof.
  assert (G : forall (i i' : nat) (v v' : Z),
             10 ^ 5 <= v < 10 ^ 6 -> 10 ^ 5 <= v' < 10 ^ 6 ->
             a * 10 ^ Z.of_nat i = v -> a * 10 ^ Z.of_nat i' = v' ->
             (i < i')%nat -> False).
  { intros i i' v v' V V' E E' T.
    change (10 ^ 5) with 100000 in *. change (10 ^ 6) with 1000000 in *.
    assert (10 * 10 ^ Z.of_nat i <= 10 ^ Z.of_nat i').
    { rewrite <- Z.pow_succ_r by lia. apply Z.pow_le_mono_r; lia. }
    assert (0 < 10 ^ Z.of_nat i) by (apply Z.pow_pos_nonneg; lia).
    assert (0 < a) by nia.
    assert (a * (10 * 10 ^ Z.of_nat i) <= a * 10 ^ Z.of_nat i')
      by (apply Z.mul_le_mono_nonneg_l; lia).
    lia. }
  intros V V' E E'.
  destruct (Nat.lt_trichotomy j j') as [T|[T|T]]; [exfalso|exact T|exfalso].
  - exact (G j j' n n' V V' E E' T).
  - exact (G j' j n' n V' V E' E T).
Qed.

(** What is read back of the text of a float. *)
Lemma scan_general (f : float) :
  match Prim2SF f with
  | S754_nan => scan (list_ascii_of_string (Fmt.general f)) = (false, (1, (0, 0, 0)))
  | S754_infinity s => scan (list_ascii_of_string (Fmt.general f)) = (s, (2, (0, 0, 0)))
  | S754_zero s => scan (list_ascii_of_string (Fmt.general f)) = (s, (3, (0, 0, 0)))
  | S754_finite s m e =>
      exists (n x a k E : Z) (j : nat),
        Fmt.six_digits (fst (Fmt.magnitude m e)) (snd (Fmt.magnitude m e))
        = (n, x) /\ 10 ^ 5 <= n < 10 ^ 6 /\
        scan (list_ascii_of_string (Fmt.general f)) = (s, (3, (a, k, E))) /\
        a * 10 ^ Z.of_nat j = n /\ E - k = x - 5 + Z.of_nat j
  end.
Proof.
  unfold Fmt.general.
  destruct (Prim2SF f) as [s|s| |s m e] eqn:Ef.
  - destruct s; reflexivity.
  - destruct s; reflexivity.
  - reflexivity.
  - destruct (Fmt.magnitude m e) as (num, den) eqn:M. cbn [fst snd].
    destruct (magnitude_reach f s m e num den Ef M) as (N & D & Hi & Lo).
    destruct (Fmt.six_digits num den) as (n, x) eqn:S.
    destruct (six_digits_range num den n x N D Hi Lo S) as (Rn & _).
    destruct (general_digits_scan num den n x S Rn)
      as (c & t & a & k & E & j & G & Hc & Sc & V & K).
    exists n, x, a, k, E, j. split; [reflexivity|]. split; [exact Rn|].
    split; [|split; assumption].
    rewrite list_ascii_of_string_app, G.
    destruct (digit_no_mark c Hc) as (_ & _ & C1 & C2 & C3).
    destruct s; cbn [Fmt.sign_str list_ascii_of_string app scan scan_number].
    + change (Ascii.eqb "-" "-") with true. cbv iota.
      rewrite C2, C3, Sc. reflexivity.
    + rewrite C1, C2, C3, Sc. reflexivity.
Qed.

(** Two floats of one text have one rounding. *)
Lemma general_rounded (a b : float) :
  Fmt.general a = Fmt.general b -> rounded a = rounded b.
Proof.
  intros G. pose proof (scan_general a) as Sa.
  pose proof (scan_general b) as Sb. rewrite <- G in Sb.
  unfold rounded.
  destruct (Prim2SF a) as [sa|sa| |sa ma ea] eqn:Ea;
    destruct (Prim2SF b) as [sb|sb| |sb mb eb] eqn:Eb;
    try (destruct Sa as (n & x & p & k & E & j & S6 & Rn & Sa & V & K));
    try (destruct Sb as (n' & x' & p' & k' & E' & j' & S6' & Rn' & Sb
                         & V' & K'));
    rewrite Sa in Sb; try discriminate Sb; try reflexivity.
  - exfalso. inversion Sb; subst.
    change (10 ^ 5) with 100000 in Rn'. lia.
  - inversion Sb; subst. reflexivity.
  - exfalso. inversion Sb; subst.
    change (10 ^ 5) with 100000 in Rn. lia.
  - inversion Sb; subst.
    assert (j = j') by exact (scan_unique p' j j' _ _ Rn Rn' eq_refl eq_refl).
    subst j'. assert (x = x') by lia. subst x'.
    destruct (Fmt.magnitude ma ea) as (na, da).
    destruct (Fmt.magnitude mb eb) as (nb, db). cbn [fst snd] in *.
    unfold six_rank. rewrite S6, S6'. reflexivity.
Qed.

(** Two floats of one rounding have one text, or both are zero. *)
Lemma rounded_general (a b : float) (r : Z) :
  rounded a = Some r -> rounded b = Some r ->
  Fmt.general a = Fmt.general b \/ r = 0.
Proof.
  unfold rounded, Fmt.general.
  destruct (Prim2SF a) as [sa|sa| |sa ma ea] eqn:Ea; [| |discriminate|];
    (destruct (Prim2SF b) as [sb|sb| |sb mb eb] eqn:Eb; [| |discriminate|]);
    try (destruct (Fmt.magnitude ma ea) as (na, da) eqn:Ma;
         pose proof (six_rank_bounds a sa ma ea na da Ea Ma) as Ba);
    try (destruct (Fmt.magnitude mb eb) as (nb, db) eqn:Mb;
         pose proof (six_rank_bounds b sb mb eb nb db Eb Mb) as Bb);
    change (10 ^ 9) with 1000000000 in *;
    intros Ra Rb; injection Ra as Ra; injection Rb as Rb;
    try (right; symmetry; assumption).
  - destruct sa, sb; try lia; left; reflexivity.
  - exfalso. destruct sa, sb; lia.
  - exfalso. destruct sa, sb; lia.
  - assert (sa = sb) by (destruct sa, sb; try reflexivity; lia). subst sb.
    assert (R' : six_rank nb db = six_rank na da) by (destruct sa; lia).
    left. f_equal. unfold Fmt.general_digits.
    destruct (magnitude_reach a sa ma ea na da Ea Ma) as (N & D & Hi & Lo).
    destruct (magnitude_reach b sa mb eb nb db Eb Mb)
      as (N' & D' & Hi' & Lo').
    unfold six_rank in R'.
    destruct (Fmt.six_digits na da) as (n, x) eqn:S.
    destruct (Fmt.six_digits nb db) as (n', x') eqn:S'.
    destruct (six_digits_range na da n x N D Hi Lo S) as (Rn & _).
    destruct (six_digits_range nb db n' x' N' D' Hi' Lo' S') as (Rn' & _).
    change (10 ^ 6) with 1000000 in *. change (10 ^ 5) with 100000 in *.
    assert (x = x') by lia. assert (n = n') by lia. subst. reflexivity.
Qed.

Lemma rounded_number (a : float) (r : Z) :
  rounded a = Some r -> FloatOrder.number a.
Proof.
  unfold rounded, FloatOrder.number. intros R E. rewrite E in R.
  discriminate R.
Qed.

Lemma rounded_zero (a : float) :
  rounded a = Some 0 -> FloatOrder.rank (Prim2SF a) = (0, 0, 0).
Proof.
  unfold rounded.
  destruct (Prim2SF a) as [s|s| |s m e] eqn:E; try reflexivity.
  - destruct s; intros [= R]; discriminate R.
  - destruct (Fmt.magnitude m e) as (num, den) eqn:M.
    pose proof (six_rank_bounds a s m e num den E M) as B.
    intros [= R]. destruct s; lia.
Qed.

Lemma lt_le_incl (x y : float) : FloatOrder.lt x y -> FloatOrder.le x y.
Proof.
  unfold FloatOrder.lt, FloatOrder.le, FloatOrder.lex_lt, FloatOrder.lex_le.
  intros (Nx & Ny & H). repeat split; try assumption.
  destruct (FloatOrder.rank (Prim2SF x)) as [[? ?] ?],
    (FloatOrder.rank (Prim2SF y)) as [[? ?] ?]. lia.
Qed.

(** Of two thresholds [a < b] of two texts, whatever has the text of [a]
    is at most whatever has the text of [b]. *)
Lemma general_classes (a b c d : float) :
  FloatOrder.lt a b ->
  Fmt.general c = Fmt.general a -> Fmt.general d = Fmt.general b ->
  Fmt.general a <> Fmt.general b ->
  FloatOrder.le c d.
Proof.
  intros Lt Gc Gd Ne.
  destruct (rounded_mono a b (lt_le_incl a b Lt)) as (ra & rb & Ra & Rb & Le).
  assert (S : ra < rb).
  { destruct (Z.eq_dec ra rb) as [E|E]; [exfalso|lia]. subst rb.
    destruct (rounded_general a b ra Ra Rb) as [G|Z]; [exact (Ne G)|].
    subst ra. apply rounded_zero in Ra. apply rounded_zero in Rb.
    destruct Lt as (_ & _ & Lt). rewrite Ra, Rb in Lt.
    cbn [FloatOrder.lex_lt] in Lt. lia. }
  apply general_rounded in Gc. apply general_rounded in Gd.
  rewrite Ra in Gc. rewrite Rb in Gd.
  apply FloatFacts.not_lt_le;
    [exact (rounded_number d rb Gd)|exact (rounded_number c ra Gc)|].
  intros Lt'.
  destruct (rounded_mono d c (lt_le_incl d c Lt'))
    as (rd & rc & Rd & Rc & Le').
  rewrite Gd in Rd. rewrite Gc in Rc.
  injection Rd as <-. injection Rc as <-. lia.
Qed.

Lemma violation_key_general (a b : float) :
  violation_key a = violation_key b -> Fmt.general a = Fmt.general b.
Proof.
  unfold violation_key. intros E.
  apply (f_equal list_ascii_of_string) in E.
  rewrite !list_ascii_of_string_app in E.
  apply app_inv_head in E. apply app_inv_tail in E.
  rewrite <- (string_of_list_ascii_of_string (Fmt.general a)), E.
  apply string_of_list_ascii_of_string.
Qed.

(** The thresholds that the summary counts for [t1 < t2] are in the same
    order. *)
Lemma last_named_ordered (ths : list float) (t1 t2 u1 u2 : float) :
  In t1 ths -> FloatOrder.lt t1 t2 ->
  last_named (violation_key t1) ths = Some u1 ->
  last_named (violation_key t2) ths = Some u2 ->
  FloatOrder.le u1 u2.
Proof.
  intros I1 Lt L1 L2.
  destruct (String.eqb_spec (violation_key t1) (violation_key t2)) as [E|N].
  - rewrite E in L1. rewrite L1 in L2. injection L2 as <-.
    apply last_named_In in L1. destruct L1 as (_ & K).
    apply violation_key_general in K. apply general_rounded in K.
    destruct (rounded_mono t1 t2 (lt_le_incl t1 t2 Lt))
      as (ra & rb & _ & Rb & _).
    rewrite Rb in K. apply FloatFacts.le_refl.
    exact (rounded_number u1 rb K).
  - apply last_named_In in L1. destruct L1 as (_ & K1).
    apply last_named_In in L2. destruct L2 as (_ & K2).
    apply (general_classes t1 t2 u1 u2 Lt).
    + apply violation_key_general. exact K1.
    + apply violation_key_general. exact K2.
    + intros G. apply N. unfold violation_key. rewrite G. reflexivity.
Qed.

End Thresholds.

(** ** The entries of two thresholds *)

(** C7, as the code has it. When a call returns, the summary holds an entry for every
    configured threshold, and the entries of two configured thresholds
    [t1 < t2] are in the order [v(t1) >= v(t2)]. An entry is named by the
    [%g] text of its threshold, so thresholds of one text share one entry:
    it is the number of records, whatever their event, whose deviation is
    defined and strictly above the last configured threshold of that text,
    which is the threshold itself when no other has its text. *)
Theorem violations_monotone (red : Reductions) (df : DataFrame)
  (expected_period_ms : float) (dev_thresholds_ms : list float)
  (spike_factor : float) (s : Summary) (w : DataFrame) (ev : list Event)
  (t1 t2 : float) :
  run_compute_metrics red df expected_period_ms dev_thresholds_ms
    spike_factor = Ok (s, w, ev) ->
  In t1 dev_thresholds_ms ->
  In t2 dev_thresholds_ms ->
  (t1 <? t2) = true ->
  exists u1 u2 : float,
    last_named (violation_key t1) dev_thresholds_ms = Some u1 /\
    last_named (violation_key t2) dev_thresholds_ms = Some u2 /\
    Py.get (violation_key t1) s
    = Some (Fmt.str (Z.of_nat (length
              (filter (fun r => u1 <? abs_dev_ms r) w)))) /\
    Py.get (violation_key t2) s
    = Some (Fmt.str (Z.of_nat (length
              (filter (fun r => u2 <? abs_dev_ms r) w)))) /\
    ((forall a, In a dev_thresholds_ms ->
                violation_key a = violation_key t1 -> a = t1) -> u1 = t1) /\
    ((forall a, In a dev_thresholds_ms ->
                violation_key a = violation_key t2 -> a = t2) -> u2 = t2) /\
    (length (filter (fun r => (u2 <? abs_dev_ms r)%float) w)
     <= length (filter (fun r => (u1 <? abs_dev_ms r)%float) w))%nat.
Proof.
  intros H I1 I2 Lt. apply run_inv in H. destruct H as (_ & H).
  destruct (last_named_some t1 dev_thresholds_ms I1) as (u1 & L1).
  destruct (last_named_some t2 dev_thresholds_ms I2) as (u2 & L2).
  exists u1, u2. split; [exact L1|]. split; [exact L2|].
  split.
  { rewrite (get_violation_entry _ _ _ _ _ _ _ t1 u1 H L1).
    unfold Pandas.count, F64.gtb. reflexivity. }
  split.
  { rewrite (get_violation_entry _ _ _ _ _ _ _ t2 u2 H L2).
    unfold Pandas.count, F64.gtb. reflexivity. }
  split; [exact (last_named_only t1 u1 _ L1)|].
  split; [exact (last_named_only t2 u2 _ L2)|].
  apply above_le. apply FloatFacts.ltb_lt in Lt.
  exact (Thresholds.last_named_ordered dev_thresholds_ms t1 t2 u1 u2 I1 Lt L1 L2).
Qed.

Lemma violations_monotone_witness :
  let df := [record 0 1 None; record 3000000 2 None;
             record 10000000 3 None] in
  let ths := [1; 1.00000095367431640625; 5] in
  exists (s : Summary) (w : DataFrame) (ev : list Event),
    run_compute_metrics Sequential.reductions df 1 ths 2 = Ok (s, w, ev) /\
    In 1 ths /\ In 5 ths /\ (1 <? 5) = true /\
    exists u1 u2 : float,
      last_named (violation_key 1) ths = Some u1 /\
      last_named (violation_key 5) ths = Some u2 /\
      Py.get (violation_key 1) s
      = Some (Fmt.str (Z.of_nat (length
                (filter (fun r => u1 <? abs_dev_ms r) w)))) /\
      Py.get (violation_key 5) s
      = Some (Fmt.str (Z.of_nat (length
                (filter (fun r => u2 <? abs_dev_ms r) w)))) /\
      ((forall a, In a ths ->
                  violation_key a = violation_key 1 -> a = 1) -> u1 = 1) /\
      ((forall a, In a ths ->
                  violation_key a = violation_key 5 -> a = 5) -> u2 = 5) /\
      (length (filter (fun r => (u2 <? abs_dev_ms r)%float) w)
       <= length (filter (fun r => (u1 <? abs_dev_ms r)%float) w))%nat.
Proof.
  intros df ths.
  destruct (run_compute_metrics Sequential.reductions df 1 ths 2)
    as [[[s w] ev]|] eqn:R; [|vm_compute in R; discriminate R].
  assert (I1 : In 1 ths) by (left; reflexivity).
  assert (I5 : In 5 ths) by (right; right; left; reflexivity).
  exists s, w, ev. repeat (split; [assumption || reflexivity|]).
  apply (violations_monotone Sequential.reductions df 1 ths 2 s w ev
           1 5 R I1 I5 eq_refl).
Defined.

(** C7, as it is stated, fails where two configured thresholds have one
    [%g] text: of the thresholds [1000] and [1000 + 2 ^ -10], both named
    [violations_abs_dev_gt_1000ms], the entry counts the deviations above
    the second. The deviation [1000.0005] of the second record is above
    [1000], and the entry is [0]. *)
Lemma violations_shared_name_counterexample :
  let df := [record 0 1 None; record 1001000500 2 None] in
  let ths := [1000; 1000.0009765625] in
  exists (s : Summary) (w : DataFrame) (ev : list Event),
    run_compute_metrics Sequential.reductions df 1 ths 2 = Ok (s, w, ev) /\
    In 1000 ths /\
    violation_key 1000 = "violations_abs_dev_gt_1000ms"%string /\
    Py.get (violation_key 1000) s = Some "0"%string /\
    length (filter (fun r => 1000 <? abs_dev_ms r) w) = 1%nat.
Proof.
  intros df ths.
  destruct (run_compute_metrics Sequential.reductions df 1 ths 2)
    as [[[s w] ev]|] eqn:R; [|vm_compute in R; discriminate R].
  exists s, w, ev. split; [reflexivity|].
  split; [left; reflexivity|].
  vm_compute in R. injection R as <- <- <-.
  split; [vm_compute; reflexivity|].
  split; vm_compute; reflexivity.
Qed.
